(** * Crossing-time pipeline of [ingosstrax_hw]: a shallow embedding

    The development follows the Python sources

    - [app/core/models.py]       (records, [kmh_to_ms], [format_seconds]),
    - [app/utils/reasoning.py]   (text extraction, the two resolvers,
                                  [estimate_crossing_time]),
    - [app/utils/self_check.py]  (the range checks),

    and states the properties of the specification about them.

    Conventions of the embedding.

    - A Python [str] is a list of Unicode code points ([list N]).
    - A Python [float] is a primitive binary64 float of the kernel
      ([PrimFloat.float]); derived operations of the interpreter ([//],
      [int()], [float()], [format]) are computed on the exact value
      obtained with [Prim2SF].
    - A Python [int] is a [Z].
    - A call that may raise returns a [result]; code that talks to the
      network threads a state of the outside world ([M]). *)

From Stdlib Require Import ZArith NArith QArith Qround String Ascii List Bool Lia.
From Stdlib Require Import Floats.
From Stdlib Require Uint63.
Import ListNotations.

#[local] Set Warnings "-inexact-float".
#[local] Close Scope Q_scope.
#[local] Open Scope Z_scope.

(** ** Strings *)

Module Str.

Definition char := N.
Definition str := list char.

(** Decoding of the UTF-8 text of a Rocq string literal, so that the
    literals of the sources can be written as they are. *)
Fixpoint utf8_decode (bs : list N) : str :=
  match bs with
  | [] => []
  | b :: rest =>
    if (b <? 128)%N then b :: utf8_decode rest
    else if (b <? 224)%N then
      match rest with
      | b1 :: rest' =>
        (N.land b 31 * 64 + N.land b1 63)%N :: utf8_decode rest'
      | _ => []
      end
    else if (b <? 240)%N then
      match rest with
      | b1 :: b2 :: rest' =>
        (N.land b 15 * 4096 + N.land b1 63 * 64 + N.land b2 63)%N
          :: utf8_decode rest'
      | _ => []
      end
    else
      match rest with
      | b1 :: b2 :: b3 :: rest' =>
        (N.land b 7 * 262144 + N.land b1 63 * 4096
         + N.land b2 63 * 64 + N.land b3 63)%N :: utf8_decode rest'
      | _ => []
      end
  end.

Definition u8 (s : string) : str :=
  utf8_decode (map N_of_ascii (list_ascii_of_string s)).

Fixpoint str_eqb (a b : str) : bool :=
  match a, b with
  | [], [] => true
  | c :: a', d :: b' => (c =? d)%N && str_eqb a' b'
  | _, _ => false
  end.

(** [s.startswith(p)] *)
Fixpoint startswith (p s : str) : bool :=
  match p, s with
  | [], _ => true
  | c :: p', d :: s' => (c =? d)%N && startswith p' s'
  | _ :: _, [] => false
  end.

(** [s.endswith(p)] *)
Definition endswith (p s : str) : bool := startswith (rev p) (rev s).

(** [s.split(sep)[0]]: the text before the first occurrence of [sep],
    the whole of [s] when [sep] does not occur. *)
Fixpoint split_0 (sep s : str) : str :=
  if startswith sep s then []
  else match s with
       | [] => []
       | c :: s' => c :: split_0 sep s'
       end.

(** [s.replace(a, b)] for one-character [a] and [b]. *)
Definition replace (a b : char) (s : str) : str :=
  map (fun c => if (c =? a)%N then b else c) s.

(** Decimal digits of a natural number, most significant first. *)
Fixpoint digits_fuel (fuel : nat) (n : N) (acc : str) : str :=
  match fuel with
  | O => acc
  | S fuel' =>
    let acc' := (48 + n mod 10)%N :: acc in
    if (n <? 10)%N then acc' else digits_fuel fuel' (n / 10)%N acc'
  end.

Definition str_of_N (n : N) : str := digits_fuel (S (N.to_nat (N.log2 n))) n [].

(** [str(z)] of an [int]. *)
Definition str_of_Z (z : Z) : str :=
  match z with
  | Zneg p => 45%N :: str_of_N (Npos p)
  | _ => str_of_N (Z.to_N z)
  end.

End Str.
Import Str.

(** ** Exceptions and results *)

(** The exception classes the code raises or catches by name; every
    exception modelled derives from [Exception]. An exception raised by a
    collaborator (the retrieval client, the language model) is tagged with
    the nearest of these classes it derives from. *)
Inductive exc_class :=
| ValueError
| LookupError
| RuntimeError
| OverflowError
| ZeroDivisionError
| OtherException.

(** An exception: its class and [str(exc)]. *)
Record exception := mkExc { exc_type : exc_class; exc_str : str }.

Inductive result (A : Type) :=
| Ok (a : A)
| Raise (e : exception).
Arguments Ok {A} a.
Arguments Raise {A} e.

Definition rbind {A B} (r : result A) (k : A -> result B) : result B :=
  match r with
  | Ok a => k a
  | Raise e => Raise e
  end.

Declare Scope result_scope.
Delimit Scope result_scope with result.
Notation "x <- r ;; k" := (rbind r (fun x => k))
  (at level 61, r at next level, right associativity) : result_scope.

Definition is_ValueError (e : exception) : bool :=
  match exc_type e with ValueError => true | _ => false end.

(** ** Floats of the interpreter *)

Module PyFloat.

(** The exact value of a finite float with mantissa [m] and exponent [e]. *)
Definition SF2Q (m : positive) (e : Z) : Q :=
  match e with
  | Zneg p => Zpos m # (2 ^ p)
  | _ => inject_Z (Zpos m * 2 ^ e)
  end.

(** The exact value of a float; 0 for an infinity or a NaN. *)
Definition F2Q (x : float) : Q :=
  match Prim2SF x with
  | S754_finite s m e => if s then (- SF2Q m e)%Q else SF2Q m e
  | _ => 0%Q
  end.

(** The nearest integer, ties to the even one. *)
Definition round_half_even (q : Q) : Z :=
  let f := Qfloor q in
  match (q - inject_Z f ?= 1 # 2)%Q with
  | Lt => f
  | Gt => f + 1
  | Eq => if Z.even f then f else f + 1
  end.

(** A non-negative rational in fixed notation with one digit after the
    point, correctly rounded. *)
Definition fixed1 (q : Q) : str :=
  let n := round_half_even (q * 10)%Q in
  str_of_Z (n / 10) ++ [46%N] ++ str_of_Z (n mod 10).

(** [format(x, ".1f")], the [{x:.1f}] of an f-string. *)
Definition format_1f (x : float) : str :=
  match Prim2SF x with
  | S754_nan => u8 "nan"
  | S754_infinity s => if s then u8 "-inf" else u8 "inf"
  | S754_zero s => if s then u8 "-0.0" else u8 "0.0"
  | S754_finite s m e =>
    (if s then [45%N] else []) ++ fixed1 (SF2Q m e)
  end.

(** [int(x)] of a float: truncation toward zero. *)
Definition int_of_float (x : float) : result Z :=
  match Prim2SF x with
  | S754_nan =>
    Raise (mkExc ValueError (u8 "cannot convert float NaN to integer"))
  | S754_infinity _ =>
    Raise (mkExc OverflowError (u8 "cannot convert float infinity to integer"))
  | S754_zero _ => Ok 0
  | S754_finite s m e => Ok (cond_Zopp s (Z.shiftl (Zpos m) e))
  end.

(** The float nearest to an int (ties to even), as in a mixed
    [float - int]; out of range it is an OverflowError. *)
Definition float_of_int (z : Z) : result float :=
  match binary_normalize prec emax z 0 false with
  | S754_infinity _ =>
    Raise (mkExc OverflowError (u8 "int too large to convert to float"))
  | f => Ok (SF2Prim f)
  end.

(** C's [floor]. *)
Definition floor (x : float) : float :=
  match Prim2SF x with
  | S754_finite s m e =>
    if 0 <=? e then x
    else SF2Prim (binary_normalize prec emax
                    (Z.shiftr (cond_Zopp s (Zpos m)) (- e)) 0 s)
  | _ => x
  end.

(** C's [fmod]: the exact remainder, with the sign of [x]. *)
Definition fmod (x y : float) : float :=
  match Prim2SF x, Prim2SF y with
  | S754_nan, _ | _, S754_nan => nan
  | S754_infinity _, _ => nan
  | _, S754_zero _ => nan
  | _, S754_infinity _ => x
  | S754_zero _, _ => x
  | S754_finite sx mx ex, S754_finite _ my ey =>
    let ez := Z.min ex ey in
    let r := Z.rem (Zpos mx * 2 ^ (ex - ez)) (Zpos my * 2 ^ (ey - ez)) in
    SF2Prim (binary_normalize prec emax (cond_Zopp sx r) ez sx)
  end.

(** [copysign(0.0, x)] *)
Definition copysign_zero (x : float) : float :=
  if get_sign x then neg_zero else zero.

(** [x / y] *)
Definition truediv (x y : float) : result float :=
  if (y =? 0)%float
  then Raise (mkExc ZeroDivisionError (u8 "float division by zero"))
  else Ok (x / y)%float.

(** [x // y], as the interpreter computes it (floatobject.c,
    [float_floor_div] over [_float_div_mod]). *)
Definition floordiv (vx wx : float) : result float :=
  if (wx =? 0)%float
  then Raise (mkExc ZeroDivisionError (u8 "float floor division by zero"))
  else
    let md := fmod vx wx in
    let div := ((vx - md) / wx)%float in
    let div :=
      if negb (md =? 0)%float
      then if xorb (wx <? 0)%float (md <? 0)%float
           then (div - 1)%float else div
      else div in
    if negb (div =? 0)%float then
      let floordiv := floor div in
      Ok (if (0.5 <? div - floordiv)%float
          then (floordiv + 1)%float else floordiv)
    else Ok (copysign_zero (vx / wx)%float).

(** [x - z] of a float and an int. *)
Definition sub_int (x : float) (z : Z) : result float :=
  (y <- float_of_int z ;; Ok (x - y)%float)%result.

(** The float nearest to the quotient [n / d] of two natural numbers,
    [d] positive: what [float()] returns for a decimal literal. *)
Definition SF_of_ratio (n d : Z) : spec_float :=
  if n =? 0 then S754_zero false
  else
    let '(q, e, l) := SFdiv_core_binary prec emax n 0 d 0 in
    binary_round_aux prec emax false q e l.

(** [max(values)] of a non-empty list: the first of the greatest. *)
Definition max_float (first : float) (others : list float) : float :=
  fold_left (fun best item => if (best <? item)%float then item else best)
            others first.

End PyFloat.
Import PyFloat.

(** ** The interpreter's Unicode tables

    [re] and [str] consult the Unicode database of the interpreter. It is
    not part of the repository; the embedding takes it as a parameter and
    every general statement below holds for any instance. *)
Class UnicodeData := {
  (** [Py_UNICODE_ISDECIMAL]: the class [\d] *)
  isdecimal : char -> bool;
  (** [Py_UNICODE_TODECIMAL]: the value of a decimal digit *)
  todecimal : char -> N;
  (** [Py_UNICODE_ISSPACE]: the class [\s] *)
  isspace : char -> bool;
  (** [Py_UNICODE_TOLOWER] *)
  tolower : char -> char;
  (** [_sre.unicode_iscased] *)
  iscased : char -> bool;
  (** the extra case variants of a lower-case letter known to [re] *)
  ignorecase_fixes : char -> list char;
  (** [str.capitalize] *)
  capitalize : str -> str;
  (** the comma and the point are no decimal digits and have no case *)
  comma_not_decimal : isdecimal 44%N = false;
  point_not_decimal : isdecimal 46%N = false;
  uncased_punctuation : forall c, (c = 44 \/ c = 46)%N ->
    iscased c = false /\ tolower c = c /\ ignorecase_fixes c = []
}.

(** The tables restricted to Basic Latin and the Cyrillic letters, enough
    to run the texts of the tests. *)
Module BasicUnicode.

Definition is_ascii_upper (c : char) : bool := ((65 <=? c) && (c <=? 90))%N.
Definition is_ascii_lower (c : char) : bool := ((97 <=? c) && (c <=? 122))%N.
Definition is_cyr_upper (c : char) : bool := ((1040 <=? c) && (c <=? 1071))%N.
Definition is_cyr_lower (c : char) : bool := ((1072 <=? c) && (c <=? 1103))%N.
Definition is_cyr_upper_ext (c : char) : bool := ((1024 <=? c) && (c <=? 1039))%N.
Definition is_cyr_lower_ext (c : char) : bool := ((1104 <=? c) && (c <=? 1119))%N.

Definition lower (c : char) : char :=
  if is_ascii_upper c || is_cyr_upper c then (c + 32)%N
  else if is_cyr_upper_ext c then (c + 80)%N
  else c.

Definition upper (c : char) : char :=
  if is_ascii_lower c || is_cyr_lower c then (c - 32)%N
  else if is_cyr_lower_ext c then (c - 80)%N
  else c.

Definition space (c : char) : bool :=
  existsb (N.eqb c)
    [9; 10; 11; 12; 13; 28; 29; 30; 31; 32; 133; 160; 5760; 8232; 8233;
     8239; 8287; 12288]%N
  || ((8192 <=? c) && (c <=? 8202))%N.

Definition fixes (c : char) : list char :=
  if (c =? 1074)%N then [7296%N]            (* в *)
  else if (c =? 1076)%N then [7297%N]       (* д *)
  else if (c =? 1086)%N then [7298%N]       (* о *)
  else if (c =? 1089)%N then [7299%N]       (* с *)
  else if (c =? 1090)%N then [7300; 7301]%N (* т *)
  else if (c =? 1098)%N then [7302%N]       (* ъ *)
  else [].

Definition cap (s : str) : str :=
  match s with
  | [] => []
  | c :: s' => upper c :: map lower s'
  end.

Definition cased (c : char) : bool :=
  negb (c =? lower c)%N || negb (c =? upper c)%N.

Lemma punctuation : forall c, (c = 44 \/ c = 46)%N ->
  cased c = false /\ lower c = c /\ fixes c = [].
Proof. intros c [-> | ->]; repeat split. Qed.

#[export] Instance tables : UnicodeData := {|
  isdecimal c := ((48 <=? c) && (c <=? 57))%N;
  todecimal c := (c - 48)%N;
  isspace := space;
  tolower := lower;
  iscased := cased;
  ignorecase_fixes := fixes;
  capitalize := cap;
  comma_not_decimal := eq_refl;
  point_not_decimal := eq_refl;
  uncased_punctuation := punctuation
|}.

End BasicUnicode.

(** ** Regular expressions: the fragment of [re] the patterns use *)

Module Re.
Section WithUnicode.
Context {U : UnicodeData}.

(** One-character items. *)
Inductive cset :=
| Literal (c : char)      (* a character of the pattern *)
| OneOf (cs : list char)  (* [...] *)
| Digit                   (* \d *)
| Space.                  (* \s *)

Inductive regex :=
| Eps
| Char (c : cset)
| Star (c : cset)         (* c*, greedy *)
| Plus (c : cset)         (* c+, greedy *)
| Seq (r1 r2 : regex)
| Alt (r1 r2 : regex)     (* r1|r2 *)
| Opt (r : regex)         (* (?:r)?, greedy *)
| Group (r : regex).      (* (r), the capturing group *)

(** The characters a literal stands for under IGNORECASE. *)
Definition variants (c : char) : list char :=
  let lo := tolower c in lo :: ignorecase_fixes lo.

Definition mem (c : char) (cs : list char) : bool := existsb (N.eqb c) cs.

(** [ic] is the IGNORECASE flag. A cased literal is compared after
    lower-casing the character of the text; an uncased one as it is. *)
Definition cset_match (ic : bool) (cs : cset) (ch : char) : bool :=
  match cs with
  | Literal c =>
    if ic && iscased c then mem (tolower ch) (variants c) else (ch =? c)%N
  | OneOf cs =>
    if ic then
      if existsb iscased cs
      then mem (tolower ch) (flat_map variants cs)
      else mem ch (flat_map variants cs)
    else mem ch cs
  | Digit => isdecimal ch
  | Space => isspace ch
  end.

(** The texts left after [c*], the longest run first. *)
Fixpoint star_cs (ic : bool) (c : cset) (s : str) : list str :=
  match s with
  | [] => [[]]
  | ch :: s' => if cset_match ic c ch then star_cs ic c s' ++ [s] else [s]
  end.

Definition plus_cs (ic : bool) (c : cset) (s : str) : list str :=
  match s with
  | [] => []
  | ch :: s' => if cset_match ic c ch then star_cs ic c s' else []
  end.

(** The backtracking search: every way [r] matches a prefix of [s], as
    the pair of the captured group and the text left, in the order the
    engine tries them. *)
Fixpoint run (ic : bool) (r : regex) (cap : option str) (s : str)
  : list (option str * str) :=
  match r with
  | Eps => [(cap, s)]
  | Char c =>
    match s with
    | ch :: s' => if cset_match ic c ch then [(cap, s')] else []
    | [] => []
    end
  | Star c => map (pair cap) (star_cs ic c s)
  | Plus c => map (pair cap) (plus_cs ic c s)
  | Seq r1 r2 => flat_map (fun st => run ic r2 (fst st) (snd st)) (run ic r1 cap s)
  | Alt r1 r2 => run ic r1 cap s ++ run ic r2 cap s
  | Opt r' => run ic r' cap s ++ [(cap, s)]
  | Group r' =>
    map (fun st => (Some (firstn (length s - length (snd st)) s), snd st))
        (run ic r' cap s)
  end.

(** The match at the start of [s]: group 1 (empty when it took no part)
    and the text left. *)
Definition match_at (ic : bool) (r : regex) (s : str) : option (str * str) :=
  match run ic r None s with
  | (cap, rest) :: _ => Some (match cap with Some g => g | None => [] end, rest)
  | [] => None
  end.

(** The scan of [findall]: [skip] characters belong to the match just
    found; then a match is looked for at each position in turn. *)
Fixpoint findall_from (ic : bool) (r : regex) (skip : nat) (s : str) : list str :=
  match s with
  | [] =>
    match skip with
    | O => match match_at ic r [] with Some (g, _) => [g] | None => [] end
    | S _ => []
    end
  | _ :: s' =>
    match skip with
    | S k => findall_from ic r k s'
    | O =>
      match match_at ic r s with
      | Some (g, rest) =>
        g :: findall_from ic r (length s - length rest - 1) s'
      | None => findall_from ic r 0 s'
      end
    end
  end.

(** [re.findall(pattern, text, flags)] for a pattern with one group. *)
Definition findall (ic : bool) (r : regex) (text : str) : list str :=
  findall_from ic r 0 text.

(** A literal string of the pattern. *)
Fixpoint lit (s : str) : regex :=
  match s with
  | [] => Eps
  | [c] => Char (Literal c)
  | c :: s' => Seq (Char (Literal c)) (lit s')
  end.

(** The language of a pattern: the texts it matches as a whole. *)
Inductive Matches (ic : bool) : regex -> str -> Prop :=
| MEps : Matches ic Eps []
| MChar c ch : cset_match ic c ch = true -> Matches ic (Char c) [ch]
| MStar c s :
    Forall (fun ch => cset_match ic c ch = true) s -> Matches ic (Star c) s
| MPlus c s :
    s <> [] -> Forall (fun ch => cset_match ic c ch = true) s ->
    Matches ic (Plus c) s
| MSeq r1 r2 s1 s2 :
    Matches ic r1 s1 -> Matches ic r2 s2 -> Matches ic (Seq r1 r2) (s1 ++ s2)
| MAltL r1 r2 s : Matches ic r1 s -> Matches ic (Alt r1 r2) s
| MAltR r1 r2 s : Matches ic r2 s -> Matches ic (Alt r1 r2) s
| MOptSome r s : Matches ic r s -> Matches ic (Opt r) s
| MOptNone r : Matches ic (Opt r) []
| MGroup r s : Matches ic r s -> Matches ic (Group r) s.

(** Patterns without a capturing group. *)
Fixpoint nogroup (r : regex) : bool :=
  match r with
  | Eps | Char _ | Star _ | Plus _ => true
  | Seq r1 r2 | Alt r1 r2 => nogroup r1 && nogroup r2
  | Opt r' => nogroup r'
  | Group _ => false
  end.

End WithUnicode.
End Re.

(** ** [float()] of a decimal literal *)

Section FloatOfStr.
Context {U : UnicodeData}.

(** The number written by a run of decimal digits; [None] when a
    character is not a digit. *)
Fixpoint digits_value (s : str) (acc : Z) : option Z :=
  match s with
  | [] => Some acc
  | c :: s' =>
    if isdecimal c then digits_value s' (10 * acc + Z.of_N (todecimal c))
    else None
  end.

(** The text before the first point, and the text after it if any. *)
Fixpoint split_point (s : str) : str * option str :=
  match s with
  | [] => ([], None)
  | c :: s' =>
    if (c =? 46)%N then ([], Some s')
    else let (a, b) := split_point s' in (c :: a, b)
  end.

(** [float(s)] for the unsigned literals [digits], [digits.digits],
    [digits.] and [.digits], the only ones the extraction passes to it:
    the nearest float. Any other text is reported as the ValueError of a
    text that is no number. *)
Definition py_float (s : str) : result float :=
  let (ip, fp) := split_point s in
  let fp := match fp with Some f => f | None => [] end in
  match digits_value ip 0, digits_value fp 0 with
  | Some a, Some b =>
    if (length ip + length fp =? 0)%nat
    then Raise (mkExc ValueError (u8 "could not convert string to float"))
    else
      let d := 10 ^ Z.of_nat (length fp) in
      Ok (SF2Prim (SF_of_ratio (a * d + b) d))
  | _, _ => Raise (mkExc ValueError (u8 "could not convert string to float"))
  end.

End FloatOfStr.

(** ** [app/core/models.py] *)

(** The values stored in the [data] of a step. *)
Inductive pyval :=
| VStr (s : str)
| VFloat (f : float)
| VBool (b : bool)
| VNone.

(** A [dict] with string keys, in insertion order. *)
Definition dict := list (str * pyval).

(** [d.get(key)] *)
Fixpoint dict_get (d : dict) (key : str) : option pyval :=
  match d with
  | [] => None
  | (k, v) :: d' => if str_eqb k key then Some v else dict_get d' key
  end.

Module WikipediaSearchResult.
Record t := mk { page_id : Z; title : str; snippet : option str }.
End WikipediaSearchResult.

Module WikipediaPageSummary.
Record t := mk {
  page_id : Z; title : str; extract : str; description : option str }.
End WikipediaPageSummary.

Module BridgeInfo.
Record t := mk { name : str; length_meters : float; source : str }.
End BridgeInfo.

(** [kmh_to_ms]; the divisor is the literal [3.6]. *)
Definition kmh_to_ms (speed_km_h : float) : float := (speed_km_h / 3.6)%float.

Module AnimalSpeed.
Record t := mk {
  name : str; speed_m_s : float; source : str; speed_km_h : option float }.

Definition from_kmh (name : str) (speed_km_h : float) (source : str) : t :=
  {| name := name;
     speed_m_s := kmh_to_ms speed_km_h;
     source := source;
     speed_km_h := Some speed_km_h |}.
End AnimalSpeed.

Module ReasoningStep.
Record t := mk { description : str; data : option dict }.
End ReasoningStep.

Module ReasoningResult.
Record t := mk {
  bridge : BridgeInfo.t;
  animal : AnimalSpeed.t;
  time_seconds : float;
  time_human_readable : str;
  steps : list ReasoningStep.t }.
End ReasoningResult.

(** [format_seconds] *)
Definition format_seconds (seconds : float) : result str :=
  if (seconds <? 60)%float then Ok (format_1f seconds ++ u8 " секунд")
  else
    (q <- floordiv seconds 60 ;;
     minutes <- int_of_float q ;;
     remainder <- sub_int seconds (minutes * 60) ;;
     if (remainder <? 0.1)%float then Ok (str_of_Z minutes ++ u8 " минут")
     else Ok (str_of_Z minutes ++ u8 " минут " ++ format_1f remainder
              ++ u8 " секунд"))%result.

(** The rule of the specification for the same rendering, read over
    the exact value of [s]: below 60 the value itself to one decimal;
    otherwise [minutes = floor(s / 60)] and [remainder = s - minutes*60]
    as numbers, the seconds being shown from a remainder of 0.1. *)
Definition format_seconds_spec (s : float) : str :=
  let v := F2Q s in
  match (v ?= 60)%Q with
  | Lt => format_1f s ++ u8 " секунд"
  | _ =>
    let minutes := Qfloor (v / 60)%Q in
    let remainder := (v - inject_Z minutes * 60)%Q in
    match (remainder ?= 1 # 10)%Q with
    | Lt => str_of_Z minutes ++ u8 " минут"
    | _ => str_of_Z minutes ++ u8 " минут " ++ fixed1 remainder ++ u8 " секунд"
    end
  end.

(** ** [app/utils/reasoning.py]: text extraction *)

Section Extraction.
Context {U : UnicodeData}.
Import Re.

(** [_build_page_url] *)
Definition _build_page_url (page_id : Z) (api_base : str) : str :=
  let prefix := split_0 (u8 "/w/") api_base in
  prefix ++ u8 "/?curid=" ++ str_of_Z page_id.

(** [\d+(?:[.,]\d+)?] *)
Definition number : regex :=
  Seq (Plus Digit) (Opt (Seq (Char (OneOf [46; 44]%N)) (Plus Digit))).

(** [(\d+(?:[.,]\d+)?)] *)
Definition number_group : regex := Group number.

(** [(?:м|метр)] *)
Definition length_units : regex := Alt (lit (u8 "м")) (lit (u8 "метр")).

(** [(\d+(?:[.,]\d+)?)\s*(?:м|метр)] *)
Definition length_pattern : regex :=
  Seq number_group (Seq (Star Space) length_units).

(** [(?:км\s*/\s*ч|км\s*в\s*час|km/h|kmh)] *)
Definition speed_units : regex :=
  Alt (Seq (lit (u8 "км"))
           (Seq (Star Space)
                (Seq (lit (u8 "/")) (Seq (Star Space) (lit (u8 "ч"))))))
  (Alt (Seq (lit (u8 "км"))
            (Seq (Star Space)
                 (Seq (lit (u8 "в")) (Seq (Star Space) (lit (u8 "час"))))))
  (Alt (lit (u8 "km/h")) (lit (u8 "kmh")))).

(** [(\d+(?:[.,]\d+)?)\s*(?:км\s*/\s*ч|км\s*в\s*час|km/h|kmh)] *)
Definition speed_pattern : regex :=
  Seq number_group (Seq (Star Space) speed_units).

(** [[float(item.replace(",", ".")) for item in matches]] *)
Fixpoint floats_of (matches : list str) : result (list float) :=
  match matches with
  | [] => Ok []
  | item :: rest =>
    (v <- py_float (replace 44%N 46%N item) ;;
     vs <- floats_of rest ;;
     Ok (v :: vs))%result
  end.

(** [_parse_length_meters] *)
Definition _parse_length_meters (text : str) : result float :=
  let matches := findall true length_pattern text in
  match matches with
  | [] => Raise (mkExc ValueError (u8 "Не удалось извлечь длину моста из текста"))
  | _ =>
    (values <- floats_of matches ;;
     match values with
     | v :: vs => Ok (max_float v vs)
     | [] => Raise (mkExc ValueError (u8 "max() arg is an empty sequence"))
     end)%result
  end.

(** [_parse_speed_kmh] *)
Definition _parse_speed_kmh (text : str) : result float :=
  let matches := findall true speed_pattern text in
  match matches with
  | [] =>
    Raise (mkExc ValueError (u8 "Не удалось извлечь скорость гепарда из текста"))
  | _ =>
    (values <- floats_of matches ;;
     match values with
     | v :: vs => Ok (max_float v vs)
     | [] => Raise (mkExc ValueError (u8 "max() arg is an empty sequence"))
     end)%result
  end.

End Extraction.

(** ** Code that talks to the outside world *)

Section World.
Context {World : Type}.

(** A computation reads and changes the state of the outside world and
    returns or raises. *)
Definition M (A : Type) : Type := World -> result A * World.

Definition ret {A} (a : A) : M A := fun w => (Ok a, w).
Definition raise {A} (e : exception) : M A := fun w => (Raise e, w).
Definition lift {A} (r : result A) : M A := fun w => (r, w).

Definition bind {A B} (m : M A) (k : A -> M B) : M B :=
  fun w =>
    match m w with
    | (Ok a, w') => k a w'
    | (Raise e, w') => (Raise e, w')
    end.

(** [try: body  except <class> as exc: handler]; [catches] tells the
    exceptions of the class. *)
Definition try_except {A} (catches : exception -> bool)
    (body : M A) (handler : exception -> M A) : M A :=
  fun w =>
    match body w with
    | (Ok a, w') => (Ok a, w')
    | (Raise e, w') => if catches e then handler e w' else (Raise e, w')
    end.

(** [except Exception] *)
Definition any_Exception (e : exception) : bool := true.

End World.

Declare Scope world_scope.
Delimit Scope world_scope with world.
Notation "x <- m ;; k" := (bind m (fun x => k))
  (at level 61, m at next level, right associativity) : world_scope.

(** ** [app/utils/wikipedia_client.py]: the retrieval client as the
    resolvers see it *)

Module WikipediaClient.
Section Client.
Context {World : Type}.

(** A client object: its [base_url] and its two methods. The methods
    query the network, so their outcome is any function of the arguments
    and of the state of the world. *)
Record t := mk {
  base_url : str;
  search_page : str -> M (World := World) (option WikipediaSearchResult.t);
  get_page_summary : Z -> bool -> M (World := World) WikipediaPageSummary.t }.

End Client.
Arguments t : clear implicits.
End WikipediaClient.

(** ** [app/utils/reasoning.py]: the resolvers and the calculator *)

Section Resolvers.
Context {U : UnicodeData} {World : Type}.
Local Open Scope world_scope.

(** The class [WikipediaClient] as the module names it: calling it with a
    [base_url] builds a client (and reads the configuration, which may
    raise). *)
Variable WikipediaClient_new : str -> M (World := World) (WikipediaClient.t World).

Definition bridge_query : str := u8 "Большой Каменный мост".

(** [get_bridge_info_big_stone_bridge] *)
Definition get_bridge_info_big_stone_bridge (client : WikipediaClient.t World)
  : M (World := World) BridgeInfo.t :=
  try_except any_Exception
    (search <- WikipediaClient.search_page client bridge_query ;;
     match search with
     | None =>
       raise (mkExc LookupError (u8 "Статья 'Большой Каменный мост' не найдена"))
     | Some search =>
       let page_id := WikipediaSearchResult.page_id search in
       summary <- WikipediaClient.get_page_summary client page_id true ;;
       length_meters <-
         try_except is_ValueError
           (lift (_parse_length_meters (WikipediaPageSummary.extract summary)))
           (fun _ =>
              summary <- WikipediaClient.get_page_summary client page_id false ;;
              lift (_parse_length_meters (WikipediaPageSummary.extract summary))) ;;
       ret {| BridgeInfo.name := WikipediaSearchResult.title search;
              BridgeInfo.length_meters := length_meters;
              BridgeInfo.source :=
                _build_page_url page_id (WikipediaClient.base_url client) |}
     end)
    (fun exc =>
       ret {| BridgeInfo.name := u8 "Большой Каменный мост (fallback)";
              BridgeInfo.length_meters := 487.0;
              BridgeInfo.source := u8 "fallback:" ++ exc_str exc |}).

(** [a or b] on the results of two searches: [b] is evaluated only when
    [a] is [None]. *)
Definition or_else {A} (a : M (World := World) (option A))
    (b : M (World := World) (option A)) : M (option A) :=
  x <- a ;;
  match x with
  | Some _ => ret x
  | None => b
  end.

Definition english_api : str := u8 "https://en.wikipedia.org/w/api.php".

(** [get_animal_speed] *)
Definition get_animal_speed (client : WikipediaClient.t World) (animal_name : str)
  : M (World := World) AnimalSpeed.t :=
  try_except any_Exception
    (search <- or_else (WikipediaClient.search_page client animal_name)
                       (WikipediaClient.search_page client (capitalize animal_name)) ;;
     let effective_client := client in
     found <-
       match search with
       | None =>
         if negb (startswith (u8 "https://en.wikipedia.org")
                             (WikipediaClient.base_url client))
         then
           fallback <- WikipediaClient_new english_api ;;
           search <- WikipediaClient.search_page fallback (capitalize animal_name) ;;
           match search with
           | Some _ => ret (search, fallback)
           | None => ret (search, effective_client)
           end
         else ret (search, effective_client)
       | Some _ => ret (search, effective_client)
       end ;;
     let (search, effective_client) := found in
     match search with
     | None =>
       raise (mkExc LookupError
                (u8 "Статья про '" ++ animal_name ++ u8 "' не найдена"))
     | Some search =>
       let page_id := WikipediaSearchResult.page_id search in
       summary <- WikipediaClient.get_page_summary effective_client page_id true ;;
       speed_km_h <-
         try_except is_ValueError
           (lift (_parse_speed_kmh (WikipediaPageSummary.extract summary)))
           (fun _ =>
              summary <-
                WikipediaClient.get_page_summary effective_client page_id false ;;
              lift (_parse_speed_kmh (WikipediaPageSummary.extract summary))) ;;
       ret (AnimalSpeed.from_kmh
              (WikipediaSearchResult.title search)
              speed_km_h
              (_build_page_url page_id (WikipediaClient.base_url effective_client)))
     end)
    (fun exc =>
       let speed_km_h := 90.0%float in
       ret (AnimalSpeed.from_kmh
              (animal_name ++ u8 " (fallback)")
              speed_km_h
              (u8 "fallback:" ++ exc_str exc))).

End Resolvers.

(** [estimate_crossing_time] *)
Definition estimate_crossing_time (bridge : BridgeInfo.t) (animal : AnimalSpeed.t)
  : result ReasoningResult.t :=
  if (AnimalSpeed.speed_m_s animal <=? 0)%float
  then Raise (mkExc ValueError (u8 "Скорость животного должна быть положительной"))
  else
    (time_seconds <-
       truediv (BridgeInfo.length_meters bridge) (AnimalSpeed.speed_m_s animal) ;;
     let steps :=
       [ {| ReasoningStep.description := u8 "Получена длина моста";
            ReasoningStep.data :=
              Some [ (u8 "name", VStr (BridgeInfo.name bridge));
                     (u8 "length_meters",
                      VFloat (BridgeInfo.length_meters bridge)) ] |};
         {| ReasoningStep.description := u8 "Получена скорость животного";
            ReasoningStep.data :=
              Some [ (u8 "name", VStr (AnimalSpeed.name animal));
                     (u8 "speed_m_s", VFloat (AnimalSpeed.speed_m_s animal));
                     (u8 "speed_km_h",
                      match AnimalSpeed.speed_km_h animal with
                      | Some v => VFloat v
                      | None => VNone
                      end) ] |};
         {| ReasoningStep.description := u8 "Рассчитано время пересечения";
            ReasoningStep.data :=
              Some [ (u8 "time_seconds", VFloat time_seconds) ] |} ] in
     time_human_readable <- format_seconds time_seconds ;;
     Ok {| ReasoningResult.bridge := bridge;
           ReasoningResult.animal := animal;
           ReasoningResult.time_seconds := time_seconds;
           ReasoningResult.time_human_readable := time_human_readable;
           ReasoningResult.steps := steps |})%result.

(** ** [app/utils/self_check.py] *)

Definition TIME_RANGE : float * float := (0.5, 600.0)%float.
Definition BRIDGE_RANGE : float * float := (20.0, 1000.0)%float.
Definition SPEED_RANGE : float * float := (5.0, 100.0)%float.

(** [_check_range] *)
Definition _check_range (value min_v max_v : float) (description units : str)
  : ReasoningStep.t :=
  let ok := (min_v <=? value)%float && (value <=? max_v)%float in
  let status := if ok then u8 "ok" else u8 "fail" in
  {| ReasoningStep.description := description;
     ReasoningStep.data :=
       Some [ (u8 "value", VFloat value);
              (u8 "min", VFloat min_v);
              (u8 "max", VFloat max_v);
              (u8 "units", VStr units);
              (u8 "status", VStr status) ] |}.

(** [step.data and step.data.get("status") == "ok"] *)
Definition status_is_ok (step : ReasoningStep.t) : bool :=
  match ReasoningStep.data step with
  | None => false
  | Some [] => false
  | Some d =>
    match dict_get d (u8 "status") with
    | Some (VStr s) => str_eqb s (u8 "ok")
    | _ => false
    end
  end.

Module LLMClient.
Section Client.
Context {World : Type}.

(** The model object: [invoke(prompt)], with [str()] of its answer. *)
Record model := mk_model { invoke : str -> M (World := World) str }.

(** The protocol [LLMClient]. *)
Record t := mk { get_model : M (World := World) model }.

End Client.
Arguments model : clear implicits.
Arguments t : clear implicits.
End LLMClient.

Section SelfCheck.
Context {World : Type}.
Local Open Scope world_scope.

(** The text of [result.model_dump()] in the prompt (pydantic and
    [repr], outside the repository). *)
Variable model_dump : ReasoningResult.t -> str.

(** [_llm_self_check] *)
Definition _llm_self_check (result : ReasoningResult.t)
    (llm_client : option (LLMClient.t World))
  : M (World := World) (option ReasoningStep.t) :=
  match llm_client with
  | None => ret None
  | Some llm_client =>
    try_except any_Exception
      (llm <- LLMClient.get_model llm_client ;;
       let prompt :=
         u8 "Оцени корректность результата пересечения моста:" ++ [10%N]
         ++ model_dump result ++ [10%N]
         ++ u8 "Ответь кратко, до 2 предложений, укажи 'ok' или 'warning'." in
       opinion <- LLMClient.invoke llm prompt ;;
       ret (Some {| ReasoningStep.description := u8 "LLM self-check (opinion)";
                    ReasoningStep.data := Some [ (u8 "comment", VStr opinion) ] |}))
      (fun exc =>
         ret (Some {| ReasoningStep.description := u8 "LLM self-check failed";
                      ReasoningStep.data :=
                        Some [ (u8 "error", VStr (exc_str exc)) ] |}))
  end.

Definition self_check_note : str :=
  u8 "При ok=False результат сомнителен. TODO: пересчитать с альтернативными источниками при необходимости.".

(** [self_check_result] *)
Definition self_check_result (result : ReasoningResult.t)
    (llm_client : option (LLMClient.t World))
  : M (World := World) (bool * list ReasoningStep.t) :=
  let steps : list ReasoningStep.t := [] in
  let time_step :=
    _check_range (ReasoningResult.time_seconds result)
      (fst TIME_RANGE) (snd TIME_RANGE)
      (u8 "Проверка времени пересечения") (u8 "секунды") in
  let bridge_step :=
    _check_range (BridgeInfo.length_meters (ReasoningResult.bridge result))
      (fst BRIDGE_RANGE) (snd BRIDGE_RANGE)
      (u8 "Проверка длины моста") (u8 "метры") in
  let speed_step :=
    _check_range (AnimalSpeed.speed_m_s (ReasoningResult.animal result))
      (fst SPEED_RANGE) (snd SPEED_RANGE)
      (u8 "Проверка скорости гепарда") (u8 "м/с") in
  let steps := steps ++ [time_step; bridge_step; speed_step] in
  let ok := forallb status_is_ok steps in
  let steps :=
    steps ++ [ {| ReasoningStep.description := u8 "Итог self-check";
                  ReasoningStep.data :=
                    Some [ (u8 "ok", VBool ok);
                           (u8 "note", VStr self_check_note) ] |} ] in
  llm_step <- _llm_self_check result llm_client ;;
  let steps :=
    match llm_step with
    | Some step => steps ++ [step]
    | None => steps
    end in
  ret (ok, steps).

End SelfCheck.

(** ** Vocabulary of the statements *)

(** The float of value [V * 2^E], for [0 < V < 2^53]: the mantissa is
    shifted to 53 bits. *)
Definition nrm (V E : Z) : spec_float :=
  let k := 53 - Zdigits2 V in
  S754_finite false (Z.to_pos (V * 2 ^ k)) (E - k).

(** The same for [0 <= V < 2^53]. *)
Definition fl (V E : Z) : spec_float :=
  if V =? 0 then S754_zero false else nrm V E.

(** Zero, a positive number or plus infinity. *)
Definition SFnonneg (x : spec_float) : Prop :=
  match x with
  | S754_zero _ | S754_infinity false | S754_finite false _ _ => True
  | _ => False
  end.

(** A non-negative float as an integer multiple of the least positive
    float; plus infinity above them all. *)
Definition key (x : spec_float) : Z :=
  match x with
  | S754_finite false m e => Zpos m * 2 ^ (e + 1074)
  | S754_infinity false => 2 ^ 3000
  | _ => 0
  end.

Definition fkey (x : float) : Z := key (Prim2SF x).

Section Tokens.
Context {U : UnicodeData}.
Import Re.

(** A non-empty run of decimal digits. *)
Definition digits (s : str) : Prop :=
  s <> [] /\ Forall (fun c => isdecimal c = true) s.

(** [digits] or [digits.digits], the point being "." or ",". *)
Definition numeric_token (item : str) : Prop :=
  digits item
  \/ exists a sep b, item = a ++ sep :: b /\ digits a
       /\ (sep = 46 \/ sep = 44)%N /\ digits b.

(** White space, possibly none. *)
Definition spaces (ws : str) : Prop := Forall (fun c => isspace c = true) ws.

(** [c] is the letter [a] of the pattern, in either case. *)
Definition like (a c : char) : Prop := cset_match true (Literal a) c = true.

(** The code point of a one-letter literal. *)
Definition letter (s : string) : char := hd 0%N (u8 s).

(** The text holds a number followed, after optional white space, by the
    letter м. *)
Definition has_length (text : str) : Prop :=
  exists before item ws c after,
    text = before ++ item ++ ws ++ c :: after
    /\ numeric_token item /\ spaces ws /\ like (letter "м") c.

(** The unit texts of a speed: "км/ч" and "км в час" with optional white
    space around the slash and around "в"; "km/h" and "kmh" as they are. *)
Definition speed_unit_text (u : str) : Prop :=
  (exists c1 c2 ws1 c3 ws2 c4,
     u = c1 :: c2 :: ws1 ++ c3 :: ws2 ++ [c4]
     /\ like (letter "к") c1 /\ like (letter "м") c2 /\ spaces ws1
     /\ like (letter "/") c3 /\ spaces ws2 /\ like (letter "ч") c4)
  \/ (exists c1 c2 ws1 c3 ws2 c4 c5 c6,
     u = c1 :: c2 :: ws1 ++ c3 :: ws2 ++ [c4; c5; c6]
     /\ like (letter "к") c1 /\ like (letter "м") c2 /\ spaces ws1
     /\ like (letter "в") c3 /\ spaces ws2
     /\ like (letter "ч") c4 /\ like (letter "а") c5 /\ like (letter "с") c6)
  \/ (exists c1 c2 c3 c4,
     u = [c1; c2; c3; c4]
     /\ like (letter "k") c1 /\ like (letter "m") c2
     /\ like (letter "/") c3 /\ like (letter "h") c4)
  \/ (exists c1 c2 c3,
     u = [c1; c2; c3]
     /\ like (letter "k") c1 /\ like (letter "m") c2 /\ like (letter "h") c3).

(** The text holds a number followed, after optional white space, by a
    unit text. *)
Definition has_speed (text : str) : Prop :=
  exists before item ws u after,
    text = before ++ item ++ ws ++ u ++ after
    /\ numeric_token item /\ spaces ws /\ speed_unit_text u.

End Tokens.

(** The facts returned on the error path. *)
Definition fallback_bridge (exc : exception) : BridgeInfo.t :=
  {| BridgeInfo.name := u8 "Большой Каменный мост (fallback)";
     BridgeInfo.length_meters := 487.0;
     BridgeInfo.source := u8 "fallback:" ++ exc_str exc |}.

Definition fallback_animal (animal_name : str) (exc : exception) : AnimalSpeed.t :=
  {| AnimalSpeed.name := animal_name ++ u8 " (fallback)";
     AnimalSpeed.speed_m_s := (90 / 3.6)%float;
     AnimalSpeed.source := u8 "fallback:" ++ exc_str exc;
     AnimalSpeed.speed_km_h := Some 90%float |}.

(** The inclusive range check of the specification. *)
Definition in_range (lo hi value : float) : bool :=
  (lo <=? value)%float && (value <=? hi)%float.

(** The status recorded in a step. *)
Definition status (step : ReasoningStep.t) : option pyval :=
  match ReasoningStep.data step with
  | Some d => dict_get d (u8 "status")
  | None => None
  end.

Definition verdict (ok : bool) : pyval := VStr (if ok then u8 "ok" else u8 "fail").

(** The three steps of the calculator. *)
Definition crossing_steps (bridge : BridgeInfo.t) (animal : AnimalSpeed.t)
    (time_seconds : float) : list ReasoningStep.t :=
  [ {| ReasoningStep.description := u8 "Получена длина моста";
       ReasoningStep.data :=
         Some [ (u8 "name", VStr (BridgeInfo.name bridge));
                (u8 "length_meters", VFloat (BridgeInfo.length_meters bridge)) ] |};
    {| ReasoningStep.description := u8 "Получена скорость животного";
       ReasoningStep.data :=
         Some [ (u8 "name", VStr (AnimalSpeed.name animal));
                (u8 "speed_m_s", VFloat (AnimalSpeed.speed_m_s animal));
                (u8 "speed_km_h",
                 match AnimalSpeed.speed_km_h animal with
                 | Some v => VFloat v
                 | None => VNone
                 end) ] |};
    {| ReasoningStep.description := u8 "Рассчитано время пересечения";
       ReasoningStep.data := Some [ (u8 "time_seconds", VFloat time_seconds) ] |} ].

(** The summary step of the self-check. *)
Definition summary_step (ok : bool) : ReasoningStep.t :=
  {| ReasoningStep.description := u8 "Итог self-check";
     ReasoningStep.data :=
       Some [ (u8 "ok", VBool ok); (u8 "note", VStr self_check_note) ] |}.

(** ** Stub collaborators, after [tests/test_reasoning.py]

    The outside world of a stub has no state ([unit]). *)

Module Stub.

Definition boom : exception := mkExc RuntimeError (u8 "boom").

Definition no_summary : exception :=
  mkExc RuntimeError (u8 "Failed to fetch page summary").

(** [FailingClient]: every search raises. *)
Definition FailingClient : WikipediaClient.t unit :=
  {| WikipediaClient.base_url := u8 "https://example.org/w/api.php";
     WikipediaClient.search_page := fun _ => raise boom;
     WikipediaClient.get_page_summary := fun _ _ => raise no_summary |}.

(** [fake_search]: nothing on a Russian client, a page elsewhere. *)
Definition fake_search (base_url title : str)
  : M (World := unit) (option WikipediaSearchResult.t) :=
  if startswith (u8 "https://ru") base_url then ret None
  else ret (Some {| WikipediaSearchResult.page_id := 100;
                    WikipediaSearchResult.title := title ++ u8 " (EN)";
                    WikipediaSearchResult.snippet := None |}).

(** [fake_summary] *)
Definition fake_summary (extract : str) (page_id : Z) (intro_only : bool)
  : M (World := unit) WikipediaPageSummary.t :=
  ret {| WikipediaPageSummary.page_id := page_id;
         WikipediaPageSummary.title := u8 "dummy";
         WikipediaPageSummary.extract := extract;
         WikipediaPageSummary.description := None |}.

(** The class with both methods patched. *)
Definition patched (base_url : str) : WikipediaClient.t unit :=
  {| WikipediaClient.base_url := base_url;
     WikipediaClient.search_page := fake_search base_url;
     WikipediaClient.get_page_summary :=
       fake_summary (u8 "Typical speed reaches 108 km/h.") |}.

Definition patched_new (base_url : str) : M (World := unit) (WikipediaClient.t unit) :=
  ret (patched base_url).

(** The same class when fetching a summary fails. *)
Definition broken (base_url : str) : WikipediaClient.t unit :=
  {| WikipediaClient.base_url := base_url;
     WikipediaClient.search_page := fake_search base_url;
     WikipediaClient.get_page_summary := fun _ _ => raise no_summary |}.

Definition broken_new (base_url : str) : M (World := unit) (WikipediaClient.t unit) :=
  ret (broken base_url).

Definition russian_api : str := u8 "https://ru.wikipedia.org/w/api.php".


Definition mock_bridge (length_meters : float) : BridgeInfo.t :=
  {| BridgeInfo.name := u8 "Mock Bridge";
     BridgeInfo.length_meters := length_meters;
     BridgeInfo.source := u8 "mock://bridge" |}.

Definition mock_animal (speed_m_s : float) : AnimalSpeed.t :=
  {| AnimalSpeed.name := u8 "Mock Cheetah";
     AnimalSpeed.speed_m_s := speed_m_s;
     AnimalSpeed.source := u8 "mock://cheetah";
     AnimalSpeed.speed_km_h := None |}.

(** The page [fake_search] finds for "Cheetah". *)
Definition en_page : WikipediaSearchResult.t :=
  {| WikipediaSearchResult.page_id := 100;
     WikipediaSearchResult.title := u8 "Cheetah (EN)";
     WikipediaSearchResult.snippet := None |}.

End Stub.

(** ** [app/utils/wikipedia_client.py]: the client over HTTP *)

#[local] Set Warnings "-register-all".

(** The values [response.json()] returns. A [dict] lists its entries in
    insertion order and holds each key once. *)
Inductive json :=
| JNull
| JBool (b : bool)
| JInt (z : Z)
| JFloat (f : float)
| JStr (s : str)
| JList (items : list json)
| JDict (entries : list (str * json)).

Module Json.

(** [type(x).__name__] *)
Definition type_name (x : json) : str :=
  match x with
  | JNull => u8 "NoneType"
  | JBool _ => u8 "bool"
  | JInt _ => u8 "int"
  | JFloat _ => u8 "float"
  | JStr _ => u8 "str"
  | JList _ => u8 "list"
  | JDict _ => u8 "dict"
  end.

(** The entry of a key in a [dict]. *)
Fixpoint lookup {A} (d : list (str * A)) (key : str) : option A :=
  match d with
  | [] => None
  | (k, v) :: d' => if str_eqb k key then Some v else lookup d' key
  end.

(** [AttributeError], [TypeError]: direct subclasses of [Exception]. *)
Definition attribute_error (x : json) (attr : str) : exception :=
  mkExc OtherException
    (u8 "'" ++ type_name x ++ u8 "' object has no attribute '" ++ attr ++ u8 "'").

(** [x.get(key, default)] *)
Definition get (x : json) (key : str) (default : json) : result json :=
  match x with
  | JDict d => Ok (match lookup d key with Some v => v | None => default end)
  | _ => Raise (attribute_error x (u8 "get"))
  end.

(** [x.values()] as a list *)
Definition values (x : json) : result (list json) :=
  match x with
  | JDict d => Ok (map snd d)
  | _ => Raise (attribute_error x (u8 "values"))
  end.

(** [bool(x)] *)
Definition truthy (x : json) : bool :=
  match x with
  | JNull => false
  | JBool b => b
  | JInt z => negb (z =? 0)
  | JFloat f => negb (f =? 0)%float
  | JStr s => match s with [] => false | _ => true end
  | JList l => match l with [] => false | _ => true end
  | JDict d => match d with [] => false | _ => true end
  end.

(** [x[0]]; [IndexError] and [KeyError] derive from [LookupError]. *)
Definition index0 (x : json) : result json :=
  match x with
  | JList (a :: _) => Ok a
  | JList [] => Raise (mkExc LookupError (u8 "list index out of range"))
  | JStr (c :: _) => Ok (JStr [c])
  | JStr [] => Raise (mkExc LookupError (u8 "string index out of range"))
  | JDict _ => Raise (mkExc LookupError (u8 "0"))
  | _ =>
    Raise (mkExc OtherException
             (u8 "'" ++ type_name x ++ u8 "' object is not subscriptable"))
  end.

Section Conversions.

(** [int(s)] of a text and [repr] of a float or a container belong to the
    interpreter; they are parameters here. *)
Variable int_of_str : str -> result Z.
Variable repr : json -> str.

(** [int(x)] *)
Definition to_int (x : json) : result Z :=
  match x with
  | JInt z => Ok z
  | JBool b => Ok (if b then 1 else 0)
  | JFloat f => int_of_float f
  | JStr s => int_of_str s
  | _ =>
    Raise (mkExc OtherException
             (u8 "int() argument must be a string, a bytes-like object or a real number, not '"
              ++ type_name x ++ u8 "'"))
  end.

(** [str(x)] *)
Definition to_str (x : json) : str :=
  match x with
  | JStr s => s
  | JNull => u8 "None"
  | JBool b => if b then u8 "True" else u8 "False"
  | JInt z => str_of_Z z
  | _ => repr x
  end.

End Conversions.

End Json.

(** What [requests.get] does: a response arrives, or the call raises a
    [RequestException], or it raises something else. *)
Module Requests.

Record response := mk_response {
  status_code : Z;
  (** [response.json()]: the decoded body, or the error of the decoder *)
  json_body : result json }.

Inductive outcome :=
| Responded (r : response)
| RequestException (e : exception)
| OtherFailure (e : exception).

(** A value of the [params]. *)
Inductive param :=
| PStr (s : str)
| PInt (z : Z).

(** [response.raise_for_status()] raises an [HTTPError], which is a
    [RequestException], for the statuses 400 to 599. *)
Definition raises_for_status (r : response) : bool :=
  (400 <=? status_code r) && (status_code r <? 600).

End Requests.

Module WikipediaAPI.
Section Client.
Context {World : Type}.
Local Open Scope world_scope.

(** [requests.get(url, params=..., headers=..., timeout=...)] *)
Variable requests_get :
  str -> list (str * Requests.param) -> list (str * str) -> Z ->
  World -> Requests.outcome * World.

Variable int_of_str : str -> result Z.
Variable repr : json -> str.

(** The text of a pydantic [ValidationError] (a [ValueError]) for the
    fields that were refused, with the values given. *)
Variable validation_message : list (str * json) -> str.

Definition headers : list (str * str) :=
  [ (u8 "User-Agent",
     u8 "AgentApp/1.0 (https://github.com/KirillFazi; contact@example.com)") ].

(** The request of both methods:
    [try: response = requests.get(...); response.raise_for_status()
     except RequestException as exc: raise RuntimeError(message) from exc],
    followed by [response.json()]. *)
Definition fetch (base_url : str) (params : list (str * Requests.param))
    (message : str) : M (World := World) json :=
  fun w =>
    match requests_get base_url params headers 10 w with
    | (Requests.Responded r, w') =>
      if Requests.raises_for_status r
      then (Raise (mkExc RuntimeError message), w')
      else (Requests.json_body r, w')
    | (Requests.RequestException _, w') => (Raise (mkExc RuntimeError message), w')
    | (Requests.OtherFailure e, w') => (Raise e, w')
    end.

(** The fields [str | None] and [str] of a model, as pydantic accepts
    them. *)
Definition refused_optional (field : str) (x : json) : list (str * json) :=
  match x with
  | JNull | JStr _ => []
  | _ => [(field, x)]
  end.

Definition refused_required (field : str) (x : json) : list (str * json) :=
  match x with
  | JStr _ => []
  | _ => [(field, x)]
  end.

Definition as_optional (x : json) : option str :=
  match x with
  | JStr s => Some s
  | _ => None
  end.

Definition as_required (x : json) : str :=
  match x with
  | JStr s => s
  | _ => []
  end.

(** [WikipediaSearchResult(page_id=..., title=..., snippet=...)] *)
Definition new_search_result (page_id : Z) (title : str) (snippet : json)
  : result WikipediaSearchResult.t :=
  match refused_optional (u8 "snippet") snippet with
  | [] => Ok {| WikipediaSearchResult.page_id := page_id;
                WikipediaSearchResult.title := title;
                WikipediaSearchResult.snippet := as_optional snippet |}
  | refused => Raise (mkExc ValueError (validation_message refused))
  end.

(** [WikipediaPageSummary(page_id=..., title=..., extract=..., description=...)] *)
Definition new_page_summary (page_id : Z) (title : str) (extract description : json)
  : result WikipediaPageSummary.t :=
  match refused_required (u8 "extract") extract
        ++ refused_optional (u8 "description") description with
  | [] => Ok {| WikipediaPageSummary.page_id := page_id;
                WikipediaPageSummary.title := title;
                WikipediaPageSummary.extract := as_required extract;
                WikipediaPageSummary.description := as_optional description |}
  | refused => Raise (mkExc ValueError (validation_message refused))
  end.

(** The part of [search_page] after the request. *)
Definition search_page_result (data : json)
  : result (option WikipediaSearchResult.t) :=
  (query <- Json.get data (u8 "query") (JDict []) ;;
   search_results <- Json.get query (u8 "search") (JList []) ;;
   if negb (Json.truthy search_results) then Ok None
   else
     first <- Json.index0 search_results ;;
     pageid <- Json.get first (u8 "pageid") JNull ;;
     page_id <- Json.to_int int_of_str pageid ;;
     title <- Json.get first (u8 "title") JNull ;;
     snippet <- Json.get first (u8 "snippet") JNull ;;
     found <- new_search_result page_id (Json.to_str repr title) snippet ;;
     Ok (Some found))%result.

(** The [params] of [search_page]. *)
Definition search_params (title : str) : list (str * Requests.param) :=
  [ (u8 "action", Requests.PStr (u8 "query"));
    (u8 "list", Requests.PStr (u8 "search"));
    (u8 "srsearch", Requests.PStr title);
    (u8 "srlimit", Requests.PInt 1);
    (u8 "format", Requests.PStr (u8 "json")) ].

(** [search_page] *)
Definition search_page (base_url : str) (title : str)
  : M (World := World) (option WikipediaSearchResult.t) :=
  let params := search_params title in
  data <- fetch base_url params (u8 "Failed to search Wikipedia") ;;
  lift (search_page_result data).

(** The part of [get_page_summary] after the request. *)
Definition page_summary_result (page_id : Z) (data : json)
  : result WikipediaPageSummary.t :=
  (query <- Json.get data (u8 "query") (JDict []) ;;
   pages <- Json.get query (u8 "pages") (JDict []) ;;
   own <- Json.get pages (str_of_Z page_id) JNull ;;
   page_data <-
     (if Json.truthy own then Ok own
      else all <- Json.values pages ;; Ok (hd JNull all)) ;;
   missing <-
     (if negb (Json.truthy page_data) then Ok true
      else
        pageid <- Json.get page_data (u8 "pageid") (JInt (-1)) ;;
        n <- Json.to_int int_of_str pageid ;;
        Ok (n =? -1)) ;;
   if (missing : bool)
   then Raise (mkExc LookupError
                 (u8 "Wikipedia page " ++ str_of_Z page_id ++ u8 " not found"))
   else
     pageid <- Json.get page_data (u8 "pageid") JNull ;;
     found_id <- Json.to_int int_of_str pageid ;;
     title <- Json.get page_data (u8 "title") JNull ;;
     extract <- Json.get page_data (u8 "extract") (JStr []) ;;
     pageprops <- Json.get page_data (u8 "pageprops") (JDict []) ;;
     description <- Json.get pageprops (u8 "description") JNull ;;
     new_page_summary found_id (Json.to_str repr title) extract description)%result.

(** The [params] of [get_page_summary]; [exintro] is added last. *)
Definition summary_params (page_id : Z) (intro_only : bool)
  : list (str * Requests.param) :=
  let params :=
    [ (u8 "action", Requests.PStr (u8 "query"));
      (u8 "prop", Requests.PStr (u8 "extracts|pageprops"));
      (u8 "pageids", Requests.PInt page_id);
      (u8 "explaintext", Requests.PInt 1);
      (u8 "ppprop", Requests.PStr (u8 "description"));
      (u8 "format", Requests.PStr (u8 "json")) ] in
  if intro_only then params ++ [ (u8 "exintro", Requests.PInt 1) ] else params.

(** [get_page_summary] *)
Definition get_page_summary (base_url : str) (page_id : Z) (intro_only : bool)
  : M (World := World) WikipediaPageSummary.t :=
  let params := summary_params page_id intro_only in
  data <- fetch base_url params (u8 "Failed to fetch page summary") ;;
  lift (page_summary_result page_id data).

(** The object with its two methods bound. *)
Definition client (base_url : str) : WikipediaClient.t World :=
  {| WikipediaClient.base_url := base_url;
     WikipediaClient.search_page := search_page base_url;
     WikipediaClient.get_page_summary := get_page_summary base_url |}.

End Client.
End WikipediaAPI.

(** ** [app/agent_cli.py]: the two tools and their cache *)

(** What the cache of the tools holds. *)
Inductive cached :=
| CBridge (b : BridgeInfo.t)
| CAnimal (a : AnimalSpeed.t).

(** The [dict] shared by the tools. *)
Module Cache.

Definition t := list (str * cached).

(** [cache.get(key)] *)
Definition get (c : t) (key : str) : option cached := Json.lookup c key.

(** [key in cache] *)
Definition contains (c : t) (key : str) : bool :=
  match get c key with
  | Some _ => true
  | None => false
  end.

(** [cache[key] = v]: a key already there keeps its place. *)
Fixpoint set (c : t) (key : str) (v : cached) : t :=
  match c with
  | [] => [(key, v)]
  | (k, x) :: c' =>
    if str_eqb k key then (k, v) :: c' else (k, x) :: set c' key v
  end.

End Cache.

Section Tools.
Context {U : UnicodeData} {World : Type}.
Local Open Scope world_scope.

Variable WikipediaClient_new : str -> M (World := World) (WikipediaClient.t World).

(** [str()] of a float, [repr()] of a text and [str.lower] belong to the
    interpreter. *)
Variable float_repr : float -> str.
Variable str_repr : str -> str.
Variable str_lower : str -> str.

(** A tool runs on the cache and the outside world. *)
Definition Tool (A : Type) : Type := M (World := Cache.t * World) A.

Definition in_cache (key : str) : Tool bool :=
  fun s => (Ok (Cache.contains (fst s) key), s).

(** [cache[key]]; a missing key is a [KeyError] (a [LookupError]). *)
Definition cache_getitem (key : str) : Tool cached :=
  fun s =>
    match Cache.get (fst s) key with
    | Some v => (Ok v, s)
    | None => (Raise (mkExc LookupError (str_repr key)), s)
    end.

Definition cache_setitem (key : str) (v : cached) : Tool unit :=
  fun s => (Ok tt, (Cache.set (fst s) key v, snd s)).

(** A call that does not know the cache. *)
Definition call {A} (m : M (World := World) A) : Tool A :=
  fun s => let (r, w') := m (snd s) in (r, (fst s, w')).

(** The f-string of [bridge_info_tool]; an object of the other class has
    a [name] but no [length_meters]. *)
Definition bridge_text (bridge : cached) : result str :=
  match bridge with
  | CBridge b =>
    Ok (u8 "Bridge: " ++ BridgeInfo.name b
        ++ u8 ", Length: " ++ float_repr (BridgeInfo.length_meters b)
        ++ u8 " meters, Source: " ++ BridgeInfo.source b)
  | CAnimal _ =>
    Raise (mkExc OtherException
             (u8 "'AnimalSpeed' object has no attribute 'length_meters'"))
  end.

(** [bridge_info_tool] *)
Definition bridge_info_tool (client : WikipediaClient.t World) (arg : str)
  : Tool str :=
  present <- in_cache (u8 "bridge") ;;
  stored <-
    (if (present : bool) then ret tt
     else
       found <- call (get_bridge_info_big_stone_bridge client) ;;
       cache_setitem (u8 "bridge") (CBridge found)) ;;
  bridge <- cache_getitem (u8 "bridge") ;;
  lift (bridge_text bridge).

(** The f-string of [animal_speed_tool]. *)
Definition animal_text (animal_data : cached) : result str :=
  match animal_data with
  | CAnimal a =>
    Ok (u8 "Animal: " ++ AnimalSpeed.name a
        ++ u8 ", Speed: " ++ float_repr (AnimalSpeed.speed_m_s a)
        ++ u8 " m/s ("
        ++ match AnimalSpeed.speed_km_h a with
           | Some v => float_repr v
           | None => u8 "None"
           end
        ++ u8 " km/h), Source: " ++ AnimalSpeed.source a)
  | CBridge _ =>
    Raise (mkExc OtherException
             (u8 "'BridgeInfo' object has no attribute 'speed_m_s'"))
  end.

(** [animal_speed_tool] *)
Definition animal_speed_tool (client : WikipediaClient.t World) (animal : str)
  : Tool str :=
  let key := u8 "animal:" ++ str_lower animal in
  present <- in_cache key ;;
  stored <-
    (if (present : bool) then ret tt
     else
       found <- call (get_animal_speed WikipediaClient_new client animal) ;;
       cache_setitem key (CAnimal found)) ;;
  latest <- cache_getitem key ;;
  aliased <- cache_setitem (u8 "animal") latest ;;
  animal_data <- cache_getitem key ;;
  lift (animal_text animal_data).

End Tools.

(** ** [app/core/config.py] *)

Module LLMConfig.

(** [Literal["openrouter", "ollama"]] *)
Inductive provider_name := openrouter | ollama.

Definition provider_key (p : provider_name) : str :=
  match p with
  | openrouter => u8 "openrouter"
  | ollama => u8 "ollama"
  end.

Record t := mk {
  provider : provider_name;
  agent_model : str;
  selfcheck_model : str;
  use_llm_selfcheck : bool;
  ollama_base_url : str }.

Definition PROVIDER_MODELS : list (str * list (str * str)) :=
  [ (u8 "openrouter",
     [ (u8 "agent_model", u8 "openai/gpt-oss-120b");
       (u8 "selfcheck_model", u8 "openai/gpt-oss-120b") ]);
    (u8 "ollama",
     [ (u8 "agent_model", u8 "qwen2.5:7b");
       (u8 "selfcheck_model", u8 "deepseek-r1:8b") ]) ].

(** [d[key]]; a missing key is a [KeyError]. *)
Definition getitem {A} (d : list (str * A)) (key : str) : result A :=
  match Json.lookup d key with
  | Some v => Ok v
  | None => Raise (mkExc LookupError (u8 "'" ++ key ++ u8 "'"))
  end.

(** The validator [set_models_from_provider]. *)
Definition set_models_from_provider (self : t) : result t :=
  (self <-
     (match agent_model self with
      | [] =>
        models <- getitem PROVIDER_MODELS (provider_key (provider self)) ;;
        name <- getitem models (u8 "agent_model") ;;
        Ok {| provider := provider self;
              agent_model := name;
              selfcheck_model := selfcheck_model self;
              use_llm_selfcheck := use_llm_selfcheck self;
              ollama_base_url := ollama_base_url self |}
      | _ => Ok self
      end) ;;
   match selfcheck_model self with
   | [] =>
     models <- getitem PROVIDER_MODELS (provider_key (provider self)) ;;
     name <- getitem models (u8 "selfcheck_model") ;;
     Ok {| provider := provider self;
           agent_model := agent_model self;
           selfcheck_model := name;
           use_llm_selfcheck := use_llm_selfcheck self;
           ollama_base_url := ollama_base_url self |}
   | _ => Ok self
   end)%result.

End LLMConfig.

(** ** [app/core/llm.py] *)

Module OpenRouterLLMClient.

Record t := mk {
  api_key : str;
  model : str;
  temperature : float;
  top_p : float;
  max_tokens : option Z;
  referer : option str;
  app_title : option str }.

Section Init.
Context {World : Type}.
Local Open Scope world_scope.

(** [load_dotenv()] and [os.getenv(name)] *)
Variable load_dotenv : M (World := World) unit.
Variable getenv : str -> M (World := World) (option str).

(** [__init__]: [api_key or os.getenv("OPENROUTER_API_KEY")], refused
    when empty. *)
Definition init (api_key : option str) (model : str) (temperature top_p : float)
    (max_tokens : option Z) (referer app_title : option str)
  : M (World := World) t :=
  loaded <- load_dotenv ;;
  key <-
    match api_key with
    | Some (c :: k) => ret (Some (c :: k))
    | _ => getenv (u8 "OPENROUTER_API_KEY")
    end ;;
  match key with
  | Some (c :: k) =>
    ret {| api_key := c :: k;
           model := model;
           temperature := temperature;
           top_p := top_p;
           max_tokens := max_tokens;
           referer := referer;
           app_title := app_title |}
  | _ => raise (mkExc ValueError (u8 "OPENROUTER_API_KEY is not set"))
  end.

End Init.
End OpenRouterLLMClient.

(** ** Vocabulary of the further statements *)

(** [sep in s] *)
Fixpoint occurs (sep s : str) : bool :=
  startswith sep s
  || match s with
     | [] => false
     | _ :: s' => occurs sep s'
     end.

(** A cache as the tools leave it: a bridge under "bridge" and animals
    under every other key. *)
Definition cache_ok (c : Cache.t) : Prop :=
  forall key v, Cache.get c key = Some v ->
    match v with
    | CBridge _ => key = u8 "bridge"
    | CAnimal _ => key <> u8 "bridge"
    end.

(** A request that failed: [requests.get] raised a [RequestException],
    or the status of the response is an error. *)
Definition request_failed (out : Requests.outcome) : Prop :=
  match out with
  | Requests.RequestException _ => True
  | Requests.Responded r => Requests.raises_for_status r = true
  | Requests.OtherFailure _ => False
  end.

(** A response that is read: its status is no error and its body is the
    JSON value [data]. *)
Definition responded (out : Requests.outcome) (data : json) : Prop :=
  match out with
  | Requests.Responded r =>
    Requests.raises_for_status r = false /\ Requests.json_body r = Ok data
  | _ => False
  end.

(** The page of the answer [get_page_summary] reads: the entry under the
    id asked for when there is one that counts as true, else the first
    entry of [pages]. *)
Definition page_read (pages : list (str * json)) (page_id : Z) : json :=
  match Json.lookup pages (str_of_Z page_id) with
  | Some own => if Json.truthy own then own else hd JNull (map snd pages)
  | None => hd JNull (map snd pages)
  end.

(** A positive number: not zero, not negative, no infinity, no NaN. *)
Definition positive_finite (v : float) : Prop :=
  (0 <? v)%float = true /\ (v <? infinity)%float = true /\ is_nan v = false.

(** ** Collaborators of the further examples

    As in [Stub], the outside world has no state. *)

Module Fixture.

(** Functions of the interpreter, as far as the examples need them. *)
Definition int_of_str (s : str) : result Z :=
  Raise (mkExc ValueError (u8 "invalid literal for int() with base 10")).

Definition repr (x : json) : str := [].

Definition validation_message (refused : list (str * json)) : str :=
  u8 "validation error".

Definition float_repr (f : float) : str := format_1f f.

Definition str_repr (s : str) : str := u8 "'" ++ s ++ u8 "'".

Definition str_lower (s : str) : str := map BasicUnicode.lower s.

(** A network that answers every request with one response. *)
Definition answering (r : Requests.response)
  : str -> list (str * Requests.param) -> list (str * str) -> Z ->
    unit -> Requests.outcome * unit :=
  fun _ _ _ _ w => (Requests.Responded r, w).

(** A network that is down. *)
Definition unreachable
  : str -> list (str * Requests.param) -> list (str * str) -> Z ->
    unit -> Requests.outcome * unit :=
  fun _ _ _ _ w =>
    (Requests.RequestException (mkExc OtherException (u8 "connection refused")), w).

Definition ok_response (data : json) : Requests.response :=
  {| Requests.status_code := 200; Requests.json_body := Ok data |}.

Definition unavailable : Requests.response :=
  {| Requests.status_code := 503; Requests.json_body := Ok JNull |}.

(** Answers of the API. *)
Definition one_hit : list (str * json) :=
  [ (u8 "batchcomplete", JStr []);
    (u8 "query",
     JDict [ (u8 "searchinfo", JDict [ (u8 "totalhits", JInt 1) ]);
             (u8 "search",
              JList [ JDict [ (u8 "ns", JInt 0);
                              (u8 "title", JStr (u8 "Гепард"));
                              (u8 "pageid", JInt 12345);
                              (u8 "snippet", JStr (u8 "хищное млекопитающее")) ] ]) ]) ].

Definition no_hit : list (str * json) :=
  [ (u8 "batchcomplete", JStr []);
    (u8 "query",
     JDict [ (u8 "searchinfo", JDict [ (u8 "totalhits", JInt 0) ]);
             (u8 "search", JList []) ]) ].

Definition no_page : list (str * json) :=
  [ (u8 "batchcomplete", JStr []);
    (u8 "query",
     JDict [ (u8 "pages",
              JDict [ (u8 "-1", JDict [ (u8 "ns", JInt 0);
                                        (u8 "missing", JStr []) ]) ]) ]) ].

Definition one_page : list (str * json) :=
  [ (u8 "batchcomplete", JStr []);
    (u8 "query",
     JDict [ (u8 "pages",
              JDict [ (u8 "777",
                       JDict [ (u8 "pageid", JInt 777);
                               (u8 "ns", JInt 0);
                               (u8 "title", JStr (u8 "Большой Каменный мост"));
                               (u8 "extract", JStr (u8 "Длина моста 487 м.")) ]) ]) ]) ].

(** A client whose page has an introduction and a full text. *)
Definition two_texts (intro full : str) : WikipediaClient.t unit :=
  {| WikipediaClient.base_url := u8 "https://example.com/w/api.php";
     WikipediaClient.search_page := fun title =>
       ret (Some {| WikipediaSearchResult.page_id := 7;
                    WikipediaSearchResult.title := title;
                    WikipediaSearchResult.snippet := None |});
     WikipediaClient.get_page_summary := fun page_id intro_only =>
       ret {| WikipediaPageSummary.page_id := page_id;
              WikipediaPageSummary.title := u8 "dummy";
              WikipediaPageSummary.extract := if intro_only then intro else full;
              WikipediaPageSummary.description := None |} |}.

(** A client that finds nothing. *)
Definition silent (base_url : str) : WikipediaClient.t unit :=
  {| WikipediaClient.base_url := base_url;
     WikipediaClient.search_page := fun _ => ret None;
     WikipediaClient.get_page_summary := fun _ _ => raise Stub.no_summary |}.

(** A client that knows one title. *)
Definition one_title (known extract : str) : WikipediaClient.t unit :=
  {| WikipediaClient.base_url := Stub.russian_api;
     WikipediaClient.search_page := fun title =>
       if str_eqb title known
       then ret (Some {| WikipediaSearchResult.page_id := 5;
                         WikipediaSearchResult.title := title;
                         WikipediaSearchResult.snippet := None |})
       else ret None;
     WikipediaClient.get_page_summary := Stub.fake_summary extract |}.

(** [os.getenv] where the variable has one value, or none. *)
Definition environment (key : option str) : str -> M (World := unit) (option str) :=
  fun _ => ret key.

End Fixture.

(** A decimal digit. *)
Definition digit (c : char) : Prop := (48 <= c <= 57)%N.

(** ** The extractions in the words of the specification

    The specification describes the two extractions without the
    regular expressions: the text is scanned for numeric tokens followed,
    after optional white space, by a unit; the values of the tokens found
    are compared. The definitions below say this directly on the text;
    the extractions of the source are compared with them. *)

Section Scanning.
Context {U : UnicodeData}.
Import Re.

(** The number a run of decimal digits writes. *)
Definition decimal (ds : str) : Z :=
  fold_left (fun acc c => 10 * acc + Z.of_N (todecimal c)) ds 0.

(** The value of a numeric token: the float nearest to the number it
    writes, "," and "." both standing for the decimal point. *)
Inductive token_value_spec : str -> float -> Prop :=
| value_whole : forall a,
    digits a ->
    token_value_spec a (SF2Prim (SF_of_ratio (decimal a) 1))
| value_decimal : forall a sep b,
    digits a -> (sep = 46 \/ sep = 44)%N -> digits b ->
    token_value_spec (a ++ sep :: b)
      (SF2Prim (SF_of_ratio
                  (decimal a * 10 ^ Z.of_nat (length b) + decimal b)
                  (10 ^ Z.of_nat (length b)))).

(** A pair begins the text [s]: the numeric token [item], optional white
    space and a unit text; [rest] is the text after the unit. *)
Definition pair_at (unit_text : str -> Prop) (s item rest : str) : Prop :=
  exists ws u,
    s = item ++ ws ++ u ++ rest
    /\ numeric_token item /\ spaces ws /\ unit_text u.

(** The tokens of the pairs of a text, from left to right: where a pair
    begins its token is taken and the scan goes on after the unit; where
    none begins the scan moves by one character. *)
Inductive scan_spec (unit_text : str -> Prop) : str -> list str -> Prop :=
| scan_end : scan_spec unit_text [] []
| scan_skip : forall c s items,
    (forall item rest, ~ pair_at unit_text (c :: s) item rest) ->
    scan_spec unit_text s items ->
    scan_spec unit_text (c :: s) items
| scan_pair : forall s item rest items,
    pair_at unit_text s item rest ->
    scan_spec unit_text rest items ->
    scan_spec unit_text s (item :: items).

(** The unit of a length: the letter м in either case (the first letter
    of "метр" as well). *)
Definition meter_unit (u : str) : Prop :=
  exists c, u = [c] /\ like (letter "м") c.

(** [v] is the greatest of [values]. *)
Definition greatest (v : float) (values : list float) : Prop :=
  In v values /\ forall w, In w values -> (w <=? v)%float = true.

(** The classes of characters the patterns tell apart do not overlap
    (they do not in Unicode): a decimal digit is no white space; the
    separators are no white space; a character that is one of [letters]
    in either case is no digit, no white space, no separator, and is no
    other of [letters]. *)
Definition separate (letters : list char) : Prop :=
  (forall c, isdecimal c = true -> isspace c = false)
  /\ isspace 44%N = false /\ isspace 46%N = false
  /\ (forall l c, In l letters -> like l c ->
        isdecimal c = false /\ isspace c = false /\ c <> 44%N /\ c <> 46%N)
  /\ (forall l l' c, In l letters -> In l' letters ->
        like l c -> like l' c -> l = l').

(** The conditions of [separate] at one character, as a test. *)
Definition separate_at (letters : list char) (c : char) : bool :=
  (negb (isdecimal c) || negb (isspace c))
  && forallb (fun l =>
       negb (cset_match true (Literal l) c)
       || (negb (isdecimal c) && negb (isspace c)
           && negb (c =? 44)%N && negb (c =? 46)%N)) letters
  && forallb (fun l =>
       negb (cset_match true (Literal l) c)
       || forallb (fun l' =>
            negb (cset_match true (Literal l') c) || (l =? l')%N) letters) letters.

(** [P] holds of the [fuel] characters from [c] on. *)
Fixpoint holds_from (P : char -> bool) (fuel : nat) (c : char) : bool :=
  match fuel with
  | O => true
  | S k => P c && holds_from P k (N.succ c)
  end.

(** The letters of the units of a length and of a speed. *)
Definition meter_letters : list char := [letter "м"].

Definition speed_letters : list char :=
  [letter "к"; letter "м"; letter "/"; letter "ч"; letter "в"; letter "а";
   letter "с"; letter "k"; letter "m"; letter "h"].

(** The text stops a run of the class [P]: it is empty or begins with a
    character outside [P]. *)
Definition stops (P : char -> bool) (x : str) : Prop :=
  match x with
  | [] => True
  | c :: _ => P c = false
  end.

(** The text after a token begins with a character that is neither a
    digit nor a separator. *)
Definition after_token (x : str) : Prop :=
  exists c x0, x = c :: x0 /\ isdecimal c = false /\ c <> 44%N /\ c <> 46%N.

(** A unit text begins with one of [letters]. *)
Definition begins_with_letter (letters : list char) (unit_text : str -> Prop) : Prop :=
  forall u, unit_text u -> exists l c u0, u = c :: u0 /\ In l letters /\ like l c.

End Scanning.

(** A client at [base_url] that finds a page for every title and serves
    an introduction and a full text. *)
Definition two_texts_at (base_url intro full : str) : WikipediaClient.t unit :=
  {| WikipediaClient.base_url := base_url;
     WikipediaClient.search_page := fun title =>
       ret (Some {| WikipediaSearchResult.page_id := 100;
                    WikipediaSearchResult.title := title ++ u8 " (EN)";
                    WikipediaSearchResult.snippet := None |});
     WikipediaClient.get_page_summary := fun page_id intro_only =>
       ret {| WikipediaPageSummary.page_id := page_id;
              WikipediaPageSummary.title := u8 "dummy";
              WikipediaPageSummary.extract := if intro_only then intro else full;
              WikipediaPageSummary.description := None |} |}.

(** The class patched to build such clients. *)
Definition two_texts_new (intro full base_url : str)
  : M (World := unit) (WikipediaClient.t unit) :=
  ret (two_texts_at base_url intro full).

(** * Properties *)

Import Re.

(** ** Binary64: rounding a representable number is exact *)

Lemma digits2_pos_bounds : forall m,
  2 ^ (Zpos (digits2_pos m) - 1) <= Zpos m < 2 ^ Zpos (digits2_pos m).
Proof.
  induction m as [p IH|p IH|]; cbn [digits2_pos].
  - rewrite Pos2Z.inj_succ, Z.pow_succ_r by lia.
    replace (Z.succ (Zpos (digits2_pos p)) - 1) with (Z.succ (Zpos (digits2_pos p) - 1)) by lia.
    rewrite Z.pow_succ_r by lia. lia.
  - rewrite Pos2Z.inj_succ, Z.pow_succ_r by lia.
    replace (Z.succ (Zpos (digits2_pos p)) - 1) with (Z.succ (Zpos (digits2_pos p) - 1)) by lia.
    rewrite Z.pow_succ_r by lia. lia.
  - simpl. lia.
Qed.

Lemma digits2_pos_unique : forall m d,
  2 ^ (d - 1) <= Zpos m < 2 ^ d -> Zpos (digits2_pos m) = d.
Proof.
  intros m d [Hlo Hhi].
  destruct (digits2_pos_bounds m) as [Hlo' Hhi'].
  assert (0 < d).
  { destruct (Z_lt_le_dec 0 d); auto.
    assert (2 ^ d <= 1).
    { destruct (Z.eq_dec d 0); subst; simpl; try lia.
      rewrite Z.pow_neg_r by lia. lia. }
    lia. }
  assert (Zpos (digits2_pos m) - 1 < d).
  { apply (Z.pow_lt_mono_r_iff 2); lia. }
  assert (d - 1 < Zpos (digits2_pos m)).
  { apply (Z.pow_lt_mono_r_iff 2); lia. }
  lia.
Qed.

Lemma digits2_pos_mul_pow2 : forall m k p,
  0 <= k -> Zpos p = Zpos m * 2 ^ k ->
  Zpos (digits2_pos p) = Zpos (digits2_pos m) + k.
Proof.
  intros m k p Hk Hp. apply digits2_pos_unique.
  destruct (digits2_pos_bounds m) as [Hlo Hhi].
  rewrite Hp.
  replace (Zpos (digits2_pos m) + k - 1) with ((Zpos (digits2_pos m) - 1) + k) by lia.
  rewrite !Z.pow_add_r by lia.
  assert (0 < 2 ^ k) by (apply Z.pow_pos_nonneg; lia).
  split; nia.
Qed.

Lemma iter_pos_nat : forall (A : Type) (f : A -> A) p x,
  iter_pos f p x = Nat.iter (Pos.to_nat p) f x.
Proof.
  intros A f. induction p as [p IH|p IH|]; intros x; cbn [iter_pos].
  - rewrite !IH. rewrite Pos2Nat.inj_xI.
    replace (S (2 * Pos.to_nat p))%nat with (Pos.to_nat p + (Pos.to_nat p + 1))%nat by lia.
    rewrite !Nat.iter_add. simpl. reflexivity.
  - rewrite !IH. rewrite Pos2Nat.inj_xO.
    replace (2 * Pos.to_nat p)%nat with (Pos.to_nat p + Pos.to_nat p)%nat by lia.
    rewrite Nat.iter_add. reflexivity.
  - reflexivity.
Qed.

Lemma shr_1_exact : forall m, 0 < m ->
  shr_1 (Build_shr_record (2 * m) false false) = Build_shr_record m false false.
Proof. intros m Hm. destruct m; try lia. reflexivity. Qed.

Lemma iter_shr_1_exact : forall n m, 0 < m ->
  Nat.iter n shr_1 (Build_shr_record (m * 2 ^ Z.of_nat n) false false)
  = Build_shr_record m false false.
Proof.
  induction n; intros m Hm.
  - simpl. f_equal. lia.
  - rewrite Nat.iter_succ_r.
    rewrite Nat2Z.inj_succ, Z.pow_succ_r by lia.
    replace (m * (2 * 2 ^ Z.of_nat n)) with (2 * (m * 2 ^ Z.of_nat n)) by lia.
    rewrite shr_1_exact. apply IHn; auto.
    assert (0 < 2 ^ Z.of_nat n) by (apply Z.pow_pos_nonneg; lia). nia.
Qed.

Lemma shr_exact : forall m e n, 0 < m -> 0 <= n ->
  shr (Build_shr_record (m * 2 ^ n) false false) e n
  = (Build_shr_record m false false, e + n).
Proof.
  intros m e n Hm Hn. unfold shr. destruct n as [|p|p]; try lia.
  - simpl. rewrite Z.mul_1_r, Z.add_0_r. reflexivity.
  - rewrite iter_pos_nat. rewrite <- (positive_nat_Z p) at 1.
    rewrite iter_shr_1_exact by auto. reflexivity.
Qed.

Lemma canonical_fexp : forall m e,
  bounded prec emax m e = true ->
  fexp prec emax (Zpos (digits2_pos m) + e) = e /\ e <= emax - prec.
Proof.
  intros m e H. unfold bounded, canonical_mantissa in H.
  apply andb_true_iff in H. destruct H as [H1 H2].
  apply Z.eqb_eq in H1. apply Z.leb_le in H2. auto.
Qed.

(** Rounding a number that is a float returns that float. *)
Lemma binary_round_aux_exact : forall M E m e,
  bounded prec emax m e = true ->
  E <= e -> Zpos M = Zpos m * 2 ^ (e - E) ->
  binary_round_aux prec emax false (Zpos M) E loc_Exact = S754_finite false m e.
Proof.
  intros M E m e Hb HE HM.
  destruct (canonical_fexp m e Hb) as [Hc Hmax].
  unfold binary_round_aux.
  assert (Hd : Zpos (digits2_pos M) + E = Zpos (digits2_pos m) + e).
  { rewrite (digits2_pos_mul_pow2 m (e - E) M); lia. }
  unfold shr_fexp at 1. cbn [Zdigits2 shr_record_of_loc].
  rewrite Hd, Hc, HM, shr_exact by lia.
  cbn [shr_m loc_of_shr_record round_nearest_even].
  unfold shr_fexp. cbn [Zdigits2 shr_record_of_loc].
  replace (E + (e - E)) with e by lia.
  rewrite Hc, Z.sub_diag. cbn [shr shr_m].
  apply Z.leb_le in Hmax. rewrite Hmax. reflexivity.
Qed.

Lemma pos_iter_xO : forall d m, Zpos (Pos.iter xO m d) = Zpos m * 2 ^ Zpos d.
Proof.
  intros d m. change (Pos.iter xO m d) with (shift_pos d m).
  rewrite shift_pos_correct, Z.pow_pos_fold. lia.
Qed.

Lemma shl_align_spec : forall m e e',
  e' <= e ->
  exists m', shl_align m e e' = (m', e') /\ Zpos m' = Zpos m * 2 ^ (e - e').
Proof.
  intros m e e' H. unfold shl_align.
  destruct (e' - e) as [|p|p] eqn:E; try lia.
  - assert (e' = e) by lia. subst. exists m. rewrite Z.sub_diag. split; auto. simpl; lia.
  - exists (Pos.iter xO m p). split; auto. rewrite pos_iter_xO. f_equal. f_equal. lia.
Qed.

Lemma shl_align_id : forall m e e', e <= e' -> shl_align m e e' = (m, e).
Proof.
  intros m e e' H. unfold shl_align.
  destruct (e' - e) as [|p|p] eqn:E; try lia; reflexivity.
Qed.

(** The same for [binary_round], whose argument may also be coarser than the float. *)
Lemma binary_round_exact : forall M E m e z,
  bounded prec emax m e = true ->
  z <= E -> z <= e -> Zpos M * 2 ^ (E - z) = Zpos m * 2 ^ (e - z) ->
  binary_round prec emax false M E = S754_finite false m e.
Proof.
  intros M E m e z Hb HzE Hze HV.
  destruct (canonical_fexp m e Hb) as [Hc Hmax].
  assert (Hd : Zpos (digits2_pos M) + E = Zpos (digits2_pos m) + e).
  { destruct (Z.eq_dec 0 0) as [_|]; try lia.
    assert (exists p, Zpos p = Zpos M * 2 ^ (E - z)) as [p Hp].
    { assert (0 < Zpos M * 2 ^ (E - z)).
      { assert (0 < 2 ^ (E - z)) by (apply Z.pow_pos_nonneg; lia). nia. }
      destruct (Zpos M * 2 ^ (E - z)) as [|p|p] eqn:Q; try lia. exists p; auto. }
    pose proof (digits2_pos_mul_pow2 M (E - z) p ltac:(lia) Hp).
    rewrite HV in Hp.
    pose proof (digits2_pos_mul_pow2 m (e - z) p ltac:(lia) Hp). lia. }
  unfold binary_round. rewrite Hd, Hc.
  destruct (Z_le_gt_dec E e) as [HEe|HEe].
  - rewrite shl_align_id by auto.
    apply binary_round_aux_exact; auto.
    replace (E - z) with ((e - z) - (e - E)) in HV by lia.
    assert (e - z = (e - E) + (E - z)) as Hs by lia.
    rewrite Hs in HV. rewrite Z.pow_add_r in HV by lia.
    replace (e - E + (E - z) - (e - E)) with (E - z) in HV by lia.
    assert (0 < 2 ^ (E - z)) by (apply Z.pow_pos_nonneg; lia). nia.
  - destruct (shl_align_spec M E e ltac:(lia)) as [m' [Hs Hm']]. rewrite Hs.
    assert (m' = m).
    { assert (Zpos m' = Zpos m); [|congruence].
      rewrite Hm'.
      assert (E - z = (E - e) + (e - z)) as Hq by lia.
      rewrite Hq, Z.pow_add_r in HV by lia.
      assert (0 < 2 ^ (e - z)) by (apply Z.pow_pos_nonneg; lia). nia. }
    subst m'.
    apply binary_round_aux_exact; auto; try lia.
    rewrite Z.sub_diag. simpl. lia.
Qed.

Lemma canonical_digits : forall m e,
  bounded prec emax m e = true ->
  Zpos (digits2_pos m) <= 53 /\ (emin < e -> Zpos (digits2_pos m) = 53)
  /\ emin <= e <= emax - prec.
Proof.
  intros m e H. destruct (canonical_fexp m e H) as [Hc Hmax].
  unfold fexp, emin, emax, prec in *. lia.
Qed.

Lemma canonical_mantissa_bounds : forall m e,
  bounded prec emax m e = true ->
  Zpos m < 2 ^ 53 /\ (emin < e -> 2 ^ 52 <= Zpos m).
Proof.
  intros m e H. destruct (canonical_digits m e H) as [Hd [Hn _]].
  destruct (digits2_pos_bounds m) as [Hlo Hhi]. split.
  - eapply Z.lt_le_trans; [exact Hhi|]. apply Z.pow_le_mono_r; lia.
  - intros He. rewrite (Hn He) in Hlo. exact Hlo.
Qed.

(** Comparison of two positive floats is comparison of their values. *)
Lemma SFcompare_canonical : forall m1 e1 m2 e2 z,
  bounded prec emax m1 e1 = true -> bounded prec emax m2 e2 = true ->
  z <= e1 -> z <= e2 ->
  SFcompare (S754_finite false m1 e1) (S754_finite false m2 e2)
  = Some (Zpos m1 * 2 ^ (e1 - z) ?= Zpos m2 * 2 ^ (e2 - z)).
Proof.
  intros m1 e1 m2 e2 z H1 H2 Hz1 Hz2.
  destruct (canonical_mantissa_bounds _ _ H1) as [Hu1 Hl1].
  destruct (canonical_mantissa_bounds _ _ H2) as [Hu2 Hl2].
  destruct (canonical_digits _ _ H1) as [_ [_ Hr1]].
  destruct (canonical_digits _ _ H2) as [_ [_ Hr2]].
  cbn [SFcompare]. f_equal.
  destruct (Z.compare_spec e1 e2) as [He|He|He].
  - subst e2. rewrite Pos.compare_cont_spec. cbn [Pos.switch_Eq].
    assert (0 < 2 ^ (e1 - z)) by (apply Z.pow_pos_nonneg; lia).
    change ((m1 ?= m2)%positive) with (Zpos m1 ?= Zpos m2).
    symmetry. destruct (Z.compare_spec (Zpos m1) (Zpos m2)).
    + rewrite H0. apply Z.compare_refl.
    + apply Z.compare_lt_iff. nia.
    + apply Z.compare_gt_iff. nia.
  - symmetry. apply Z.compare_lt_iff.
    assert (e2 - z = (e2 - e1) + (e1 - z)) as -> by lia.
    rewrite Z.pow_add_r by lia.
    assert (0 < 2 ^ (e1 - z)) by (apply Z.pow_pos_nonneg; lia).
    assert (2 ^ 1 <= 2 ^ (e2 - e1)) by (apply Z.pow_le_mono_r; lia).
    assert (2 ^ 52 <= Zpos m2) by (apply Hl2; lia).
    apply Z.lt_le_trans with (2 ^ 53 * 2 ^ (e1 - z)).
    { apply Z.mul_lt_mono_pos_r; lia. }
    rewrite Z.mul_assoc. apply Z.mul_le_mono_nonneg_r; [lia|].
    change (2 ^ 53) with (2 ^ 52 * 2 ^ 1).
    apply Z.mul_le_mono_nonneg; lia.
  - symmetry. apply Z.compare_gt_iff.
    assert (e1 - z = (e1 - e2) + (e2 - z)) as -> by lia.
    rewrite Z.pow_add_r by lia.
    assert (0 < 2 ^ (e2 - z)) by (apply Z.pow_pos_nonneg; lia).
    assert (2 ^ 1 <= 2 ^ (e1 - e2)) by (apply Z.pow_le_mono_r; lia).
    assert (2 ^ 52 <= Zpos m1) by (apply Hl1; lia).
    apply Z.lt_le_trans with (2 ^ 53 * 2 ^ (e2 - z)).
    { apply Z.mul_lt_mono_pos_r; lia. }
    rewrite Z.mul_assoc. apply Z.mul_le_mono_nonneg_r; [lia|].
    change (2 ^ 53) with (2 ^ 52 * 2 ^ 1).
    apply Z.mul_le_mono_nonneg; lia.
Qed.

Lemma nrm_facts : forall V E,
  0 < V < 2 ^ 53 -> -1000 <= E <= 900 ->
  let k := 53 - Zdigits2 V in
  0 <= k <= 52 /\ Zpos (Z.to_pos (V * 2 ^ k)) = V * 2 ^ k
  /\ bounded prec emax (Z.to_pos (V * 2 ^ k)) (E - k) = true.
Proof.
  intros V E HV HE k.
  destruct V as [|v|v]; try lia.
  pose proof (digits2_pos_bounds v) as [Hlo Hhi].
  assert (Hk : 0 <= k <= 52).
  { unfold k. cbn [Zdigits2].
    assert (Zpos (digits2_pos v) - 1 < 53).
    { apply (Z.pow_lt_mono_r_iff 2); lia. }
    lia. }
  assert (Hp : 0 < Zpos v * 2 ^ k).
  { assert (0 < 2 ^ k) by (apply Z.pow_pos_nonneg; lia). nia. }
  assert (Hz : Zpos (Z.to_pos (Zpos v * 2 ^ k)) = Zpos v * 2 ^ k).
  { apply Z2Pos.id. lia. }
  split; [exact Hk|]. split; [exact Hz|].
  unfold bounded, canonical_mantissa.
  rewrite (digits2_pos_mul_pow2 v k _ ltac:(lia) Hz).
  unfold k in *. cbn [Zdigits2] in *. unfold fexp, SpecFloat.emin, emax, prec.
  apply andb_true_iff. split; [apply Z.eqb_eq | apply Z.leb_le]; lia.
Qed.

Lemma valid_nrm : forall V E,
  0 < V < 2 ^ 53 -> -1000 <= E <= 900 -> valid_binary (nrm V E) = true.
Proof. intros. apply nrm_facts; auto. Qed.

Lemma binary_round_nrm : forall M E' V E z,
  0 < V < 2 ^ 53 -> -1000 <= E <= 900 ->
  z <= E' -> z <= E - 53 ->
  Zpos M * 2 ^ (E' - z) = V * 2 ^ (E - z) ->
  binary_round prec emax false M E' = nrm V E.
Proof.
  intros M E' V E z HV HE Hz1 Hz2 Hval.
  destruct (nrm_facts V E HV HE) as [Hk [Hm Hb]].
  unfold nrm. apply (binary_round_exact _ _ _ _ z); auto; try lia.
  rewrite Hm, Hval.
  set (k := 53 - Zdigits2 V) in *.
  replace (E - z) with (k + (E - k - z)) by lia.
  rewrite Z.pow_add_r by lia. lia.
Qed.

Lemma binary_round_aux_nrm : forall M E' V E,
  0 < V < 2 ^ 53 -> -1000 <= E <= 900 ->
  E' <= E - (53 - Zdigits2 V) ->
  Zpos M = V * 2 ^ (E - E') ->
  binary_round_aux prec emax false (Zpos M) E' loc_Exact = nrm V E.
Proof.
  intros M E' V E HV HE Hz Hval.
  destruct (nrm_facts V E HV HE) as [Hk [Hm Hb]].
  unfold nrm. apply binary_round_aux_exact; auto; try lia.
  rewrite Hm, Hval.
  set (k := 53 - Zdigits2 V) in *.
  replace (E - E') with (k + (E - k - E')) by lia.
  rewrite Z.pow_add_r by lia. lia.
Qed.

Lemma SFcompare_nrm : forall V1 E1 V2 E2 z,
  0 < V1 < 2 ^ 53 -> -1000 <= E1 <= 900 ->
  0 < V2 < 2 ^ 53 -> -1000 <= E2 <= 900 ->
  z <= E1 - 53 -> z <= E2 - 53 ->
  SFcompare (nrm V1 E1) (nrm V2 E2)
  = Some (V1 * 2 ^ (E1 - z) ?= V2 * 2 ^ (E2 - z)).
Proof.
  intros V1 E1 V2 E2 z HV1 HE1 HV2 HE2 Hz1 Hz2.
  destruct (nrm_facts V1 E1 HV1 HE1) as [Hk1 [Hm1 Hb1]].
  destruct (nrm_facts V2 E2 HV2 HE2) as [Hk2 [Hm2 Hb2]].
  unfold nrm. rewrite (SFcompare_canonical _ _ _ _ z); auto; try lia.
  rewrite Hm1, Hm2. f_equal.
  set (k1 := 53 - Zdigits2 V1) in *. set (k2 := 53 - Zdigits2 V2) in *.
  replace (E1 - z) with (k1 + (E1 - k1 - z)) by lia.
  replace (E2 - z) with (k2 + (E2 - k2 - z)) by lia.
  rewrite !Z.pow_add_r by lia. f_equal; lia.
Qed.

(** A canonical positive float is the [nrm] of a number when it is normal. *)
Lemma normal_is_nrm : forall m e,
  bounded prec emax m e = true -> Zpos (digits2_pos m) = 53 ->
  S754_finite false m e = nrm (Zpos m) e.
Proof.
  intros m e Hb Hd. unfold nrm. cbn [Zdigits2]. rewrite Hd.
  rewrite Z.sub_diag. simpl (2 ^ 0). rewrite Z.mul_1_r, Z.sub_0_r.
  reflexivity.
Qed.

Lemma nrm_eq : forall V1 E1 V2 E2 z,
  0 < V1 < 2 ^ 53 -> -1000 <= E1 <= 900 ->
  0 < V2 < 2 ^ 53 -> -1000 <= E2 <= 900 ->
  z <= E1 - 53 -> z <= E2 - 53 ->
  V1 * 2 ^ (E1 - z) = V2 * 2 ^ (E2 - z) ->
  nrm V1 E1 = nrm V2 E2.
Proof.
  intros V1 E1 V2 E2 z HV1 HE1 HV2 HE2 Hz1 Hz2 Hval.
  destruct (nrm_facts V1 E1 HV1 HE1) as [Hk1 [Hm1 Hb1]].
  set (k1 := 53 - Zdigits2 V1) in *.
  assert (Hr : binary_round prec emax false (Z.to_pos (V1 * 2 ^ k1)) (E1 - k1) = nrm V1 E1).
  { apply (binary_round_nrm _ _ _ _ z); auto; try lia.
    rewrite Hm1. replace (E1 - z) with (k1 + (E1 - k1 - z)) by lia.
    rewrite Z.pow_add_r by lia. lia. }
  rewrite <- Hr.
  apply (binary_round_nrm _ _ _ _ z); auto; try lia.
  rewrite Hm1, <- Hval. replace (E1 - z) with (k1 + (E1 - k1 - z)) by lia.
  rewrite Z.pow_add_r by lia. lia.
Qed.

Lemma valid_fl : forall V E,
  0 <= V < 2 ^ 53 -> -1000 <= E <= 900 -> valid_binary (fl V E) = true.
Proof.
  intros V E HV HE. unfold fl. destruct (Z.eqb_spec V 0); [reflexivity|].
  apply valid_nrm; lia.
Qed.

Lemma binary_normalize_fl : forall M E' V E z,
  0 <= V < 2 ^ 53 -> -1000 <= E <= 900 ->
  z <= E' -> z <= E - 53 ->
  M * 2 ^ (E' - z) = V * 2 ^ (E - z) ->
  binary_normalize prec emax M E' false = fl V E.
Proof.
  intros M E' V E z HV HE Hz1 Hz2 Hval.
  assert (0 < 2 ^ (E' - z)) by (apply Z.pow_pos_nonneg; lia).
  assert (0 < 2 ^ (E - z)) by (apply Z.pow_pos_nonneg; lia).
  unfold fl. destruct (Z.eqb_spec V 0) as [->|Hne].
  - assert (M = 0) by nia. subst M. reflexivity.
  - destruct M as [|M|M]; try nia.
    cbn [binary_normalize]. apply (binary_round_nrm _ _ _ _ z); auto; lia.
Qed.

Lemma shl_align_fst : forall m e e', e' <= e ->
  Zpos (fst (shl_align m e e')) = Zpos m * 2 ^ (e - e').
Proof.
  intros m e e' H. destruct (shl_align_spec m e e' H) as [m' [-> Hm]]. exact Hm.
Qed.

(** Subtraction of floats on a common grid is exact. *)
Lemma SFsub_fl : forall V1 V2 E,
  0 <= V2 <= V1 -> V1 < 2 ^ 53 -> -900 <= E <= 900 ->
  SFsub prec emax (fl V1 E) (fl V2 E) = fl (V1 - V2) E.
Proof.
  intros V1 V2 E HV HV1 HE.
  unfold fl at 1 2.
  destruct (Z.eqb_spec V2 0) as [->|Hne2].
  { rewrite Z.sub_0_r. destruct (Z.eqb_spec V1 0) as [->|Hne1].
    - reflexivity.
    - unfold fl. destruct (Z.eqb_spec V1 0); [lia|]. reflexivity. }
  destruct (Z.eqb_spec V1 0) as [->|Hne1]; [lia|].
  destruct (nrm_facts V1 E ltac:(lia) ltac:(lia)) as [Hk1 [Hm1 Hb1]].
  destruct (nrm_facts V2 E ltac:(lia) ltac:(lia)) as [Hk2 [Hm2 Hb2]].
  unfold nrm. set (k1 := 53 - Zdigits2 V1) in *. set (k2 := 53 - Zdigits2 V2) in *.
  cbn [SFsub cond_Zopp].
  set (ez := Z.min (E - k1) (E - k2)).
  apply (binary_normalize_fl _ _ _ _ (E - 53)); try lia.
  rewrite !shl_align_fst by lia. rewrite Hm1, Hm2.
  rewrite Z.mul_sub_distr_r.
  rewrite <- !Z.mul_assoc, <- !Z.pow_add_r by lia.
  replace (k1 + (E - k1 - ez + (ez - (E - 53)))) with (E - (E - 53)) by lia.
  replace (k2 + (E - k2 - ez + (ez - (E - 53)))) with (E - (E - 53)) by lia.
  lia.
Qed.

Lemma digits_mul_le : forall a b : positive,
  Zpos (digits2_pos (a * b)) <= Zpos (digits2_pos a) + Zpos (digits2_pos b).
Proof.
  intros a b.
  destruct (digits2_pos_bounds a) as [_ Ha].
  destruct (digits2_pos_bounds b) as [_ Hb].
  destruct (digits2_pos_bounds (a * b)) as [Hab _].
  assert (2 ^ (Zpos (digits2_pos (a * b)) - 1)
          < 2 ^ (Zpos (digits2_pos a) + Zpos (digits2_pos b))).
  { rewrite Z.pow_add_r by lia. rewrite Pos2Z.inj_mul in Hab. nia. }
  apply Z.pow_lt_mono_r_iff in H; lia.
Qed.

(** Division of a float by a float that divides it is exact. *)
Lemma SFdiv_nrm : forall n W E,
  0 < n -> 0 < W -> n * W < 2 ^ 53 -> -900 <= E <= 900 ->
  SFdiv prec emax (nrm (n * W) E) (nrm W E) = nrm n 0.
Proof.
  intros n W E Hn HW HV HE.
  assert (Hn53 : n < 2 ^ 53) by nia.
  assert (HW53 : W < 2 ^ 53) by nia.
  destruct (nrm_facts (n * W) E ltac:(lia) ltac:(lia)) as [HkV [HmV HbV]].
  destruct (nrm_facts W E ltac:(lia) ltac:(lia)) as [HkW [HmW HbW]].
  destruct (nrm_facts n 0 ltac:(lia) ltac:(lia)) as [Hkn [Hmn Hbn]].
  assert (HdV : Zdigits2 (n * W) <= Zdigits2 n + Zdigits2 W).
  { destruct n as [|pn|]; try lia. destruct W as [|pW|]; try lia.
    cbn [Z.mul Zdigits2]. apply digits_mul_le. }
  unfold nrm at 1 2.
  set (kV := 53 - Zdigits2 (n * W)) in *. set (kW := 53 - Zdigits2 W) in *.
  set (kn := 53 - Zdigits2 n) in *.
  set (mV := Z.to_pos (n * W * 2 ^ kV)) in *. set (mW := Z.to_pos (W * 2 ^ kW)) in *.
  cbn [SFdiv xorb]. unfold SFdiv_core_binary. cbn [Zdigits2].
  destruct (canonical_digits _ _ HbV) as [_ [HdmV _]].
  destruct (canonical_digits _ _ HbW) as [_ [HdmW _]].
  rewrite HdmV, HdmW by (unfold SpecFloat.emin, emax, prec; lia).
  replace (Z.min (fexp prec emax (53 + (E - kV) - (53 + (E - kW)))) (E - kV - (E - kW)))
    with (kW - kV - 53) by (unfold fexp, SpecFloat.emin, emax, prec; lia).
  replace (E - kV - (E - kW) - (kW - kV - 53)) with 53 by lia.
  cbn match. rewrite Z.shiftl_mul_pow2 by lia.
  assert (Hq : Zpos mV * 2 ^ 53 = (n * 2 ^ (kV + 53 - kW)) * Zpos mW).
  { rewrite HmV, HmW.
    assert (2 ^ kV * 2 ^ 53 = 2 ^ (kV + 53 - kW) * 2 ^ kW).
    { rewrite <- !Z.pow_add_r by lia. f_equal. lia. }
    nia. }
  assert (Hdiv : Z.div_eucl (Zpos mV * 2 ^ 53) (Zpos mW) = (n * 2 ^ (kV + 53 - kW), 0)).
  { pose proof (Z_div_mod (Zpos mV * 2 ^ 53) (Zpos mW) ltac:(lia)) as Hdm.
    destruct (Z.div_eucl (Zpos mV * 2 ^ 53) (Zpos mW)) as [q r].
    destruct Hdm as [Heq Hr]. rewrite Hq in Heq.
    assert (r = 0 /\ q = n * 2 ^ (kV + 53 - kW)) as [-> ->]; [|reflexivity].
    assert (Zpos mW * (n * 2 ^ (kV + 53 - kW) - q) = r) by lia.
    assert (n * 2 ^ (kV + 53 - kW) - q = 0) by nia. lia. }
  rewrite Hdiv.
  assert (Hloc : new_location (Zpos mW) 0 = loc_Exact).
  { unfold new_location, new_location_even, new_location_odd.
    destruct (Z.even (Zpos mW)); reflexivity. }
  rewrite Hloc.
  assert (0 < n * 2 ^ (kV + 53 - kW)).
  { assert (0 < 2 ^ (kV + 53 - kW)) by (apply Z.pow_pos_nonneg; lia). nia. }
  destruct (n * 2 ^ (kV + 53 - kW)) as [|Mq|] eqn:EM; try lia.
  apply binary_round_aux_nrm; try lia.
  rewrite <- EM. f_equal. f_equal. lia.
Qed.

(** ** Binary64: signs *)

Lemma shr_1_nonneg : forall r, 0 <= shr_m r -> 0 <= shr_m (shr_1 r).
Proof.
  intros [m r s] H. cbn [shr_m] in H. unfold shr_1.
  destruct m as [|[p|p|]|p]; cbn [shr_m]; lia.
Qed.

Lemma shr_nonneg : forall r e n, 0 <= shr_m r -> 0 <= shr_m (fst (shr r e n)).
Proof.
  intros r e n H. unfold shr. destruct n as [|p|p]; cbn [fst]; auto.
  rewrite iter_pos_nat. induction (Pos.to_nat p) as [|k IH]; cbn [Nat.iter]; auto.
  apply shr_1_nonneg. exact IH.
Qed.

Lemma shr_fexp_nonneg : forall m e l, 0 <= m -> 0 <= shr_m (fst (shr_fexp prec emax m e l)).
Proof.
  intros m e l H. unfold shr_fexp. apply shr_nonneg.
  destruct l as [|[| |]]; exact H.
Qed.

Lemma binary_round_aux_nonneg : forall m e l,
  0 <= m -> SFnonneg (binary_round_aux prec emax false m e l).
Proof.
  intros m e l H. unfold binary_round_aux.
  pose proof (shr_fexp_nonneg m e l H) as H1.
  destruct (shr_fexp prec emax m e l) as [mrs' e']. cbn [fst] in H1.
  set (m1 := round_nearest_even (shr_m mrs') (loc_of_shr_record mrs')).
  assert (Hm1 : 0 <= m1).
  { unfold m1, round_nearest_even.
    destruct (loc_of_shr_record mrs') as [|[| |]]; try lia.
    destruct (Z.even (shr_m mrs')); lia. }
  pose proof (shr_fexp_nonneg m1 e' loc_Exact Hm1) as H2.
  destruct (shr_fexp prec emax m1 e' loc_Exact) as [mrs'' e'']. cbn [fst] in H2.
  destruct (shr_m mrs'') as [|p|p]; try lia; cbn [SFnonneg]; auto.
  destruct (e'' <=? emax - prec); exact I.
Qed.

Lemma binary_round_nonneg : forall m e, SFnonneg (binary_round prec emax false m e).
Proof.
  intros m e. unfold binary_round.
  destruct (shl_align m e _) as [mz ez]. apply binary_round_aux_nonneg. lia.
Qed.

Lemma binary_normalize_nonneg : forall m e sz,
  0 <= m -> SFnonneg (binary_normalize prec emax m e sz).
Proof.
  intros m e sz H. destruct m as [|p|p]; try lia; cbn [binary_normalize].
  - exact I.
  - apply binary_round_nonneg.
Qed.

Lemma SF_of_ratio_nonneg : forall n d, 0 <= n -> 0 < d -> SFnonneg (SF_of_ratio n d).
Proof.
  intros n d Hn Hd. unfold SF_of_ratio.
  destruct (n =? 0); [exact I|].
  unfold SFdiv_core_binary.
  set (e' := Z.min _ _). set (m' := match _ with Z0 => n | Zpos _ => _ | Zneg _ => 0 end).
  assert (Hm' : 0 <= m').
  { unfold m'. destruct (0 - 0 - e') as [|p|p] eqn:E; try lia.
    rewrite Z.shiftl_mul_pow2 by lia.
    assert (0 < 2 ^ Zpos p) by (apply Z.pow_pos_nonneg; lia). nia. }
  pose proof (Z_div_mod m' d ltac:(lia)) as Hdm.
  destruct (Z.div_eucl m' d) as [q r].
  apply binary_round_aux_nonneg. destruct Hdm as [Heq Hr]. nia.
Qed.

Lemma SFleb_zero_nonneg : forall x, SFnonneg x -> SFleb (S754_zero false) x = true.
Proof.
  intros [s|[|]| |[|] m e] H; cbn in H; try contradiction; reflexivity.
Qed.

Lemma nonneg_of_leb : forall x, SFleb (S754_zero false) x = true -> SFnonneg x.
Proof.
  intros [s|[|]| |[|] m e] H; cbn in *; try discriminate; exact I.
Qed.

Lemma SFldexp_nonneg : forall x e, SFnonneg x -> SFnonneg (SFldexp prec emax x e).
Proof.
  intros [s|[|]| |[|] m ex] e H; cbn in H; try contradiction; cbn [SFldexp]; auto.
  apply binary_round_nonneg.
Qed.

(** The float built from a non-negative specification is not below zero. *)
Lemma SF2Prim_nonneg : forall x, SFnonneg x -> (0 <=? SF2Prim x)%float = true.
Proof.
  intros x H. rewrite leb_spec. change (Prim2SF 0) with (S754_zero false).
  apply SFleb_zero_nonneg.
  destruct x as [s|[|]| |[|] m e]; cbn in H; try contradiction.
  - destruct s; exact I.
  - exact I.
  - cbn [SF2Prim]. rewrite Z_ldexp_spec. apply SFldexp_nonneg.
    rewrite of_uint63_spec. apply binary_normalize_nonneg.
    apply Uint63.to_Z_bounded.
Qed.

Lemma float_nonneg_SF : forall x, (0 <=? x)%float = true -> SFnonneg (Prim2SF x).
Proof.
  intros x H. rewrite leb_spec in H. apply nonneg_of_leb. exact H.
Qed.

Lemma SFdiv_nonneg : forall x m e,
  SFnonneg x -> SFnonneg (SFdiv prec emax x (S754_finite false m e)).
Proof.
  intros [s|[|]| |[|] mx ex] m e H; cbn in H; try contradiction; cbn [SFdiv xorb].
  - exact I.
  - exact I.
  - unfold SFdiv_core_binary.
    set (e' := Z.min _ _).
    set (m' := match _ with Z0 => Zpos mx | Zpos _ => _ | Zneg _ => 0 end).
    assert (Hm' : 0 <= m').
    { unfold m'. destruct (ex - e - e') as [|p|p] eqn:E; try lia.
      rewrite Z.shiftl_mul_pow2 by lia.
      assert (0 < 2 ^ Zpos p) by (apply Z.pow_pos_nonneg; lia). nia. }
    pose proof (Z_div_mod m' (Zpos m) ltac:(lia)) as Hdm.
    destruct (Z.div_eucl m' (Zpos m)) as [q r].
    apply binary_round_aux_nonneg. destruct Hdm as [Heq Hr]. nia.
Qed.

Lemma kmh_to_ms_nonneg : forall x,
  (0 <=? x)%float = true -> (0 <=? kmh_to_ms x)%float = true.
Proof.
  intros x H. unfold kmh_to_ms. rewrite leb_spec, div_spec.
  change (Prim2SF 0) with (S754_zero false).
  change (Prim2SF 3.6) with (S754_finite false 8106479329266893 (-51)).
  apply SFleb_zero_nonneg. apply SFdiv_nonneg. apply float_nonneg_SF. exact H.
Qed.

(** ** Binary64: the order of non-negative floats *)

Lemma key_finite_bounds : forall m e, bounded prec emax m e = true ->
  0 < Zpos m * 2 ^ (e + 1074) < 2 ^ 3000.
Proof.
  intros m e Hb.
  destruct (canonical_mantissa_bounds m e Hb) as [Hu _].
  destruct (canonical_digits m e Hb) as [_ [_ Hr]].
  unfold SpecFloat.emin, emax, prec in Hr.
  assert (0 < 2 ^ (e + 1074)) by (apply Z.pow_pos_nonneg; lia).
  assert (2 ^ (e + 1074) <= 2 ^ 2045) by (apply Z.pow_le_mono_r; lia).
  split; [nia|].
  apply Z.lt_le_trans with (2 ^ 53 * 2 ^ 2045).
  - apply Z.le_lt_trans with (Zpos m * 2 ^ 2045).
    + apply Z.mul_le_mono_nonneg_l; lia.
    + apply Z.mul_lt_mono_pos_r; [apply Z.pow_pos_nonneg; lia | exact Hu].
  - rewrite <- Z.pow_add_r by lia. apply Z.pow_le_mono_r; lia.
Qed.

Lemma SFcompare_key : forall x y,
  valid_binary x = true -> valid_binary y = true -> SFnonneg x -> SFnonneg y ->
  SFcompare x y = Some (key x ?= key y).
Proof.
  intros x y Hvx Hvy Hx Hy.
  destruct x as [sx|[|]| |[|] mx ex]; cbn in Hx; try contradiction;
  destruct y as [sy|[|]| |[|] my ey]; cbn in Hy; try contradiction;
  cbn [valid_binary] in Hvx, Hvy; cbn [key].
  - reflexivity.
  - reflexivity.
  - cbn [SFcompare]. f_equal. symmetry. apply Z.compare_lt_iff.
    apply (key_finite_bounds my ey Hvy).
  - reflexivity.
  - reflexivity.
  - cbn [SFcompare]. f_equal. symmetry. apply Z.compare_gt_iff.
    apply (key_finite_bounds my ey Hvy).
  - cbn [SFcompare]. f_equal. symmetry. apply Z.compare_gt_iff.
    apply (key_finite_bounds mx ex Hvx).
  - cbn [SFcompare]. f_equal. symmetry. apply Z.compare_lt_iff.
    apply (key_finite_bounds mx ex Hvx).
  - destruct (canonical_digits mx ex Hvx) as [_ [_ Hrx]].
    destruct (canonical_digits my ey Hvy) as [_ [_ Hry]].
    unfold SpecFloat.emin, emax, prec in Hrx, Hry.
    rewrite (SFcompare_canonical mx ex my ey (-1074)) by (auto; lia).
    replace (ex - -1074) with (ex + 1074) by lia.
    replace (ey - -1074) with (ey + 1074) by lia. reflexivity.
Qed.

Lemma ltb_key : forall a b,
  (0 <=? a)%float = true -> (0 <=? b)%float = true ->
  (a <? b)%float = (fkey a <? fkey b).
Proof.
  intros a b Ha Hb. rewrite ltb_spec. unfold SFltb, fkey.
  rewrite SFcompare_key by (try apply Prim2SF_valid; apply float_nonneg_SF; auto).
  unfold Z.ltb. reflexivity.
Qed.

Lemma leb_key : forall a b,
  (0 <=? a)%float = true -> (0 <=? b)%float = true ->
  (a <=? b)%float = (fkey a <=? fkey b).
Proof.
  intros a b Ha Hb. rewrite leb_spec. unfold SFleb, fkey.
  rewrite SFcompare_key by (try apply Prim2SF_valid; apply float_nonneg_SF; auto).
  unfold Z.leb. destruct (_ ?= _); reflexivity.
Qed.

(** [max] of a list of non-negative floats is one of them and none is greater. *)
Lemma max_float_spec : forall vs v,
  Forall (fun x => (0 <=? x)%float = true) (v :: vs) ->
  In (max_float v vs) (v :: vs)
  /\ (0 <=? max_float v vs)%float = true
  /\ forall w, In w (v :: vs) -> (w <=? max_float v vs)%float = true.
Proof.
  unfold max_float.
  induction vs as [|x vs IH]; intros v Hall; cbn [fold_left].
  - inversion Hall; subst. split; [left; auto|]. split; auto.
    intros w [<-|[]]. rewrite leb_key by auto. apply Z.leb_refl.
  - inversion Hall as [|? ? Hv Hrest]; subst. inversion Hrest as [|? ? Hx Hvs]; subst.
    destruct (v <? x)%float eqn:Hlt.
    + destruct (IH x ltac:(constructor; auto)) as [Hin [Hnn Hmax]].
      split; [right; exact Hin|]. split; [exact Hnn|].
      intros w [<-|Hw]; [|apply Hmax; exact Hw].
      pose proof (Hmax x ltac:(left; auto)) as Hxm.
      rewrite ltb_key in Hlt by auto. rewrite leb_key in Hxm |- * by auto.
      apply Z.ltb_lt in Hlt. apply Z.leb_le in Hxm. apply Z.leb_le. lia.
    + destruct (IH v ltac:(constructor; auto)) as [Hin [Hnn Hmax]].
      split; [destruct Hin as [<-|Hin]; [left; auto|right; right; auto]|].
      split; [exact Hnn|].
      intros w [<-|[<-|Hw]].
      * apply Hmax. left; auto.
      * pose proof (Hmax v ltac:(left; auto)) as Hvm.
        rewrite ltb_key in Hlt by auto. rewrite leb_key in Hvm |- * by auto.
        apply Z.ltb_ge in Hlt. apply Z.leb_le in Hvm. apply Z.leb_le. lia.
      * apply Hmax. right; auto.
Qed.

(** ** [format_seconds] computes the exact minutes and remainder *)

Lemma Prim2SF_60 : Prim2SF 60 = S754_finite false 8444249301319680 (-47).
Proof. vm_compute. reflexivity. Qed.

Lemma Prim2SF_60_nrm : forall e, -47 <= e <= 2 ->
  Prim2SF 60 = nrm (15 * 2 ^ (2 - e)) e.
Proof.
  intros e He. rewrite Prim2SF_60.
  assert (0 < 2 ^ (2 - e) <= 2 ^ 49).
  { split; [apply Z.pow_pos_nonneg; lia | apply Z.pow_le_mono_r; lia]. }
  change (S754_finite false 8444249301319680 (-47)) with (nrm 8444249301319680 (-47)).
  change (2 ^ 49) with 562949953421312 in *.
  apply (nrm_eq _ _ _ _ (-100));
    change (2 ^ 53) with 9007199254740992; try lia.
  rewrite <- Z.mul_assoc, <- Z.pow_add_r by lia.
  replace (2 - e + (e - -100)) with 102 by lia. reflexivity.
Qed.

Lemma Prim2SF_fl : forall V E,
  0 <= V < 2 ^ 53 -> -1000 <= E <= 900 -> Prim2SF (SF2Prim (fl V E)) = fl V E.
Proof. intros. apply Prim2SF_SF2Prim. apply valid_fl; auto. Qed.

Lemma SFcompare_fl_zero : forall V E, 0 <= V ->
  SFcompare (fl V E) (S754_zero false) = Some (if V =? 0 then Eq else Gt).
Proof. intros V E HV. unfold fl. destruct (V =? 0); reflexivity. Qed.

Lemma floor_nrm : forall x k, 0 < k < 2 ^ 53 ->
  Prim2SF x = nrm k 0 -> floor x = x.
Proof.
  intros x k Hk Hx.
  destruct (nrm_facts k 0 Hk ltac:(lia)) as [Hj [Hmk Hb]].
  unfold floor. rewrite Hx. unfold nrm.
  set (j := 53 - Zdigits2 k) in *. cbn match.
  destruct (Z.leb_spec 0 (0 - j)); [reflexivity|].
  cbn [cond_Zopp]. rewrite Hmk.
  replace (- (0 - j)) with j by lia.
  rewrite Z.shiftr_div_pow2, Z.div_mul by (try apply Z.pow_nonzero; lia).
  rewrite (binary_normalize_fl _ _ k 0 (-53)); try lia.
  unfold fl. destruct (Z.eqb_spec k 0); [lia|].
  rewrite <- Hx. apply SF2Prim_Prim2SF.
Qed.

Lemma int_of_float_nrm : forall x k, 0 < k < 2 ^ 53 ->
  Prim2SF x = nrm k 0 -> int_of_float x = Ok k.
Proof.
  intros x k Hk Hx.
  destruct (nrm_facts k 0 Hk ltac:(lia)) as [Hj [Hmk Hb]].
  unfold int_of_float. rewrite Hx. unfold nrm.
  set (j := 53 - Zdigits2 k) in *. cbn match. cbn [cond_Zopp].
  rewrite Hmk. replace (0 - j) with (- j) by lia.
  rewrite Z.shiftl_opp_r, Z.shiftr_div_pow2, Z.div_mul by (try apply Z.pow_nonzero; lia).
  reflexivity.
Qed.

Lemma Prim2SF_01 : Prim2SF 0.1 = nrm 7205759403792794 (-56).
Proof. vm_compute. reflexivity. Qed.

Section Grid.
Variables (s : float) (m : positive) (e : Z).
Hypothesis Hs : Prim2SF s = S754_finite false m e.
Hypothesis Hm : 2 ^ 52 <= Zpos m < 2 ^ 53.
Hypothesis He : -47 <= e <= 2.
Let W := 15 * 2 ^ (2 - e).
Hypothesis HW : W <= Zpos m.

Lemma W_pos : 0 < W <= 15 * 2 ^ 49.
Proof.
  unfold W. assert (0 < 2 ^ (2 - e) <= 2 ^ 49).
  { split; [apply Z.pow_pos_nonneg; lia | apply Z.pow_le_mono_r; lia]. }
  lia.
Qed.

Lemma s_is_nrm : Prim2SF s = nrm (Zpos m) e.
Proof.
  rewrite Hs. apply normal_is_nrm.
  - pose proof (Prim2SF_valid s) as Hv. rewrite Hs in Hv. exact Hv.
  - apply digits2_pos_unique. simpl. lia.
Qed.

Lemma s_is_fl : Prim2SF s = fl (Zpos m) e.
Proof. rewrite s_is_nrm. reflexivity. Qed.

Lemma fmod_60 : Prim2SF (fmod s 60) = fl (Zpos m mod W) e.
Proof.
  pose proof W_pos as HWp.
  pose proof (Z.mod_pos_bound (Zpos m) W ltac:(lia)) as HR.
  unfold fmod. rewrite Hs, Prim2SF_60. cbn match.
  rewrite Z.min_r by lia.
  assert (Hc : 0 < 2 ^ (e - -47)) by (apply Z.pow_pos_nonneg; lia).
  rewrite Z.sub_diag. change (2 ^ 0) with 1. rewrite Z.mul_1_r.
  assert (HY : 8444249301319680 = W * 2 ^ (e - -47)).
  { unfold W. rewrite <- Z.mul_assoc, <- Z.pow_add_r by lia.
    replace (2 - e + (e - -47)) with 49 by lia. reflexivity. }
  rewrite HY.
  rewrite Z.rem_mod_nonneg by nia.
  rewrite Z.mul_mod_distr_r by lia.
  cbn [cond_Zopp].
  rewrite (binary_normalize_fl _ _ (Zpos m mod W) e (e - 53)); try lia.
  - apply Prim2SF_fl; lia.
  - rewrite <- Z.mul_assoc, <- Z.pow_add_r by lia. f_equal. f_equal. lia.
Qed.

Lemma sub_fmod : Prim2SF (s - fmod s 60)%float = nrm (Zpos m / W * W) e.
Proof.
  pose proof W_pos as HWp.
  pose proof (Z.mod_pos_bound (Zpos m) W ltac:(lia)) as HR.
  rewrite sub_spec, s_is_fl, fmod_60.
  unfold SF64sub. rewrite SFsub_fl by lia.
  pose proof (Z.div_mod (Zpos m) W ltac:(lia)) as Hdm.
  replace (Zpos m - Zpos m mod W) with (Zpos m / W * W) by lia.
  unfold fl.
  assert (1 <= Zpos m / W) by (apply Z.div_le_lower_bound; lia).
  destruct (Z.eqb_spec (Zpos m / W * W) 0); [nia | reflexivity].
Qed.

Lemma div_60 : Prim2SF ((s - fmod s 60) / 60)%float = nrm (Zpos m / W) 0.
Proof.
  pose proof W_pos as HWp.
  pose proof (Z.div_mod (Zpos m) W ltac:(lia)) as Hdm.
  pose proof (Z.mod_pos_bound (Zpos m) W ltac:(lia)) as HR.
  assert (1 <= Zpos m / W) by (apply Z.div_le_lower_bound; lia).
  rewrite div_spec, sub_fmod, (Prim2SF_60_nrm e He).
  fold W. unfold SF64div. apply SFdiv_nrm; try lia.
Qed.

Let n := Zpos m / W.
Let R := Zpos m mod W.

Lemma grid_facts : 0 < W <= 15 * 2 ^ 49 /\ 1 <= n /\ 0 <= R < W
  /\ Zpos m = n * W + R /\ n < 2 ^ 53.
Proof.
  pose proof W_pos as HWp.
  pose proof (Z.div_mod (Zpos m) W ltac:(lia)) as Hdm.
  pose proof (Z.mod_pos_bound (Zpos m) W ltac:(lia)) as HR.
  assert (1 <= n) by (apply Z.div_le_lower_bound; lia).
  fold n in Hdm. fold R in Hdm, HR.
  repeat split; try lia; nia.
Qed.

Lemma floordiv_60 : exists q, floordiv s 60 = Ok q /\ Prim2SF q = nrm n 0.
Proof.
  destruct grid_facts as [HWp [Hn [HR [Hdm Hn53]]]].
  unfold floordiv.
  change (60 =? 0)%float with false. change (60 <? 0)%float with false.
  cbv zeta. cbn match.
  set (md := fmod s 60).
  set (d := ((s - md) / 60)%float).
  assert (Hd : Prim2SF d = nrm n 0) by apply div_60.
  assert (Hmd : (md <? 0)%float = false).
  { rewrite ltb_spec. unfold md. rewrite fmod_60.
    change (Prim2SF 0) with (S754_zero false).
    unfold SFltb. rewrite SFcompare_fl_zero by (fold R; lia).
    destruct (_ =? 0); reflexivity. }
  rewrite Hmd. cbn [xorb].
  replace (if negb (md =? 0)%float then d else d) with d by (destruct (negb _); reflexivity).
  assert (Hd0 : (d =? 0)%float = false).
  { rewrite eqb_spec, Hd. change (Prim2SF 0) with (S754_zero false).
    unfold SFeqb. change (nrm n 0) with (if false then S754_zero false else nrm n 0).
    reflexivity. }
  rewrite Hd0. cbn [negb].
  rewrite (floor_nrm d n) by (auto; lia).
  assert (Hsub : (0.5 <? d - d)%float = false).
  { rewrite ltb_spec, sub_spec, Hd.
    assert (Hfl : nrm n 0 = fl n 0).
    { unfold fl. destruct (Z.eqb_spec n 0); [lia|reflexivity]. }
    rewrite Hfl. unfold SF64sub. rewrite SFsub_fl by lia.
    rewrite Z.sub_diag. reflexivity. }
  rewrite Hsub. exists d. split; [reflexivity | exact Hd].
Qed.

Lemma sub_int_60 : exists r,
  sub_int s (n * 60) = Ok r /\ Prim2SF r = fl R e.
Proof.
  destruct grid_facts as [HWp [Hn [HR [Hdm Hn53]]]].
  unfold sub_int, float_of_int.
  assert (Hf : binary_normalize prec emax (n * 60) 0 false = fl (n * W) e).
  { apply (binary_normalize_fl _ _ _ _ (e - 53)); try lia.
    assert (Hp : 2 ^ (2 - e) * 2 ^ (e - (e - 53)) = 4 * 2 ^ (0 - (e - 53))).
    { rewrite <- Z.pow_add_r by lia.
      replace (2 - e + (e - (e - 53))) with (2 + (0 - (e - 53))) by lia.
      rewrite Z.pow_add_r by lia. reflexivity. }
    unfold W. rewrite <- !Z.mul_assoc, Hp. ring. }
  rewrite Hf.
  assert (Hnz : fl (n * W) e = nrm (n * W) e).
  { unfold fl. destruct (Z.eqb_spec (n * W) 0); [nia|reflexivity]. }
  exists (s - SF2Prim (fl (n * W) e))%float. split.
  - rewrite Hnz. reflexivity.
  - rewrite sub_spec, s_is_fl, Prim2SF_fl by lia.
    unfold SF64sub. rewrite SFsub_fl by lia.
    f_equal. lia.
Qed.

Lemma remainder_lt_01 : forall r, Prim2SF r = fl R e ->
  (r <? 0.1)%float = (R * 2 ^ (e + 47) * 10 <? 2 ^ 47).
Proof.
  destruct grid_facts as [HWp [Hn [HR [Hdm Hn53]]]].
  intros r Hr. rewrite ltb_spec, Hr, Prim2SF_01. unfold SFltb, fl.
  destruct (Z.eqb_spec R 0) as [H0|H0].
  - rewrite H0. reflexivity.
  - assert (HR53 : 0 < R < 2 ^ 53).
    { change (2 ^ 49) with 562949953421312 in HWp.
      change (2 ^ 53) with 9007199254740992. lia. }
    assert (H01 : 0 < 7205759403792794 < 2 ^ 53).
    { change (2 ^ 53) with 9007199254740992. lia. }
    rewrite (SFcompare_nrm R e 7205759403792794 (-56) (-109) HR53 ltac:(lia) H01) by lia.
    assert (Hc : 0 < 2 ^ (e + 47)) by (apply Z.pow_pos_nonneg; lia).
    replace (e - -109) with ((e + 47) + 62) by lia.
    rewrite Z.pow_add_r by lia.
    change (-56 - -109) with 53.
    set (K := R * 2 ^ (e + 47)).
    replace (R * (2 ^ (e + 47) * 2 ^ 62)) with (K * 2 ^ 62) by (unfold K; ring).
    change (2 ^ 62) with 4611686018427387904.
    change (2 ^ 53) with 9007199254740992.
    change (2 ^ 47) with 140737488355328.
    destruct (Z.ltb_spec (K * 10) 140737488355328);
      destruct (Z.compare_spec (K * 4611686018427387904)
                               (7205759403792794 * 9007199254740992));
      try reflexivity; lia.
Qed.

End Grid.

Lemma SF2Q_scaled : forall m e z, z <= e -> z <= 0 ->
  (SF2Q m e == (Zpos m * 2 ^ (e - z)) # Z.to_pos (2 ^ (- z)))%Q.
Proof.
  intros m e z Hze Hz0.
  assert (Hp : 0 < 2 ^ (- z)) by (apply Z.pow_pos_nonneg; lia).
  unfold SF2Q, Qeq. destruct e as [|p|p]; cbn [Qnum Qden inject_Z].
  - rewrite Z2Pos.id by lia. replace (0 - z) with (- z) by lia. change (2 ^ 0) with 1. lia.
  - rewrite Z2Pos.id by lia.
    replace (Zpos p - z) with (Zpos p + - z) by lia.
    rewrite Z.pow_add_r by lia. lia.
  - rewrite Z2Pos.id by lia. rewrite Pos2Z.inj_pow.
    replace (- z) with ((Zneg p - z) + Zpos p) by lia.
    rewrite Z.pow_add_r by lia. lia.
Qed.

Lemma SF2Q_pos : forall m e, (0 < SF2Q m e)%Q.
Proof.
  intros m e. unfold SF2Q, Qlt. destruct e as [|p|p]; cbn [Qnum Qden inject_Z]; try lia.
Qed.

Lemma round_half_even_comp : forall q1 q2, (q1 == q2)%Q ->
  round_half_even q1 = round_half_even q2.
Proof.
  intros q1 q2 H. unfold round_half_even.
  rewrite (Qfloor_comp _ _ H).
  assert (Hc : ((q1 - inject_Z (Qfloor q2) ?= 1 # 2) = (q2 - inject_Z (Qfloor q2) ?= 1 # 2))%Q).
  { apply Qcompare_comp; [rewrite H|]; reflexivity. }
  rewrite Hc. reflexivity.
Qed.

Lemma fixed1_comp : forall q1 q2, (q1 == q2)%Q -> fixed1 q1 = fixed1 q2.
Proof.
  intros q1 q2 H. unfold fixed1.
  rewrite (round_half_even_comp (q1 * 10)%Q (q2 * 10)%Q); [reflexivity|].
  rewrite H. reflexivity.
Qed.

(** The value of [nrm V E] and of [fl V E]. *)
Lemma F2Q_finite : forall x m e, Prim2SF x = S754_finite false m e ->
  F2Q x = SF2Q m e.
Proof. intros x m e H. unfold F2Q. rewrite H. reflexivity. Qed.

Lemma SF2Q_nrm : forall V E z, 0 < V < 2 ^ 53 -> -1000 <= E <= 900 ->
  z <= E - 53 -> z <= 0 ->
  match nrm V E with
  | S754_finite _ m e => (SF2Q m e == (V * 2 ^ (E - z)) # Z.to_pos (2 ^ (- z)))%Q
  | _ => False
  end.
Proof.
  intros V E z HV HE Hz Hz0.
  destruct (nrm_facts V E HV HE) as [Hk [Hm Hb]].
  unfold nrm. set (k := 53 - Zdigits2 V) in *.
  rewrite (SF2Q_scaled _ _ z) by lia. rewrite Hm.
  replace (E - z) with (k + (E - k - z)) by lia.
  rewrite Z.pow_add_r by lia. rewrite Z.mul_assoc. reflexivity.
Qed.

Lemma Qcompare_frac : forall A B (d : positive),
  (A # d ?= B # d)%Q = (A ?= B).
Proof.
  intros. unfold Qcompare. cbn [Qnum Qden].
  destruct (Z.compare_spec A B);
    [subst; apply Z.compare_refl | apply Z.compare_lt_iff; nia
    | apply Z.compare_gt_iff; nia].
Qed.

Lemma grid_c : forall e, -47 <= e <= 2 ->
  0 < 2 ^ (e + 47) /\ 15 * 2 ^ (2 - e) * 2 ^ (e + 47) = 60 * 2 ^ 47.
Proof.
  intros e He. split; [apply Z.pow_pos_nonneg; lia|].
  rewrite <- Z.mul_assoc, <- Z.pow_add_r by lia.
  replace (2 - e + (e + 47)) with 49 by lia. reflexivity.
Qed.

Section GridSpec.
Variables (s : float) (m : positive) (e : Z).
Hypothesis Hs : Prim2SF s = S754_finite false m e.
Hypothesis Hm : 2 ^ 52 <= Zpos m < 2 ^ 53.
Hypothesis He : -47 <= e <= 2.
Let W := 15 * 2 ^ (2 - e).
Hypothesis HW : W <= Zpos m.
Let n := Zpos m / W.
Let R := Zpos m mod W.
Let c := 2 ^ (e + 47).
Let d47 : positive := 140737488355328.

Lemma F2Q_grid : (F2Q s == (Zpos m * c) # d47)%Q.
Proof.
  rewrite (F2Q_finite s m e Hs). rewrite (SF2Q_scaled m e (-47)) by lia.
  unfold c. replace (e - -47) with (e + 47) by lia. reflexivity.
Qed.

Lemma spec_branch : (F2Q s ?= 60)%Q <> Lt.
Proof.
  destruct (grid_c e He) as [Hc HWc]. fold W c in HWc. fold c in Hc.
  rewrite (Qcompare_comp _ _ F2Q_grid 60%Q ((60 * 2 ^ 47) # d47)%Q) by reflexivity.
  rewrite Qcompare_frac. rewrite <- HWc.
  intro H. apply Z.compare_lt_iff in H.
  apply Z.mul_lt_mono_pos_r in H; [|exact Hc]. clear - H HW. lia.
Qed.

Lemma spec_minutes : Qfloor (F2Q s / 60)%Q = n.
Proof.
  destruct (grid_c e He) as [Hc HWc]. fold W c in HWc. fold c in Hc.
  assert (Hq : (F2Q s / 60 == (Zpos m * c) # (d47 * 60))%Q).
  { rewrite F2Q_grid. unfold Qeq, Qdiv, Qmult, Qinv. cbn [Qnum Qden]. lia. }
  rewrite (Qfloor_comp _ _ Hq). unfold Qfloor.
  change (Zpos (d47 * 60)) with (60 * 2 ^ 47). rewrite <- HWc.
  unfold n. apply Z.div_mul_cancel_r; lia.
Qed.

Lemma spec_remainder :
  (F2Q s - inject_Z n * 60 == (R * c) # d47)%Q.
Proof.
  destruct (grid_c e He) as [Hc HWc]. fold W c in HWc. fold c in Hc.
  destruct (grid_facts m e Hm He HW) as [HWp [Hn [HR [Hdm Hn53]]]].
  fold W in Hdm, HR. fold n in Hdm, Hn. fold R in Hdm, HR.
  rewrite F2Q_grid. unfold Qeq, Qminus, Qplus, Qopp, Qmult, inject_Z.
  cbn [Qnum Qden]. 
  change (Zpos d47) with (2 ^ 47). change (Zpos (d47 * (1 * 1))) with (2 ^ 47).
  rewrite Hdm at 1. 
  assert (n * W * c = n * 60 * 2 ^ 47) by (rewrite <- Z.mul_assoc, HWc; ring).
  nia.
Qed.

End GridSpec.

Lemma format_1f_nrm : forall x V E z q, 0 < V < 2 ^ 53 -> -1000 <= E <= 900 ->
  z <= E - 53 -> z <= 0 ->
  Prim2SF x = nrm V E ->
  (q == (V * 2 ^ (E - z)) # Z.to_pos (2 ^ (- z)))%Q ->
  format_1f x = fixed1 q.
Proof.
  intros x V E z q HV HE Hz Hz0 Hx Hq.
  pose proof (SF2Q_nrm V E z HV HE Hz Hz0) as Hn.
  unfold format_1f. rewrite Hx. destruct (nrm V E) as [| | |sg mm ee] eqn:En; try contradiction.
  unfold nrm in En. injection En as <- _ _. cbn [app].
  apply fixed1_comp. rewrite Hn, Hq. reflexivity.
Qed.

Lemma format_seconds_grid : forall s m e,
  Prim2SF s = S754_finite false m e ->
  2 ^ 52 <= Zpos m < 2 ^ 53 -> -47 <= e <= 2 -> 15 * 2 ^ (2 - e) <= Zpos m ->
  (s <? 60)%float = false ->
  format_seconds s = Ok (format_seconds_spec s).
Proof.
  intros s m e Hs Hm He HW H60.
  set (W := 15 * 2 ^ (2 - e)) in *.
  set (n := Zpos m / W). set (R := Zpos m mod W).
  destruct (grid_facts m e Hm He HW) as [HWp [Hn [HR [Hdm Hn53]]]].
  fold W in HWp, HR, Hdm. fold n in Hn, Hdm, Hn53. fold R in HR, Hdm.
  destruct (grid_c e He) as [Hc HWc]. fold W in HWc.
  unfold format_seconds. rewrite H60.
  destruct (floordiv_60 s m e Hs Hm He HW) as [q [Hq1 Hq2]]. fold W n in Hq2.
  rewrite Hq1. cbn [rbind].
  rewrite (int_of_float_nrm q n) by (auto; lia). cbn [rbind].
  destruct (sub_int_60 s m e Hs Hm He HW) as [r [Hr1 Hr2]]. fold W n in Hr1. fold W R in Hr2.
  rewrite Hr1. cbn [rbind].
  rewrite (remainder_lt_01 m e Hm He HW r Hr2). fold W R.
  unfold format_seconds_spec. cbv zeta.
  pose proof (spec_branch s m e Hs He HW) as Hb.
  pose proof (spec_minutes s m e Hs He) as Hmin. fold W n in Hmin.
  pose proof (spec_remainder s m e Hs Hm He HW) as Hrem. fold W n R in Hrem.
  rewrite Hmin.
  assert (Hcmp : ((F2Q s - inject_Z n * 60 ?= 1 # 10)%Q
                 = (R * 2 ^ (e + 47) * 10 ?= 2 ^ 47))).
  { rewrite (Qcompare_comp _ _ Hrem (1 # 10)%Q (1 # 10)%Q) by reflexivity.
    unfold Qcompare. cbn [Qnum Qden]. reflexivity. }
  rewrite Hcmp.
  assert (Hfmt : (R * 2 ^ (e + 47) * 10 <? 2 ^ 47) = false ->
                 format_1f r = fixed1 (F2Q s - inject_Z n * 60)%Q).
  { intros Hge. apply Z.ltb_ge in Hge.
    assert (R <> 0).
    { intros ->. rewrite !Z.mul_0_l in Hge. change (2 ^ 47) with 140737488355328 in Hge. lia. }
    assert (HR53 : 0 < R < 2 ^ 53).
    { change (2 ^ 49) with 562949953421312 in HWp.
      change (2 ^ 53) with 9007199254740992. lia. }
    apply (format_1f_nrm r R e (-100) _ HR53); try lia.
    - rewrite Hr2. unfold fl. destruct (Z.eqb_spec R 0); [contradiction|reflexivity].
    - rewrite Hrem. unfold Qeq. cbn [Qnum Qden].
      replace (e - -100) with ((e + 47) + 53) by lia.
      rewrite (Z.pow_add_r 2 (e + 47) 53) by lia.
      change (Zpos (Z.to_pos (2 ^ (- -100)))) with (2 ^ 53 * 2 ^ 47).
      change (Zpos 140737488355328) with (2 ^ 47). ring. }
  destruct (Z.ltb_spec (R * 2 ^ (e + 47) * 10) (2 ^ 47)) as [Hlt|Hge].
  - apply Z.compare_lt_iff in Hlt. rewrite Hlt.
    destruct (F2Q s ?= 60)%Q; [reflexivity|contradiction|reflexivity].
  - rewrite Hfmt by reflexivity.
    destruct (F2Q s ?= 60)%Q; [|contradiction|];
      (destruct (Z.compare_spec (R * 2 ^ (e + 47) * 10) (2 ^ 47)); [reflexivity|lia|reflexivity]).
Qed.

Lemma Prim2SF_2p55 : Prim2SF 0x1p55 = S754_finite false 4503599627370496 3.
Proof. vm_compute. reflexivity. Qed.

Lemma bounded_60 : bounded prec emax 8444249301319680 (-47) = true.
Proof. vm_compute. reflexivity. Qed.

Lemma bounded_2p55 : bounded prec emax 4503599627370496 3 = true.
Proof. vm_compute. reflexivity. Qed.

Lemma grid_of_bounds : forall s,
  (s <? 60)%float = false -> (s <? 0x1p55)%float = true ->
  exists m e, Prim2SF s = S754_finite false m e
    /\ 2 ^ 52 <= Zpos m < 2 ^ 53 /\ -47 <= e <= 2 /\ 15 * 2 ^ (2 - e) <= Zpos m.
Proof.
  intros s H60 H55. rewrite ltb_spec in H60, H55.
  rewrite Prim2SF_60 in H60. rewrite Prim2SF_2p55 in H55.
  pose proof (Prim2SF_valid s) as Hv.
  destruct (Prim2SF s) as [sg|sg| |sg m e] eqn:Es; try discriminate;
    try (destruct sg; discriminate).
  destruct sg; [discriminate|].
  exists m, e. split; [reflexivity|].
  cbn [valid_binary] in Hv.
  destruct (canonical_mantissa_bounds m e Hv) as [Hu Hl].
  destruct (canonical_digits m e Hv) as [_ [_ Hr]].
  unfold SFltb in H60, H55.
  rewrite (SFcompare_canonical m e _ _ (Z.min e (-47)) Hv bounded_60) in H60 by lia.
  rewrite (SFcompare_canonical m e _ _ (Z.min e 3) Hv bounded_2p55) in H55 by lia.
  assert (He47 : -47 <= e).
  { destruct (Z_le_gt_dec (-47) e) as [|Hlt]; [assumption|exfalso].
    rewrite Z.min_l in H60 by lia. rewrite Z.sub_diag in H60. change (2 ^ 0) with 1 in H60.
    assert (2 ^ 1 <= 2 ^ (-47 - e)) by (apply Z.pow_le_mono_r; lia).
    change (2 ^ 1) with 2 in *. change (2 ^ 53) with 9007199254740992 in *.
    assert (Zpos m * 1 < 8444249301319680 * 2 ^ (-47 - e)) as Hc by lia.
    apply Z.compare_lt_iff in Hc. rewrite Hc in H60. discriminate. }
  assert (Hlo : 2 ^ 52 <= Zpos m) by (apply Hl; unfold SpecFloat.emin, emax, prec; lia).
  assert (He2 : e <= 2).
  { destruct (Z_le_gt_dec e 2) as [|Hgt]; [assumption|exfalso].
    rewrite Z.min_r in H55 by lia. rewrite Z.sub_diag in H55. change (2 ^ 0) with 1 in H55.
    assert (2 ^ 0 <= 2 ^ (e - 3)) by (apply Z.pow_le_mono_r; lia).
    change (2 ^ 0) with 1 in *. change (2 ^ 52) with 4503599627370496 in *.
    destruct (Z.compare_spec (Zpos m * 2 ^ (e - 3)) (4503599627370496 * 1));
      try discriminate. nia. }
  split; [lia|]. split; [lia|].
  rewrite Z.min_r in H60 by lia. rewrite Z.sub_diag in H60. change (2 ^ 0) with 1 in H60.
  assert (Hc : 0 < 2 ^ (e - -47)) by (apply Z.pow_pos_nonneg; lia).
  assert (HY : 8444249301319680 = 15 * 2 ^ (2 - e) * 2 ^ (e - -47)).
  { rewrite <- Z.mul_assoc, <- Z.pow_add_r by lia.
    replace (2 - e + (e - -47)) with 49 by lia. reflexivity. }
  destruct (Z.compare_spec (Zpos m * 2 ^ (e - -47)) (8444249301319680 * 1)) as [Hq|Hq|Hq];
    try discriminate; rewrite HY in Hq; nia.
Qed.

Lemma F2Q_lt_60 : forall s, (s <? 60)%float = true -> (F2Q s ?= 60)%Q = Lt.
Proof.
  intros s H60. rewrite ltb_spec, Prim2SF_60 in H60.
  pose proof (Prim2SF_valid s) as Hv.
  unfold F2Q.
  destruct (Prim2SF s) as [sg|sg| |sg m e] eqn:Es; try discriminate; try reflexivity.
  destruct sg.
  - apply Qlt_alt. apply Qlt_trans with 0%Q; [|reflexivity].
    pose proof (SF2Q_pos m e) as Hp.
    apply Qopp_lt_compat in Hp. exact Hp.
  - cbn [valid_binary] in Hv. unfold SFltb in H60.
    set (z := Z.min e (-47)).
    rewrite (SFcompare_canonical m e _ _ z Hv bounded_60) in H60 by (unfold z; lia).
    assert (Hz : 0 < 2 ^ (- z)) by (apply Z.pow_pos_nonneg; unfold z; lia).
    assert (H60q : (60 == (60 * 2 ^ (- z)) # Z.to_pos (2 ^ (- z)))%Q).
    { unfold Qeq. cbn [Qnum Qden]. rewrite Z2Pos.id by lia. ring. }
    rewrite (Qcompare_comp _ _ (SF2Q_scaled m e z ltac:(unfold z; lia) ltac:(unfold z; lia))
               _ _ H60q).
    rewrite Qcompare_frac.
    assert (HY : 8444249301319680 * 2 ^ (-47 - z) = 60 * 2 ^ (- z)).
    { replace (- z) with (47 + (-47 - z)) by lia.
      rewrite Z.pow_add_r by (unfold z; lia). change (2 ^ 47) with 140737488355328. ring. }
    rewrite HY in H60.
    destruct (Zpos m * 2 ^ (e - z) ?= 60 * 2 ^ (- z)); try discriminate. reflexivity.
Qed.

Theorem format_seconds_exact : forall s,
  (s <? 0x1p55)%float = true -> format_seconds s = Ok (format_seconds_spec s).
Proof.
  intros s H55. destruct (s <? 60)%float eqn:H60.
  - unfold format_seconds, format_seconds_spec. rewrite H60.
    cbv zeta. rewrite (F2Q_lt_60 s H60). reflexivity.
  - destruct (grid_of_bounds s H60 H55) as [m [e [Hs [Hm [He HW]]]]].
    apply (format_seconds_grid s m e); assumption.
Qed.

(** ** The regular-expression engine against the language of a pattern *)

Section ReTheory.
Context {U : UnicodeData}.
Variable ic : bool.

#[local] Abbreviation ok c := (fun ch => cset_match ic c ch = true).

Lemma star_cs_sound : forall c s rest,
  In rest (star_cs ic c s) -> exists pre, s = pre ++ rest /\ Forall (ok c) pre.
Proof.
  intros c. induction s as [|ch s IH]; intros rest Hin; cbn [star_cs] in Hin.
  - destruct Hin as [<-|[]]. exists []. split; auto.
  - destruct (cset_match ic c ch) eqn:Hc.
    + apply in_app_or in Hin. destruct Hin as [Hin|[<-|[]]].
      * destruct (IH _ Hin) as [pre [-> Hp]]. exists (ch :: pre). split; auto.
      * exists []. split; auto.
    + destruct Hin as [<-|[]]. exists []. split; auto.
Qed.

Lemma star_cs_complete : forall c pre rest,
  Forall (ok c) pre -> In rest (star_cs ic c (pre ++ rest)).
Proof.
  intros c pre rest H. induction H as [|ch pre Hch Hpre IH]; cbn [app].
  - destruct rest as [|ch s]; cbn [star_cs]; [left; auto|].
    destruct (cset_match ic c ch); [apply in_or_app; right|]; left; auto.
  - cbn [star_cs]. rewrite Hch. apply in_or_app. left. exact IH.
Qed.

Lemma run_sound : forall r cap s cap' rest,
  In (cap', rest) (run ic r cap s) -> exists pre, s = pre ++ rest /\ Matches ic r pre.
Proof.
  induction r as [|c|c|c|r1 IH1 r2 IH2|r1 IH1 r2 IH2|r IH|r IH];
    intros cap s cap' rest Hin; cbn [run] in Hin.
  - destruct Hin as [[= <- <-]|[]]. exists []. split; [reflexivity|constructor].
  - destruct s as [|ch s]; [destruct Hin|].
    destruct (cset_match ic c ch) eqn:Hc; [|destruct Hin].
    destruct Hin as [[= <- <-]|[]]. exists [ch]. split; [reflexivity|]. constructor; auto.
  - apply in_map_iff in Hin. destruct Hin as [x [[= <- <-] Hin]].
    destruct (star_cs_sound _ _ _ Hin) as [pre [-> Hp]]. exists pre. split; auto.
    constructor; auto.
  - apply in_map_iff in Hin. destruct Hin as [x [[= <- <-] Hin]].
    unfold plus_cs in Hin. destruct s as [|ch s]; [destruct Hin|].
    destruct (cset_match ic c ch) eqn:Hc; [|destruct Hin].
    destruct (star_cs_sound _ _ _ Hin) as [pre [-> Hp]]. exists (ch :: pre). split; auto.
    constructor; [discriminate|]. constructor; auto.
  - apply in_flat_map in Hin. destruct Hin as [[cap1 s1] [Hin1 Hin2]]. cbn [fst snd] in Hin2.
    destruct (IH1 _ _ _ _ Hin1) as [p1 [-> Hm1]].
    destruct (IH2 _ _ _ _ Hin2) as [p2 [-> Hm2]].
    exists (p1 ++ p2). split; [apply app_assoc|]. constructor; auto.
  - apply in_app_or in Hin. destruct Hin as [Hin|Hin].
    + destruct (IH1 _ _ _ _ Hin) as [p [-> Hm]]. exists p. split; auto. apply MAltL; auto.
    + destruct (IH2 _ _ _ _ Hin) as [p [-> Hm]]. exists p. split; auto. apply MAltR; auto.
  - apply in_app_or in Hin. destruct Hin as [Hin|[[= <- <-]|[]]].
    + destruct (IH _ _ _ _ Hin) as [p [-> Hm]]. exists p. split; auto. apply MOptSome; auto.
    + exists []. split; auto. apply MOptNone.
  - apply in_map_iff in Hin. destruct Hin as [[cap1 s1] [[= <- <-] Hin]].
    destruct (IH _ _ _ _ Hin) as [p [-> Hm]]. exists p. split; auto. constructor; auto.
Qed.

Lemma run_complete : forall r pre, Matches ic r pre ->
  forall cap rest, exists cap', In (cap', rest) (run ic r cap (pre ++ rest)).
Proof.
  intros r pre H. induction H; intros cap rest; cbn [run].
  - exists cap. left. reflexivity.
  - exists cap. cbn [app]. rewrite H. left. reflexivity.
  - exists cap. apply in_map. apply star_cs_complete; auto.
  - exists cap. apply in_map. destruct s as [|ch s]; [congruence|].
    inversion H0; subst. cbn [app plus_cs]. rewrite H3. apply star_cs_complete; auto.
  - destruct (IHMatches1 cap (s2 ++ rest)) as [cap1 Hin1].
    destruct (IHMatches2 cap1 rest) as [cap2 Hin2].
    exists cap2. rewrite <- app_assoc. apply in_flat_map. exists (cap1, s2 ++ rest). split; auto.
  - destruct (IHMatches cap rest) as [cap1 Hin]. exists cap1. apply in_or_app. left; auto.
  - destruct (IHMatches cap rest) as [cap1 Hin]. exists cap1. apply in_or_app. right; auto.
  - destruct (IHMatches cap rest) as [cap1 Hin]. exists cap1. apply in_or_app. left; auto.
  - exists cap. apply in_or_app. right. left. reflexivity.
  - destruct (IHMatches cap rest) as [cap1 Hin].
    eexists. apply in_map_iff. exists (cap1, rest). split; [reflexivity|exact Hin].
Qed.

Lemma run_nogroup : forall r, nogroup r = true ->
  forall cap s cap' rest, In (cap', rest) (run ic r cap s) -> cap' = cap.
Proof.
  induction r as [|c|c|c|r1 IH1 r2 IH2|r1 IH1 r2 IH2|r IH|r IH];
    intros Hng cap s cap' rest Hin; cbn [run nogroup] in *.
  - destruct Hin as [[= <- <-]|[]]. reflexivity.
  - destruct s as [|ch s]; [destruct Hin|].
    destruct (cset_match ic c ch); [|destruct Hin].
    destruct Hin as [[= <- <-]|[]]. reflexivity.
  - apply in_map_iff in Hin. destruct Hin as [x [[= <- <-] _]]. reflexivity.
  - apply in_map_iff in Hin. destruct Hin as [x [[= <- <-] _]]. reflexivity.
  - apply andb_true_iff in Hng. destruct Hng as [H1 H2].
    apply in_flat_map in Hin. destruct Hin as [[cap1 s1] [Hin1 Hin2]]. cbn [fst snd] in Hin2.
    rewrite (IH2 H2 _ _ _ _ Hin2). apply (IH1 H1 _ _ _ _ Hin1).
  - apply andb_true_iff in Hng. destruct Hng as [H1 H2].
    apply in_app_or in Hin. destruct Hin as [Hin|Hin]; eauto.
  - apply in_app_or in Hin. destruct Hin as [Hin|[[= <- <-]|[]]]; eauto.
  - discriminate.
Qed.

(** A pattern made of the group and a tail without group. *)
Lemma run_group_tail : forall g tail s cap' rest,
  nogroup tail = true ->
  In (cap', rest) (run ic (Seq (Group g) tail) None s) ->
  exists item mid, cap' = Some item /\ s = item ++ mid ++ rest
    /\ Matches ic g item /\ Matches ic tail mid.
Proof.
  intros g tail s cap' rest Hng Hin. cbn [run] in Hin.
  apply in_flat_map in Hin. destruct Hin as [[cap1 s1] [Hin1 Hin2]]. cbn [fst snd] in Hin2.
  apply in_map_iff in Hin1. destruct Hin1 as [[cap0 s0] [[= <- <-] Hin1]].
  destruct (run_sound _ _ _ _ _ Hin1) as [item [-> Hg]].
  destruct (run_sound _ _ _ _ _ Hin2) as [mid [-> Ht]].
  rewrite (run_nogroup _ Hng _ _ _ _ Hin2).
  exists item, mid. repeat split; auto.
  f_equal. cbn [snd]. rewrite length_app.
  replace (length item + length (mid ++ rest) - length (mid ++ rest))%nat with (length item) by lia.
  rewrite firstn_app, Nat.sub_diag, firstn_all. cbn [firstn]. apply app_nil_r.
Qed.

Lemma match_at_sound : forall g tail s item rest,
  nogroup tail = true ->
  match_at ic (Seq (Group g) tail) s = Some (item, rest) ->
  exists mid, s = item ++ mid ++ rest /\ Matches ic g item /\ Matches ic tail mid.
Proof.
  intros g tail s item rest Hng H. unfold match_at in H.
  destruct (run ic (Seq (Group g) tail) None s) as [|[cap r0] l] eqn:Er; [discriminate|].
  assert (Hin : In (cap, r0) (run ic (Seq (Group g) tail) None s)) by (rewrite Er; left; auto).
  destruct (run_group_tail _ _ _ _ _ Hng Hin) as [it [mid [-> [-> [Hg Ht]]]]].
  injection H as <- <-. exists mid. auto.
Qed.

Lemma match_at_complete : forall r pre rest,
  Matches ic r pre -> match_at ic r (pre ++ rest) <> None.
Proof.
  intros r pre rest H. unfold match_at.
  destruct (run_complete r pre H None rest) as [cap' Hin].
  destruct (run ic r None (pre ++ rest)) as [|[c r0] l]; [destruct Hin|discriminate].
Qed.

(** The items of [findall] are the groups of matches found in the text. *)
Lemma findall_from_sound : forall r s skip item,
  In item (findall_from ic r skip s) ->
  exists before suf rest, s = before ++ suf /\ match_at ic r suf = Some (item, rest).
Proof.
  intros r. induction s as [|ch s IH]; intros skip item Hin; cbn [findall_from] in Hin.
  - destruct skip; [|destruct Hin].
    destruct (match_at ic r []) as [[g rest]|] eqn:Em; [|destruct Hin].
    destruct Hin as [<-|[]]. exists [], [], rest. auto.
  - destruct skip as [|k].
    + destruct (match_at ic r (ch :: s)) as [[g rest]|] eqn:Em.
      * destruct Hin as [<-|Hin]; [exists [], (ch :: s), rest; auto|].
        destruct (IH _ _ Hin) as [b [suf [rs [-> Hm]]]]. exists (ch :: b), suf, rs. auto.
      * destruct (IH _ _ Hin) as [b [suf [rs [-> Hm]]]]. exists (ch :: b), suf, rs. auto.
    + destruct (IH _ _ Hin) as [b [suf [rs [-> Hm]]]]. exists (ch :: b), suf, rs. auto.
Qed.

Lemma findall_nonempty : forall r before suf,
  match_at ic r suf <> None -> findall ic r (before ++ suf) <> [].
Proof.
  intros r before suf Hm. unfold findall.
  induction before as [|ch b IH]; cbn [app].
  - destruct suf as [|ch s]; cbn [findall_from].
    + destruct (match_at ic r []) as [[g rest]|]; [discriminate|congruence].
    + destruct (match_at ic r (ch :: s)) as [[g rest]|]; [discriminate|congruence].
  - cbn [findall_from]. destruct (match_at ic r (ch :: b ++ suf)) as [[g rest]|]; [discriminate|].
    exact IH.
Qed.

Lemma Matches_Seq : forall r1 r2 s, Matches ic (Seq r1 r2) s <->
  exists s1 s2, s = s1 ++ s2 /\ Matches ic r1 s1 /\ Matches ic r2 s2.
Proof.
  intros; split.
  - intros H; inversion H; subst; eauto.
  - intros [s1 [s2 [-> [H1 H2]]]]. constructor; auto.
Qed.

Lemma Matches_Alt : forall r1 r2 s, Matches ic (Alt r1 r2) s <->
  Matches ic r1 s \/ Matches ic r2 s.
Proof.
  intros; split.
  - intros H; inversion H; subst; auto.
  - intros [H|H]; [apply MAltL|apply MAltR]; auto.
Qed.

Lemma Matches_Opt : forall r s, Matches ic (Opt r) s <-> Matches ic r s \/ s = [].
Proof.
  intros; split.
  - intros H; inversion H; subst; auto.
  - intros [H| ->]; [apply MOptSome|apply MOptNone]; auto.
Qed.

Lemma Matches_Char : forall c s, Matches ic (Char c) s <->
  exists ch, s = [ch] /\ cset_match ic c ch = true.
Proof.
  intros; split.
  - intros H; inversion H; subst; eauto.
  - intros [ch [-> H]]. constructor; auto.
Qed.

Lemma Matches_Plus : forall c s, Matches ic (Plus c) s <->
  s <> [] /\ Forall (ok c) s.
Proof.
  intros; split.
  - intros H; inversion H; subst; auto.
  - intros [H1 H2]. constructor; auto.
Qed.

Lemma Matches_Star : forall c s, Matches ic (Star c) s <-> Forall (ok c) s.
Proof.
  intros; split.
  - intros H; inversion H; subst; auto.
  - intros H. constructor; auto.
Qed.

Lemma Matches_Group : forall r s, Matches ic (Group r) s <-> Matches ic r s.
Proof.
  intros; split.
  - intros H; inversion H; subst; auto.
  - intros H. constructor; auto.
Qed.

End ReTheory.

(** ** Numbers and units in a text *)

Section Tokens.
Context {U : UnicodeData}.

Lemma sep_match : forall ch,
  cset_match true (OneOf [46; 44]%N) ch = true <-> (ch = 46 \/ ch = 44)%N.
Proof.
  intros ch. cbn [cset_match existsb flat_map].
  destruct (uncased_punctuation 46%N ltac:(auto)) as [Hc1 [Hl1 Hf1]].
  destruct (uncased_punctuation 44%N ltac:(auto)) as [Hc2 [Hl2 Hf2]].
  unfold variants. rewrite Hc1, Hc2, Hl1, Hl2, Hf1, Hf2. cbn [orb app mem existsb].
  rewrite !orb_true_iff, !N.eqb_eq. intuition congruence.
Qed.

Lemma number_matches : forall item, Matches true number item <-> numeric_token item.
Proof.
  intros item. unfold number, numeric_token, digits.
  rewrite Matches_Seq. setoid_rewrite Matches_Plus. setoid_rewrite Matches_Opt.
  setoid_rewrite Matches_Seq. setoid_rewrite Matches_Char. setoid_rewrite Matches_Plus.
  setoid_rewrite sep_match. cbn [cset_match]. split.
  - intros [s1 [s2 [-> [[H1 H2] [[t1 [t2 [-> [[ch [-> Hs]] [H3 H4]]]]]| ->]]]]].
    + right. exists s1, ch, t2. auto.
    + left. rewrite app_nil_r. auto.
  - intros [[Hne Hd]|[a [sep [b [-> [[Ha1 Ha2] [Hs [Hb1 Hb2]]]]]]]].
    + exists item, []. rewrite app_nil_r. auto.
    + exists a, (sep :: b). repeat split; auto. left.
      exists [sep], b. repeat split; auto. exists sep. auto.
Qed.

Lemma digits_value_ok : forall s acc,
  Forall (fun c => isdecimal c = true) s -> 0 <= acc ->
  exists a, digits_value s acc = Some a /\ 0 <= a.
Proof.
  induction s as [|c s IH]; intros acc H Hacc; cbn [digits_value].
  - exists acc. auto.
  - inversion H; subst. rewrite H2. apply IH; auto. lia.
Qed.

Lemma replace_app : forall a b s1 s2,
  replace a b (s1 ++ s2) = replace a b s1 ++ replace a b s2.
Proof. intros. apply map_app. Qed.

Lemma replace_cons : forall a b c s,
  replace a b (c :: s) = (if (c =? a)%N then b else c) :: replace a b s.
Proof. reflexivity. Qed.

Lemma replace_digits : forall s,
  Forall (fun c => isdecimal c = true) s -> replace 44%N 46%N s = s.
Proof.
  induction s as [|c s IH]; intros H; [reflexivity|].
  inversion H; subst. rewrite replace_cons, IH by auto.
  destruct (N.eqb_spec c 44); [|reflexivity].
  subst. rewrite comma_not_decimal in H2. discriminate.
Qed.

Lemma split_point_digits : forall a,
  Forall (fun c => isdecimal c = true) a ->
  split_point a = (a, None) /\ forall b, split_point (a ++ 46%N :: b) = (a, Some b).
Proof.
  induction a as [|c a IH]; intros H.
  - split; [reflexivity|]. intros b. reflexivity.
  - inversion H; subst. destruct (IH H3) as [IH1 IH2].
    assert ((c =? 46)%N = false) as Hc.
    { destruct (N.eqb_spec c 46); [|reflexivity].
      subst. rewrite point_not_decimal in H2. discriminate. }
    split; [|intros b]; cbn [split_point app]; rewrite Hc.
    + rewrite IH1. reflexivity.
    + rewrite IH2. reflexivity.
Qed.

Lemma py_float_token : forall item, numeric_token item ->
  exists v, py_float (replace 44%N 46%N item) = Ok v /\ (0 <=? v)%float = true.
Proof.
  intros item [[Hne Hd]|[a [sep [b [-> [[Ha1 Ha2] [Hs [Hb1 Hb2]]]]]]]].
  - rewrite replace_digits by auto. unfold py_float.
    destruct (split_point_digits item Hd) as [-> _].
    destruct (digits_value_ok item 0 Hd ltac:(lia)) as [x [-> Hx]].
    cbn [digits_value length]. rewrite Nat.add_0_r.
    destruct item as [|c item]; [congruence|]. cbn [length Nat.eqb].
    eexists. split; [reflexivity|].
    apply SF2Prim_nonneg. apply SF_of_ratio_nonneg; simpl; lia.
  - assert (Hr : replace 44%N 46%N (a ++ sep :: b) = a ++ 46%N :: b).
    { rewrite replace_app, replace_cons, !replace_digits by auto.
      destruct Hs as [-> | ->]; reflexivity. }
    rewrite Hr. unfold py_float.
    destruct (split_point_digits a Ha2) as [_ ->].
    destruct (digits_value_ok a 0 Ha2 ltac:(lia)) as [x [-> Hx]].
    destruct (digits_value_ok b 0 Hb2 ltac:(lia)) as [y [-> Hy]].
    destruct a as [|c a]; [congruence|]. cbn [length Nat.add Nat.eqb].
    eexists. split; [reflexivity|].
    assert (0 < 10 ^ Z.of_nat (length b)) by (apply Z.pow_pos_nonneg; lia).
    apply SF2Prim_nonneg. apply SF_of_ratio_nonneg; nia.
Qed.

Lemma floats_of_tokens : forall items, Forall numeric_token items ->
  exists vs, floats_of items = Ok vs /\ length vs = length items
    /\ Forall (fun x => (0 <=? x)%float = true) vs.
Proof.
  induction items as [|item items IH]; intros H; cbn [floats_of].
  - exists []. auto.
  - inversion H; subst.
    destruct (py_float_token item H2) as [v [-> Hv]].
    destruct (IH H3) as [vs [-> [Hl Hvs]]]. cbn [rbind].
    exists (v :: vs). cbn [length]. auto.
Qed.

(** The items of [findall] for a pattern [(number) tail]. *)
Lemma findall_items : forall tail text item,
  nogroup tail = true ->
  In item (findall true (Seq number_group tail) text) ->
  exists before mid after,
    text = before ++ item ++ mid ++ after
    /\ numeric_token item /\ Matches true tail mid.
Proof.
  intros tail text item Hng Hin. unfold findall in Hin.
  destruct (findall_from_sound _ _ _ _ _ Hin) as [before [suf [rest [-> Hm]]]].
  destruct (match_at_sound _ _ _ _ _ _ Hng Hm) as [mid [-> [Hg Ht]]].
  exists before, mid, rest. repeat split; auto.
  apply number_matches. inversion Hg; subst. assumption.
Qed.

Lemma findall_found : forall tail before item mid after,
  numeric_token item -> Matches true tail mid ->
  findall true (Seq number_group tail) (before ++ item ++ mid ++ after) <> [].
Proof.
  intros tail before item mid after Hi Hm.
  apply findall_nonempty. rewrite app_assoc.
  apply match_at_complete. constructor; [|exact Hm].
  constructor. apply number_matches. exact Hi.
Qed.

End Tokens.

Section ParseTheorems.
Context {U : UnicodeData}.

Lemma max_of_tokens : forall items (e1 e2 : exception),
  items <> [] -> Forall numeric_token items ->
  exists v values,
    floats_of items = Ok values
    /\ match items with
       | [] => Raise e1
       | _ => rbind (floats_of items) (fun values =>
                match values with
                | v :: vs => Ok (max_float v vs)
                | [] => Raise e2
                end)
       end = Ok v
    /\ In v values /\ (0 <=? v)%float = true
    /\ forall w, In w values -> (w <=? v)%float = true.
Proof.
  intros items e1 e2 Hne Htok.
  destruct (floats_of_tokens items Htok) as [vs [Hf [Hl Hnn]]].
  destruct items as [|i items]; [congruence|].
  destruct vs as [|v vs]; [discriminate|].
  destruct (max_float_spec vs v Hnn) as [Hin [H0 Hmax]].
  exists (max_float v vs), (v :: vs). rewrite Hf. cbn [rbind]. auto.
Qed.

Lemma space_tail : forall units mid,
  Matches true (Seq (Star Space) units) mid <->
  exists ws u, mid = ws ++ u /\ spaces ws /\ Matches true units u.
Proof.
  intros. rewrite Matches_Seq. setoid_rewrite Matches_Star. reflexivity.
Qed.

Lemma length_units_eq : length_units =
  Alt (Char (Literal (letter "м")))
      (Seq (Char (Literal (letter "м")))
           (Seq (Char (Literal (letter "е")))
                (Seq (Char (Literal (letter "т"))) (Char (Literal (letter "р")))))).
Proof. reflexivity. Qed.

(** A text matched by [(?:м|метр)] begins with the letter м, and the
    letter alone is matched. *)
Lemma length_units_matches : forall u,
  Matches true length_units u -> exists c rest, u = c :: rest /\ like (letter "м") c.
Proof.
  intros u. rewrite length_units_eq, Matches_Alt, Matches_Seq.
  setoid_rewrite Matches_Char.
  intros [[c [-> H]]|[s1 [s2 [-> [[c [-> H]] _]]]]].
  - exists c, []. split; [reflexivity|exact H].
  - exists c, s2. split; [reflexivity|exact H].
Qed.

Lemma length_units_letter : forall c, like (letter "м") c -> Matches true length_units [c].
Proof.
  intros c H. rewrite length_units_eq. apply MAltL. constructor. exact H.
Qed.

Lemma length_items : forall text item,
  In item (findall true length_pattern text) ->
  exists before ws c after,
    text = before ++ item ++ ws ++ c :: after
    /\ numeric_token item /\ spaces ws /\ like (letter "м") c.
Proof.
  intros text item Hin.
  destruct (findall_items (Seq (Star Space) length_units) text item eq_refl Hin)
    as [before [mid [after [-> [Htok Hm]]]]].
  apply space_tail in Hm. destruct Hm as [ws [u [-> [Hws Hu]]]].
  destruct (length_units_matches u Hu) as [c [rest [-> Hc]]].
  exists before, ws, c, (rest ++ after). repeat split; auto.
  rewrite <- !app_assoc. reflexivity.
Qed.

Lemma length_found : forall text,
  has_length text -> findall true length_pattern text <> [].
Proof.
  intros text [before [item [ws [c [after [-> [Htok [Hws Hc]]]]]]]].
  replace (before ++ item ++ ws ++ c :: after)
    with (before ++ item ++ (ws ++ [c]) ++ after)
    by (rewrite <- !app_assoc; reflexivity).
  apply findall_found; auto.
  apply space_tail. exists ws, [c]. repeat split; auto.
  apply length_units_letter. exact Hc.
Qed.

Theorem parse_length_meters_spec : forall text,
  (forall item, In item (findall true length_pattern text) ->
     exists before ws c after,
       text = before ++ item ++ ws ++ c :: after
       /\ numeric_token item /\ spaces ws /\ like (letter "м") c)
  /\ (~ has_length text ->
      _parse_length_meters text
      = Raise (mkExc ValueError (u8 "Не удалось извлечь длину моста из текста")))
  /\ (has_length text ->
      exists v values,
        floats_of (findall true length_pattern text) = Ok values
        /\ _parse_length_meters text = Ok v
        /\ In v values /\ (0 <=? v)%float = true
        /\ forall w, In w values -> (w <=? v)%float = true).
Proof.
  intros text. split; [apply length_items|]. split.
  - intros Hno. unfold _parse_length_meters.
    destruct (findall true length_pattern text) as [|item items] eqn:Ef; [reflexivity|].
    exfalso. apply Hno.
    destruct (length_items text item) as [b [ws [c [a H]]]]; [rewrite Ef; left; auto|].
    exists b, item, ws, c, a. exact H.
  - intros Hhas. unfold _parse_length_meters.
    apply max_of_tokens.
    + apply length_found. exact Hhas.
    + apply Forall_forall. intros item Hin.
      destruct (length_items text item Hin) as [b [ws [c [a [_ [Htok _]]]]]]. exact Htok.
Qed.

Lemma parse_length_meters_nonneg : forall text v,
  _parse_length_meters text = Ok v -> (0 <=? v)%float = true.
Proof.
  intros text v H.
  destruct (parse_length_meters_spec text) as [Hitems [_ Hsome]].
  unfold _parse_length_meters in H.
  destruct (findall true length_pattern text) as [|item items] eqn:Ef; [discriminate|].
  destruct (Hsome) as [v' [values [_ [Hp [_ [H0 _]]]]]].
  { destruct (Hitems item ltac:(left; auto)) as [b [ws [c [a Hd]]]].
    exists b, item, ws, c, a. exact Hd. }
  unfold _parse_length_meters in Hp. rewrite Ef in Hp. congruence.
Qed.

End ParseTheorems.

Example parse_length_test :
  @_parse_length_meters BasicUnicode.tables
    (u8 "Мост длиной 345,5 м построен рядом с 123 м переправой.") = Ok 345.5%float.
Proof. vm_compute. reflexivity. Qed.

Ltac break_ex :=
  repeat match goal with
  | H : exists _, _ |- _ => destruct H
  | H : _ /\ _ |- _ => destruct H
  end; subst.

Section SpeedTheorems.
Context {U : UnicodeData}.

Let ch (s : string) : regex := Char (Literal (letter s)).

Lemma speed_units_eq :
  speed_units =
  Alt (Seq (Seq (ch "к") (ch "м"))
           (Seq (Star Space) (Seq (ch "/") (Seq (Star Space) (ch "ч")))))
  (Alt (Seq (Seq (ch "к") (ch "м"))
            (Seq (Star Space)
                 (Seq (ch "в")
                      (Seq (Star Space) (Seq (ch "ч") (Seq (ch "а") (ch "с")))))))
  (Alt (Seq (ch "k") (Seq (ch "m") (Seq (ch "/") (ch "h"))))
       (Seq (ch "k") (Seq (ch "m") (ch "h"))))).
Proof. reflexivity. Qed.

Lemma speed_units_matches : forall u,
  Matches true speed_units u <-> speed_unit_text u.
Proof.
  intros u. rewrite speed_units_eq. unfold ch, speed_unit_text, like, spaces.
  repeat (rewrite ?Matches_Alt, ?Matches_Seq;
          repeat setoid_rewrite Matches_Seq;
          repeat setoid_rewrite Matches_Char;
          repeat setoid_rewrite Matches_Star).
  cbn [cset_match]. split.
  - intros [H|[H|[H|H]]]; break_ex; cbn [app].
    + left. do 6 eexists. split; [reflexivity|]. repeat split; eassumption.
    + right; left. do 8 eexists. split; [reflexivity|]. repeat split; eassumption.
    + right; right; left. do 4 eexists. split; [reflexivity|]. repeat split; eassumption.
    + right; right; right. do 3 eexists. split; [reflexivity|]. repeat split; eassumption.
  - intros [H|[H|[H|H]]].
    + left. destruct H as [c1 [c2 [ws1 [c3 [ws2 [c4 [-> [H1 [H2 [Hw1 [H3 [Hw2 H4]]]]]]]]]]]].
      exists [c1; c2], (ws1 ++ c3 :: ws2 ++ [c4]). split; [reflexivity|]. split.
      * exists [c1], [c2]. split; [reflexivity|]. split; eauto.
      * exists ws1, (c3 :: ws2 ++ [c4]). split; [reflexivity|]. split; [exact Hw1|].
        exists [c3], (ws2 ++ [c4]). split; [reflexivity|]. split; [eauto|].
        exists ws2, [c4]. split; [reflexivity|]. split; eauto.
    + right; left.
      destruct H as [c1 [c2 [ws1 [c3 [ws2 [c4 [c5 [c6
        [-> [H1 [H2 [Hw1 [H3 [Hw2 [H4 [H5 H6]]]]]]]]]]]]]]]].
      exists [c1; c2], (ws1 ++ c3 :: ws2 ++ [c4; c5; c6]). split; [reflexivity|]. split.
      * exists [c1], [c2]. split; [reflexivity|]. split; eauto.
      * exists ws1, (c3 :: ws2 ++ [c4; c5; c6]). split; [reflexivity|]. split; [exact Hw1|].
        exists [c3], (ws2 ++ [c4; c5; c6]). split; [reflexivity|]. split; [eauto|].
        exists ws2, [c4; c5; c6]. split; [reflexivity|]. split; [exact Hw2|].
        exists [c4], [c5; c6]. split; [reflexivity|]. split; [eauto|].
        exists [c5], [c6]. split; [reflexivity|]. split; eauto.
    + right; right; left. destruct H as [c1 [c2 [c3 [c4 [-> [H1 [H2 [H3 H4]]]]]]]].
      exists [c1], [c2; c3; c4]. split; [reflexivity|]. split; [eauto|].
      exists [c2], [c3; c4]. split; [reflexivity|]. split; [eauto|].
      exists [c3], [c4]. split; [reflexivity|]. split; eauto.
    + right; right; right. destruct H as [c1 [c2 [c3 [-> [H1 [H2 H3]]]]]].
      exists [c1], [c2; c3]. split; [reflexivity|]. split; [eauto|].
      exists [c2], [c3]. split; [reflexivity|]. split; eauto.
Qed.

Lemma speed_items : forall text item,
  In item (findall true speed_pattern text) ->
  exists before ws u after,
    text = before ++ item ++ ws ++ u ++ after
    /\ numeric_token item /\ spaces ws /\ speed_unit_text u.
Proof.
  intros text item Hin.
  destruct (findall_items (Seq (Star Space) speed_units) text item eq_refl Hin)
    as [before [mid [after [-> [Htok Hm]]]]].
  apply space_tail in Hm. destruct Hm as [ws [u [-> [Hws Hu]]]].
  exists before, ws, u, after. repeat split; auto.
  - rewrite <- !app_assoc. reflexivity.
  - apply speed_units_matches. exact Hu.
Qed.

Lemma speed_found : forall text,
  has_speed text -> findall true speed_pattern text <> [].
Proof.
  intros text [before [item [ws [u [after [-> [Htok [Hws Hu]]]]]]]].
  replace (before ++ item ++ ws ++ u ++ after)
    with (before ++ item ++ (ws ++ u) ++ after)
    by (rewrite <- !app_assoc; reflexivity).
  apply findall_found; auto.
  apply space_tail. exists ws, u. repeat split; auto.
  apply speed_units_matches. exact Hu.
Qed.

Theorem parse_speed_kmh_spec : forall text,
  (forall item, In item (findall true speed_pattern text) ->
     exists before ws u after,
       text = before ++ item ++ ws ++ u ++ after
       /\ numeric_token item /\ spaces ws /\ speed_unit_text u)
  /\ (~ has_speed text ->
      _parse_speed_kmh text
      = Raise (mkExc ValueError (u8 "Не удалось извлечь скорость гепарда из текста")))
  /\ (has_speed text ->
      exists v values,
        floats_of (findall true speed_pattern text) = Ok values
        /\ _parse_speed_kmh text = Ok v
        /\ In v values /\ (0 <=? v)%float = true
        /\ forall w, In w values -> (w <=? v)%float = true).
Proof.
  intros text. split; [apply speed_items|]. split.
  - intros Hno. unfold _parse_speed_kmh.
    destruct (findall true speed_pattern text) as [|item items] eqn:Ef; [reflexivity|].
    exfalso. apply Hno.
    destruct (speed_items text item) as [b [ws [c [a H]]]]; [rewrite Ef; left; auto|].
    exists b, item, ws, c, a. exact H.
  - intros Hhas. unfold _parse_speed_kmh.
    apply max_of_tokens.
    + apply speed_found. exact Hhas.
    + apply Forall_forall. intros item Hin.
      destruct (speed_items text item Hin) as [b [ws [c [a [_ [Htok _]]]]]]. exact Htok.
Qed.

Lemma parse_speed_kmh_nonneg : forall text v,
  _parse_speed_kmh text = Ok v -> (0 <=? v)%float = true.
Proof.
  intros text v H.
  destruct (parse_speed_kmh_spec text) as [Hitems [_ Hsome]].
  unfold _parse_speed_kmh in H.
  destruct (findall true speed_pattern text) as [|item items] eqn:Ef; [discriminate|].
  destruct (Hsome) as [v' [values [_ [Hp [_ [H0 _]]]]]].
  { destruct (Hitems item ltac:(left; auto)) as [b [ws [c [a Hd]]]].
    exists b, item, ws, c, a. exact Hd. }
  unfold _parse_speed_kmh in Hp. rewrite Ef in Hp. congruence.
Qed.

End SpeedTheorems.

Section ExtractionErrors.
Context {U : UnicodeData}.

(** The extraction raises no other error than a ValueError. *)
Lemma parse_length_raises_ValueError : forall text e,
  _parse_length_meters text = Raise e -> is_ValueError e = true.
Proof.
  intros text e H. unfold _parse_length_meters in H.
  destruct (findall true length_pattern text) as [|i l] eqn:Ef.
  - injection H as <-. reflexivity.
  - exfalso.
    destruct (parse_length_meters_spec text) as [Hitems [_ Hsome]].
    destruct Hsome as [v' [vs [_ [Hp _]]]].
    { destruct (Hitems i) as [b [ws [c [a Hd]]]]; [rewrite Ef; left; auto|].
      exists b, i, ws, c, a. exact Hd. }
    unfold _parse_length_meters in Hp. rewrite Ef in Hp. congruence.
Qed.

Lemma parse_speed_raises_ValueError : forall text e,
  _parse_speed_kmh text = Raise e -> is_ValueError e = true.
Proof.
  intros text e H. unfold _parse_speed_kmh in H.
  destruct (findall true speed_pattern text) as [|i l] eqn:Ef.
  - injection H as <-. reflexivity.
  - exfalso.
    destruct (parse_speed_kmh_spec text) as [Hitems [_ Hsome]].
    destruct Hsome as [v' [vs [_ [Hp _]]]].
    { destruct (Hitems i) as [b [ws [u [a Hd]]]]; [rewrite Ef; left; auto|].
      exists b, i, ws, u, a. exact Hd. }
    unfold _parse_speed_kmh in Hp. rewrite Ef in Hp. congruence.
Qed.

End ExtractionErrors.

(** ** The scan of [findall] against the scan of the specification *)

Section ScanTheory.
Context {U : UnicodeData}.

Lemma findall_from_skip : forall ic r pre rest,
  findall_from ic r (length pre) (pre ++ rest) = findall_from ic r 0 rest.
Proof.
  intros ic r. induction pre as [|c pre IH]; intros rest; [reflexivity|].
  cbn [length app findall_from]. apply IH.
Qed.

Lemma findall_from_ext : forall ic r r',
  (forall s, match_at ic r s = match_at ic r' s) ->
  forall s skip, findall_from ic r skip s = findall_from ic r' skip s.
Proof.
  intros ic r r' H. induction s as [|c s IH]; intros skip; cbn [findall_from].
  - rewrite H. reflexivity.
  - destruct skip; [|apply IH]. rewrite H.
    destruct (match_at ic r' (c :: s)) as [[g rest]|]; rewrite IH; reflexivity.
Qed.

Lemma match_at_hd : forall ic r s,
  match_at ic r s
  = match hd_error (run ic r None s) with
    | Some (cap, rest) => Some (match cap with Some g => g | None => [] end, rest)
    | None => None
    end.
Proof.
  intros. unfold match_at. destruct (run ic r None s) as [|[cap rest] l]; reflexivity.
Qed.

Lemma hd_error_app : forall A (x y : list A),
  hd_error (x ++ y) = match hd_error x with Some a => Some a | None => hd_error y end.
Proof. intros A [|a x] y; reflexivity. Qed.

Lemma hd_flat_map_ext : forall A B (f g : A -> list B) l,
  (forall a, hd_error (f a) = hd_error (g a)) ->
  hd_error (flat_map f l) = hd_error (flat_map g l).
Proof.
  intros A B f g l H. induction l as [|a l IH]; [reflexivity|].
  cbn [flat_map]. rewrite !hd_error_app, H, IH. reflexivity.
Qed.

(** Of two alternatives the first is taken whenever the second could
    be: the second never decides the match found. *)
Lemma hd_flat_map_alt : forall A B (f g : A -> list B) l,
  (forall a, f a = [] -> g a = []) ->
  hd_error (flat_map (fun a => f a ++ g a) l) = hd_error (flat_map f l).
Proof.
  intros A B f g l H. induction l as [|a l IH]; [reflexivity|].
  cbn [flat_map]. rewrite !hd_error_app, IH.
  destruct (f a) as [|b fa] eqn:Ef; [|reflexivity].
  rewrite (H a Ef). reflexivity.
Qed.

Lemma numeric_token_nonempty : forall item, numeric_token item -> item <> [].
Proof.
  intros item [[Hne _]|[a [sep [b [-> _]]]]]; [exact Hne|].
  destruct a; discriminate.
Qed.

Lemma scan_tokens : forall unit_text text items,
  scan_spec unit_text text items -> Forall numeric_token items.
Proof.
  intros unit_text text items H. induction H; auto.
  destruct H as [ws [u [_ [Htok _]]]]. constructor; auto.
Qed.

(** [findall] for a pattern [(number) tail] scans the text as the
    specification says. *)
Lemma findall_scan : forall (unit_text : str -> Prop) tail,
  nogroup tail = true ->
  (forall mid, Matches true tail mid <->
     exists ws u, mid = ws ++ u /\ spaces ws /\ unit_text u) ->
  forall text, scan_spec unit_text text (findall true (Seq number_group tail) text).
Proof.
  intros unit_text tail Hng Htail text. unfold findall.
  remember (length text) as n eqn:Hn.
  assert (Hle : (length text <= n)%nat) by lia. clear Hn.
  revert text Hle. induction n as [|n IH]; intros text Hle.
  - destruct text; [|cbn [length] in Hle; lia]. cbn [findall_from].
    destruct (match_at true (Seq number_group tail) []) as [[g rest]|] eqn:Em;
      [|constructor].
    exfalso. unfold number_group in Em.
    destruct (match_at_sound _ _ _ _ _ _ Hng Em) as [mid [He [Hg _]]].
    apply number_matches in Hg. apply numeric_token_nonempty in Hg.
    destruct g; [congruence|discriminate].
  - destruct text as [|ch s']; cbn [findall_from].
    + destruct (match_at true (Seq number_group tail) []) as [[g rest]|] eqn:Em;
        [|constructor].
      exfalso. unfold number_group in Em.
      destruct (match_at_sound _ _ _ _ _ _ Hng Em) as [mid [He [Hg _]]].
      apply number_matches in Hg. apply numeric_token_nonempty in Hg.
      destruct g; [congruence|discriminate].
    + cbn [length] in Hle.
      destruct (match_at true (Seq number_group tail) (ch :: s')) as [[g rest]|] eqn:Em.
      * pose proof Em as Em'. unfold number_group in Em'.
        destruct (match_at_sound _ _ _ _ _ _ Hng Em') as [mid [He [Hg Hm]]].
        apply number_matches in Hg.
        pose proof (numeric_token_nonempty _ Hg) as Hne.
        apply Htail in Hm. destruct Hm as [ws [u [-> [Hws Hu]]]].
        apply scan_pair with (rest := rest).
        { exists ws, u. rewrite He, <- !app_assoc. auto. }
        destruct g as [|c g']; [congruence|].
        cbn [app] in He. injection He as -> ->.
        replace (length (c :: g' ++ (ws ++ u) ++ rest) - length rest - 1)%nat
          with (length (g' ++ ws ++ u)).
        2:{ cbn [length]. rewrite !length_app. lia. }
        replace (g' ++ (ws ++ u) ++ rest) with ((g' ++ ws ++ u) ++ rest)
          by (rewrite <- !app_assoc; reflexivity).
        rewrite findall_from_skip. apply IH.
        rewrite !length_app in Hle. lia.
      * apply scan_skip; [|apply IH; lia].
        intros item rest [ws [u [He [Htok [Hws Hu]]]]].
        assert (Hm : Matches true (Seq number_group tail) (item ++ ws ++ u)).
        { constructor.
          - constructor. apply number_matches. exact Htok.
          - apply Htail. exists ws, u. auto. }
        apply (match_at_complete true _ _ rest) in Hm.
        apply Hm. rewrite <- Em. f_equal. rewrite He, <- !app_assoc. reflexivity.
Qed.

(** The alternative "метр" of the length pattern begins with the
    alternative "м", which is tried first: the match is the one of
    the pattern without it. *)
Lemma length_run_hd : forall s,
  hd_error (run true length_pattern None s)
  = hd_error (run true (Seq number_group (Seq (Star Space) (lit (u8 "м")))) None s).
Proof.
  intros s. unfold length_pattern. cbn [run].
  apply hd_flat_map_ext. intros st.
  change (lit (u8 "м")) with (Char (Literal (letter "м"))).
  change length_units with
    (Alt (Char (Literal (letter "м")))
         (Seq (Char (Literal (letter "м"))) (lit (u8 "етр")))).
  cbn [run].
  apply (hd_flat_map_alt _ _
    (fun a => run true (Char (Literal (letter "м"))) (fst a) (snd a))
    (fun a => flat_map (fun st0 => run true (lit (u8 "етр")) (fst st0) (snd st0))
                (run true (Char (Literal (letter "м"))) (fst a) (snd a)))).
  intros a Ha. rewrite Ha. reflexivity.
Qed.

Lemma length_match_at : forall s,
  match_at true length_pattern s
  = match_at true (Seq number_group (Seq (Star Space) (lit (u8 "м")))) s.
Proof.
  intros s. rewrite !match_at_hd, length_run_hd. reflexivity.
Qed.

Lemma length_scan : forall text,
  scan_spec meter_unit text (findall true length_pattern text).
Proof.
  intros text. unfold findall.
  rewrite (findall_from_ext true _ _ length_match_at).
  apply (findall_scan meter_unit (Seq (Star Space) (lit (u8 "м")))); [reflexivity|].
  intros mid. rewrite space_tail.
  change (lit (u8 "м")) with (Char (Literal (letter "м"))).
  setoid_rewrite Matches_Char. unfold meter_unit, like. reflexivity.
Qed.

Lemma speed_scan : forall text,
  scan_spec speed_unit_text text (findall true speed_pattern text).
Proof.
  intros text.
  apply (findall_scan speed_unit_text (Seq (Star Space) speed_units)); [reflexivity|].
  intros mid. rewrite space_tail. setoid_rewrite speed_units_matches. reflexivity.
Qed.

(** *** The values of the tokens *)

Lemma digits_value_decimal : forall s acc,
  Forall (fun c => isdecimal c = true) s ->
  digits_value s acc
  = Some (fold_left (fun acc c => 10 * acc + Z.of_N (todecimal c)) s acc).
Proof.
  induction s as [|c s IH]; intros acc H; cbn [digits_value fold_left]; [reflexivity|].
  inversion H; subst. rewrite H2. apply IH. assumption.
Qed.

Lemma py_float_value : forall item, numeric_token item ->
  exists v, py_float (replace 44%N 46%N item) = Ok v /\ token_value_spec item v.
Proof.
  intros item [[Hne Hd]|[a [sep [b [-> [[Ha1 Ha2] [Hs [Hb1 Hb2]]]]]]]].
  - rewrite replace_digits by auto. unfold py_float.
    destruct (split_point_digits item Hd) as [-> _].
    rewrite (digits_value_decimal item 0 Hd).
    cbn [digits_value length]. rewrite Nat.add_0_r.
    assert (Hl : (length item + 0 =? 0)%nat = false).
    { destruct item; [congruence|reflexivity]. }
    rewrite Nat.add_0_r in Hl. rewrite Hl.
    eexists. split; [reflexivity|].
    change (10 ^ Z.of_nat 0) with 1. rewrite Z.mul_1_r, Z.add_0_r.
    apply value_whole. split; assumption.
  - assert (Hr : replace 44%N 46%N (a ++ sep :: b) = a ++ 46%N :: b).
    { rewrite replace_app, replace_cons, !replace_digits by auto.
      destruct Hs as [-> | ->]; reflexivity. }
    rewrite Hr. unfold py_float.
    destruct (split_point_digits a Ha2) as [_ ->].
    rewrite (digits_value_decimal a 0 Ha2), (digits_value_decimal b 0 Hb2).
    assert (Hl : (length a + length b =? 0)%nat = false).
    { destruct a; [congruence|reflexivity]. }
    rewrite Hl.
    eexists. split; [reflexivity|].
    apply value_decimal; [split; assumption|exact Hs|split; assumption].
Qed.

Lemma floats_of_values : forall items, Forall numeric_token items ->
  exists values, floats_of items = Ok values /\ Forall2 token_value_spec items values.
Proof.
  induction items as [|item items IH]; intros H; cbn [floats_of].
  - exists []. auto.
  - inversion H; subst.
    destruct (py_float_value item H2) as [v [-> Hv]].
    destruct (IH H3) as [vs [-> Hvs]]. cbn [rbind].
    exists (v :: vs). auto.
Qed.

(** The result of an extraction from the tokens found. *)
Lemma max_of_scan : forall items (e1 e2 : exception),
  Forall numeric_token items ->
  exists values,
    Forall2 token_value_spec items values
    /\ (items = [] ->
        match items with
        | [] => Raise e1
        | _ => rbind (floats_of items) (fun values =>
                 match values with
                 | v :: vs => Ok (max_float v vs)
                 | [] => Raise e2
                 end)
        end = Raise e1)
    /\ (items <> [] ->
        exists v,
          match items with
          | [] => Raise e1
          | _ => rbind (floats_of items) (fun values =>
                   match values with
                   | v :: vs => Ok (max_float v vs)
                   | [] => Raise e2
                   end)
          end = Ok v
          /\ greatest v values /\ (0 <=? v)%float = true).
Proof.
  intros items e1 e2 Htok.
  destruct (floats_of_values items Htok) as [values [Hf Hv]].
  exists values. split; [exact Hv|]. split.
  - intros ->. reflexivity.
  - intros Hne.
    destruct (max_of_tokens items e1 e2 Hne Htok)
      as [v [values' [Hf' [Hr [Hin [H0 Hmax]]]]]].
    assert (values' = values) by congruence. subst values'.
    exists v. split; [exact Hr|]. split; [split; assumption|exact H0].
Qed.

End ScanTheory.

(** ** The scan of the specification is a function of the text *)

Section ScanUnique.
Context {U : UnicodeData}.

Lemma run_unique : forall (P : char -> bool) a a' x x',
  a ++ x = a' ++ x' ->
  Forall (fun c => P c = true) a -> Forall (fun c => P c = true) a' ->
  stops P x -> stops P x' ->
  a = a' /\ x = x'.
Proof.
  intros P. induction a as [|c a IH]; intros a' x x' He Ha Ha' Hx Hx'.
  - destruct a' as [|c' a']; [auto|].
    cbn [app] in He. subst x. cbn [stops] in Hx.
    inversion Ha'; subst. congruence.
  - destruct a' as [|c' a'].
    + cbn [app] in He. subst x'. cbn [stops] in Hx'.
      inversion Ha; subst. congruence.
    + cbn [app] in He. injection He as -> He.
      inversion Ha; subst. inversion Ha'; subst.
      destruct (IH a' x x' He) as [-> ->]; auto.
Qed.

Lemma scan_functional : forall (unit_text : str -> Prop),
  (forall s item rest item' rest',
     pair_at unit_text s item rest -> pair_at unit_text s item' rest' ->
     item = item' /\ rest = rest') ->
  forall text items, scan_spec unit_text text items ->
  forall items', scan_spec unit_text text items' -> items' = items.
Proof.
  intros unit_text Hfun text items H.
  induction H as [|c s items Hno Hs IH|s item rest items Hp Hs IH]; intros items' H'.
  - inversion H'; subst; [reflexivity|].
    exfalso. destruct H as [ws [u [He [Htok _]]]].
    apply numeric_token_nonempty in Htok. destruct item; [congruence|discriminate].
  - inversion H'; subst.
    + apply IH. assumption.
    + exfalso. apply (Hno _ _ H).
  - inversion H'; subst.
    + exfalso. destruct Hp as [ws [u [He [Htok _]]]].
      apply numeric_token_nonempty in Htok. destruct item; [congruence|discriminate].
    + exfalso. apply (H _ _ Hp).
    + destruct (Hfun _ _ _ _ _ Hp H) as [-> ->].
      f_equal. apply IH. assumption.
Qed.

Lemma after_token_stops : forall x, after_token x -> stops isdecimal x.
Proof. intros x [c [x0 [-> [H _]]]]. exact H. Qed.

Lemma sep_stops : forall sep x, (sep = 46 \/ sep = 44)%N -> stops isdecimal (sep :: x).
Proof.
  intros sep x [-> | ->]; cbn [stops];
    [apply point_not_decimal|apply comma_not_decimal].
Qed.

Lemma token_unique : forall item item' x x',
  item ++ x = item' ++ x' ->
  numeric_token item -> numeric_token item' ->
  after_token x -> after_token x' ->
  item = item' /\ x = x'.
Proof.
  intros item item' x x' He Ht Ht' Hx Hx'.
  pose proof (after_token_stops _ Hx) as Sx.
  pose proof (after_token_stops _ Hx') as Sx'.
  destruct Ht as [[_ Hd]|[a [sep [b [-> [[_ Ha] [Hs [_ Hb]]]]]]]];
    destruct Ht' as [[_ Hd']|[a' [sep' [b' [-> [[_ Ha'] [Hs' [_ Hb']]]]]]]].
  - apply (run_unique isdecimal); assumption.
  - exfalso. rewrite <- app_assoc in He. cbn [app] in He.
    destruct (run_unique isdecimal _ _ _ _ He Hd Ha' Sx (sep_stops _ _ Hs')) as [_ E].
    destruct Hx as [c [x0 [-> [_ [H44 H46]]]]]. injection E as -> _.
    destruct Hs'; congruence.
  - exfalso. rewrite <- app_assoc in He. cbn [app] in He.
    destruct (run_unique isdecimal _ _ _ _ He Ha Hd' (sep_stops _ _ Hs) Sx') as [_ E].
    destruct Hx' as [c [x0 [-> [_ [H44 H46]]]]]. injection E as -> _.
    destruct Hs; congruence.
  - rewrite <- !app_assoc in He. cbn [app] in He.
    destruct (run_unique isdecimal _ _ _ _ He Ha Ha' (sep_stops _ _ Hs) (sep_stops _ _ Hs'))
      as [-> E].
    injection E as -> E.
    destruct (run_unique isdecimal _ _ _ _ E Hb Hb' Sx Sx') as [-> ->]. auto.
Qed.

Lemma pair_at_functional : forall letters (unit_text : str -> Prop),
  separate letters ->
  begins_with_letter letters unit_text ->
  (forall u rest u' rest',
     u ++ rest = u' ++ rest' -> unit_text u -> unit_text u' ->
     u = u' /\ rest = rest') ->
  forall s item rest item' rest',
    pair_at unit_text s item rest -> pair_at unit_text s item' rest' ->
    item = item' /\ rest = rest'.
Proof.
  intros letters unit_text [Hds [H44 [H46 [Hl Hll]]]] Hb Hu s item rest item' rest'
         [ws [u [He [Htok [Hws Hut]]]]] [ws' [u' [He' [Htok' [Hws' Hut']]]]].
  assert (Hafter : forall ws u rest, spaces ws -> unit_text u -> after_token (ws ++ u ++ rest)).
  { intros ws0 u0 rest0 Hw0 Hu0. destruct ws0 as [|c ws0].
    - destruct (Hb _ Hu0) as [l [c [u1 [-> [Hin Hlk]]]]].
      destruct (Hl _ _ Hin Hlk) as [Hd [_ [Hc1 Hc2]]].
      exists c, (u1 ++ rest0). auto.
    - inversion Hw0; subst. exists c, (ws0 ++ u0 ++ rest0).
      split; [reflexivity|]. split; [|split].
      + destruct (isdecimal c) eqn:Hd; [|reflexivity].
        rewrite (Hds _ Hd) in H1. discriminate.
      + intros ->. congruence.
      + intros ->. congruence. }
  assert (Hstop : forall u rest, unit_text u -> stops isspace (u ++ rest)).
  { intros u0 rest0 Hu0. destruct (Hb _ Hu0) as [l [c [u1 [-> [Hin Hlk]]]]].
    cbn [app stops]. apply (Hl _ _ Hin Hlk). }
  rewrite He in He'.
  destruct (token_unique _ _ _ _ He' Htok Htok' (Hafter _ _ _ Hws Hut) (Hafter _ _ _ Hws' Hut'))
    as [-> E].
  destruct (run_unique isspace _ _ _ _ E Hws Hws' (Hstop _ _ Hut) (Hstop _ _ Hut'))
    as [-> E'].
  destruct (Hu _ _ _ _ E' Hut Hut') as [-> ->]. auto.
Qed.

Lemma separate_incl : forall letters letters',
  incl letters' letters -> separate letters -> separate letters'.
Proof.
  intros letters letters' Hi [H1 [H2 [H3 [H4 H5]]]].
  repeat split; auto.
  - apply (H4 l c); auto.
  - apply (H4 l c); auto.
  - apply (H4 l c); auto.
  - apply (H4 l c); auto.
  - intros l l' c Hl Hl'. apply H5; auto.
Qed.

Lemma meter_pair_functional :
  separate meter_letters ->
  forall s item rest item' rest',
    pair_at meter_unit s item rest -> pair_at meter_unit s item' rest' ->
    item = item' /\ rest = rest'.
Proof.
  intros Hsep. apply (pair_at_functional meter_letters); [exact Hsep| |].
  - intros u [c [-> Hc]]. exists (letter "м"), c, []. split; [reflexivity|].
    split; [left; reflexivity|exact Hc].
  - intros u rest u' rest' He [c [-> _]] [c' [-> _]].
    cbn [app] in He. injection He as -> ->. auto.
Qed.

Lemma length_scan_unique : forall text items,
  separate meter_letters ->
  scan_spec meter_unit text items -> items = findall true length_pattern text.
Proof.
  intros text items Hsep H.
  apply (scan_functional meter_unit (meter_pair_functional Hsep) text _ (length_scan text)).
  exact H.
Qed.

End ScanUnique.

Section SpeedUnique.
Context {U : UnicodeData}.

Lemma speed_unit_unique :
  separate speed_letters ->
  forall u rest u' rest',
    u ++ rest = u' ++ rest' -> speed_unit_text u -> speed_unit_text u' ->
    u = u' /\ rest = rest'.
Proof.
  intros [_ [_ [_ [Hl Hll]]]] u rest u' rest' He Hu Hu'.
  assert (Hsp : forall l c x, In l speed_letters -> like l c -> stops isspace (c :: x)).
  { intros l c x Hi Hc. cbn [stops]. apply (Hl _ _ Hi Hc). }
  assert (Hne : forall l l' c, In l speed_letters -> In l' speed_letters ->
                like l c -> like l' c -> l <> l' -> False).
  { intros l l' c Hi Hi' Hc Hc' Hd. apply Hd. apply (Hll l l' c); assumption. }
  unfold speed_unit_text in Hu, Hu'.
  assert (Ik : In (letter "к") speed_letters) by (cbn; tauto).
  assert (Im : In (letter "м") speed_letters) by (cbn; tauto).
  assert (Is : In (letter "/") speed_letters) by (cbn; tauto).
  assert (Ich : In (letter "ч") speed_letters) by (cbn; tauto).
  assert (Iv : In (letter "в") speed_letters) by (cbn; tauto).
  assert (Ia : In (letter "а") speed_letters) by (cbn; tauto).
  assert (Ic : In (letter "с") speed_letters) by (cbn; tauto).
  assert (Ilk : In (letter "k") speed_letters) by (cbn; tauto).
  assert (Ilm : In (letter "m") speed_letters) by (cbn; tauto).
  assert (Ilh : In (letter "h") speed_letters) by (cbn; tauto).
  destruct Hu as [Hu|[Hu|[Hu|Hu]]]; destruct Hu' as [Hu'|[Hu'|[Hu'|Hu']]].
  - destruct Hu as [c1 [c2 [ws1 [c3 [ws2 [c4 [-> [H1 [H2 [Hw1 [H3 [Hw2 H4]]]]]]]]]]]].
    destruct Hu' as [d1 [d2 [vs1 [d3 [vs2 [d4 [-> [G1 [G2 [Gw1 [G3 [Gw2 G4]]]]]]]]]]]].
    cbn [app] in He. injection He as -> -> He.
    rewrite <- !app_assoc in He. cbn [app] in He.
    destruct (run_unique isspace _ _ _ _ He Hw1 Gw1 (Hsp _ _ _ Is H3) (Hsp _ _ _ Is G3))
      as [-> E].
    injection E as -> E. rewrite <- !app_assoc in E. cbn [app] in E.
    destruct (run_unique isspace _ _ _ _ E Hw2 Gw2 (Hsp _ _ _ Ich H4) (Hsp _ _ _ Ich G4))
      as [-> E'].
    injection E' as -> ->. auto.
  - exfalso.
    destruct Hu as [c1 [c2 [ws1 [c3 [ws2 [c4 [-> [H1 [H2 [Hw1 [H3 [Hw2 H4]]]]]]]]]]]].
    destruct Hu' as [d1 [d2 [vs1 [d3 [vs2 [d4 [d5 [d6
      [-> [G1 [G2 [Gw1 [G3 [Gw2 [G4 [G5 G6]]]]]]]]]]]]]]]].
    cbn [app] in He. injection He as -> -> He.
    rewrite <- !app_assoc in He. cbn [app] in He.
    destruct (run_unique isspace _ _ _ _ He Hw1 Gw1 (Hsp _ _ _ Is H3) (Hsp _ _ _ Iv G3))
      as [-> E].
    injection E as -> E.
    apply (Hne _ _ _ Is Iv H3 G3). discriminate.
  - exfalso.
    destruct Hu as [c1 [c2 [ws1 [c3 [ws2 [c4 [-> [H1 [H2 [Hw1 [H3 [Hw2 H4]]]]]]]]]]]].
    destruct Hu' as [d1 [d2 [d3 [d4 [-> [G1 [G2 [G3 G4]]]]]]]].
    cbn [app] in He. injection He as -> -> He.
    apply (Hne _ _ _ Ik Ilk H1 G1). discriminate.
  - exfalso.
    destruct Hu as [c1 [c2 [ws1 [c3 [ws2 [c4 [-> [H1 [H2 [Hw1 [H3 [Hw2 H4]]]]]]]]]]]].
    destruct Hu' as [d1 [d2 [d3 [-> [G1 [G2 G3]]]]]].
    cbn [app] in He. injection He as -> -> He.
    apply (Hne _ _ _ Ik Ilk H1 G1). discriminate.
  - exfalso.
    destruct Hu' as [c1 [c2 [ws1 [c3 [ws2 [c4 [-> [H1 [H2 [Hw1 [H3 [Hw2 H4]]]]]]]]]]]].
    destruct Hu as [d1 [d2 [vs1 [d3 [vs2 [d4 [d5 [d6
      [-> [G1 [G2 [Gw1 [G3 [Gw2 [G4 [G5 G6]]]]]]]]]]]]]]]].
    cbn [app] in He. injection He as -> -> He.
    rewrite <- !app_assoc in He. cbn [app] in He.
    destruct (run_unique isspace _ _ _ _ He Gw1 Hw1 (Hsp _ _ _ Iv G3) (Hsp _ _ _ Is H3))
      as [-> E].
    injection E as -> E.
    apply (Hne _ _ _ Is Iv H3 G3). discriminate.
  - destruct Hu as [c1 [c2 [ws1 [c3 [ws2 [c4 [c5 [c6
      [-> [H1 [H2 [Hw1 [H3 [Hw2 [H4 [H5 H6]]]]]]]]]]]]]]]].
    destruct Hu' as [d1 [d2 [vs1 [d3 [vs2 [d4 [d5 [d6
      [-> [G1 [G2 [Gw1 [G3 [Gw2 [G4 [G5 G6]]]]]]]]]]]]]]]].
    cbn [app] in He. injection He as -> -> He.
    rewrite <- !app_assoc in He. cbn [app] in He.
    destruct (run_unique isspace _ _ _ _ He Hw1 Gw1 (Hsp _ _ _ Iv H3) (Hsp _ _ _ Iv G3))
      as [-> E].
    injection E as -> E. rewrite <- !app_assoc in E. cbn [app] in E.
    destruct (run_unique isspace _ _ _ _ E Hw2 Gw2 (Hsp _ _ _ Ich H4) (Hsp _ _ _ Ich G4))
      as [-> E'].
    injection E' as -> -> -> ->. auto.
  - exfalso.
    destruct Hu as [c1 [c2 [ws1 [c3 [ws2 [c4 [c5 [c6
      [-> [H1 [H2 [Hw1 [H3 [Hw2 [H4 [H5 H6]]]]]]]]]]]]]]]].
    destruct Hu' as [d1 [d2 [d3 [d4 [-> [G1 [G2 [G3 G4]]]]]]]].
    cbn [app] in He. injection He as -> -> He.
    apply (Hne _ _ _ Ik Ilk H1 G1). discriminate.
  - exfalso.
    destruct Hu as [c1 [c2 [ws1 [c3 [ws2 [c4 [c5 [c6
      [-> [H1 [H2 [Hw1 [H3 [Hw2 [H4 [H5 H6]]]]]]]]]]]]]]]].
    destruct Hu' as [d1 [d2 [d3 [-> [G1 [G2 G3]]]]]].
    cbn [app] in He. injection He as -> -> He.
    apply (Hne _ _ _ Ik Ilk H1 G1). discriminate.
  - exfalso.
    destruct Hu' as [c1 [c2 [ws1 [c3 [ws2 [c4 [-> [H1 [H2 [Hw1 [H3 [Hw2 H4]]]]]]]]]]]].
    destruct Hu as [d1 [d2 [d3 [d4 [-> [G1 [G2 [G3 G4]]]]]]]].
    cbn [app] in He. injection He as -> -> He.
    apply (Hne _ _ _ Ik Ilk H1 G1). discriminate.
  - exfalso.
    destruct Hu' as [c1 [c2 [ws1 [c3 [ws2 [c4 [c5 [c6
      [-> [H1 [H2 [Hw1 [H3 [Hw2 [H4 [H5 H6]]]]]]]]]]]]]]]].
    destruct Hu as [d1 [d2 [d3 [d4 [-> [G1 [G2 [G3 G4]]]]]]]].
    cbn [app] in He. injection He as -> -> He.
    apply (Hne _ _ _ Ik Ilk H1 G1). discriminate.
  - destruct Hu as [c1 [c2 [c3 [c4 [-> _]]]]].
    destruct Hu' as [d1 [d2 [d3 [d4 [-> _]]]]].
    cbn [app] in He. injection He as -> -> -> -> ->. auto.
  - exfalso.
    destruct Hu as [c1 [c2 [c3 [c4 [-> [H1 [H2 [H3 H4]]]]]]]].
    destruct Hu' as [d1 [d2 [d3 [-> [G1 [G2 G3]]]]]].
    cbn [app] in He. injection He as -> -> -> He.
    apply (Hne _ _ _ Is Ilh H3 G3). discriminate.
  - exfalso.
    destruct Hu' as [c1 [c2 [ws1 [c3 [ws2 [c4 [-> [H1 [H2 [Hw1 [H3 [Hw2 H4]]]]]]]]]]]].
    destruct Hu as [d1 [d2 [d3 [-> [G1 [G2 G3]]]]]].
    cbn [app] in He. injection He as -> -> He.
    apply (Hne _ _ _ Ik Ilk H1 G1). discriminate.
  - exfalso.
    destruct Hu' as [c1 [c2 [ws1 [c3 [ws2 [c4 [c5 [c6
      [-> [H1 [H2 [Hw1 [H3 [Hw2 [H4 [H5 H6]]]]]]]]]]]]]]]].
    destruct Hu as [d1 [d2 [d3 [-> [G1 [G2 G3]]]]]].
    cbn [app] in He. injection He as -> -> He.
    apply (Hne _ _ _ Ik Ilk H1 G1). discriminate.
  - exfalso.
    destruct Hu' as [c1 [c2 [c3 [c4 [-> [H1 [H2 [H3 H4]]]]]]]].
    destruct Hu as [d1 [d2 [d3 [-> [G1 [G2 G3]]]]]].
    cbn [app] in He. injection He as -> -> -> He.
    apply (Hne _ _ _ Is Ilh H3 G3). discriminate.
  - destruct Hu as [c1 [c2 [c3 [-> _]]]].
    destruct Hu' as [d1 [d2 [d3 [-> _]]]].
    cbn [app] in He. injection He as -> -> -> ->. auto.
Qed.

Lemma speed_pair_functional :
  separate speed_letters ->
  forall s item rest item' rest',
    pair_at speed_unit_text s item rest -> pair_at speed_unit_text s item' rest' ->
    item = item' /\ rest = rest'.
Proof.
  intros Hsep. apply (pair_at_functional speed_letters); [exact Hsep| |].
  - intros u [Hu|[Hu|[Hu|Hu]]].
    + destruct Hu as [c1 [c2 [ws1 [c3 [ws2 [c4 [-> [H1 _]]]]]]]].
      exists (letter "к"), c1, (c2 :: ws1 ++ c3 :: ws2 ++ [c4]).
      split; [reflexivity|]. split; [cbn; tauto|exact H1].
    + destruct Hu as [c1 [c2 [ws1 [c3 [ws2 [c4 [c5 [c6 [-> [H1 _]]]]]]]]]].
      exists (letter "к"), c1, (c2 :: ws1 ++ c3 :: ws2 ++ [c4; c5; c6]).
      split; [reflexivity|]. split; [cbn; tauto|exact H1].
    + destruct Hu as [c1 [c2 [c3 [c4 [-> [H1 _]]]]]].
      exists (letter "k"), c1, [c2; c3; c4].
      split; [reflexivity|]. split; [cbn; tauto|exact H1].
    + destruct Hu as [c1 [c2 [c3 [-> [H1 _]]]]].
      exists (letter "k"), c1, [c2; c3].
      split; [reflexivity|]. split; [cbn; tauto|exact H1].
  - apply speed_unit_unique. exact Hsep.
Qed.

Lemma speed_scan_unique : forall text items,
  separate speed_letters ->
  scan_spec speed_unit_text text items -> items = findall true speed_pattern text.
Proof.
  intros text items Hsep H.
  apply (scan_functional speed_unit_text (speed_pair_functional Hsep) text _ (speed_scan text)).
  exact H.
Qed.

End SpeedUnique.

Section ValueUnique.
Context {U : UnicodeData}.

(** A token writes one number. *)
Lemma token_value_unique : forall item v v',
  token_value_spec item v -> token_value_spec item v' -> v = v'.
Proof.
  intros item v v' H H'.
  destruct H as [a [_ Ha]|a sep b [_ Ha] Hs [_ Hb]];
    inversion H' as [a' [_ Ha'] E Ev|a' sep' b' [_ Ha'] Hs' [_ Hb'] E Ev]; subst.
  - reflexivity.
  - exfalso. rewrite Forall_forall in Ha. specialize (Ha sep').
    assert (Hin : In sep' (a' ++ sep' :: b')) by (apply in_or_app; right; left; reflexivity).
    specialize (Ha Hin).
    destruct Hs' as [-> | ->];
      [rewrite point_not_decimal in Ha|rewrite comma_not_decimal in Ha]; discriminate.
  - exfalso. rewrite Forall_forall in Ha'. specialize (Ha' sep).
    assert (Hin : In sep (a ++ sep :: b)) by (apply in_or_app; right; left; reflexivity).
    specialize (Ha' Hin).
    destruct Hs as [-> | ->];
      [rewrite point_not_decimal in Ha'|rewrite comma_not_decimal in Ha']; discriminate.
  - destruct (run_unique isdecimal _ _ _ _ E Ha' Ha (sep_stops _ _ Hs') (sep_stops _ _ Hs))
      as [-> E'].
    injection E' as -> ->. reflexivity.
Qed.

End ValueUnique.

(** ** The tables of [BasicUnicode] keep the classes apart *)

Lemma holds_from_spec : forall (P : char -> bool) fuel c0,
  holds_from P fuel c0 = true ->
  forall c, (c0 <= c < c0 + N.of_nat fuel)%N -> P c = true.
Proof.
  intros P. induction fuel as [|k IH]; intros c0 H c Hc; [lia|].
  cbn [holds_from] in H. apply andb_true_iff in H. destruct H as [H0 H].
  destruct (N.eq_dec c c0) as [->|Hne]; [exact H0|].
  apply (IH (N.succ c0) H). lia.
Qed.

Lemma basic_lower_high : forall c, (1120 <= c)%N -> BasicUnicode.lower c = c.
Proof.
  intros c Hc. unfold BasicUnicode.lower, BasicUnicode.is_ascii_upper,
    BasicUnicode.is_cyr_upper, BasicUnicode.is_cyr_upper_ext.
  destruct (N.leb_spec 65 c), (N.leb_spec c 90), (N.leb_spec 1040 c),
    (N.leb_spec c 1071), (N.leb_spec 1024 c), (N.leb_spec c 1039);
    cbn [andb orb]; try reflexivity; lia.
Qed.

Lemma separate_of_test : forall (U : UnicodeData) letters,
  isspace 44%N = false -> isspace 46%N = false ->
  (forall c, separate_at letters c = true) ->
  separate letters.
Proof.
  intros U letters H44 H46 H. unfold separate.
  split; [|split; [exact H44|split; [exact H46|split]]].
  - intros c Hd. specialize (H c). unfold separate_at in H.
    apply andb_true_iff in H. destruct H as [H _].
    apply andb_true_iff in H. destruct H as [H _].
    rewrite Hd in H. cbn [negb orb] in H. apply negb_true_iff in H. exact H.
  - intros l c Hin Hl. specialize (H c). unfold separate_at in H.
    apply andb_true_iff in H. destruct H as [H _].
    apply andb_true_iff in H. destruct H as [_ H].
    rewrite forallb_forall in H. specialize (H l Hin).
    unfold like in Hl. rewrite Hl in H. cbn [negb orb] in H.
    rewrite !andb_true_iff, !negb_true_iff, !N.eqb_neq in H. tauto.
  - intros l l' c Hin Hin' Hl Hl'. specialize (H c). unfold separate_at in H.
    apply andb_true_iff in H. destruct H as [_ H].
    rewrite forallb_forall in H. specialize (H l Hin).
    unfold like in Hl, Hl'. rewrite Hl in H. cbn [negb orb] in H.
    rewrite forallb_forall in H. specialize (H l' Hin').
    rewrite Hl' in H. cbn [negb orb] in H.
    apply N.eqb_eq. exact H.
Qed.

(** Above the Cyrillic letters only the two extra variants known to
    [re] are letters of the units. *)
Lemma basic_like_high : forall l c,
  In l speed_letters -> (1120 <= c)%N ->
  @cset_match BasicUnicode.tables true (Literal l) c = true ->
  (l = letter "в" /\ c = 7296%N) \/ (l = letter "с" /\ c = 7299%N).
Proof.
  intros l c Hin Hc. unfold cset_match.
  change (@tolower BasicUnicode.tables c) with (BasicUnicode.lower c).
  rewrite (basic_lower_high c Hc).
  cbn [In speed_letters] in Hin.
  repeat (destruct Hin as [<-|Hin];
          [vm_compute andb; cbv beta iota;
           repeat match goal with
           | |- context [@variants ?T ?l] =>
             let v := eval vm_compute in (@variants T l) in
             change (@variants T l) with v
           | |- context [letter ?s] =>
             let v := eval vm_compute in (letter s) in change (letter s) with v
           end;
           unfold mem; cbn [existsb];
           repeat match goal with
           | |- context [(c =? ?x)%N] =>
             destruct (N.eqb_spec c x); [try lia|]
           end;
           cbn [orb]; intros H; try discriminate H; auto|]).
  destruct Hin.
Qed.

Lemma basic_separate_at : forall c,
  @separate_at BasicUnicode.tables speed_letters c = true.
Proof.
  intros c. destruct (N.lt_ge_cases c 1120) as [Hc|Hc].
  - match goal with
    | |- ?P c = true =>
      apply (holds_from_spec (fun c => P c) (N.to_nat 1120) 0%N);
        [vm_compute; reflexivity|rewrite N2Nat.id; lia]
    end.
  - unfold separate_at.
    assert (Hd : @isdecimal BasicUnicode.tables c = false).
    { cbn. destruct (N.leb_spec c 57); [lia|]. apply andb_false_r. }
    rewrite Hd. cbn [negb orb andb].
    apply andb_true_iff. split.
    + apply forallb_forall. intros l Hin.
      destruct (@cset_match BasicUnicode.tables true (Literal l) c) eqn:Hl;
        [|reflexivity].
      destruct (basic_like_high l c Hin Hc Hl) as [[-> ->]|[-> ->]]; reflexivity.
    + apply forallb_forall. intros l Hin.
      destruct (@cset_match BasicUnicode.tables true (Literal l) c) eqn:Hl;
        [|reflexivity].
      destruct (basic_like_high l c Hin Hc Hl) as [[-> ->]|[-> ->]];
        vm_compute; reflexivity.
Qed.

Lemma basic_separate_speed : @separate BasicUnicode.tables speed_letters.
Proof.
  apply separate_of_test; [reflexivity|reflexivity|apply basic_separate_at].
Qed.

Lemma basic_separate_meter : @separate BasicUnicode.tables meter_letters.
Proof.
  apply (separate_incl speed_letters); [|apply basic_separate_speed].
  intros l [<-|[]]. cbn. tauto.
Qed.

Lemma has_length_findall : forall (U : UnicodeData) text,
  has_length text <-> findall true length_pattern text <> [].
Proof.
  intros U text. split; [apply length_found|].
  intros Hne. destruct (findall true length_pattern text) as [|item items] eqn:Ef;
    [congruence|].
  destruct (length_items text item) as [b [ws [c [a H]]]]; [rewrite Ef; left; auto|].
  exists b, item, ws, c, a. exact H.
Qed.

Lemma has_speed_findall : forall (U : UnicodeData) text,
  has_speed text <-> findall true speed_pattern text <> [].
Proof.
  intros U text. split; [apply speed_found|].
  intros Hne. destruct (findall true speed_pattern text) as [|item items] eqn:Ef;
    [congruence|].
  destruct (speed_items text item) as [b [ws [u [a H]]]]; [rewrite Ef; left; auto|].
  exists b, item, ws, u, a. exact H.
Qed.

(** ** The resolvers *)

Lemma startswith_app : forall p s, startswith p (p ++ s) = true.
Proof.
  induction p as [|c p IH]; intros s; cbn [startswith app]; auto.
  rewrite N.eqb_refl. apply IH.
Qed.

Lemma endswith_app : forall p s, endswith p (s ++ p) = true.
Proof. intros. unfold endswith. rewrite rev_app_distr. apply startswith_app. Qed.

Ltac run_world :=
  cbv [try_except bind ret raise lift or_else any_Exception].

Ltac step_world :=
  match goal with
  | |- context [match ?x with _ => _ end] =>
    lazymatch x with
    | context [match _ with _ => _ end] => fail
    | _ => destruct x eqn:?
    end
  end.

Section WorldTheorems.
Context {U : UnicodeData} {World : Type}.
Variable new_client : str -> M (World := World) (WikipediaClient.t World).

Lemma bridge_outcome : forall (client : WikipediaClient.t World) w,
  exists b w', get_bridge_info_big_stone_bridge client w = (Ok b, w')
    /\ (0 <=? BridgeInfo.length_meters b)%float = true.
Proof.
  intros. unfold get_bridge_info_big_stone_bridge. run_world.
  destruct (WikipediaClient.search_page client bridge_query w) as [[[sr|]|e] w1];
    try (do 2 eexists; split; reflexivity).
  destruct (WikipediaClient.get_page_summary client _ true w1) as [[sm|e] w2];
    try (do 2 eexists; split; reflexivity).
  destruct (_parse_length_meters (WikipediaPageSummary.extract sm)) as [v|e] eqn:Ep.
  { do 2 eexists; split; [reflexivity|]. apply (parse_length_meters_nonneg _ _ Ep). }
  destruct (is_ValueError e); try (do 2 eexists; split; reflexivity).
  destruct (WikipediaClient.get_page_summary client _ false w2) as [[sm2|e2] w3];
    try (do 2 eexists; split; reflexivity).
  destruct (_parse_length_meters (WikipediaPageSummary.extract sm2)) as [v|e3] eqn:Ep2;
    try (do 2 eexists; split; reflexivity).
  do 2 eexists; split; [reflexivity|]. apply (parse_length_meters_nonneg _ _ Ep2).
Qed.

Lemma animal_outcome : forall (client : WikipediaClient.t World) name w,
  exists a w', get_animal_speed new_client client name w = (Ok a, w')
    /\ (0 <=? AnimalSpeed.speed_m_s a)%float = true.
Proof.
  intros. unfold get_animal_speed. run_world.
  repeat step_world;
    (do 2 eexists; split; [reflexivity|]);
    try reflexivity;
    cbn [AnimalSpeed.from_kmh AnimalSpeed.speed_m_s];
    apply kmh_to_ms_nonneg;
    match goal with
    | H : _parse_speed_kmh _ = Ok _ |- _ => apply (parse_speed_kmh_nonneg _ _ H)
    end.
Qed.

Lemma bridge_search_raises : forall (client : WikipediaClient.t World) w e w',
  WikipediaClient.search_page client bridge_query w = (Raise e, w') ->
  get_bridge_info_big_stone_bridge client w = (Ok (fallback_bridge e), w').
Proof.
  intros client w e w' H. unfold get_bridge_info_big_stone_bridge. run_world.
  rewrite H. reflexivity.
Qed.

Lemma bridge_search_absent : forall (client : WikipediaClient.t World) w w',
  WikipediaClient.search_page client bridge_query w = (Ok None, w') ->
  get_bridge_info_big_stone_bridge client w
  = (Ok (fallback_bridge
           (mkExc LookupError (u8 "Статья 'Большой Каменный мост' не найдена"))), w').
Proof.
  intros client w w' H. unfold get_bridge_info_big_stone_bridge. run_world.
  rewrite H. reflexivity.
Qed.

Lemma bridge_primary : forall (client : WikipediaClient.t World) w sr w1 sm w2 v,
  WikipediaClient.search_page client bridge_query w = (Ok (Some sr), w1) ->
  WikipediaClient.get_page_summary client (WikipediaSearchResult.page_id sr) true w1
  = (Ok sm, w2) ->
  _parse_length_meters (WikipediaPageSummary.extract sm) = Ok v ->
  get_bridge_info_big_stone_bridge client w
  = (Ok {| BridgeInfo.name := WikipediaSearchResult.title sr;
           BridgeInfo.length_meters := v;
           BridgeInfo.source :=
             _build_page_url (WikipediaSearchResult.page_id sr)
                             (WikipediaClient.base_url client) |}, w2).
Proof.
  intros client w sr w1 sm w2 v H1 H2 H3.
  unfold get_bridge_info_big_stone_bridge. run_world.
  rewrite H1, H2, H3. reflexivity.
Qed.

Lemma bridge_primary_full : forall (client : WikipediaClient.t World)
    w sr w1 sm w2 e sm' w3 v,
  WikipediaClient.search_page client bridge_query w = (Ok (Some sr), w1) ->
  WikipediaClient.get_page_summary client (WikipediaSearchResult.page_id sr) true w1
  = (Ok sm, w2) ->
  _parse_length_meters (WikipediaPageSummary.extract sm) = Raise e ->
  WikipediaClient.get_page_summary client (WikipediaSearchResult.page_id sr) false w2
  = (Ok sm', w3) ->
  _parse_length_meters (WikipediaPageSummary.extract sm') = Ok v ->
  get_bridge_info_big_stone_bridge client w
  = (Ok {| BridgeInfo.name := WikipediaSearchResult.title sr;
           BridgeInfo.length_meters := v;
           BridgeInfo.source :=
             _build_page_url (WikipediaSearchResult.page_id sr)
                             (WikipediaClient.base_url client) |}, w3).
Proof.
  intros client w sr w1 sm w2 e sm' w3 v H1 H2 H3 H4 H5.
  assert (He : is_ValueError e = true).
  { unfold _parse_length_meters in H3.
    destruct (findall true length_pattern _) as [|i l] eqn:Ef.
    - injection H3 as <-. reflexivity.
    - exfalso.
      destruct (parse_length_meters_spec (WikipediaPageSummary.extract sm))
        as [Hitems [_ Hsome]].
      destruct Hsome as [v' [vs [_ [Hp _]]]].
      { destruct (Hitems i) as [b [ws [c [a Hd]]]]; [rewrite Ef; left; auto|].
        exists b, i, ws, c, a. exact Hd. }
      unfold _parse_length_meters in Hp. rewrite Ef in Hp. congruence. }
  unfold get_bridge_info_big_stone_bridge. run_world.
  rewrite H1, H2, H3, He, H4, H5. reflexivity.
Qed.

Lemma animal_search_raises : forall (client : WikipediaClient.t World) name w e w',
  WikipediaClient.search_page client name w = (Raise e, w') ->
  get_animal_speed new_client client name w = (Ok (fallback_animal name e), w').
Proof.
  intros client name w e w' H. unfold get_animal_speed. run_world.
  rewrite H. reflexivity.
Qed.

Lemma animal_primary : forall (client : WikipediaClient.t World) name w sr w1 sm w2 v,
  WikipediaClient.search_page client name w = (Ok (Some sr), w1) ->
  WikipediaClient.get_page_summary client (WikipediaSearchResult.page_id sr) true w1
  = (Ok sm, w2) ->
  _parse_speed_kmh (WikipediaPageSummary.extract sm) = Ok v ->
  get_animal_speed new_client client name w
  = (Ok (AnimalSpeed.from_kmh (WikipediaSearchResult.title sr) v
           (_build_page_url (WikipediaSearchResult.page_id sr)
                            (WikipediaClient.base_url client))), w2).
Proof.
  intros client name w sr w1 sm w2 v H1 H2 H3.
  unfold get_animal_speed. run_world.
  rewrite H1, H2, H3. reflexivity.
Qed.

(** The language fallback: both searches of the primary client find
    nothing, the client is not the English one, and the English client
    finds the page. *)

End WorldTheorems.

(** ** The claims of the specification *)

Lemma positive_not_zero : forall x, (0 <? x)%float = true ->
  (x <=? 0)%float = false /\ (x =? 0)%float = false.
Proof.
  intros x H. rewrite ltb_spec in H. rewrite leb_spec, eqb_spec.
  change (Prim2SF 0) with (S754_zero false) in *.
  destruct (Prim2SF x) as [s|[|]| |[|] m e]; try discriminate; split; reflexivity.
Qed.

Lemma estimate_crossing_time_returns : forall bridge animal,
  (0 <? AnimalSpeed.speed_m_s animal)%float = true ->
  let t := (BridgeInfo.length_meters bridge / AnimalSpeed.speed_m_s animal)%float in
  (t <? 0x1p55)%float = true ->
  estimate_crossing_time bridge animal
  = Ok {| ReasoningResult.bridge := bridge;
          ReasoningResult.animal := animal;
          ReasoningResult.time_seconds := t;
          ReasoningResult.time_human_readable := format_seconds_spec t;
          ReasoningResult.steps := crossing_steps bridge animal t |}.
Proof.
  intros bridge animal Hpos t Ht.
  destruct (positive_not_zero _ Hpos) as [Hle Heq].
  unfold estimate_crossing_time, truediv. rewrite Hle, Heq. cbn [rbind].
  fold t. rewrite (format_seconds_exact t Ht). reflexivity.
Qed.

Lemma estimate_crossing_time_frame : forall bridge animal r,
  estimate_crossing_time bridge animal = Ok r ->
  ReasoningResult.bridge r = bridge /\ ReasoningResult.animal r = animal
  /\ ReasoningResult.time_seconds r
     = (BridgeInfo.length_meters bridge / AnimalSpeed.speed_m_s animal)%float.
Proof.
  intros bridge animal r H. unfold estimate_crossing_time, truediv in H.
  destruct (_ <=? 0)%float; [discriminate|].
  destruct (_ =? 0)%float; [discriminate|]. cbn [rbind] in H.
  destruct (format_seconds _) as [hr|e]; [|discriminate]. cbn [rbind] in H.
  injection H as <-. auto.
Qed.

(** There is one NaN. *)
Lemma nan_unique : forall x, Prim2SF x = S754_nan -> x = nan.
Proof.
  intros x H. rewrite <- (SF2Prim_Prim2SF x), H. reflexivity.
Qed.

Lemma is_nan_Prim2SF : forall x, is_nan x = true -> Prim2SF x = S754_nan.
Proof.
  intros x H. unfold is_nan in H. apply negb_true_iff in H.
  rewrite eqb_spec in H. pose proof (Prim2SF_valid x) as Hv.
  destruct (Prim2SF x) as [s|s| |s m e]; try reflexivity.
  - destruct s; discriminate.
  - destruct s; discriminate.
  - exfalso. unfold SFeqb in H. cbn [SFcompare] in H.
    destruct s.
    + rewrite Z.compare_refl in H.
      assert (Hc : Pos.compare_cont Eq m m = Eq) by apply Pos.compare_cont_refl.
      rewrite Hc in H. discriminate.
    + rewrite Z.compare_refl in H.
      assert (Hc : Pos.compare_cont Eq m m = Eq) by apply Pos.compare_cont_refl.
      rewrite Hc in H. discriminate.
Qed.

Lemma format_seconds_nan :
  format_seconds nan
  = Raise (mkExc ValueError (u8 "cannot convert float NaN to integer")).
Proof. vm_compute. reflexivity. Qed.

Lemma format_seconds_infinity :
  format_seconds infinity
  = Raise (mkExc ValueError (u8 "cannot convert float NaN to integer")).
Proof. vm_compute. reflexivity. Qed.

(** With a positive speed the calculator does what [format_seconds] does
    on the quotient. *)
Lemma estimate_crossing_time_follows_format : forall bridge animal,
  (0 <? AnimalSpeed.speed_m_s animal)%float = true ->
  let t := (BridgeInfo.length_meters bridge / AnimalSpeed.speed_m_s animal)%float in
  estimate_crossing_time bridge animal
  = match format_seconds t with
    | Ok text =>
      Ok {| ReasoningResult.bridge := bridge;
            ReasoningResult.animal := animal;
            ReasoningResult.time_seconds := t;
            ReasoningResult.time_human_readable := text;
            ReasoningResult.steps := crossing_steps bridge animal t |}
    | Raise e => Raise e
    end.
Proof.
  intros bridge animal Hpos t.
  destruct (positive_not_zero _ Hpos) as [Hle Heq].
  unfold estimate_crossing_time, truediv. rewrite Hle, Heq. cbn [rbind].
  fold t. destruct (format_seconds t); reflexivity.
Qed.

(** Claim C1. For every bridge and animal whose speed is positive, with
    [t] the quotient [length / speed] of the float division:
    [estimate_crossing_time] returns exactly when [format_seconds] returns
    on [t], and raises what it raises. The result returned holds [t] as
    [time_seconds], the text of [format_seconds t] as
    [time_human_readable] and, as steps, the three records of
    [crossing_steps] in their order (bridge fact, animal fact, computed
    time), each with its numbers. A result is returned for every [t]
    below 2^55, with the text of the rule of [format_seconds]; when [t]
    is plus infinity or NaN the call raises the ValueError of the
    conversion to an integer. *)
Theorem estimate_crossing_time_result : forall bridge animal,
  (0 <? AnimalSpeed.speed_m_s animal)%float = true ->
  let t := (BridgeInfo.length_meters bridge / AnimalSpeed.speed_m_s animal)%float in
  (forall text,
     format_seconds t = Ok text ->
     estimate_crossing_time bridge animal
     = Ok {| ReasoningResult.bridge := bridge;
             ReasoningResult.animal := animal;
             ReasoningResult.time_seconds := t;
             ReasoningResult.time_human_readable := text;
             ReasoningResult.steps := crossing_steps bridge animal t |})
  /\ (forall e,
        format_seconds t = Raise e ->
        estimate_crossing_time bridge animal = Raise e)
  /\ ((t <? 0x1p55)%float = true ->
      estimate_crossing_time bridge animal
      = Ok {| ReasoningResult.bridge := bridge;
              ReasoningResult.animal := animal;
              ReasoningResult.time_seconds := t;
              ReasoningResult.time_human_readable := format_seconds_spec t;
              ReasoningResult.steps := crossing_steps bridge animal t |})
  /\ (t = infinity \/ is_nan t = true ->
      estimate_crossing_time bridge animal
      = Raise (mkExc ValueError (u8 "cannot convert float NaN to integer"))).
Proof.
  intros bridge animal Hpos t.
  pose proof (estimate_crossing_time_follows_format bridge animal Hpos) as H.
  cbv zeta in H. fold t in H.
  split; [|split; [|split]].
  - intros text Ht. rewrite H, Ht. reflexivity.
  - intros e Ht. rewrite H, Ht. reflexivity.
  - intros Ht. rewrite H, (format_seconds_exact t Ht). reflexivity.
  - intros [Hi | Hn]; rewrite H.
    + rewrite Hi, format_seconds_infinity. reflexivity.
    + rewrite (nan_unique t (is_nan_Prim2SF t Hn)), format_seconds_nan. reflexivity.
Qed.

Lemma estimate_crossing_time_result_witness :
  let bridge := Stub.mock_bridge 40609127863450280 in
  let animal := Stub.mock_animal 1 in
  (0 <? AnimalSpeed.speed_m_s animal)%float = true
  /\ (0x1p55 <? BridgeInfo.length_meters bridge / AnimalSpeed.speed_m_s animal)%float = true
  /\ estimate_crossing_time bridge animal
     = Ok {| ReasoningResult.bridge := bridge;
             ReasoningResult.animal := animal;
             ReasoningResult.time_seconds := 40609127863450280;
             ReasoningResult.time_human_readable :=
               u8 "676818797724171 минут 24.0 секунд";
             ReasoningResult.steps := crossing_steps bridge animal 40609127863450280 |}.
Proof.
  intros bridge animal. split; [reflexivity|]. split; [reflexivity|].
  refine (eq_trans
    (proj1 (estimate_crossing_time_result bridge animal eq_refl)
           (u8 "676818797724171 минут 24.0 секунд") _) _);
    vm_compute; reflexivity.
Defined.

Lemma estimate_crossing_time_overflow_raises :
  let bridge := Stub.mock_bridge 1e308 in
  let animal := Stub.mock_animal 1e-5 in
  (0 <? AnimalSpeed.speed_m_s animal)%float = true
  /\ (BridgeInfo.length_meters bridge / AnimalSpeed.speed_m_s animal)%float = infinity
  /\ estimate_crossing_time bridge animal
     = Raise (mkExc ValueError (u8 "cannot convert float NaN to integer")).
Proof. repeat split; vm_compute; reflexivity. Qed.

(** The calculator on quotients far above 2^55 and at the ends of the
    floats. *)
Example estimate_crossing_time_large_quotients :
  (exists r, estimate_crossing_time (Stub.mock_bridge 1e100) (Stub.mock_animal 1) = Ok r
             /\ ReasoningResult.time_seconds r = 1e100%float
             /\ length (ReasoningResult.steps r) = 3%nat)
  /\ (exists r, estimate_crossing_time (Stub.mock_bridge 1e308) (Stub.mock_animal 1) = Ok r
                /\ ReasoningResult.time_seconds r = 1e308%float
                /\ length (ReasoningResult.steps r) = 3%nat)
  /\ estimate_crossing_time (Stub.mock_bridge 0x1.fffffffffffffp1023) (Stub.mock_animal 1)
     = Raise (mkExc OverflowError (u8 "int too large to convert to float"))
  /\ estimate_crossing_time (Stub.mock_bridge neg_infinity) (Stub.mock_animal 1)
     = Ok {| ReasoningResult.bridge := Stub.mock_bridge neg_infinity;
             ReasoningResult.animal := Stub.mock_animal 1;
             ReasoningResult.time_seconds := neg_infinity;
             ReasoningResult.time_human_readable := u8 "-inf секунд";
             ReasoningResult.steps :=
               crossing_steps (Stub.mock_bridge neg_infinity) (Stub.mock_animal 1)
                              neg_infinity |}.
Proof.
  split; [|split; [|split]].
  - eexists. split; [vm_compute; reflexivity|]. split; reflexivity.
  - eexists. split; [vm_compute; reflexivity|]. split; reflexivity.
  - vm_compute. reflexivity.
  - vm_compute. reflexivity.
Qed.

(** Claim C3. For every bridge and every animal whose speed is zero or
    negative, [estimate_crossing_time] raises the ValueError that says the
    speed must be positive, and returns no result. *)
Theorem estimate_crossing_time_rejects_nonpositive_speed : forall bridge animal,
  (AnimalSpeed.speed_m_s animal <=? 0)%float = true ->
  estimate_crossing_time bridge animal
  = Raise (mkExc ValueError (u8 "Скорость животного должна быть положительной"))
  /\ forall r, estimate_crossing_time bridge animal <> Ok r.
Proof.
  intros bridge animal H. unfold estimate_crossing_time. rewrite H.
  split; [reflexivity|discriminate].
Qed.

Lemma estimate_crossing_time_rejects_zero_speed :
  let bridge := Stub.mock_bridge 100 in
  let animal := Stub.mock_animal 0 in
  (AnimalSpeed.speed_m_s animal <=? 0)%float = true
  /\ estimate_crossing_time bridge animal
     = Raise (mkExc ValueError (u8 "Скорость животного должна быть положительной"))
  /\ forall r, estimate_crossing_time bridge animal <> Ok r.
Proof.
  intros bridge animal. split; [reflexivity|].
  apply (estimate_crossing_time_rejects_nonpositive_speed bridge animal). reflexivity.
Defined.

(** Claim C10. For a positive speed, every result [estimate_crossing_time]
    returns holds the given bridge and the given animal unchanged; and it
    does return one when the quotient is below 2^55. *)
Theorem estimate_crossing_time_embeds_inputs : forall bridge animal,
  (0 <? AnimalSpeed.speed_m_s animal)%float = true ->
  (forall r, estimate_crossing_time bridge animal = Ok r ->
     ReasoningResult.bridge r = bridge /\ ReasoningResult.animal r = animal)
  /\ ((BridgeInfo.length_meters bridge / AnimalSpeed.speed_m_s animal <? 0x1p55)%float = true ->
      exists r, estimate_crossing_time bridge animal = Ok r
        /\ ReasoningResult.bridge r = bridge /\ ReasoningResult.animal r = animal).
Proof.
  intros bridge animal Hpos. split.
  - intros r H. destruct (estimate_crossing_time_frame _ _ _ H) as [Hb [Ha _]]. auto.
  - intros Ht. eexists. split; [apply estimate_crossing_time_returns; assumption|].
    split; reflexivity.
Qed.

Lemma estimate_crossing_time_embeds_inputs_witness :
  let bridge := Stub.mock_bridge 200 in
  let animal := Stub.mock_animal 25 in
  (0 <? AnimalSpeed.speed_m_s animal)%float = true
  /\ exists r, estimate_crossing_time bridge animal = Ok r
       /\ ReasoningResult.bridge r = bridge /\ ReasoningResult.animal r = animal.
Proof.
  intros bridge animal. split; [reflexivity|].
  apply (proj2 (estimate_crossing_time_embeds_inputs bridge animal eq_refl)). reflexivity.
Defined.

(** Claim C8. For every float [s] below 2^55 (the negative ones included),
    [format_seconds s] returns the text of the rule read over the exact
    value of [s]: below 60 the value to one decimal; otherwise
    [floor (s / 60)] minutes, followed by the remainder to one decimal
    unless the remainder is below 0.1. *)
Theorem format_seconds_refines_rule : forall s,
  (s <? 0x1p55)%float = true -> format_seconds s = Ok (format_seconds_spec s).
Proof. exact format_seconds_exact. Qed.

Lemma format_seconds_refines_rule_witness :
  (125.4 <? 0x1p55)%float = true
  /\ format_seconds 125.4 = Ok (u8 "2 минут 5.4 секунд").
Proof.
  split; [reflexivity|].
  refine (eq_trans (format_seconds_refines_rule 125.4 eq_refl) _).
  vm_compute. reflexivity.
Defined.

Example format_seconds_tests :
  format_seconds 45.12 = Ok (u8 "45.1 секунд")
  /\ format_seconds 120.0 = Ok (u8 "2 минут")
  /\ format_seconds 125.4 = Ok (u8 "2 минут 5.4 секунд").
Proof. repeat split; vm_compute; reflexivity. Qed.

Lemma format_seconds_infinity_raises :
  (0 <=? infinity)%float = true
  /\ format_seconds infinity
     = Raise (mkExc ValueError (u8 "cannot convert float NaN to integer"))
  /\ (0 <=? 0x1.fffffffffffffp+1023)%float = true
  /\ format_seconds 0x1.fffffffffffffp+1023
     = Raise (mkExc OverflowError (u8 "int too large to convert to float"))
  /\ (0 <=? 40609127863450280)%float = true
  /\ format_seconds 40609127863450280
     = Ok (u8 "676818797724171 минут 24.0 секунд")
  /\ format_seconds_spec 40609127863450280
     = u8 "676818797724171 минут 20.0 секунд".
Proof. repeat split; vm_compute; reflexivity. Qed.

(** Claim C2. For every behaviour of the retrieval client, both resolvers
    return a fact and raise nothing. When the search raises, the bridge
    resolver returns [fallback_bridge] (length 487.0, a name ending in
    "(fallback)", the source "fallback:" followed by the text of the
    error) and the animal resolver returns [fallback_animal] (speed
    [90 / 3.6]). When the search, the summary and the extraction succeed,
    the fact is built from the page found and is not the fallback. *)
Theorem resolvers_never_raise :
  forall (U : UnicodeData) (World : Type)
         (new_client : str -> M (World := World) (WikipediaClient.t World))
         (client : WikipediaClient.t World) (animal_name : str) (w : World),
    (exists b w', get_bridge_info_big_stone_bridge client w = (Ok b, w'))
    /\ (exists a w', get_animal_speed new_client client animal_name w = (Ok a, w'))
    /\ (forall e w',
          WikipediaClient.search_page client bridge_query w = (Raise e, w') ->
          get_bridge_info_big_stone_bridge client w = (Ok (fallback_bridge e), w'))
    /\ (forall e w',
          WikipediaClient.search_page client animal_name w = (Raise e, w') ->
          get_animal_speed new_client client animal_name w
          = (Ok (fallback_animal animal_name e), w'))
    /\ (forall e,
          BridgeInfo.length_meters (fallback_bridge e) = 487.0%float
          /\ endswith (u8 "(fallback)") (BridgeInfo.name (fallback_bridge e)) = true
          /\ BridgeInfo.source (fallback_bridge e) = u8 "fallback:" ++ exc_str e
          /\ startswith (u8 "fallback:") (BridgeInfo.source (fallback_bridge e)) = true
          /\ AnimalSpeed.speed_m_s (fallback_animal animal_name e) = (90 / 3.6)%float
          /\ endswith (u8 "(fallback)")
               (AnimalSpeed.name (fallback_animal animal_name e)) = true
          /\ startswith (u8 "fallback:")
               (AnimalSpeed.source (fallback_animal animal_name e)) = true)
    /\ (forall sr w1 sm w2 v,
          WikipediaClient.search_page client bridge_query w = (Ok (Some sr), w1) ->
          WikipediaClient.get_page_summary client
            (WikipediaSearchResult.page_id sr) true w1 = (Ok sm, w2) ->
          _parse_length_meters (WikipediaPageSummary.extract sm) = Ok v ->
          get_bridge_info_big_stone_bridge client w
          = (Ok {| BridgeInfo.name := WikipediaSearchResult.title sr;
                   BridgeInfo.length_meters := v;
                   BridgeInfo.source :=
                     _build_page_url (WikipediaSearchResult.page_id sr)
                                     (WikipediaClient.base_url client) |}, w2))
    /\ (forall sr w1 sm w2 v,
          WikipediaClient.search_page client animal_name w = (Ok (Some sr), w1) ->
          WikipediaClient.get_page_summary client
            (WikipediaSearchResult.page_id sr) true w1 = (Ok sm, w2) ->
          _parse_speed_kmh (WikipediaPageSummary.extract sm) = Ok v ->
          get_animal_speed new_client client animal_name w
          = (Ok (AnimalSpeed.from_kmh (WikipediaSearchResult.title sr) v
                   (_build_page_url (WikipediaSearchResult.page_id sr)
                                    (WikipediaClient.base_url client))), w2)).
Proof.
  intros U World new_client client animal_name w.
  split. { destruct (bridge_outcome client w) as [b [w' [H _]]]. eauto. }
  split. { destruct (animal_outcome new_client client animal_name w) as [a [w' [H _]]]. eauto. }
  split. { intros e w' H. apply bridge_search_raises. exact H. }
  split. { intros e w' H. apply animal_search_raises. exact H. }
  split.
  { intros e.
    split; [reflexivity|]. split; [reflexivity|]. split; [reflexivity|].
    split; [apply startswith_app|]. split; [reflexivity|].
    split; [|apply startswith_app].
    cbn [fallback_animal AnimalSpeed.name].
    replace (animal_name ++ u8 " (fallback)")
      with ((animal_name ++ u8 " ") ++ u8 "(fallback)")
      by (rewrite <- app_assoc; reflexivity).
    apply endswith_app. }
  split.
  { intros sr w1 sm w2 v H1 H2 H3. apply (bridge_primary client w sr w1 sm w2 v); assumption. }
  intros sr w1 sm w2 v H1 H2 H3.
  apply (animal_primary new_client client animal_name w sr w1 sm w2 v); assumption.
Qed.

(** Claim C6. The search of the primary client finds nothing for the
    name and for the capitalized name, the primary client is not the
    English one, the secondary client is built for the English API and
    finds a page for the capitalized name. Then [get_animal_speed] reads
    that page through the secondary client: its introduction and, when
    the introduction holds no speed, its full text. A speed found in
    either gives the fact with the title found by the secondary search,
    that speed, and the URL of the page at the secondary client. When a
    summary cannot be fetched from the secondary client, or neither text
    holds a speed, the fallback fact is returned with the text of the
    error. *)
Theorem get_animal_speed_english_fallback :
  forall (U : UnicodeData) (World : Type)
         (new_client : str -> M (World := World) (WikipediaClient.t World))
         (client : WikipediaClient.t World) (animal_name : str)
         (w w1 w2 w3 w4 : World) (fallback : WikipediaClient.t World)
         (sr : WikipediaSearchResult.t),
    WikipediaClient.search_page client animal_name w = (Ok None, w1) ->
    WikipediaClient.search_page client (capitalize animal_name) w1 = (Ok None, w2) ->
    startswith (u8 "https://en.wikipedia.org") (WikipediaClient.base_url client) = false ->
    new_client english_api w2 = (Ok fallback, w3) ->
    WikipediaClient.search_page fallback (capitalize animal_name) w3 = (Ok (Some sr), w4) ->
    let page_id := WikipediaSearchResult.page_id sr in
    let read := WikipediaClient.get_page_summary fallback page_id in
    let fact v :=
      {| AnimalSpeed.name := WikipediaSearchResult.title sr;
         AnimalSpeed.speed_m_s := kmh_to_ms v;
         AnimalSpeed.source := _build_page_url page_id (WikipediaClient.base_url fallback);
         AnimalSpeed.speed_km_h := Some v |} in
    let answer := get_animal_speed new_client client animal_name w in
    (forall sm w5 v,
       read true w4 = (Ok sm, w5) ->
       _parse_speed_kmh (WikipediaPageSummary.extract sm) = Ok v ->
       answer = (Ok (fact v), w5))
    /\ (forall sm w5 e sm' w6 v,
          read true w4 = (Ok sm, w5) ->
          _parse_speed_kmh (WikipediaPageSummary.extract sm) = Raise e ->
          read false w5 = (Ok sm', w6) ->
          _parse_speed_kmh (WikipediaPageSummary.extract sm') = Ok v ->
          answer = (Ok (fact v), w6))
    /\ (forall e w5,
          read true w4 = (Raise e, w5) ->
          answer = (Ok (fallback_animal animal_name e), w5))
    /\ (forall sm w5 e e' w6,
          read true w4 = (Ok sm, w5) ->
          _parse_speed_kmh (WikipediaPageSummary.extract sm) = Raise e ->
          read false w5 = (Raise e', w6) ->
          answer = (Ok (fallback_animal animal_name e'), w6))
    /\ (forall sm w5 e sm' w6 e',
          read true w4 = (Ok sm, w5) ->
          _parse_speed_kmh (WikipediaPageSummary.extract sm) = Raise e ->
          read false w5 = (Ok sm', w6) ->
          _parse_speed_kmh (WikipediaPageSummary.extract sm') = Raise e' ->
          answer = (Ok (fallback_animal animal_name e'), w6)).
Proof.
  intros U World new_client client animal_name w w1 w2 w3 w4 fallback sr
         H1 H2 H3 H4 H5 page_id read fact answer.
  assert (Ha : answer
    = match read true w4 with
      | (Ok sm, w5) =>
        match _parse_speed_kmh (WikipediaPageSummary.extract sm) with
        | Ok v => (Ok (fact v), w5)
        | Raise e =>
          if is_ValueError e then
            match read false w5 with
            | (Ok sm', w6) =>
              match _parse_speed_kmh (WikipediaPageSummary.extract sm') with
              | Ok v => (Ok (fact v), w6)
              | Raise e' => (Ok (fallback_animal animal_name e'), w6)
              end
            | (Raise e', w6) => (Ok (fallback_animal animal_name e'), w6)
            end
          else (Ok (fallback_animal animal_name e), w5)
        end
      | (Raise e, w5) => (Ok (fallback_animal animal_name e), w5)
      end).
  { subst answer read fact page_id. unfold get_animal_speed. run_world.
    rewrite H1, H2, H3. cbn [negb]. rewrite H4, H5.
    destruct (WikipediaClient.get_page_summary fallback _ true w4) as [[sm|e] w5];
      [|reflexivity].
    destruct (_parse_speed_kmh (WikipediaPageSummary.extract sm)) as [v|e];
      [reflexivity|].
    destruct (is_ValueError e); [|reflexivity].
    destruct (WikipediaClient.get_page_summary fallback _ false w5) as [[sm'|e'] w6];
      [|reflexivity].
    destruct (_parse_speed_kmh (WikipediaPageSummary.extract sm')); reflexivity. }
  rewrite Ha. clear Ha. repeat split.
  - intros sm w5 v Hr Hp. rewrite Hr, Hp. reflexivity.
  - intros sm w5 e sm' w6 v Hr Hp Hr' Hp'.
    rewrite Hr, Hp, (parse_speed_raises_ValueError _ _ Hp), Hr', Hp'. reflexivity.
  - intros e w5 Hr. rewrite Hr. reflexivity.
  - intros sm w5 e e' w6 Hr Hp Hr'.
    rewrite Hr, Hp, (parse_speed_raises_ValueError _ _ Hp), Hr'. reflexivity.
  - intros sm w5 e sm' w6 e' Hr Hp Hr' Hp'.
    rewrite Hr, Hp, (parse_speed_raises_ValueError _ _ Hp), Hr', Hp'. reflexivity.
Qed.


Lemma status_check_range : forall value min_v max_v description units,
  status (_check_range value min_v max_v description units)
  = Some (verdict (in_range min_v max_v value))
  /\ status_is_ok (_check_range value min_v max_v description units)
     = in_range min_v max_v value.
Proof.
  intros. unfold status, status_is_ok, _check_range, verdict, in_range.
  cbn [ReasoningStep.data].
  destruct ((min_v <=? value)%float && (value <=? max_v)%float); split; reflexivity.
Qed.

(** Claim C7. For every result, [self_check_result] returns the steps of
    the three inclusive range checks (time in [0.5, 600], length in
    [20, 1000], speed in [5, 100]), each with the status "ok" or "fail" of
    its check, then the summary step recording the flag, then at most one
    step of the language model; the flag is the conjunction of the three
    checks. *)
Theorem self_check_result_ranges :
  forall (World : Type) (model_dump : ReasoningResult.t -> str)
         (result : ReasoningResult.t) (llm_client : option (LLMClient.t World))
         (w : World),
    let time_ok := in_range 0.5 600 (ReasoningResult.time_seconds result) in
    let bridge_ok :=
      in_range 20 1000 (BridgeInfo.length_meters (ReasoningResult.bridge result)) in
    let speed_ok :=
      in_range 5 100 (AnimalSpeed.speed_m_s (ReasoningResult.animal result)) in
    let passed := time_ok && bridge_ok && speed_ok in
    exists time_step bridge_step speed_step extra w',
      self_check_result model_dump result llm_client w
      = (Ok (passed, [time_step; bridge_step; speed_step; summary_step passed] ++ extra), w')
      /\ status time_step = Some (verdict time_ok)
      /\ status bridge_step = Some (verdict bridge_ok)
      /\ status speed_step = Some (verdict speed_ok)
      /\ (length extra <= 1)%nat
      /\ (llm_client = None -> extra = [] /\ w' = w).
Proof.
  intros World model_dump result llm_client w time_ok bridge_ok speed_ok passed.
  unfold self_check_result. cbv zeta. cbn [app forallb fst snd TIME_RANGE BRIDGE_RANGE SPEED_RANGE].
  rewrite !(proj2 (status_check_range _ _ _ _ _)). rewrite andb_true_r.
  fold time_ok bridge_ok speed_ok. rewrite andb_assoc. fold passed.
  fold (summary_step passed).
  do 3 eexists.
  assert (Hllm : exists extra w',
            _llm_self_check model_dump result llm_client w
            = (Ok (match extra with [] => None | s :: _ => Some s end), w')
            /\ (length extra <= 1)%nat /\ (llm_client = None -> extra = [] /\ w' = w)).
  { unfold _llm_self_check. destruct llm_client as [c|].
    - cbv [try_except bind ret any_Exception].
      destruct (LLMClient.get_model c w) as [[llm|e] w1].
      + destruct (LLMClient.invoke llm _ w1) as [[opinion|e] w2];
          (eexists [_], _; split; [reflexivity|]; split; [cbn; lia|discriminate]).
      + eexists [_], _. split; [reflexivity|]. split; [cbn; lia|discriminate].
    - exists [], w. split; [reflexivity|]. split; [cbn; lia|auto]. }
  destruct Hllm as [extra [w' [Hl [Hlen Hnone]]]].
  exists extra, w'. cbv [bind ret]. rewrite Hl.
  split.
  { destruct extra as [|s [|s' extra]]; cbn [length] in Hlen; try lia; reflexivity. }
  split; [apply status_check_range|]. split; [apply status_check_range|].
  split; [apply status_check_range|]. auto.
Qed.

Example self_check_tests :
  let result t :=
    {| ReasoningResult.bridge := Stub.mock_bridge 200;
       ReasoningResult.animal := Stub.mock_animal 25;
       ReasoningResult.time_seconds := t;
       ReasoningResult.time_human_readable := [];
       ReasoningResult.steps := [] |} in
  (exists steps, self_check_result (World := unit) (fun _ => []) (result 8%float) None tt
                 = (Ok (true, steps), tt)
                 /\ map status steps
                    = [Some (verdict true); Some (verdict true); Some (verdict true); None])
  /\ (exists steps, self_check_result (World := unit) (fun _ => []) (result 1000%float) None tt
                 = (Ok (false, steps), tt)
                 /\ map status steps
                    = [Some (verdict false); Some (verdict true); Some (verdict true); None]).
Proof. split; eexists; split; vm_compute; reflexivity. Qed.

(** Claim C4. For every text and every table of characters, the tokens
    [_parse_length_meters] compares are those of the scan of the
    specification: from left to right, each numeric token (digits, or
    digits with "," or "." between) followed, after optional white space,
    by the letter м in either case, the scan going on after the letter.
    Their values are the floats nearest to the numbers they write, ","
    and "." both read as the decimal point. When the scan finds no token
    the function raises its ValueError; otherwise it returns the greatest
    of the values. Where the classes of characters do not overlap, as in
    [BasicUnicode], the text has no other scan. On the text of the
    example the result is 345.5, with "," as with "." and a capital
    letter. *)
Theorem parse_length_meters_max_of_matches :
  (forall (U : UnicodeData) (text : str),
     exists items values,
       scan_spec meter_unit text items
       /\ Forall2 token_value_spec items values
       /\ (has_length text <-> items <> [])
       /\ (items = [] ->
           _parse_length_meters text
           = Raise (mkExc ValueError (u8 "Не удалось извлечь длину моста из текста")))
       /\ (items <> [] ->
           exists v, _parse_length_meters text = Ok v /\ greatest v values)
       /\ (separate meter_letters ->
           forall items', scan_spec meter_unit text items' -> items' = items))
  /\ @separate BasicUnicode.tables meter_letters
  /\ @_parse_length_meters BasicUnicode.tables
       (u8 "Мост длиной 345,5 м построен рядом с 123 м переправой.")
     = Ok 345.5%float
  /\ @_parse_length_meters BasicUnicode.tables (u8 "ДЛИНА 345.5 М") = Ok 345.5%float.
Proof.
  split; [|split; [apply basic_separate_meter|split; vm_compute; reflexivity]].
  intros U text.
  pose proof (length_scan text) as Hscan.
  pose proof (scan_tokens _ _ _ Hscan) as Htok.
  destruct (max_of_scan (findall true length_pattern text)
              (mkExc ValueError (u8 "Не удалось извлечь длину моста из текста"))
              (mkExc ValueError (u8 "max() arg is an empty sequence")) Htok)
    as [values [Hv [Hnone Hsome]]].
  exists (findall true length_pattern text), values.
  split; [exact Hscan|]. split; [exact Hv|]. split; [apply has_length_findall|].
  split; [exact Hnone|]. split.
  - intros Hne. destruct (Hsome Hne) as [v [Hr [Hg _]]]. exists v. split; assumption.
  - intros Hsep items' H'. apply length_scan_unique; assumption.
Qed.

(** Claim C5. For every text and every table of characters, the tokens
    [_parse_speed_kmh] compares are those of the scan of the
    specification: from left to right, each numeric token followed, after
    optional white space, by one of the unit texts of [speed_unit_text]
    ("км/ч" and "км в час" with optional white space around the slash and
    around "в", "km/h" and "kmh" as they are, in either case), the scan
    going on after the unit. Their values are the floats nearest to the
    numbers they write. When the scan finds no token the function raises
    its ValueError; otherwise it returns the greatest of the values.
    Where the classes of characters do not overlap, as in [BasicUnicode],
    the text has no other scan. On the text of the example the result is
    100; three more texts show the capital letters, the white space
    around the slash and the other units. *)
Theorem parse_speed_kmh_max_of_matches :
  (forall (U : UnicodeData) (text : str),
     exists items values,
       scan_spec speed_unit_text text items
       /\ Forall2 token_value_spec items values
       /\ (has_speed text <-> items <> [])
       /\ (items = [] ->
           _parse_speed_kmh text
           = Raise (mkExc ValueError
                      (u8 "Не удалось извлечь скорость гепарда из текста")))
       /\ (items <> [] ->
           exists v, _parse_speed_kmh text = Ok v /\ greatest v values)
       /\ (separate speed_letters ->
           forall items', scan_spec speed_unit_text text items' -> items' = items))
  /\ @separate BasicUnicode.tables speed_letters
  /\ @_parse_speed_kmh BasicUnicode.tables
       (u8 "Гепард развивает скорость до 100 км/ч, а иногда 95 km/h.")
     = Ok 100%float
  /\ @_parse_speed_kmh BasicUnicode.tables
       (u8 "Скорость 99,5 КМ / Ч, реже 95 kmh") = Ok 99.5%float
  /\ @_parse_speed_kmh BasicUnicode.tables (u8 "7.25 км в час") = Ok 7.25%float
  /\ @_parse_speed_kmh BasicUnicode.tables (u8 "120 Km/H") = Ok 120%float.
Proof.
  split; [|split; [apply basic_separate_speed|]].
  2:{ split; [vm_compute; reflexivity|]. split; [vm_compute; reflexivity|].
      split; vm_compute; reflexivity. }
  intros U text.
  pose proof (speed_scan text) as Hscan.
  pose proof (scan_tokens _ _ _ Hscan) as Htok.
  destruct (max_of_scan (findall true speed_pattern text)
              (mkExc ValueError (u8 "Не удалось извлечь скорость гепарда из текста"))
              (mkExc ValueError (u8 "max() arg is an empty sequence")) Htok)
    as [values [Hv [Hnone Hsome]]].
  exists (findall true speed_pattern text), values.
  split; [exact Hscan|]. split; [exact Hv|]. split; [apply has_speed_findall|].
  split; [exact Hnone|]. split.
  - intros Hne. destruct (Hsome Hne) as [v [Hr [Hg _]]]. exists v. split; assumption.
  - intros Hsep items' H'. apply speed_scan_unique; assumption.
Qed.

(** * Further properties of the code *)

(** ** Further properties of [app/core/models.py] *)

Lemma int_seconds_float : forall n s,
  0 <= n < 2 ^ 53 -> float_of_int n = Ok s -> Prim2SF s = fl n 0.
Proof.
  intros n s Hn H. unfold float_of_int in H.
  rewrite (binary_normalize_fl n 0 n 0 (-53)) in H by lia.
  assert (Hs : s = SF2Prim (fl n 0)).
  { unfold fl, nrm in H |- *. destruct (n =? 0); injection H as <-; reflexivity. }
  subst s. apply Prim2SF_fl; lia.
Qed.

Lemma float_of_int_small : forall n, 0 <= n < 2 ^ 53 ->
  float_of_int n = Ok (SF2Prim (fl n 0)).
Proof.
  intros n Hn. unfold float_of_int.
  rewrite (binary_normalize_fl n 0 n 0 (-53)) by lia.
  unfold fl, nrm. destruct (n =? 0); reflexivity.
Qed.

Lemma F2Q_int : forall n s, 0 <= n < 2 ^ 53 -> Prim2SF s = fl n 0 ->
  (F2Q s == inject_Z n)%Q.
Proof.
  intros n s Hn Hs. unfold F2Q. rewrite Hs. unfold fl.
  destruct (Z.eqb_spec n 0) as [->|Hne]; [reflexivity|].
  pose proof (SF2Q_nrm n 0 (-53) ltac:(lia) ltac:(lia) ltac:(lia) ltac:(lia)) as Hq.
  destruct (nrm n 0) as [| | |sg m e] eqn:En; try contradiction.
  unfold nrm in En. injection En as <- _ _.
  rewrite Hq. unfold Qeq, inject_Z. cbn [Qnum Qden].
  change (Zpos (Z.to_pos (2 ^ (- -53)))) with (2 ^ 53).
  change (0 - -53) with 53. lia.
Qed.

Lemma Qcompare_inject : forall a b, (inject_Z a ?= inject_Z b)%Q = (a ?= b).
Proof. intros. unfold Qcompare, inject_Z. cbn [Qnum Qden]. rewrite !Z.mul_1_r. reflexivity. Qed.

Lemma fixed1_int : forall n, 0 <= n ->
  fixed1 (inject_Z n) = str_of_Z n ++ u8 ".0".
Proof.
  intros n Hn. unfold fixed1.
  assert (Hr : round_half_even (inject_Z n * 10) = n * 10).
  { unfold round_half_even.
    assert (Hf : Qfloor (inject_Z n * 10) = n * 10).
    { unfold Qfloor, Qmult, inject_Z. cbn [Qnum Qden]. apply Z.div_1_r. }
    rewrite Hf.
    assert (Hc : (inject_Z n * 10 - inject_Z (n * 10) ?= 1 # 2)%Q = Lt).
    { unfold Qcompare, Qminus, Qplus, Qopp, Qmult, inject_Z.
      cbn [Qnum Qden]. apply Z.compare_lt_iff. lia. }
    rewrite Hc. reflexivity. }
  rewrite Hr. rewrite Z.div_mul by lia. rewrite Z.mod_mul by lia. reflexivity.
Qed.

Lemma format_1f_int : forall n s, 0 <= n < 2 ^ 53 -> Prim2SF s = fl n 0 ->
  format_1f s = str_of_Z n ++ u8 ".0".
Proof.
  intros n s Hn Hs. unfold fl in Hs.
  destruct (Z.eqb_spec n 0) as [->|Hne].
  - unfold format_1f. rewrite Hs. reflexivity.
  - rewrite (format_1f_nrm s n 0 (-53) (inject_Z n)); try lia; auto.
    + apply fixed1_int. lia.
    + unfold Qeq, inject_Z. cbn [Qnum Qden].
      change (Zpos (Z.to_pos (2 ^ (- -53)))) with (2 ^ 53).
      change (0 - -53) with 53. lia.
Qed.

Lemma int_below_2p55 : forall n s, 0 <= n < 2 ^ 53 -> Prim2SF s = fl n 0 ->
  (s <? 0x1p55)%float = true.
Proof.
  intros n s Hn Hs. rewrite ltb_spec, Hs. unfold fl.
  destruct (Z.eqb_spec n 0) as [->|Hne]; [reflexivity|].
  change (Prim2SF 0x1p55) with (nrm 1 55). unfold SFltb.
  rewrite (SFcompare_nrm n 0 1 55 (-53)) by (change (2 ^ 53) with 9007199254740992; lia).
  assert (Hlt : n * 2 ^ (0 - -53) < 1 * 2 ^ (55 - -53)).
  { change (2 ^ (0 - -53)) with (2 ^ 53). change (2 ^ (55 - -53)) with (2 ^ 53 * 2 ^ 55).
    change (2 ^ 53) with 9007199254740992 in *. change (2 ^ 55) with 36028797018963968. lia. }
  apply Z.compare_lt_iff in Hlt. rewrite Hlt. reflexivity.
Qed.

(** The text for a whole number of seconds. *)
Lemma format_seconds_spec_int : forall n s, 0 <= n < 2 ^ 53 -> Prim2SF s = fl n 0 ->
  format_seconds_spec s
  = if n <? 60 then str_of_Z n ++ u8 ".0 секунд"
    else if n mod 60 =? 0 then str_of_Z (n / 60) ++ u8 " минут"
    else str_of_Z (n / 60) ++ u8 " минут " ++ str_of_Z (n mod 60) ++ u8 ".0 секунд".
Proof.
  intros n s Hn Hs. pose proof (F2Q_int n s Hn Hs) as Hq.
  unfold format_seconds_spec. cbv zeta.
  rewrite (Qcompare_comp _ _ Hq 60%Q (inject_Z 60)) by reflexivity.
  rewrite Qcompare_inject.
  destruct (Z.ltb_spec n 60) as [Hlt|Hge].
  - apply Z.compare_lt_iff in Hlt. rewrite Hlt.
    rewrite (format_1f_int n s Hn Hs). rewrite <- app_assoc. reflexivity.
  - assert (Hm : Qfloor (F2Q s / 60) = n / 60).
    { assert (Hd : (F2Q s / 60 == n # 60)%Q).
      { rewrite Hq. unfold Qeq, Qdiv, Qmult, Qinv, inject_Z. cbn. lia. }
      rewrite (Qfloor_comp _ _ Hd). reflexivity. }
    rewrite Hm.
    assert (Hr : (F2Q s - inject_Z (n / 60) * 60 == inject_Z (n mod 60))%Q).
    { rewrite Hq. unfold Qeq, Qminus, Qplus, Qopp, Qmult, inject_Z. cbn [Qnum Qden].
      pose proof (Z.div_mod n 60 ltac:(lia)). lia. }
    pose proof (Z.mod_pos_bound n 60 ltac:(lia)) as Hb.
    assert (Hc : (n ?= 60) <> Lt) by (intro Hc; rewrite Z.compare_lt_iff in Hc; lia).
    assert (Hc10 : ((F2Q s - inject_Z (n / 60) * 60 ?= 1 # 10)%Q)
                   = if n mod 60 =? 0 then Lt else Gt).
    { rewrite (Qcompare_comp _ _ Hr (1 # 10)%Q (1 # 10)%Q) by reflexivity.
      unfold Qcompare, inject_Z. cbn [Qnum Qden].
      destruct (Z.eqb_spec (n mod 60) 0) as [E|E].
      - rewrite E. reflexivity.
      - apply Z.compare_gt_iff. lia. }
    rewrite Hc10.
    assert (Hf : fixed1 (F2Q s - inject_Z (n / 60) * 60) = str_of_Z (n mod 60) ++ u8 ".0").
    { rewrite (fixed1_comp _ _ Hr). apply fixed1_int. lia. }
    rewrite Hf.
    destruct (n ?= 60); try (exfalso; apply Hc; reflexivity);
      destruct (n mod 60 =? 0); try reflexivity;
      rewrite <- !app_assoc; reflexivity.
Qed.

(** NaN in, NaN out. *)
Lemma div_nan : forall l s, is_nan l = true \/ is_nan s = true -> (l / s)%float = nan.
Proof.
  intros l s H. apply nan_unique. rewrite div_spec.
  destruct H as [H|H]; apply is_nan_Prim2SF in H; rewrite H.
  - reflexivity.
  - destruct (Prim2SF l) as [?|?| |? ? ?]; reflexivity.
Qed.

Lemma not_leb_zero_not_zero : forall s,
  (s <=? 0)%float = false -> (s =? 0)%float = false.
Proof.
  intros s H. rewrite leb_spec in H. rewrite eqb_spec.
  change (Prim2SF 0) with (S754_zero false) in *.
  destruct (Prim2SF s) as [sg|[|]| |[|] m e]; try discriminate; reflexivity.
Qed.

Lemma estimate_crossing_time_of_nan : forall bridge animal,
  (AnimalSpeed.speed_m_s animal <=? 0)%float = false ->
  (BridgeInfo.length_meters bridge / AnimalSpeed.speed_m_s animal)%float = nan ->
  estimate_crossing_time bridge animal
  = Raise (mkExc ValueError (u8 "cannot convert float NaN to integer")).
Proof.
  intros bridge animal Hs Hn. unfold estimate_crossing_time, truediv.
  rewrite Hs, (not_leb_zero_not_zero _ Hs). cbn [rbind].
  rewrite Hn, format_seconds_nan. reflexivity.
Qed.

(** The quotient of a non-negative length by a speed that passed the
    check is not negative, or it is NaN. *)
Lemma quotient_nonneg_or_nan : forall l s,
  (0 <=? l)%float = true -> (s <=? 0)%float = false ->
  (0 <=? l / s)%float = true \/ (l / s)%float = nan.
Proof.
  intros l s Hl Hs.
  pose proof (float_nonneg_SF l Hl) as Hnl.
  rewrite leb_spec in Hs. change (Prim2SF 0) with (S754_zero false) in Hs.
  destruct (Prim2SF s) as [sg|[|]| |[|] m e] eqn:Es; try discriminate.
  - (* plus infinity *)
    destruct (Prim2SF l) as [sl|[|]| |[|] ml el] eqn:El; cbn in Hnl; try contradiction.
    + left. rewrite leb_spec, div_spec, Es, El. reflexivity.
    + right. apply nan_unique. rewrite div_spec, Es, El. reflexivity.
    + left. rewrite leb_spec, div_spec, Es, El. reflexivity.
  - right. apply nan_unique. rewrite div_spec, Es.
    destruct (Prim2SF l) as [?|?| |? ? ?]; reflexivity.
  - left. rewrite leb_spec, div_spec, Es.
    change (Prim2SF 0) with (S754_zero false).
    apply SFleb_zero_nonneg. apply SFdiv_nonneg. exact Hnl.
Qed.

(** Property X1. [kmh_to_ms] of a speed that is zero, positive or plus
    infinity is not negative and is no NaN. *)
Theorem kmh_to_ms_keeps_nonnegative : forall speed_km_h,
  (0 <=? speed_km_h)%float = true ->
  (0 <=? kmh_to_ms speed_km_h)%float = true
  /\ is_nan (kmh_to_ms speed_km_h) = false.
Proof.
  intros x H. pose proof (kmh_to_ms_nonneg x H) as Hk. split; [exact Hk|].
  destruct (is_nan (kmh_to_ms x)) eqn:En; [|reflexivity].
  apply is_nan_Prim2SF in En. rewrite leb_spec, En in Hk. discriminate.
Qed.

Lemma kmh_to_ms_keeps_nonnegative_witness :
  (0 <=? 90)%float = true
  /\ (0 <=? kmh_to_ms 90)%float = true
  /\ is_nan (kmh_to_ms 90) = false.
Proof.
  split; [reflexivity|]. apply (kmh_to_ms_keeps_nonnegative 90). reflexivity.
Defined.

(** Property X2. For a whole number [n] of seconds, [0 <= n < 2^53],
    [format_seconds] of the float [n] shows [n.0] seconds below a minute,
    the minutes alone when [n] is a multiple of 60, and otherwise the
    minutes and the remaining seconds with [.0]. *)
Theorem format_seconds_whole_seconds : forall n s,
  0 <= n < 2 ^ 53 -> float_of_int n = Ok s ->
  format_seconds s
  = Ok (if n <? 60 then str_of_Z n ++ u8 ".0 секунд"
        else if n mod 60 =? 0 then str_of_Z (n / 60) ++ u8 " минут"
        else str_of_Z (n / 60) ++ u8 " минут "
             ++ str_of_Z (n mod 60) ++ u8 ".0 секунд").
Proof.
  intros n s Hn Hf. pose proof (int_seconds_float n s Hn Hf) as Hs.
  rewrite (format_seconds_exact s (int_below_2p55 n s Hn Hs)).
  rewrite (format_seconds_spec_int n s Hn Hs). reflexivity.
Qed.

Lemma format_seconds_whole_seconds_witness :
  0 <= 3725 < 2 ^ 53
  /\ float_of_int 3725 = Ok 3725%float
  /\ format_seconds 3725 = Ok (u8 "62 минут 5.0 секунд").
Proof.
  split; [lia|]. split; [vm_compute; reflexivity|].
  refine (eq_trans (format_seconds_whole_seconds 3725 3725%float _ _) _).
  - lia.
  - vm_compute. reflexivity.
  - vm_compute. reflexivity.
Defined.

(** Property X3. When the speed passes the check of
    [estimate_crossing_time] (it is not [<= 0], as a NaN is not) and the
    length or the speed is NaN, the call raises the ValueError of [int()]
    on a NaN, which [format_seconds] lets through. *)
Theorem estimate_crossing_time_nan_raises : forall bridge animal,
  (AnimalSpeed.speed_m_s animal <=? 0)%float = false ->
  is_nan (BridgeInfo.length_meters bridge) = true
  \/ is_nan (AnimalSpeed.speed_m_s animal) = true ->
  estimate_crossing_time bridge animal
  = Raise (mkExc ValueError (u8 "cannot convert float NaN to integer")).
Proof.
  intros bridge animal Hs Hn.
  apply estimate_crossing_time_of_nan; [exact Hs|]. apply div_nan. exact Hn.
Qed.

Lemma estimate_crossing_time_nan_raises_witness :
  let bridge := Stub.mock_bridge 100 in
  let animal := Stub.mock_animal nan in
  (AnimalSpeed.speed_m_s animal <=? 0)%float = false
  /\ is_nan (AnimalSpeed.speed_m_s animal) = true
  /\ estimate_crossing_time bridge animal
     = Raise (mkExc ValueError (u8 "cannot convert float NaN to integer")).
Proof.
  intros bridge animal. split; [reflexivity|]. split; [reflexivity|].
  apply (estimate_crossing_time_nan_raises bridge animal); [reflexivity|].
  right. reflexivity.
Defined.

(** Property X4. A result of [estimate_crossing_time] for a bridge whose
    length is not negative has a time that is not negative. *)
Theorem estimate_crossing_time_nonnegative_time : forall bridge animal r,
  (0 <=? BridgeInfo.length_meters bridge)%float = true ->
  estimate_crossing_time bridge animal = Ok r ->
  (0 <=? ReasoningResult.time_seconds r)%float = true.
Proof.
  intros bridge animal r Hl H.
  destruct (estimate_crossing_time_frame _ _ _ H) as [_ [_ Ht]]. rewrite Ht.
  assert (Hs : (AnimalSpeed.speed_m_s animal <=? 0)%float = false).
  { unfold estimate_crossing_time in H.
    destruct (AnimalSpeed.speed_m_s animal <=? 0)%float; [discriminate|reflexivity]. }
  destruct (quotient_nonneg_or_nan _ _ Hl Hs) as [Hq|Hq]; [exact Hq|].
  rewrite (estimate_crossing_time_of_nan _ _ Hs Hq) in H. discriminate.
Qed.

Lemma estimate_crossing_time_nonnegative_time_witness :
  let bridge := Stub.mock_bridge 200 in
  let animal := Stub.mock_animal 25 in
  (0 <=? BridgeInfo.length_meters bridge)%float = true
  /\ exists r, estimate_crossing_time bridge animal = Ok r
       /\ (0 <=? ReasoningResult.time_seconds r)%float = true.
Proof.
  intros bridge animal. split; [reflexivity|].
  exists {| ReasoningResult.bridge := bridge;
            ReasoningResult.animal := animal;
            ReasoningResult.time_seconds := 8;
            ReasoningResult.time_human_readable := u8 "8.0 секунд";
            ReasoningResult.steps := crossing_steps bridge animal 8 |}.
  split; [vm_compute; reflexivity|].
  apply (estimate_crossing_time_nonnegative_time bridge animal);
    [reflexivity | vm_compute; reflexivity].
Defined.

(** ** Further properties of [_build_page_url] *)

Lemma startswith_length : forall p s, startswith p s = true -> (length p <= length s)%nat.
Proof.
  induction p as [|c p IH]; intros [|d s] H; cbn in *; try lia; try discriminate.
  apply andb_true_iff in H. destruct H as [_ H]. apply IH in H. lia.
Qed.

(** Only the first [length p] characters count. *)
Lemma startswith_app_l : forall p a b, (length p <= length a)%nat ->
  startswith p (a ++ b) = startswith p a.
Proof.
  induction p as [|c p IH]; intros [|d a] b H; cbn in *; try lia; try reflexivity.
  rewrite IH by lia. reflexivity.
Qed.

Lemma split_0_absent : forall sep s, occurs sep s = false -> split_0 sep s = s.
Proof.
  intros sep. induction s as [|c s IH]; intros H; cbn [occurs] in H;
    apply orb_false_iff in H; destruct H as [H1 H2].
  - cbn [split_0]. rewrite H1. reflexivity.
  - cbn [split_0]. rewrite H1. f_equal. apply IH. exact H2.
Qed.

Lemma split_0_eq : forall sep s,
  split_0 sep s
  = if startswith sep s then []
    else match s with
         | [] => []
         | c :: s' => c :: split_0 sep s'
         end.
Proof. intros sep [|c s]; reflexivity. Qed.

Lemma split_0_first : forall sep p rest, sep <> [] ->
  occurs sep (p ++ removelast sep) = false ->
  split_0 sep (p ++ sep ++ rest) = p.
Proof.
  intros sep p rest Hne. induction p as [|c p IH]; intros H.
  - cbn [app]. rewrite split_0_eq, startswith_app. reflexivity.
  - cbn [app occurs] in H. apply orb_false_iff in H. destruct H as [H1 H2].
    cbn [app]. rewrite split_0_eq.
    assert (Hs : startswith sep (c :: p ++ sep ++ rest) = false).
    { rewrite <- H1.
      assert (Hsep : sep = removelast sep ++ [last sep 0%N])
        by (apply app_removelast_last; exact Hne).
      assert (Hlen : length sep = S (length (removelast sep))).
      { rewrite Hsep at 1. rewrite length_app. cbn [length]. lia. }
      replace (c :: p ++ sep ++ rest)
        with ((c :: p ++ removelast sep) ++ [last sep 0%N] ++ rest).
      - apply startswith_app_l. cbn [length]. rewrite length_app. lia.
      - rewrite Hsep at 3. cbn [app]. rewrite <- !app_assoc. reflexivity. }
    rewrite Hs. f_equal. apply IH. exact H2.
Qed.

(** The decimal digits of a number read back. *)

Lemma dec_snoc : forall ds c acc,
  fold_left (fun a d => (10 * a + (d - 48))%N) (ds ++ [c]) acc
  = (10 * fold_left (fun a d => (10 * a + (d - 48))%N) ds acc + (c - 48))%N.
Proof. intros. rewrite fold_left_app. reflexivity. Qed.

Lemma digits_fuel_spec : forall fuel n acc, (n < 10 ^ N.of_nat fuel)%N ->
  exists ds, digits_fuel fuel n acc = ds ++ acc
    /\ fold_left (fun a d => (10 * a + (d - 48))%N) ds 0%N = n
    /\ Forall digit ds
    /\ (fuel <> O -> ds <> []).
Proof.
  induction fuel as [|fuel IH]; intros n acc Hn.
  - exists []. cbn in Hn. assert (n = 0%N) by lia. subst.
    split; [reflexivity|]. split; [reflexivity|]. split; [constructor|congruence].
  - cbn [digits_fuel]. destruct (N.ltb_spec n 10) as [Hlt|Hge].
    + exists [(48 + n mod 10)%N]. rewrite N.mod_small by lia.
      split; [reflexivity|]. split; [cbn [fold_left]; lia|].
      split; [|discriminate].
      constructor; [unfold digit; lia|constructor].
    + assert (Hdiv : (n / 10 < 10 ^ N.of_nat fuel)%N).
      { apply N.Div0.div_lt_upper_bound.
        rewrite Nat2N.inj_succ, N.pow_succ_r' in Hn. exact Hn. }
      destruct (IH (n / 10)%N ((48 + n mod 10)%N :: acc) Hdiv) as [ds [He [Hv [Hd _]]]].
      exists (ds ++ [(48 + n mod 10)%N]).
      split; [rewrite He, <- app_assoc; reflexivity|].
      split.
      { rewrite dec_snoc, Hv.
        replace (48 + n mod 10 - 48)%N with (n mod 10)%N
          by (generalize (n mod 10)%N; clear; intros; lia).
        symmetry. apply N.div_mod. discriminate. }
      split.
      { apply Forall_app. split; [exact Hd|].
        constructor; [|constructor]. unfold digit.
        pose proof (N.mod_upper_bound n 10 ltac:(discriminate)) as Hm.
        revert Hm. generalize (n mod 10)%N. clear. intros. lia. }
      intros _ E. destruct ds; discriminate.
Qed.

Lemma str_of_N_spec : forall n,
  fold_left (fun a d => (10 * a + (d - 48))%N) (str_of_N n) 0%N = n
  /\ Forall digit (str_of_N n) /\ str_of_N n <> [].
Proof.
  intros n. unfold str_of_N.
  destruct (digits_fuel_spec (S (N.to_nat (N.log2 n))) n []) as [ds [He [Hv [Hd Hne]]]].
  - rewrite Nat2N.inj_succ, N2Nat.id.
    destruct n as [|p]; [cbn; lia|].
    destruct (N.log2_spec (Npos p) ltac:(lia)) as [_ Hu].
    apply N.lt_le_trans with (2 ^ N.succ (N.log2 (N.pos p)))%N; [exact Hu|].
    apply N.pow_le_mono_l. lia.
  - rewrite He, app_nil_r. repeat split; auto.
Qed.

Lemma str_of_N_inj : forall a b, str_of_N a = str_of_N b -> a = b.
Proof.
  intros a b H.
  destruct (str_of_N_spec a) as [Ha _]. destruct (str_of_N_spec b) as [Hb _].
  rewrite <- Ha, <- Hb, H. reflexivity.
Qed.

Lemma str_of_N_head : forall n, exists c s, str_of_N n = c :: s /\ digit c.
Proof.
  intros n. destruct (str_of_N_spec n) as [_ [Hd Hne]].
  destruct (str_of_N n) as [|c s]; [congruence|].
  exists c, s. split; [reflexivity|]. inversion Hd; auto.
Qed.

Lemma str_of_Z_inj : forall a b, str_of_Z a = str_of_Z b -> a = b.
Proof.
  intros a b H.
  assert (Hneg : forall p z, str_of_Z (Zneg p) = str_of_N (Z.to_N z) -> False).
  { intros p z E. cbn [str_of_Z] in E.
    destruct (str_of_N_head (Z.to_N z)) as [c [s [Es Hc]]].
    rewrite Es in E. injection E as E _. unfold digit in Hc. lia. }
  destruct a as [|pa|pa], b as [|pb|pb]; try reflexivity;
    try (exfalso; apply (Hneg _ _ H)); try (exfalso; symmetry in H; apply (Hneg _ _ H)).
  - cbn [str_of_Z] in H. apply str_of_N_inj in H. cbn in H. lia.
  - cbn [str_of_Z] in H. apply str_of_N_inj in H. cbn in H. lia.
  - cbn [str_of_Z] in H. apply str_of_N_inj in H. cbn in H. lia.
  - cbn [str_of_Z] in H. injection H as H. apply str_of_N_inj in H. congruence.
Qed.

(** Property X6. [_build_page_url] keeps of [api_base] the text before its
    first "/w/", or all of it when there is none, and appends "/?curid="
    and the page id. *)
Theorem build_page_url_cuts_at_first_w : forall page_id api_base,
  (occurs (u8 "/w/") api_base = false ->
   _build_page_url page_id api_base = api_base ++ u8 "/?curid=" ++ str_of_Z page_id)
  /\ (forall prefix rest,
        api_base = prefix ++ u8 "/w/" ++ rest ->
        occurs (u8 "/w/") (prefix ++ u8 "/w") = false ->
        _build_page_url page_id api_base = prefix ++ u8 "/?curid=" ++ str_of_Z page_id).
Proof.
  intros page_id api_base. unfold _build_page_url. split.
  - intros H. rewrite (split_0_absent _ _ H). reflexivity.
  - intros prefix rest -> H.
    rewrite (split_0_first (u8 "/w/") prefix rest); [reflexivity|discriminate|exact H].
Qed.

Example build_page_url_tests :
  _build_page_url 100 (u8 "https://en.wikipedia.org/w/api.php")
  = u8 "https://en.wikipedia.org/?curid=100"
  /\ _build_page_url 1 (u8 "https://example.com") = u8 "https://example.com/?curid=1"
  /\ _build_page_url 7 (u8 "https://host/w/w/api.php") = u8 "https://host/?curid=7"
  /\ _build_page_url (-1) (u8 "/w/") = u8 "/?curid=-1".
Proof. repeat split. Qed.

(** Property X7. The URLs [_build_page_url] builds over one [api_base]
    for two different page ids are different. *)
Theorem build_page_url_injective : forall api_base a b,
  a <> b -> _build_page_url a api_base <> _build_page_url b api_base.
Proof.
  intros api_base a b Hne H. apply Hne. unfold _build_page_url in H.
  apply app_inv_head in H. apply app_inv_head in H. apply str_of_Z_inj. exact H.
Qed.

Lemma build_page_url_injective_witness :
  100 <> 345
  /\ _build_page_url 100 Stub.russian_api <> _build_page_url 345 Stub.russian_api.
Proof.
  split; [discriminate|].
  apply (build_page_url_injective Stub.russian_api 100 345). discriminate.
Defined.

(** ** Further properties of the resolvers *)

Section ResolverPaths.
Context {U : UnicodeData} {World : Type}.
Variable new_client : str -> M (World := World) (WikipediaClient.t World).

Lemma animal_speeds_agree : forall (client : WikipediaClient.t World) name w,
  exists a w' v, get_animal_speed new_client client name w = (Ok a, w')
    /\ AnimalSpeed.speed_km_h a = Some v
    /\ AnimalSpeed.speed_m_s a = kmh_to_ms v.
Proof.
  intros. unfold get_animal_speed. run_world.
  repeat step_world; (do 3 eexists; split; [reflexivity|]); split; reflexivity.
Qed.

Lemma bridge_second_attempt : forall (client : WikipediaClient.t World)
    w sr w1 sm w2 e,
  WikipediaClient.search_page client bridge_query w = (Ok (Some sr), w1) ->
  WikipediaClient.get_page_summary client (WikipediaSearchResult.page_id sr) true w1
  = (Ok sm, w2) ->
  _parse_length_meters (WikipediaPageSummary.extract sm) = Raise e ->
  get_bridge_info_big_stone_bridge client w
  = match WikipediaClient.get_page_summary client
            (WikipediaSearchResult.page_id sr) false w2 with
    | (Ok sm', w3) =>
      match _parse_length_meters (WikipediaPageSummary.extract sm') with
      | Ok v =>
        (Ok {| BridgeInfo.name := WikipediaSearchResult.title sr;
               BridgeInfo.length_meters := v;
               BridgeInfo.source :=
                 _build_page_url (WikipediaSearchResult.page_id sr)
                                 (WikipediaClient.base_url client) |}, w3)
      | Raise e' => (Ok (fallback_bridge e'), w3)
      end
    | (Raise e', w3) => (Ok (fallback_bridge e'), w3)
    end.
Proof.
  intros client w sr w1 sm w2 e H1 H2 H3.
  pose proof (parse_length_raises_ValueError _ _ H3) as He.
  unfold get_bridge_info_big_stone_bridge. run_world.
  rewrite H1, H2, H3, He.
  destruct (WikipediaClient.get_page_summary client _ false w2) as [[sm'|e'] w3];
    [|reflexivity].
  destruct (_parse_length_meters (WikipediaPageSummary.extract sm')); reflexivity.
Qed.

Lemma animal_second_attempt : forall (client : WikipediaClient.t World) name
    w sr w1 sm w2 e,
  WikipediaClient.search_page client name w = (Ok (Some sr), w1) ->
  WikipediaClient.get_page_summary client (WikipediaSearchResult.page_id sr) true w1
  = (Ok sm, w2) ->
  _parse_speed_kmh (WikipediaPageSummary.extract sm) = Raise e ->
  get_animal_speed new_client client name w
  = match WikipediaClient.get_page_summary client
            (WikipediaSearchResult.page_id sr) false w2 with
    | (Ok sm', w3) =>
      match _parse_speed_kmh (WikipediaPageSummary.extract sm') with
      | Ok v =>
        (Ok (AnimalSpeed.from_kmh (WikipediaSearchResult.title sr) v
               (_build_page_url (WikipediaSearchResult.page_id sr)
                                (WikipediaClient.base_url client))), w3)
      | Raise e' => (Ok (fallback_animal name e'), w3)
      end
    | (Raise e', w3) => (Ok (fallback_animal name e'), w3)
    end.
Proof.
  intros client name w sr w1 sm w2 e H1 H2 H3.
  pose proof (parse_speed_raises_ValueError _ _ H3) as He.
  unfold get_animal_speed. run_world.
  rewrite H1, H2, H3, He.
  destruct (WikipediaClient.get_page_summary client _ false w2) as [[sm'|e'] w3];
    [|reflexivity].
  destruct (_parse_speed_kmh (WikipediaPageSummary.extract sm')); reflexivity.
Qed.

End ResolverPaths.

(** Property X8. Whatever the client does, the fact [get_animal_speed]
    returns holds a speed in km/h, and its speed in m/s is [kmh_to_ms] of
    it. *)
Theorem get_animal_speed_speeds_agree :
  forall (U : UnicodeData) (World : Type)
         (new_client : str -> M (World := World) (WikipediaClient.t World))
         (client : WikipediaClient.t World) (animal_name : str) (w : World),
    exists a w' v,
      get_animal_speed new_client client animal_name w = (Ok a, w')
      /\ AnimalSpeed.speed_km_h a = Some v
      /\ AnimalSpeed.speed_m_s a = kmh_to_ms v.
Proof. intros. apply animal_speeds_agree. Qed.

(** Property X9. When the introduction of the page found holds no length,
    [get_bridge_info_big_stone_bridge] fetches the full text of the same
    page: a length found there is returned with the title and the URL of
    the page; when the full text holds none either, or cannot be fetched,
    the fallback fact is returned with the text of that error. *)
Theorem get_bridge_info_retries_full_text :
  forall (U : UnicodeData) (World : Type) (client : WikipediaClient.t World)
         (w w1 w2 : World) (sr : WikipediaSearchResult.t)
         (sm : WikipediaPageSummary.t) (e : exception),
    WikipediaClient.search_page client bridge_query w = (Ok (Some sr), w1) ->
    WikipediaClient.get_page_summary client (WikipediaSearchResult.page_id sr) true w1
    = (Ok sm, w2) ->
    _parse_length_meters (WikipediaPageSummary.extract sm) = Raise e ->
    (forall sm' w3 v,
       WikipediaClient.get_page_summary client (WikipediaSearchResult.page_id sr) false w2
       = (Ok sm', w3) ->
       _parse_length_meters (WikipediaPageSummary.extract sm') = Ok v ->
       get_bridge_info_big_stone_bridge client w
       = (Ok {| BridgeInfo.name := WikipediaSearchResult.title sr;
                BridgeInfo.length_meters := v;
                BridgeInfo.source :=
                  _build_page_url (WikipediaSearchResult.page_id sr)
                                  (WikipediaClient.base_url client) |}, w3))
    /\ (forall sm' w3 e',
       WikipediaClient.get_page_summary client (WikipediaSearchResult.page_id sr) false w2
       = (Ok sm', w3) ->
       _parse_length_meters (WikipediaPageSummary.extract sm') = Raise e' ->
       get_bridge_info_big_stone_bridge client w = (Ok (fallback_bridge e'), w3))
    /\ (forall e' w3,
       WikipediaClient.get_page_summary client (WikipediaSearchResult.page_id sr) false w2
       = (Raise e', w3) ->
       get_bridge_info_big_stone_bridge client w = (Ok (fallback_bridge e'), w3)).
Proof.
  intros U World client w w1 w2 sr sm e H1 H2 H3.
  rewrite (bridge_second_attempt client w sr w1 sm w2 e H1 H2 H3).
  split; [|split].
  - intros sm' w3 v H4 H5. rewrite H4, H5. reflexivity.
  - intros sm' w3 e' H4 H5. rewrite H4, H5. reflexivity.
  - intros e' w3 H4. rewrite H4. reflexivity.
Qed.

(** Property X10. The same second attempt in [get_animal_speed], on the
    client that found the page. *)
Theorem get_animal_speed_retries_full_text :
  forall (U : UnicodeData) (World : Type)
         (new_client : str -> M (World := World) (WikipediaClient.t World))
         (client : WikipediaClient.t World) (animal_name : str)
         (w w1 w2 : World) (sr : WikipediaSearchResult.t)
         (sm : WikipediaPageSummary.t) (e : exception),
    WikipediaClient.search_page client animal_name w = (Ok (Some sr), w1) ->
    WikipediaClient.get_page_summary client (WikipediaSearchResult.page_id sr) true w1
    = (Ok sm, w2) ->
    _parse_speed_kmh (WikipediaPageSummary.extract sm) = Raise e ->
    (forall sm' w3 v,
       WikipediaClient.get_page_summary client (WikipediaSearchResult.page_id sr) false w2
       = (Ok sm', w3) ->
       _parse_speed_kmh (WikipediaPageSummary.extract sm') = Ok v ->
       get_animal_speed new_client client animal_name w
       = (Ok (AnimalSpeed.from_kmh (WikipediaSearchResult.title sr) v
                (_build_page_url (WikipediaSearchResult.page_id sr)
                                 (WikipediaClient.base_url client))), w3))
    /\ (forall sm' w3 e',
       WikipediaClient.get_page_summary client (WikipediaSearchResult.page_id sr) false w2
       = (Ok sm', w3) ->
       _parse_speed_kmh (WikipediaPageSummary.extract sm') = Raise e' ->
       get_animal_speed new_client client animal_name w
       = (Ok (fallback_animal animal_name e'), w3))
    /\ (forall e' w3,
       WikipediaClient.get_page_summary client (WikipediaSearchResult.page_id sr) false w2
       = (Raise e', w3) ->
       get_animal_speed new_client client animal_name w
       = (Ok (fallback_animal animal_name e'), w3)).
Proof.
  intros U World new_client client name w w1 w2 sr sm e H1 H2 H3.
  rewrite (animal_second_attempt new_client client name w sr w1 sm w2 e H1 H2 H3).
  split; [|split].
  - intros sm' w3 v H4 H5. rewrite H4, H5. reflexivity.
  - intros sm' w3 e' H4 H5. rewrite H4, H5. reflexivity.
  - intros e' w3 H4. rewrite H4. reflexivity.
Qed.

(** Property X11. When the client finds a page neither for the name nor for
    the capitalized name, [get_animal_speed] of a client of the English
    encyclopedia builds no second client and returns the fallback fact of
    the LookupError that names the animal; of another client it asks a
    client of the English encyclopedia, and returns the same fallback fact
    when that one finds nothing either. *)
Theorem get_animal_speed_nothing_found :
  forall (U : UnicodeData) (World : Type)
         (new_client : str -> M (World := World) (WikipediaClient.t World))
         (client : WikipediaClient.t World) (animal_name : str) (w w1 w2 : World),
    WikipediaClient.search_page client animal_name w = (Ok None, w1) ->
    WikipediaClient.search_page client (capitalize animal_name) w1 = (Ok None, w2) ->
    let not_found :=
      fallback_animal animal_name
        (mkExc LookupError (u8 "Статья про '" ++ animal_name ++ u8 "' не найдена")) in
    (startswith (u8 "https://en.wikipedia.org") (WikipediaClient.base_url client) = true ->
     get_animal_speed new_client client animal_name w = (Ok not_found, w2))
    /\ (startswith (u8 "https://en.wikipedia.org") (WikipediaClient.base_url client) = false ->
        forall fallback w3 w4,
          new_client english_api w2 = (Ok fallback, w3) ->
          WikipediaClient.search_page fallback (capitalize animal_name) w3 = (Ok None, w4) ->
          get_animal_speed new_client client animal_name w = (Ok not_found, w4)).
Proof.
  intros U World new_client client name w w1 w2 H1 H2 not_found. split.
  - intros Hen. unfold get_animal_speed. run_world.
    rewrite H1, H2, Hen. reflexivity.
  - intros Hen fallback w3 w4 H3 H4. unfold get_animal_speed. run_world.
    rewrite H1, H2, Hen. cbn [negb]. rewrite H3, H4. reflexivity.
Qed.

(** Property X12. When the search for the name finds nothing and the search
    for the capitalized name finds a page whose introduction holds a
    speed, [get_animal_speed] returns the fact of that page from the
    client it was given, and builds no second client. *)
Theorem get_animal_speed_capitalized_retry :
  forall (U : UnicodeData) (World : Type)
         (new_client : str -> M (World := World) (WikipediaClient.t World))
         (client : WikipediaClient.t World) (animal_name : str)
         (w w1 w2 w3 : World) (sr : WikipediaSearchResult.t)
         (sm : WikipediaPageSummary.t) (v : float),
    WikipediaClient.search_page client animal_name w = (Ok None, w1) ->
    WikipediaClient.search_page client (capitalize animal_name) w1 = (Ok (Some sr), w2) ->
    WikipediaClient.get_page_summary client (WikipediaSearchResult.page_id sr) true w2
    = (Ok sm, w3) ->
    _parse_speed_kmh (WikipediaPageSummary.extract sm) = Ok v ->
    get_animal_speed new_client client animal_name w
    = (Ok (AnimalSpeed.from_kmh (WikipediaSearchResult.title sr) v
             (_build_page_url (WikipediaSearchResult.page_id sr)
                              (WikipediaClient.base_url client))), w3).
Proof.
  intros U World new_client client name w w1 w2 w3 sr sm v H1 H2 H3 H4.
  unfold get_animal_speed. run_world.
  rewrite H1, H2, H3, H4. reflexivity.
Qed.

(** ** The client over HTTP *)

Section HttpClient.
Context {World : Type}.
Variable requests_get :
  str -> list (str * Requests.param) -> list (str * str) -> Z ->
  World -> Requests.outcome * World.
Variable int_of_str : str -> result Z.
Variable repr : json -> str.
Variable validation_message : list (str * json) -> str.

#[local] Abbreviation search_page :=
  (WikipediaAPI.search_page requests_get int_of_str repr validation_message).
#[local] Abbreviation get_page_summary :=
  (WikipediaAPI.get_page_summary requests_get int_of_str repr validation_message).
#[local] Abbreviation http_client :=
  (WikipediaAPI.client requests_get int_of_str repr validation_message).

Lemma fetch_failed : forall base params message w out w',
  requests_get base params WikipediaAPI.headers 10 w = (out, w') ->
  request_failed out ->
  WikipediaAPI.fetch requests_get base params message w
  = (Raise (mkExc RuntimeError message), w').
Proof.
  intros base params message w out w' H Hf. unfold WikipediaAPI.fetch. rewrite H.
  destruct out as [r|e|e]; cbn in Hf; try contradiction; [rewrite Hf|]; reflexivity.
Qed.

Lemma fetch_responded : forall base params message w out w' data,
  requests_get base params WikipediaAPI.headers 10 w = (out, w') ->
  responded out data ->
  WikipediaAPI.fetch requests_get base params message w = (Ok data, w').
Proof.
  intros base params message w out w' data H Hr. unfold WikipediaAPI.fetch. rewrite H.
  destruct out as [r|e|e]; cbn in Hr; try contradiction.
  destruct Hr as [Hs Hb]. rewrite Hs, Hb. reflexivity.
Qed.

Lemma search_page_of_data : forall base title w out w' data,
  requests_get base (WikipediaAPI.search_params title) WikipediaAPI.headers 10 w
  = (out, w') ->
  responded out data ->
  search_page base title w
  = (WikipediaAPI.search_page_result int_of_str repr validation_message data, w').
Proof.
  intros base title w out w' data H Hr. unfold WikipediaAPI.search_page.
  cbv [bind lift]. rewrite (fetch_responded _ _ _ _ _ _ _ H Hr). reflexivity.
Qed.

Lemma get_page_summary_of_data : forall base page_id intro_only w out w' data,
  requests_get base (WikipediaAPI.summary_params page_id intro_only)
    WikipediaAPI.headers 10 w = (out, w') ->
  responded out data ->
  get_page_summary base page_id intro_only w
  = (WikipediaAPI.page_summary_result int_of_str repr validation_message page_id data, w').
Proof.
  intros base page_id intro_only w out w' data H Hr. unfold WikipediaAPI.get_page_summary.
  cbv [bind lift]. rewrite (fetch_responded _ _ _ _ _ _ _ H Hr). reflexivity.
Qed.

(** Property X13. When the request of [search_page] fails ([requests.get]
    raises a [RequestException], or the status of the response is from 400
    to 599), [search_page] raises the RuntimeError "Failed to search
    Wikipedia". *)
Theorem search_page_request_failure : forall base title w out w',
  requests_get base (WikipediaAPI.search_params title) WikipediaAPI.headers 10 w
  = (out, w') ->
  request_failed out ->
  search_page base title w
  = (Raise (mkExc RuntimeError (u8 "Failed to search Wikipedia")), w').
Proof.
  intros base title w out w' H Hf. unfold WikipediaAPI.search_page.
  cbv [bind lift]. rewrite (fetch_failed _ _ _ _ _ _ H Hf). reflexivity.
Qed.

(** Property X14. When the request of [get_page_summary] fails in the same
    way, it raises the RuntimeError "Failed to fetch page summary". *)
Theorem get_page_summary_request_failure : forall base page_id intro_only w out w',
  requests_get base (WikipediaAPI.summary_params page_id intro_only)
    WikipediaAPI.headers 10 w = (out, w') ->
  request_failed out ->
  get_page_summary base page_id intro_only w
  = (Raise (mkExc RuntimeError (u8 "Failed to fetch page summary")), w').
Proof.
  intros base page_id intro_only w out w' H Hf. unfold WikipediaAPI.get_page_summary.
  cbv [bind lift]. rewrite (fetch_failed _ _ _ _ _ _ H Hf). reflexivity.
Qed.

(** Property X15. When the answer is an object without "query", or its
    "query" is an object without "search", or the value of "search" counts
    as false (an empty list), [search_page] returns [None]. *)
Theorem search_page_nothing_found : forall base title w out w' d,
  requests_get base (WikipediaAPI.search_params title) WikipediaAPI.headers 10 w
  = (out, w') ->
  responded out (JDict d) ->
  Json.lookup d (u8 "query") = None
  \/ (exists q, Json.lookup d (u8 "query") = Some (JDict q)
        /\ (Json.lookup q (u8 "search") = None
            \/ exists found, Json.lookup q (u8 "search") = Some found
                 /\ Json.truthy found = false)) ->
  search_page base title w = (Ok None, w').
Proof.
  intros base title w out w' d H Hr Hq.
  rewrite (search_page_of_data _ _ _ _ _ _ H Hr). f_equal.
  unfold WikipediaAPI.search_page_result. cbn [Json.get rbind].
  destruct Hq as [Hq|[q [Hq [Hs|[found [Hs Ht]]]]]]; rewrite Hq; cbn [Json.get rbind];
    try rewrite Hs; cbn [Json.get rbind Json.truthy negb]; try rewrite Ht; reflexivity.
Qed.

(** Property X16. When the answer lists results, [search_page] returns the
    first of them: its "pageid", its "title" and its "snippet" ([None]
    when there is none); the other results are not read. *)
Theorem search_page_first_result :
  forall base title w out w' d q first others page_id page_title snippet,
  requests_get base (WikipediaAPI.search_params title) WikipediaAPI.headers 10 w
  = (out, w') ->
  responded out (JDict d) ->
  Json.lookup d (u8 "query") = Some (JDict q) ->
  Json.lookup q (u8 "search") = Some (JList (JDict first :: others)) ->
  Json.lookup first (u8 "pageid") = Some (JInt page_id) ->
  Json.lookup first (u8 "title") = Some (JStr page_title) ->
  match Json.lookup first (u8 "snippet") with
  | None | Some JNull => snippet = None
  | Some (JStr s) => snippet = Some s
  | Some _ => False
  end ->
  search_page base title w
  = (Ok (Some {| WikipediaSearchResult.page_id := page_id;
                 WikipediaSearchResult.title := page_title;
                 WikipediaSearchResult.snippet := snippet |}), w').
Proof.
  intros base title w out w' d q first others page_id page_title snippet
         H Hr Hq Hs Hp Ht Hsn.
  rewrite (search_page_of_data _ _ _ _ _ _ H Hr). f_equal.
  unfold WikipediaAPI.search_page_result. cbn [Json.get rbind].
  rewrite Hq. cbn [Json.get rbind]. rewrite Hs.
  cbn [Json.get rbind Json.truthy negb Json.index0]. rewrite Hp, Ht.
  cbn [Json.to_int Json.to_str rbind].
  destruct (Json.lookup first (u8 "snippet")) as [[| | | |s| |]|];
    try contradiction; subst snippet; reflexivity.
Qed.

Lemma page_summary_result_page : forall page_id d q pages,
  Json.lookup d (u8 "query") = Some (JDict q) ->
  Json.lookup q (u8 "pages") = Some (JDict pages) ->
  WikipediaAPI.page_summary_result int_of_str repr validation_message page_id (JDict d)
  = (let page_data := page_read pages page_id in
     missing <-
       (if negb (Json.truthy page_data) then Ok true
        else
          pageid <- Json.get page_data (u8 "pageid") (JInt (-1)) ;;
          n <- Json.to_int int_of_str pageid ;;
          Ok (n =? -1)) ;;
     if (missing : bool)
     then Raise (mkExc LookupError
                   (u8 "Wikipedia page " ++ str_of_Z page_id ++ u8 " not found"))
     else
       pageid <- Json.get page_data (u8 "pageid") JNull ;;
       found_id <- Json.to_int int_of_str pageid ;;
       title <- Json.get page_data (u8 "title") JNull ;;
       extract <- Json.get page_data (u8 "extract") (JStr []) ;;
       pageprops <- Json.get page_data (u8 "pageprops") (JDict []) ;;
       description <- Json.get pageprops (u8 "description") JNull ;;
       WikipediaAPI.new_page_summary validation_message found_id
         (Json.to_str repr title) extract description)%result.
Proof.
  intros page_id d q pages Hq Hp.
  unfold WikipediaAPI.page_summary_result. cbn [Json.get rbind].
  rewrite Hq. cbn [Json.get rbind]. rewrite Hp. cbn [Json.get rbind Json.values].
  unfold page_read.
  destruct (Json.lookup pages (str_of_Z page_id)) as [own|].
  - destruct (Json.truthy own); reflexivity.
  - reflexivity.
Qed.

(** Property X17. [get_page_summary] raises the LookupError "Wikipedia page
    <id> not found" when the answer has no "query" or no "pages", when the
    page read counts as false (there is none), or when the page read has
    no "pageid" or the "pageid" -1. *)
Theorem get_page_summary_page_missing :
  forall base page_id intro_only w out w' d,
  requests_get base (WikipediaAPI.summary_params page_id intro_only)
    WikipediaAPI.headers 10 w = (out, w') ->
  responded out (JDict d) ->
  Json.lookup d (u8 "query") = None
  \/ (exists q, Json.lookup d (u8 "query") = Some (JDict q)
        /\ (Json.lookup q (u8 "pages") = None
            \/ exists pages, Json.lookup q (u8 "pages") = Some (JDict pages)
                 /\ (Json.truthy (page_read pages page_id) = false
                     \/ exists page, page_read pages page_id = JDict page
                          /\ (Json.lookup page (u8 "pageid") = None
                              \/ Json.lookup page (u8 "pageid") = Some (JInt (-1)))))) ->
  get_page_summary base page_id intro_only w
  = (Raise (mkExc LookupError
              (u8 "Wikipedia page " ++ str_of_Z page_id ++ u8 " not found")), w').
Proof.
  intros base page_id intro_only w out w' d H Hr Hcase.
  rewrite (get_page_summary_of_data _ _ _ _ _ _ _ H Hr). f_equal.
  destruct Hcase as [Hq|[q [Hq Hcase]]].
  { unfold WikipediaAPI.page_summary_result. cbn [Json.get rbind]. rewrite Hq.
    reflexivity. }
  destruct Hcase as [Hp|[pages [Hp Hcase]]].
  { unfold WikipediaAPI.page_summary_result. cbn [Json.get rbind]. rewrite Hq.
    cbn [Json.get rbind]. rewrite Hp. reflexivity. }
  rewrite (page_summary_result_page page_id d q pages Hq Hp). cbv zeta.
  destruct Hcase as [Hf|[page [Hpage Hid]]].
  - rewrite Hf. reflexivity.
  - rewrite Hpage.
    destruct (Json.truthy (JDict page)); [|reflexivity].
    cbn [negb Json.get rbind].
    destruct Hid as [Hid|Hid]; rewrite Hid; reflexivity.
Qed.

(** Property X18. [get_page_summary] reads the entry of "pages" under the
    id asked for, or the first entry when there is none under that id,
    and returns its "pageid" (which may differ from the id asked for), its
    "title", its "extract" (empty when there is none) and the description
    among its "pageprops" ([None] when there is none). *)
Theorem get_page_summary_page_read :
  forall base page_id intro_only w out w' d q pages page found_id title
         extract description,
  requests_get base (WikipediaAPI.summary_params page_id intro_only)
    WikipediaAPI.headers 10 w = (out, w') ->
  responded out (JDict d) ->
  Json.lookup d (u8 "query") = Some (JDict q) ->
  Json.lookup q (u8 "pages") = Some (JDict pages) ->
  page_read pages page_id = JDict page ->
  Json.lookup page (u8 "pageid") = Some (JInt found_id) ->
  found_id <> -1 ->
  Json.lookup page (u8 "title") = Some (JStr title) ->
  match Json.lookup page (u8 "extract") with
  | None => extract = []
  | Some (JStr text) => extract = text
  | Some _ => False
  end ->
  match Json.lookup page (u8 "pageprops") with
  | None => description = None
  | Some (JDict props) =>
    match Json.lookup props (u8 "description") with
    | None | Some JNull => description = None
    | Some (JStr text) => description = Some text
    | Some _ => False
    end
  | Some _ => False
  end ->
  get_page_summary base page_id intro_only w
  = (Ok {| WikipediaPageSummary.page_id := found_id;
           WikipediaPageSummary.title := title;
           WikipediaPageSummary.extract := extract;
           WikipediaPageSummary.description := description |}, w').
Proof.
  intros base page_id intro_only w out w' d q pages page found_id title
         extract description H Hr Hq Hp Hpage Hid Hne Ht He Hd.
  rewrite (get_page_summary_of_data _ _ _ _ _ _ _ H Hr). f_equal.
  rewrite (page_summary_result_page page_id d q pages Hq Hp). cbv zeta.
  rewrite Hpage.
  assert (Htruthy : Json.truthy (JDict page) = true).
  { destruct page; [discriminate|reflexivity]. }
  rewrite Htruthy. cbn [negb Json.get rbind]. rewrite Hid.
  cbn [Json.to_int rbind].
  destruct (Z.eqb_spec found_id (-1)) as [E|_]; [contradiction|].
  rewrite Ht. cbn [Json.to_str].
  destruct (Json.lookup page (u8 "extract")) as [[| | | |text| |]|];
    try contradiction; subst extract;
    (destruct (Json.lookup page (u8 "pageprops")) as [[| | | | | |props]|];
     try contradiction; cbn [Json.get rbind];
     [destruct (Json.lookup props (u8 "description")) as [[| | | |dt| |]|];
      try contradiction; subst description; reflexivity
     |subst description; reflexivity]).
Qed.

(** Property X28. [search_page] does not guard the shape of the answer. An
    answer that is not an object raises the AttributeError of its missing
    [get]; so does a first result that is not an object; a first result
    without "pageid" raises the TypeError of [int(None)]. The request
    having succeeded, the world is the one after the request. *)
Theorem search_page_malformed_answer : forall base title w out w' data,
  requests_get base (WikipediaAPI.search_params title) WikipediaAPI.headers 10 w
  = (out, w') ->
  responded out data ->
  ((forall d, data <> JDict d) ->
   search_page base title w = (Raise (Json.attribute_error data (u8 "get")), w'))
  /\ (forall d q first others,
        data = JDict d ->
        Json.lookup d (u8 "query") = Some (JDict q) ->
        Json.lookup q (u8 "search") = Some (JList (first :: others)) ->
        ((forall entries, first <> JDict entries) ->
         search_page base title w = (Raise (Json.attribute_error first (u8 "get")), w'))
        /\ (forall entries,
              first = JDict entries ->
              Json.lookup entries (u8 "pageid") = None ->
              search_page base title w
              = (Raise (mkExc OtherException
                          (u8 "int() argument must be a string, a bytes-like object or a real number, not 'NoneType'")),
                 w'))).
Proof.
  intros base title w out w' data H Hr.
  rewrite (search_page_of_data _ _ _ _ _ _ H Hr). split.
  - intros Hd. f_equal. unfold WikipediaAPI.search_page_result.
    destruct data; try reflexivity. exfalso. apply (Hd entries). reflexivity.
  - intros d q first others -> Hq Hs.
    unfold WikipediaAPI.search_page_result. cbn [Json.get rbind].
    rewrite Hq. cbn [Json.get rbind]. rewrite Hs.
    cbn [Json.get rbind Json.truthy negb Json.index0]. split.
    + intros Hf. f_equal. destruct first; try reflexivity.
      exfalso. apply (Hf entries). reflexivity.
    + intros entries -> Hp. cbn [Json.get rbind]. rewrite Hp. reflexivity.
Qed.

End HttpClient.

(** ** The resolvers over the client, off line *)

Section Offline.
Context {U : UnicodeData} {World : Type}.
Variable requests_get :
  str -> list (str * Requests.param) -> list (str * str) -> Z ->
  World -> Requests.outcome * World.
Variable int_of_str : str -> result Z.
Variable repr : json -> str.
Variable validation_message : list (str * json) -> str.
Variable new_client : str -> M (World := World) (WikipediaClient.t World).

(** Property X19. Over the client of [WikipediaAPI], when every request
    fails, both resolvers return their fallback fact, with the source
    "fallback:Failed to search Wikipedia". *)
Theorem resolvers_offline : forall base animal_name w,
  (forall url params w0,
     request_failed (fst (requests_get url params WikipediaAPI.headers 10 w0))) ->
  let client := WikipediaAPI.client requests_get int_of_str repr validation_message base in
  let failure := mkExc RuntimeError (u8 "Failed to search Wikipedia") in
  (exists w', get_bridge_info_big_stone_bridge client w
              = (Ok (fallback_bridge failure), w'))
  /\ (exists w', get_animal_speed new_client client animal_name w
                 = (Ok (fallback_animal animal_name failure), w')).
Proof.
  intros base animal_name w Hoff client failure. split.
  - pose proof (Hoff base (WikipediaAPI.search_params bridge_query) w) as Hf.
    destruct (requests_get base (WikipediaAPI.search_params bridge_query)
                WikipediaAPI.headers 10 w) as [out w'] eqn:E.
    exists w'. apply bridge_search_raises.
    apply (search_page_request_failure _ _ _ _ _ _ _ _ _ E Hf).
  - pose proof (Hoff base (WikipediaAPI.search_params animal_name) w) as Hf.
    destruct (requests_get base (WikipediaAPI.search_params animal_name)
                WikipediaAPI.headers 10 w) as [out w'] eqn:E.
    exists w'. apply animal_search_raises.
    apply (search_page_request_failure _ _ _ _ _ _ _ _ _ E Hf).
Qed.

End Offline.

(** ** The tools of the agent and their cache *)

Lemma str_eqb_eq : forall a b, str_eqb a b = true <-> a = b.
Proof.
  induction a as [|c a IH]; intros [|d b]; cbn [str_eqb]; split; intros H;
    try reflexivity; try discriminate.
  - apply andb_true_iff in H. destruct H as [H1 H2].
    apply N.eqb_eq in H1. apply IH in H2. subst. reflexivity.
  - injection H as -> ->. rewrite N.eqb_refl. apply IH. reflexivity.
Qed.

Lemma str_eqb_refl : forall a, str_eqb a a = true.
Proof. intros. apply str_eqb_eq. reflexivity. Qed.

Lemma str_eqb_neq : forall a b, str_eqb a b = false <-> a <> b.
Proof.
  intros a b. split.
  - intros H E. apply str_eqb_eq in E. congruence.
  - intros H. destruct (str_eqb a b) eqn:E; [|reflexivity].
    apply str_eqb_eq in E. contradiction.
Qed.

Lemma cache_get_set_same : forall c key v, Cache.get (Cache.set c key v) key = Some v.
Proof.
  unfold Cache.get. induction c as [|[k x] c IH]; intros key v; cbn [Cache.set Json.lookup].
  - rewrite str_eqb_refl. reflexivity.
  - destruct (str_eqb k key) eqn:E; cbn [Json.lookup]; rewrite E; [reflexivity|apply IH].
Qed.

Lemma cache_get_set_other : forall c key v key', key <> key' ->
  Cache.get (Cache.set c key v) key' = Cache.get c key'.
Proof.
  unfold Cache.get. induction c as [|[k x] c IH]; intros key v key' Hne;
    cbn [Cache.set Json.lookup].
  - apply str_eqb_neq in Hne. rewrite Hne. reflexivity.
  - destruct (str_eqb k key) eqn:E; cbn [Json.lookup].
    + apply str_eqb_eq in E. subst k.
      apply str_eqb_neq in Hne. rewrite Hne. reflexivity.
    + destruct (str_eqb k key'); [reflexivity|]. apply IH. exact Hne.
Qed.

Lemma cache_set_same : forall c key v, Cache.get c key = Some v -> Cache.set c key v = c.
Proof.
  unfold Cache.get. induction c as [|[k x] c IH]; intros key v H;
    cbn [Cache.set Json.lookup] in *; [discriminate|].
  destruct (str_eqb k key).
  - injection H as ->. reflexivity.
  - f_equal. apply IH. exact H.
Qed.

Lemma cache_contains_get : forall c key,
  Cache.contains c key = match Cache.get c key with Some _ => true | None => false end.
Proof. reflexivity. Qed.

Lemma animal_key_not_alias : forall name, u8 "animal:" ++ name <> u8 "animal".
Proof. intros name H. discriminate H. Qed.

Lemma animal_key_not_bridge : forall name, u8 "animal:" ++ name <> u8 "bridge".
Proof. intros name H. discriminate H. Qed.

Lemma alias_not_bridge : u8 "animal" <> u8 "bridge".
Proof. discriminate. Qed.

Lemma cache_ok_set_bridge : forall c b,
  cache_ok c -> cache_ok (Cache.set c (u8 "bridge") (CBridge b)).
Proof.
  intros c b Hc key v H.
  destruct (str_eqb (u8 "bridge") key) eqn:E.
  - apply str_eqb_eq in E. subst key. rewrite cache_get_set_same in H.
    injection H as <-. reflexivity.
  - apply str_eqb_neq in E. rewrite cache_get_set_other in H by exact E.
    apply Hc. exact H.
Qed.

Lemma cache_ok_set_animal : forall c key a,
  key <> u8 "bridge" -> cache_ok c -> cache_ok (Cache.set c key (CAnimal a)).
Proof.
  intros c key a Hk Hc key' v H.
  destruct (str_eqb key key') eqn:E.
  - apply str_eqb_eq in E. subst key'. rewrite cache_get_set_same in H.
    injection H as <-. exact Hk.
  - apply str_eqb_neq in E. rewrite cache_get_set_other in H by exact E.
    apply Hc. exact H.
Qed.

Section ToolTheorems.
Context {U : UnicodeData} {World : Type}.
Variable new_client : str -> M (World := World) (WikipediaClient.t World).
Variable float_repr : float -> str.
Variable str_repr : str -> str.
Variable str_lower : str -> str.
Variable client : WikipediaClient.t World.

#[local] Abbreviation bridge_tool := (bridge_info_tool float_repr str_repr client).
#[local] Abbreviation animal_tool :=
  (animal_speed_tool new_client float_repr str_repr str_lower client).

Ltac run_tool :=
  cbv [bridge_info_tool animal_speed_tool bind ret lift in_cache cache_getitem
       cache_setitem call fst snd].

Lemma bridge_tool_hit : forall arg c w found,
  Cache.get c (u8 "bridge") = Some found ->
  bridge_tool arg (c, w) = (bridge_text float_repr found, (c, w)).
Proof.
  intros arg c w found H. run_tool. rewrite cache_contains_get, H. rewrite H.
  reflexivity.
Qed.

Lemma bridge_tool_miss : forall arg c w,
  Cache.get c (u8 "bridge") = None ->
  exists b w',
    get_bridge_info_big_stone_bridge client w = (Ok b, w')
    /\ bridge_tool arg (c, w)
       = (bridge_text float_repr (CBridge b),
          (Cache.set c (u8 "bridge") (CBridge b), w')).
Proof.
  intros arg c w H.
  destruct (bridge_outcome client w) as [b [w' [Hb _]]].
  exists b, w'. split; [exact Hb|].
  run_tool. rewrite cache_contains_get, H. rewrite Hb.
  rewrite cache_get_set_same. reflexivity.
Qed.

Lemma animal_tool_hit : forall name c w found,
  Cache.get c (u8 "animal:" ++ str_lower name) = Some found ->
  animal_tool name (c, w)
  = (animal_text float_repr found, (Cache.set c (u8 "animal") found, w)).
Proof.
  intros name c w found H. run_tool. rewrite cache_contains_get, H. rewrite H.
  rewrite cache_get_set_other by (apply not_eq_sym; apply animal_key_not_alias).
  rewrite H. reflexivity.
Qed.

Lemma animal_tool_miss : forall name c w,
  Cache.get c (u8 "animal:" ++ str_lower name) = None ->
  exists a w',
    get_animal_speed new_client client name w = (Ok a, w')
    /\ animal_tool name (c, w)
       = (animal_text float_repr (CAnimal a),
          (Cache.set (Cache.set c (u8 "animal:" ++ str_lower name) (CAnimal a))
                     (u8 "animal") (CAnimal a), w')).
Proof.
  intros name c w H.
  destruct (animal_outcome new_client client name w) as [a [w' [Ha _]]].
  exists a, w'. split; [exact Ha|].
  run_tool. rewrite cache_contains_get, H. rewrite Ha.
  rewrite cache_get_set_same.
  rewrite cache_get_set_other by (apply not_eq_sym; apply animal_key_not_alias).
  rewrite cache_get_set_same. reflexivity.
Qed.

(** Property X20. On a cache without "bridge", [bridge_info_tool] asks the
    resolver and stores the fact under "bridge"; a later call, whatever
    its argument and the state of the world, returns the same text and
    changes neither the cache nor the world. *)
Theorem bridge_info_tool_asks_once : forall arg arg' c w,
  Cache.get c (u8 "bridge") = None ->
  exists b w' text,
    get_bridge_info_big_stone_bridge client w = (Ok b, w')
    /\ let c' := Cache.set c (u8 "bridge") (CBridge b) in
       bridge_tool arg (c, w) = (Ok text, (c', w'))
       /\ forall w'', bridge_tool arg' (c', w'') = (Ok text, (c', w'')).
Proof.
  intros arg arg' c w H.
  destruct (bridge_tool_miss arg c w H) as [b [w' [Hb Ht]]].
  exists b, w'. eexists. split; [exact Hb|]. cbv zeta. split; [exact Ht|].
  intros w''. rewrite (bridge_tool_hit arg' _ w'' (CBridge b)); [reflexivity|].
  apply cache_get_set_same.
Qed.

(** Property X21. On a cache without the key of the animal ("animal:" and
    the name in lower case), [animal_speed_tool] asks the resolver and
    stores the fact under that key and under "animal"; a later call for a
    name with the same lower-case form returns the same text and changes
    neither the cache nor the world. *)
Theorem animal_speed_tool_asks_once : forall name name' c w,
  Cache.get c (u8 "animal:" ++ str_lower name) = None ->
  str_lower name' = str_lower name ->
  exists a w' text,
    get_animal_speed new_client client name w = (Ok a, w')
    /\ let c' := Cache.set (Cache.set c (u8 "animal:" ++ str_lower name) (CAnimal a))
                           (u8 "animal") (CAnimal a) in
       animal_tool name (c, w) = (Ok text, (c', w'))
       /\ Cache.get c' (u8 "animal") = Some (CAnimal a)
       /\ forall w'', animal_tool name' (c', w'') = (Ok text, (c', w'')).
Proof.
  intros name name' c w H Hl.
  destruct (animal_tool_miss name c w H) as [a [w' [Ha Ht]]].
  exists a, w'. eexists. split; [exact Ha|]. cbv zeta. split; [exact Ht|].
  split; [apply cache_get_set_same|].
  intros w''.
  rewrite (animal_tool_hit name' _ w'' (CAnimal a)).
  - rewrite (cache_set_same _ (u8 "animal")) by apply cache_get_set_same.
    reflexivity.
  - rewrite Hl.
    rewrite cache_get_set_other by (apply not_eq_sym; apply animal_key_not_alias).
    apply cache_get_set_same.
Qed.

(** Property X22. When the animal is in the cache, [animal_speed_tool]
    leaves the world as it is and sets "animal" to the fact of that
    animal; every other entry of the cache stays. *)
Theorem animal_speed_tool_records_latest : forall name c w a,
  Cache.get c (u8 "animal:" ++ str_lower name) = Some (CAnimal a) ->
  exists text,
    animal_tool name (c, w) = (Ok text, (Cache.set c (u8 "animal") (CAnimal a), w))
    /\ Cache.get (Cache.set c (u8 "animal") (CAnimal a)) (u8 "animal") = Some (CAnimal a)
    /\ forall key, key <> u8 "animal" ->
         Cache.get (Cache.set c (u8 "animal") (CAnimal a)) key = Cache.get c key.
Proof.
  intros name c w a H. eexists.
  split; [rewrite (animal_tool_hit name c w (CAnimal a) H); reflexivity|].
  split; [apply cache_get_set_same|].
  intros key Hk. apply cache_get_set_other. apply not_eq_sym. exact Hk.
Qed.

(** Property X23. On a cache as the tools leave it ([cache_ok]; the empty
    cache is one) both tools return a text, and the cache is again as the
    tools leave it. After [bridge_info_tool] the cache holds a bridge
    under "bridge" and its other entries are unchanged; after
    [animal_speed_tool] it holds one animal under "animal" and under the
    key of the animal, and its other entries are unchanged. *)
Theorem tools_never_raise : forall arg name c w,
  cache_ok c ->
  (exists text c' w',
     bridge_tool arg (c, w) = (Ok text, (c', w'))
     /\ cache_ok c'
     /\ (exists b, Cache.get c' (u8 "bridge") = Some (CBridge b))
     /\ forall key, key <> u8 "bridge" -> Cache.get c' key = Cache.get c key)
  /\ (exists text c' w',
     animal_tool name (c, w) = (Ok text, (c', w'))
     /\ cache_ok c'
     /\ (exists a, Cache.get c' (u8 "animal") = Some (CAnimal a)
                   /\ Cache.get c' (u8 "animal:" ++ str_lower name) = Some (CAnimal a))
     /\ forall key, key <> u8 "animal" -> key <> u8 "animal:" ++ str_lower name ->
          Cache.get c' key = Cache.get c key).
Proof.
  intros arg name c w Hc. split.
  - destruct (Cache.get c (u8 "bridge")) as [found|] eqn:E.
    + pose proof (Hc _ _ E) as Hk. destruct found as [b|a]; [|contradiction Hk; reflexivity].
      do 3 eexists. split; [rewrite (bridge_tool_hit arg c w _ E); reflexivity|].
      split; [exact Hc|]. split; [eauto|]. reflexivity.
    + destruct (bridge_tool_miss arg c w E) as [b [w' [_ Ht]]].
      do 3 eexists. split; [exact Ht|].
      split; [apply cache_ok_set_bridge; exact Hc|].
      split; [exists b; apply cache_get_set_same|].
      intros key Hk. apply cache_get_set_other. apply not_eq_sym. exact Hk.
  - destruct (Cache.get c (u8 "animal:" ++ str_lower name)) as [found|] eqn:E.
    + pose proof (Hc _ _ E) as Hk.
      destruct found as [b|a]; [exfalso; exact (animal_key_not_bridge _ Hk)|].
      do 3 eexists. split; [rewrite (animal_tool_hit name c w _ E); reflexivity|].
      split; [apply cache_ok_set_animal; [apply alias_not_bridge|exact Hc]|].
      split.
      * exists a. split; [apply cache_get_set_same|].
        rewrite cache_get_set_other by (apply not_eq_sym; apply animal_key_not_alias).
        exact E.
      * intros key Hk1 _. apply cache_get_set_other. apply not_eq_sym. exact Hk1.
    + destruct (animal_tool_miss name c w E) as [a [w' [_ Ht]]].
      do 3 eexists. split; [exact Ht|].
      split.
      { apply cache_ok_set_animal; [apply alias_not_bridge|].
        apply cache_ok_set_animal; [apply animal_key_not_bridge|exact Hc]. }
      split.
      * exists a. split; [apply cache_get_set_same|].
        rewrite cache_get_set_other by (apply not_eq_sym; apply animal_key_not_alias).
        apply cache_get_set_same.
      * intros key Hk1 Hk2.
        rewrite cache_get_set_other by (apply not_eq_sym; exact Hk1).
        apply cache_get_set_other. apply not_eq_sym. exact Hk2.
Qed.

End ToolTheorems.

(** ** The configuration of the language model *)

(** Property X24. [set_models_from_provider] raises nothing; after it both
    model names are not empty, a name that was given is kept, the other
    fields are as they were, and the validator applied once more changes
    nothing. *)
Theorem set_models_from_provider_fills_names : forall self : LLMConfig.t,
  exists out,
    LLMConfig.set_models_from_provider self = Ok out
    /\ LLMConfig.agent_model out <> []
    /\ LLMConfig.selfcheck_model out <> []
    /\ (LLMConfig.agent_model self <> [] ->
        LLMConfig.agent_model out = LLMConfig.agent_model self)
    /\ (LLMConfig.selfcheck_model self <> [] ->
        LLMConfig.selfcheck_model out = LLMConfig.selfcheck_model self)
    /\ LLMConfig.provider out = LLMConfig.provider self
    /\ LLMConfig.use_llm_selfcheck out = LLMConfig.use_llm_selfcheck self
    /\ LLMConfig.ollama_base_url out = LLMConfig.ollama_base_url self
    /\ LLMConfig.set_models_from_provider out = Ok out.
Proof.
  intros [p am sm use url].
  destruct p, am as [|a am], sm as [|c sm];
    (eexists; split; [vm_compute; reflexivity|]);
    cbn [LLMConfig.agent_model LLMConfig.selfcheck_model LLMConfig.provider
         LLMConfig.use_llm_selfcheck LLMConfig.ollama_base_url];
    (split; [discriminate|]); (split; [discriminate|]);
    (split; [try reflexivity; intros H; exfalso; apply H; reflexivity|]);
    (split; [try reflexivity; intros H; exfalso; apply H; reflexivity|]);
    (split; [reflexivity|]); (split; [reflexivity|]); (split; [reflexivity|]);
    reflexivity.
Qed.

Example set_models_from_provider_tests :
  let blank p :=
    {| LLMConfig.provider := p;
       LLMConfig.agent_model := [];
       LLMConfig.selfcheck_model := [];
       LLMConfig.use_llm_selfcheck := true;
       LLMConfig.ollama_base_url := u8 "http://localhost:11434" |} in
  LLMConfig.set_models_from_provider (blank LLMConfig.ollama)
  = Ok {| LLMConfig.provider := LLMConfig.ollama;
          LLMConfig.agent_model := u8 "qwen2.5:7b";
          LLMConfig.selfcheck_model := u8 "deepseek-r1:8b";
          LLMConfig.use_llm_selfcheck := true;
          LLMConfig.ollama_base_url := u8 "http://localhost:11434" |}
  /\ LLMConfig.set_models_from_provider (blank LLMConfig.openrouter)
     = Ok {| LLMConfig.provider := LLMConfig.openrouter;
             LLMConfig.agent_model := u8 "openai/gpt-oss-120b";
             LLMConfig.selfcheck_model := u8 "openai/gpt-oss-120b";
             LLMConfig.use_llm_selfcheck := true;
             LLMConfig.ollama_base_url := u8 "http://localhost:11434" |}.
Proof. split; vm_compute; reflexivity. Qed.

(** ** The client of OpenRouter *)

Section OpenRouterInit.
Context {World : Type}.
Variable load_dotenv : M (World := World) unit.
Variable getenv : str -> M (World := World) (option str).

#[local] Abbreviation init := (OpenRouterLLMClient.init load_dotenv getenv).

(** Property X25. After [load_dotenv()], [OpenRouterLLMClient.__init__]
    takes a key given and not empty as it is; without one it reads
    OPENROUTER_API_KEY and raises the ValueError "OPENROUTER_API_KEY is not
    set" when the variable is unset or empty. The key of a client that was
    built is never empty. *)
Theorem openrouter_client_needs_key :
  forall api_key model temperature top_p max_tokens referer app_title w w1,
  load_dotenv w = (Ok tt, w1) ->
  (forall key, api_key = Some key -> key <> [] ->
     init api_key model temperature top_p max_tokens referer app_title w
     = (Ok {| OpenRouterLLMClient.api_key := key;
              OpenRouterLLMClient.model := model;
              OpenRouterLLMClient.temperature := temperature;
              OpenRouterLLMClient.top_p := top_p;
              OpenRouterLLMClient.max_tokens := max_tokens;
              OpenRouterLLMClient.referer := referer;
              OpenRouterLLMClient.app_title := app_title |}, w1))
  /\ (api_key = None \/ api_key = Some [] ->
      forall found w2, getenv (u8 "OPENROUTER_API_KEY") w1 = (Ok found, w2) ->
        match found with
        | Some (c :: key) =>
          init api_key model temperature top_p max_tokens referer app_title w
          = (Ok {| OpenRouterLLMClient.api_key := c :: key;
                   OpenRouterLLMClient.model := model;
                   OpenRouterLLMClient.temperature := temperature;
                   OpenRouterLLMClient.top_p := top_p;
                   OpenRouterLLMClient.max_tokens := max_tokens;
                   OpenRouterLLMClient.referer := referer;
                   OpenRouterLLMClient.app_title := app_title |}, w2)
        | _ =>
          init api_key model temperature top_p max_tokens referer app_title w
          = (Raise (mkExc ValueError (u8 "OPENROUTER_API_KEY is not set")), w2)
        end)
  /\ (forall made w', 
        init api_key model temperature top_p max_tokens referer app_title w
        = (Ok made, w') -> OpenRouterLLMClient.api_key made <> []).
Proof.
  intros api_key model temperature top_p max_tokens referer app_title w w1 Hl.
  split; [|split].
  - intros key -> Hk. destruct key as [|c key]; [congruence|].
    unfold OpenRouterLLMClient.init. cbv [bind ret]. rewrite Hl. reflexivity.
  - intros Hk found w2 Hg.
    unfold OpenRouterLLMClient.init. cbv [bind ret raise]. rewrite Hl.
    destruct Hk as [-> | ->]; rewrite Hg; destruct found as [[|c key]|]; reflexivity.
  - intros made w' H.
    unfold OpenRouterLLMClient.init in H. cbv [bind ret raise] in H. rewrite Hl in H.
    destruct api_key as [[|c key]|].
    + destruct (getenv _ w1) as [[[[|c key]|]|e] w2]; try discriminate.
      injection H as <- _. discriminate.
    + injection H as <- _. discriminate.
    + destruct (getenv _ w1) as [[[[|c key]|]|e] w2]; try discriminate.
      injection H as <- _. discriminate.
Qed.

End OpenRouterInit.

(** ** Further properties of the self-check *)

(** A value inside a range with a positive lower end is a positive
    finite number. *)
Lemma in_range_positive_finite : forall lo hi v,
  (0 <? lo)%float = true -> (hi <? infinity)%float = true ->
  in_range lo hi v = true ->
  (0 <? v)%float = true /\ (v <? infinity)%float = true /\ is_nan v = false.
Proof.
  intros lo hi v Hlo Hhi H. unfold in_range in H.
  apply andb_true_iff in H. destruct H as [H1 H2].
  assert (Hlo0 : (0 <=? lo)%float = true).
  { rewrite ltb_spec in Hlo. rewrite leb_spec. unfold SFltb, SFleb in *.
    destruct (SFcompare (Prim2SF 0) (Prim2SF lo)) as [[| |]|]; try discriminate; reflexivity. }
  assert (Hv0 : (0 <=? v)%float = true).
  { rewrite leb_spec in H1 |- *. rewrite ltb_spec in Hlo.
    change (Prim2SF 0) with (S754_zero false) in *.
    destruct (Prim2SF lo) as [sl|[|]| |[|] ml el]; try discriminate;
      destruct (Prim2SF v) as [sv|[|]| |[|] mv ev]; try discriminate; reflexivity. }
  assert (Hhi0 : (0 <=? hi)%float = true).
  { rewrite leb_spec in H2, Hv0 |- *. rewrite ltb_spec in Hhi.
    change (Prim2SF 0) with (S754_zero false) in *.
    change (Prim2SF infinity) with (S754_infinity false) in *.
    destruct (Prim2SF hi) as [sh|[|]| |[|] mh eh]; try discriminate; try reflexivity;
      destruct (Prim2SF v) as [sv|[|]| |[|] mv ev]; try discriminate. }
  assert (Hinf0 : (0 <=? infinity)%float = true) by reflexivity.
  assert (H00 : (0 <=? 0)%float = true) by reflexivity.
  rewrite (ltb_key 0 lo H00 Hlo0) in Hlo.
  rewrite (ltb_key hi infinity Hhi0 Hinf0) in Hhi.
  rewrite (leb_key lo v Hlo0 Hv0) in H1.
  rewrite (leb_key v hi Hv0 Hhi0) in H2.
  rewrite (ltb_key 0 v H00 Hv0), (ltb_key v infinity Hv0 Hinf0).
  apply Z.ltb_lt in Hlo, Hhi. apply Z.leb_le in H1, H2.
  split; [apply Z.ltb_lt; lia|]. split; [apply Z.ltb_lt; lia|].
  destruct (is_nan v) eqn:En; [|reflexivity].
  apply is_nan_Prim2SF in En. rewrite leb_spec, En in Hv0. discriminate.
Qed.

Section SelfCheckTheorems.
Context {World : Type}.
Variable model_dump : ReasoningResult.t -> str.

(** The flag [self_check_result] returns. *)
Lemma self_check_flag : forall result (llm_client : option (LLMClient.t World)) w ok steps w',
  self_check_result model_dump result llm_client w = (Ok (ok, steps), w') ->
  ok = in_range 0.5 600 (ReasoningResult.time_seconds result)
       && in_range 20 1000 (BridgeInfo.length_meters (ReasoningResult.bridge result))
       && in_range 5 100 (AnimalSpeed.speed_m_s (ReasoningResult.animal result)).
Proof.
  intros result llm_client w ok steps w' H.
  unfold self_check_result in H. cbv zeta in H.
  cbn [app forallb fst snd TIME_RANGE BRIDGE_RANGE SPEED_RANGE] in H.
  rewrite !(proj2 (status_check_range _ _ _ _ _)) in H. rewrite andb_true_r in H.
  cbv [bind ret] in H.
  destruct (_llm_self_check model_dump result llm_client w) as [[st|e] w1];
    [|discriminate].
  injection H as <- _ _. rewrite andb_assoc. reflexivity.
Qed.

(** Property X26. When [self_check_result] returns the flag [true], the
    time, the length and the speed of the result are positive finite
    numbers: none is a NaN, an infinity, zero or negative. *)
Theorem self_check_passed_means_positive_finite :
  forall result (llm_client : option (LLMClient.t World)) w steps w',
  self_check_result model_dump result llm_client w = (Ok (true, steps), w') ->
  positive_finite (ReasoningResult.time_seconds result)
  /\ positive_finite (BridgeInfo.length_meters (ReasoningResult.bridge result))
  /\ positive_finite (AnimalSpeed.speed_m_s (ReasoningResult.animal result)).
Proof.
  intros result llm_client w steps w' H.
  apply self_check_flag in H. symmetry in H.
  apply andb_true_iff in H. destruct H as [H Hs].
  apply andb_true_iff in H. destruct H as [Ht Hb].
  unfold positive_finite.
  split; [|split];
    (eapply in_range_positive_finite; [| |eassumption]; reflexivity).
Qed.

(** Property X27. [_llm_self_check] without a client returns [None]. With a
    client, an exception of [get_model] or of [invoke] is reported in the
    step "LLM self-check failed", under "error"; the answer of the model
    to the prompt is reported in the step "LLM self-check (opinion)",
    under "comment". *)
Theorem llm_self_check_reports_outcome :
  forall result (llm_client : LLMClient.t World) w,
  let prompt :=
    u8 "Оцени корректность результата пересечения моста:" ++ [10%N]
    ++ model_dump result ++ [10%N]
    ++ u8 "Ответь кратко, до 2 предложений, укажи 'ok' или 'warning'." in
  let failed exc :=
    {| ReasoningStep.description := u8 "LLM self-check failed";
       ReasoningStep.data := Some [ (u8 "error", VStr (exc_str exc)) ] |} in
  (forall exc w1, LLMClient.get_model llm_client w = (Raise exc, w1) ->
     _llm_self_check model_dump result (Some llm_client) w = (Ok (Some (failed exc)), w1))
  /\ (forall llm w1 exc w2,
        LLMClient.get_model llm_client w = (Ok llm, w1) ->
        LLMClient.invoke llm prompt w1 = (Raise exc, w2) ->
        _llm_self_check model_dump result (Some llm_client) w
        = (Ok (Some (failed exc)), w2))
  /\ (forall llm w1 opinion w2,
        LLMClient.get_model llm_client w = (Ok llm, w1) ->
        LLMClient.invoke llm prompt w1 = (Ok opinion, w2) ->
        _llm_self_check model_dump result (Some llm_client) w
        = (Ok (Some {| ReasoningStep.description := u8 "LLM self-check (opinion)";
                       ReasoningStep.data :=
                         Some [ (u8 "comment", VStr opinion) ] |}), w2))
  /\ (forall w0 : World, _llm_self_check model_dump result None w0 = (Ok None, w0)).
Proof.
  intros result llm_client w prompt failed.
  unfold _llm_self_check. cbv [try_except bind ret any_Exception].
  split; [|split; [|split]].
  - intros exc w1 H. rewrite H. reflexivity.
  - intros llm w1 exc w2 H1 H2. rewrite H1. fold prompt. rewrite H2. reflexivity.
  - intros llm w1 opinion w2 H1 H2. rewrite H1. fold prompt. rewrite H2. reflexivity.
  - reflexivity.
Qed.

End SelfCheckTheorems.

(** ** Binary64: rounding keeps a quotient between two numbers of the grid *)

Lemma digits_53 : forall m, 2 ^ 52 <= Zpos m < 2 ^ 53 -> Zpos (digits2_pos m) = 53.
Proof. intros m H. apply digits2_pos_unique. exact H. Qed.

Lemma digits_54 : forall m, 2 ^ 53 <= Zpos m < 2 ^ 54 -> Zpos (digits2_pos m) = 54.
Proof. intros m H. apply digits2_pos_unique. exact H. Qed.

(** The second shift of [binary_round_aux], on a mantissa of 53 bits or
    on [2^53]. *)
Lemma renormalize : forall mr e, 2 ^ 52 <= mr <= 2 ^ 53 -> -1074 <= e <= 900 ->
  exists m e', 
    (let '(mrs, e'') := shr_fexp prec emax mr e loc_Exact in
     match shr_m mrs with
     | Z0 => S754_zero false
     | Zpos m => if e'' <=? emax - prec then S754_finite false m e''
                 else S754_infinity false
     | Zneg _ => S754_nan
     end) = S754_finite false m e'
    /\ e <= e' /\ Zpos m * 2 ^ (e' - e) = mr.
Proof.
  intros mr e Hm He.
  destruct mr as [|p|p]; try lia.
  destruct (Z.eq_dec (Zpos p) (2 ^ 53)) as [E|E].
  - exists (Z.to_pos (2 ^ 52)), (e + 1).
    unfold shr_fexp. cbn [Zdigits2 shr_record_of_loc].
    rewrite (digits_54 p) by (rewrite E; change (2 ^ 54) with (2 * 2 ^ 53); lia).
    unfold fexp, SpecFloat.emin, emax, prec.
    replace (Z.max (54 + e - 53) (3 - 1024 - 53) - e) with 1 by lia.
    injection E as ->. cbn [shr iter_pos shr_1 shr_m].
    replace (e + 1 <=? 1024 - 53) with true by (symmetry; apply Z.leb_le; lia).
    split; [reflexivity|]. split; [lia|].
    replace (e + 1 - e) with 1 by lia. reflexivity.
  - exists p, e.
    unfold shr_fexp. cbn [Zdigits2 shr_record_of_loc].
    rewrite (digits_53 p) by lia.
    unfold fexp, SpecFloat.emin, emax, prec.
    replace (Z.max (53 + e - 53) (3 - 1024 - 53) - e) with 0 by lia.
    cbn [shr shr_m].
    replace (e <=? 1024 - 53) with true by (symmetry; apply Z.leb_le; lia).
    split; [reflexivity|]. split; [lia|].
    rewrite Z.sub_diag. change (2 ^ 0) with 1. lia.
Qed.

Lemma round_nearest_even_bounds : forall m l,
  m <= round_nearest_even m l <= m + 1
  /\ (l = loc_Exact -> round_nearest_even m l = m).
Proof.
  intros m l. destruct l as [|[| |]]; cbn [round_nearest_even];
    try destruct (Z.even m); split; try lia; try reflexivity; discriminate.
Qed.

(** Rounding a quotient of 53 or 54 bits: the result lies between the
    bounds the quotient lies between, when the bounds are multiples of
    four units. *)
Lemma round_aux_between : forall mz ez lz lo hi,
  2 ^ 52 <= mz < 2 ^ 54 -> -1074 <= ez <= 899 ->
  4 * lo <= mz -> mz <= 4 * hi -> (lz <> loc_Exact -> mz < 4 * hi) ->
  exists m e,
    binary_round_aux prec emax false mz ez lz = S754_finite false m e
    /\ ez <= e /\ 4 * lo <= Zpos m * 2 ^ (e - ez) <= 4 * hi.
Proof.
  intros mz ez lz lo hi Hm He Hlo Hhi Hin.
  destruct mz as [|p|p]; try lia.
  unfold binary_round_aux.
  destruct (Z_lt_le_dec (Zpos p) (2 ^ 53)) as [Hs|Hl].
  - (* 53 bits: no first shift *)
    unfold shr_fexp at 1. cbn [Zdigits2].
    rewrite (digits_53 p) by lia.
    unfold fexp at 1. unfold SpecFloat.emin, emax, prec.
    replace (Z.max (53 + ez - 53) (3 - 1024 - 53) - ez) with 0 by lia.
    cbn [shr].
    assert (Hl : loc_of_shr_record (shr_record_of_loc (Zpos p) lz) = lz)
      by (destruct lz as [|[| |]]; reflexivity).
    assert (Hsm : shr_m (shr_record_of_loc (Zpos p) lz) = Zpos p)
      by (destruct lz as [|[| |]]; reflexivity).
    rewrite Hl, Hsm.
    destruct (round_nearest_even_bounds (Zpos p) lz) as [Hr Hex].
    set (mr := round_nearest_even (Zpos p) lz) in *.
    assert (Hmr : mr <= 4 * hi).
    { destruct lz as [|c]; [rewrite (Hex eq_refl); exact Hhi|].
      assert (Zpos p < 4 * hi) by (apply Hin; discriminate). lia. }
    destruct (renormalize mr ez ltac:(lia) ltac:(lia)) as [m [e [Hres [Hee Hv]]]].
    exists m, e. split; [exact Hres|]. split; [exact Hee|]. lia.
  - (* 54 bits: one shift *)
    unfold shr_fexp at 1. cbn [Zdigits2].
    rewrite (digits_54 p) by lia.
    unfold fexp at 1. unfold SpecFloat.emin, emax, prec.
    replace (Z.max (54 + ez - 53) (3 - 1024 - 53) - ez) with 1 by lia.
    cbn [shr iter_pos].
    assert (Hcase : exists h l',
              shr_1 (shr_record_of_loc (Zpos p) lz) = Build_shr_record h
                (match l' with loc_Inexact Eq | loc_Inexact Gt => true | _ => false end)
                (match l' with loc_Inexact Lt | loc_Inexact Gt => true | _ => false end)
              /\ 2 * h <= Zpos p <= 2 * h + 1
              /\ (l' = loc_Exact -> Zpos p = 2 * h /\ lz = loc_Exact)).
    { destruct p as [q|q|]; try (change (2 ^ 53) with 9007199254740992 in Hl; lia).
      - exists (Zpos q).
        destruct lz as [|[| |]];
          [exists (loc_Inexact Eq)|exists (loc_Inexact Gt)|exists (loc_Inexact Gt)
          |exists (loc_Inexact Gt)];
          (split; [reflexivity|]; split; [lia|discriminate]).
      - exists (Zpos q).
        destruct lz as [|[| |]];
          [exists loc_Exact|exists (loc_Inexact Lt)|exists (loc_Inexact Lt)
          |exists (loc_Inexact Lt)];
          (split; [reflexivity|]; split; [lia|]);
          try discriminate.
        intros _. split; [lia|reflexivity]. }
    destruct Hcase as [h [l' [Hsh [Hh Hex']]]]. rewrite Hsh.
    assert (Hloc : loc_of_shr_record
                     (Build_shr_record h
                        (match l' with loc_Inexact Eq | loc_Inexact Gt => true | _ => false end)
                        (match l' with loc_Inexact Lt | loc_Inexact Gt => true | _ => false end))
                   = l') by (destruct l' as [|[| |]]; reflexivity).
    rewrite Hloc. cbn [shr_m].
    destruct (round_nearest_even_bounds h l') as [Hr Hex].
    set (mr := round_nearest_even h l') in *.
    assert (Hlo2 : 2 * lo <= h) by lia.
    assert (Hmr : mr <= 2 * hi).
    { destruct l' as [|c].
      - rewrite (Hex eq_refl). lia.
      - assert (Zpos p < 4 * hi).
        { destruct lz as [|c'].
          - (* the quotient was exact, so a bit was shifted out *)
            destruct (Z.eq_dec (Zpos p) (2 * h)) as [E|E]; [|lia].
            exfalso. clear - Hsh E.
            destruct p as [q|q|]; try lia.
            cbn in Hsh. injection Hsh as _ H1 H2.
            destruct c; discriminate.
          - apply Hin. discriminate. }
        lia. }
    assert (H52 : 2 ^ 52 <= h) by (change (2 ^ 53) with (2 * 2 ^ 52) in Hl; lia).
    assert (H53 : mr <= 2 ^ 53).
    { change (2 ^ 54) with (2 * 2 ^ 53) in Hm. lia. }
    destruct (renormalize mr (ez + 1) ltac:(lia) ltac:(lia)) as [m [e [Hres [Hee Hv]]]].
    exists m, e. split; [exact Hres|]. split; [lia|].
    replace (e - ez) with ((e - (ez + 1)) + 1) by lia.
    rewrite Z.pow_add_r by lia. change (2 ^ 1) with 2. lia.
Qed.

(** The quotient of two normal floats. *)
Lemma SFdiv_between : forall mx ex my ey lo hi,
  2 ^ 52 <= Zpos mx < 2 ^ 53 -> 2 ^ 52 <= Zpos my < 2 ^ 53 ->
  -1021 <= ex - ey <= 900 ->
  4 * lo * Zpos my <= Zpos mx * 2 ^ 53 ->
  Zpos mx * 2 ^ 53 <= 4 * hi * Zpos my ->
  exists m e,
    SFdiv prec emax (S754_finite false mx ex) (S754_finite false my ey)
    = S754_finite false m e
    /\ ex - ey - 53 <= e
    /\ 4 * lo <= Zpos m * 2 ^ (e - (ex - ey - 53)) <= 4 * hi.
Proof.
  intros mx ex my ey lo hi Hx Hy He Hlo Hhi.
  cbn [SFdiv xorb]. unfold SFdiv_core_binary. cbn [Zdigits2].
  rewrite (digits_53 mx Hx), (digits_53 my Hy).
  replace (Z.min (fexp prec emax (53 + ex - (53 + ey))) (ex - ey))
    with (ex - ey - 53) by (unfold fexp, SpecFloat.emin, emax, prec; lia).
  replace (ex - ey - (ex - ey - 53)) with 53 by lia.
  cbn match. rewrite Z.shiftl_mul_pow2 by lia.
  pose proof (Z_div_mod (Zpos mx * 2 ^ 53) (Zpos my) ltac:(lia)) as Hdm.
  destruct (Z.div_eucl (Zpos mx * 2 ^ 53) (Zpos my)) as [q r].
  destruct Hdm as [Hq Hr].
  assert (Hq52 : 2 ^ 52 <= q < 2 ^ 54).
  { change (2 ^ 54) with (2 * 2 ^ 53). change (2 ^ 53) with (2 * 2 ^ 52) in *.
    set (P := 2 ^ 52) in *. assert (0 < P) by (unfold P; lia). nia. }
  assert (Hql : 4 * lo <= q) by nia.
  assert (Hqh : q <= 4 * hi) by nia.
  assert (Hqs : new_location (Zpos my) r <> loc_Exact -> q < 4 * hi).
  { intros Hn. assert (r <> 0).
    { intros ->. apply Hn. unfold new_location, new_location_even, new_location_odd.
      destruct (Z.even (Zpos my)); reflexivity. }
    nia. }
  apply (round_aux_between q (ex - ey - 53) _ lo hi Hq52 ltac:(lia) Hql Hqh Hqs).
Qed.

(** A float between two positive finite floats, by its key. *)
Lemma in_range_key : forall lo hi v,
  (0 <? lo)%float = true -> (hi <? infinity)%float = true ->
  in_range lo hi v = true ->
  exists m e, Prim2SF v = S754_finite false m e
    /\ bounded prec emax m e = true
    /\ fkey lo <= Zpos m * 2 ^ (e + 1074) <= fkey hi.
Proof.
  intros lo hi v Hlo Hhi H.
  destruct (in_range_positive_finite lo hi v Hlo Hhi H) as [Hp [Hf _]].
  unfold in_range in H. apply andb_true_iff in H. destruct H as [H1 H2].
  assert (Hv0 : (0 <=? v)%float = true).
  { rewrite ltb_spec in Hp. rewrite leb_spec. unfold SFltb, SFleb in *.
    destruct (SFcompare (Prim2SF 0) (Prim2SF v)) as [[| |]|]; try discriminate; reflexivity. }
  assert (Hlo0 : (0 <=? lo)%float = true).
  { rewrite ltb_spec in Hlo. rewrite leb_spec. unfold SFltb, SFleb in *.
    destruct (SFcompare (Prim2SF 0) (Prim2SF lo)) as [[| |]|]; try discriminate; reflexivity. }
  assert (Hhi0 : (0 <=? hi)%float = true).
  { pose proof (float_nonneg_SF v Hv0) as Hn.
    rewrite leb_spec in H2 |- *. change (Prim2SF 0) with (S754_zero false).
    destruct (Prim2SF v) as [sv|[|]| |[|] mv ev]; cbn in Hn; try contradiction;
      destruct (Prim2SF hi) as [sh|[|]| |[|] mh eh]; try discriminate; reflexivity. }
  rewrite (leb_key lo v Hlo0 Hv0) in H1. rewrite (leb_key v hi Hv0 Hhi0) in H2.
  apply Z.leb_le in H1, H2.
  pose proof (Prim2SF_valid v) as Hval.
  rewrite ltb_spec in Hp, Hf.
  change (Prim2SF 0) with (S754_zero false) in Hp.
  change (Prim2SF infinity) with (S754_infinity false) in Hf.
  unfold fkey in H1, H2 |- *.
  destruct (Prim2SF v) as [sv|[|]| |[|] mv ev]; try discriminate.
  exists mv, ev. split; [reflexivity|]. split; [exact Hval|]. cbn [key] in H1, H2. lia.
Qed.

(** A float from 1 to 1024 is normal, with an exponent from -52 to -42. *)
Lemma normal_of_key : forall m e,
  bounded prec emax m e = true ->
  2 ^ 1074 <= Zpos m * 2 ^ (e + 1074) <= 2 ^ 1084 ->
  2 ^ 52 <= Zpos m < 2 ^ 53 /\ -52 <= e <= -42.
Proof.
  intros m e Hb [Hlo Hhi].
  destruct (canonical_mantissa_bounds m e Hb) as [Hu Hn].
  destruct (canonical_digits m e Hb) as [_ [_ Hr]].
  unfold SpecFloat.emin, emax, prec in *.
  assert (He1 : -53 < e).
  { destruct (Z_lt_le_dec (-53) e) as [|Hle]; [assumption|exfalso].
    assert (2 ^ (e + 1074) <= 2 ^ 1021) by (apply Z.pow_le_mono_r; lia).
    assert (0 < 2 ^ (e + 1074)) by (apply Z.pow_pos_nonneg; lia).
    assert (Zpos m * 2 ^ (e + 1074) < 2 ^ 53 * 2 ^ 1021).
    { apply Z.lt_le_trans with (2 ^ 53 * 2 ^ (e + 1074)).
      - apply Z.mul_lt_mono_pos_r; assumption.
      - apply Z.mul_le_mono_nonneg_l; [lia|assumption]. }
    rewrite <- Z.pow_add_r in H1 by lia. change (53 + 1021) with 1074 in H1. lia. }
  assert (Hm : 2 ^ 52 <= Zpos m) by (apply Hn; lia).
  split; [lia|]. split; [lia|].
  destruct (Z_le_gt_dec e (-42)) as [|Hgt]; [assumption|exfalso].
  assert (2 ^ 1033 <= 2 ^ (e + 1074)) by (apply Z.pow_le_mono_r; lia).
  assert (2 ^ 52 * 2 ^ 1033 <= Zpos m * 2 ^ (e + 1074)).
  { apply Z.mul_le_mono_nonneg; lia. }
  rewrite <- Z.pow_add_r in H0 by lia. change (52 + 1033) with 1085 in H0.
  assert (2 ^ 1084 < 2 ^ 1085) by (apply Z.pow_lt_mono_r; lia). lia.
Qed.

Lemma fkey_constants :
  fkey 5 = 5 * 2 ^ 1074 /\ fkey 20 = 20 * 2 ^ 1074
  /\ fkey 100 = 100 * 2 ^ 1074 /\ fkey 1000 = 1000 * 2 ^ 1074
  /\ fkey 200 = 200 * 2 ^ 1074 /\ fkey 600 = 600 * 2 ^ 1074
  /\ 8 * fkey 0.125 = 2 ^ 1074 /\ fkey 0x1p55 = 2 ^ 55 * 2 ^ 1074.
Proof. repeat split; vm_compute; reflexivity. Qed.

Lemma pow2_split : forall a b, 0 <= a -> 0 <= b -> 2 ^ (a + b) = 2 ^ a * 2 ^ b.
Proof. intros. apply Z.pow_add_r; assumption. Qed.

(** The quotient of a length from 20 to 1000 by a speed from 5 to 100. *)
Lemma quotient_in_range : forall l s,
  in_range 20 1000 l = true -> in_range 5 100 s = true ->
  exists m e, Prim2SF (l / s)%float = S754_finite false m e
    /\ 2 ^ 1074 <= 8 * (Zpos m * 2 ^ (e + 1074))
    /\ Zpos m * 2 ^ (e + 1074) <= 200 * 2 ^ 1074.
Proof.
  intros l s Hl Hs.
  destruct fkey_constants as [K5 [K20 [K100 [K1000 _]]]].
  destruct (in_range_key 20 1000 l eq_refl eq_refl Hl) as [ml [el [El [Hbl Hkl]]]].
  destruct (in_range_key 5 100 s eq_refl eq_refl Hs) as [ms [es [Es [Hbs Hks]]]].
  rewrite K20, K1000 in Hkl. rewrite K5, K100 in Hks.
  assert (HP : 2 ^ 1084 = 1024 * 2 ^ 1074).
  { change 1084 with (10 + 1074). rewrite pow2_split by lia. reflexivity. }
  assert (HP0 : 0 < 2 ^ 1074) by (apply Z.pow_pos_nonneg; lia).
  destruct (normal_of_key ml el Hbl ltac:(rewrite HP; lia)) as [Hml Hel].
  destruct (normal_of_key ms es Hbs ltac:(rewrite HP; lia)) as [Hms Hes].
  (* the keys without the common factor 2^1022 *)
  set (a := el + 52) in *. set (b := es + 52) in *.
  assert (Ha : 0 <= a <= 10) by (unfold a; lia).
  assert (Hb : 0 <= b <= 10) by (unfold b; lia).
  assert (Hel' : 2 ^ (el + 1074) = 2 ^ a * 2 ^ 1022).
  { rewrite <- pow2_split by lia. f_equal. unfold a. lia. }
  assert (Hes' : 2 ^ (es + 1074) = 2 ^ b * 2 ^ 1022).
  { rewrite <- pow2_split by lia. f_equal. unfold b. lia. }
  assert (HP' : 2 ^ 1074 = 2 ^ 52 * 2 ^ 1022) by (rewrite <- pow2_split by lia; reflexivity).
  assert (HQ0 : 0 < 2 ^ 1022) by (apply Z.pow_pos_nonneg; lia).
  rewrite Hel', HP' in Hkl. rewrite Hes', HP' in Hks.
  assert (Hkl1 : 20 * 2 ^ 52 <= Zpos ml * 2 ^ a <= 1000 * 2 ^ 52).
  { split; apply (Z.mul_le_mono_pos_r _ _ (2 ^ 1022) HQ0); lia. }
  assert (Hks1 : 5 * 2 ^ 52 <= Zpos ms * 2 ^ b <= 100 * 2 ^ 52).
  { split; apply (Z.mul_le_mono_pos_r _ _ (2 ^ 1022) HQ0); lia. }
  assert (Hup : Zpos ml * 2 ^ a <= 200 * (Zpos ms * 2 ^ b)).
  { clear - Hkl1 Hks1. revert Hkl1 Hks1.
    generalize (Zpos ml * 2 ^ a) (Zpos ms * 2 ^ b).
    change (2 ^ 52) with 4503599627370496. intros; lia. }
  assert (Hdn : Zpos ms * 2 ^ b <= 8 * (Zpos ml * 2 ^ a)).
  { clear - Hkl1 Hks1. revert Hkl1 Hks1.
    generalize (Zpos ml * 2 ^ a) (Zpos ms * 2 ^ b).
    change (2 ^ 52) with 4503599627370496. intros; lia. }
  clear Hkl Hks HP HP' Hel' Hes' K5 K20 K100 K1000.
  assert (Ha53 : 2 ^ 53 = 2 ^ a * 2 ^ (53 - a))
    by (rewrite <- pow2_split by lia; f_equal; lia).
  assert (Ha50 : 2 ^ 50 = 2 ^ a * 2 ^ (50 - a))
    by (rewrite <- pow2_split by lia; f_equal; lia).
  assert (Hp1 : 0 < 2 ^ (53 - a)) by (apply Z.pow_pos_nonneg; lia).
  assert (Hp2 : 0 < 2 ^ (50 - a)) by (apply Z.pow_pos_nonneg; lia).
  set (hi := 50 * 2 ^ (53 + b - a)).
  set (lo := 2 ^ (48 + b - a)).
  assert (Hhi : Zpos ml * 2 ^ 53 <= 4 * hi * Zpos ms).
  { unfold hi. replace (53 + b - a) with (b + (53 - a)) by lia.
    rewrite pow2_split by lia. rewrite Ha53.
    apply Z.mul_le_mono_nonneg_r with (p := 2 ^ (53 - a)) in Hup; lia. }
  assert (Hlo : 4 * lo * Zpos ms <= Zpos ml * 2 ^ 53).
  { unfold lo. replace (48 + b - a) with (b + (48 - a)) by lia.
    rewrite pow2_split by lia.
    assert (H4 : 4 * 2 ^ (48 - a) = 2 ^ (50 - a)).
    { change 4 with (2 ^ 2). rewrite <- pow2_split by lia. f_equal. lia. }
    change (2 ^ 53) with (8 * 2 ^ 50). rewrite Ha50.
    apply Z.mul_le_mono_nonneg_r with (p := 2 ^ (50 - a)) in Hdn; [|lia].
    replace (4 * (2 ^ b * 2 ^ (48 - a)) * Zpos ms)
      with (Zpos ms * 2 ^ b * (4 * 2 ^ (48 - a))) by ring.
    rewrite H4. lia. }
  destruct (SFdiv_between ml el ms es lo hi Hml Hms ltac:(lia) Hlo Hhi)
    as [m [e [Hdiv [Hee [Hrl Hrh]]]]].
  exists m, e. rewrite div_spec, El, Es. split; [exact Hdiv|].
  (* back to keys *)
  set (e' := el - es - 53) in *.
  assert (He' : -63 <= e' <= -43) by (unfold e'; lia).
  assert (Hsplit : 2 ^ (e + 1074) = 2 ^ (e - e') * 2 ^ (e' + 1074)).
  { rewrite <- pow2_split by lia. f_equal. lia. }
  assert (Hc : 0 < 2 ^ (e' + 1074)) by (apply Z.pow_pos_nonneg; lia).
  assert (Hhik : 4 * hi * 2 ^ (e' + 1074) = 200 * 2 ^ 1074).
  { unfold hi. replace (53 + b - a) with (- e') by (unfold e', a, b; lia).
    replace (4 * (50 * 2 ^ (- e')) * 2 ^ (e' + 1074))
      with (200 * (2 ^ (- e') * 2 ^ (e' + 1074))) by ring.
    rewrite <- pow2_split by lia. do 2 f_equal. lia. }
  assert (Hlok : 8 * (4 * lo * 2 ^ (e' + 1074)) = 2 ^ 1074).
  { unfold lo. replace (48 + b - a) with (- e' - 5) by (unfold e', a, b; lia).
    replace (8 * (4 * 2 ^ (- e' - 5) * 2 ^ (e' + 1074)))
      with (2 ^ 5 * (2 ^ (- e' - 5) * 2 ^ (e' + 1074))) by (change (2 ^ 5) with 32; ring).
    rewrite <- !pow2_split by lia. f_equal. lia. }
  rewrite Hsplit.
  assert (H1 : 4 * lo * 2 ^ (e' + 1074) <= Zpos m * 2 ^ (e - e') * 2 ^ (e' + 1074))
    by (apply Z.mul_le_mono_nonneg_r; lia).
  assert (H2 : Zpos m * 2 ^ (e - e') * 2 ^ (e' + 1074) <= 4 * hi * 2 ^ (e' + 1074))
    by (apply Z.mul_le_mono_nonneg_r; lia).
  rewrite (Z.mul_assoc (Zpos m) (2 ^ (e - e')) (2 ^ (e' + 1074))). split.
  - rewrite <- Hlok. apply Z.mul_le_mono_nonneg_l; [lia|exact H1].
  - rewrite <- Hhik. exact H2.
Qed.

(** Property X5. For a length from 20 to 1000 and a speed from 5 to 100, the
    ranges of the self-check, [estimate_crossing_time] returns a result;
    its time is the quotient of the two floats and lies from 0.125 to 200,
    so that the check of the time against 0.5 and 600 is the comparison
    with 0.5 alone. *)
Theorem estimate_crossing_time_of_plausible_facts : forall bridge animal,
  in_range 20 1000 (BridgeInfo.length_meters bridge) = true ->
  in_range 5 100 (AnimalSpeed.speed_m_s animal) = true ->
  exists r,
    estimate_crossing_time bridge animal = Ok r
    /\ ReasoningResult.time_seconds r
       = (BridgeInfo.length_meters bridge / AnimalSpeed.speed_m_s animal)%float
    /\ in_range 0.125 200 (ReasoningResult.time_seconds r) = true
    /\ in_range 0.5 600 (ReasoningResult.time_seconds r)
       = (0.5 <=? ReasoningResult.time_seconds r)%float.
Proof.
  intros bridge animal Hl Hs.
  destruct fkey_constants as [_ [_ [_ [_ [K200 [K600 [K8 K55]]]]]]].
  destruct (quotient_in_range _ _ Hl Hs) as [m [e [Et [Hlo Hhi]]]].
  set (t := (BridgeInfo.length_meters bridge / AnimalSpeed.speed_m_s animal)%float) in *.
  assert (Ht0 : (0 <=? t)%float = true) by (rewrite leb_spec, Et; reflexivity).
  assert (Hk : fkey t = Zpos m * 2 ^ (e + 1074)) by (unfold fkey; rewrite Et; reflexivity).
  assert (HP0 : 0 < 2 ^ 1074) by (apply Z.pow_pos_nonneg; lia).
  assert (H200 : (t <=? 200)%float = true).
  { rewrite (leb_key t 200 Ht0 eq_refl), Hk, K200. apply Z.leb_le. exact Hhi. }
  assert (H600 : (t <=? 600)%float = true).
  { rewrite (leb_key t 600 Ht0 eq_refl), Hk, K600. apply Z.leb_le. lia. }
  assert (H18 : (0.125 <=? t)%float = true).
  { rewrite (leb_key 0.125 t eq_refl Ht0), Hk. apply Z.leb_le. lia. }
  assert (H55 : (t <? 0x1p55)%float = true).
  { rewrite (ltb_key t 0x1p55 Ht0 eq_refl), Hk, K55. apply Z.ltb_lt.
    assert (200 < 2 ^ 55) by (change (2 ^ 55) with 36028797018963968; lia). nia. }
  assert (Hpos : (0 <? AnimalSpeed.speed_m_s animal)%float = true).
  { apply (in_range_positive_finite 5 100 _ eq_refl eq_refl Hs). }
  eexists. split; [apply (estimate_crossing_time_returns bridge animal Hpos H55)|].
  cbn [ReasoningResult.time_seconds]. fold t.
  split; [reflexivity|]. split.
  - unfold in_range. rewrite H18, H200. reflexivity.
  - unfold in_range. rewrite H600. apply andb_true_r.
Qed.

Lemma estimate_crossing_time_of_plausible_facts_witness :
  let bridge := Stub.mock_bridge 487 in
  let animal := Stub.mock_animal 25 in
  in_range 20 1000 (BridgeInfo.length_meters bridge) = true
  /\ in_range 5 100 (AnimalSpeed.speed_m_s animal) = true
  /\ exists r, estimate_crossing_time bridge animal = Ok r
       /\ ReasoningResult.time_seconds r = 19.48%float
       /\ in_range 0.125 200 (ReasoningResult.time_seconds r) = true.
Proof.
  intros bridge animal. split; [reflexivity|]. split; [reflexivity|].
  destruct (estimate_crossing_time_of_plausible_facts bridge animal eq_refl eq_refl)
    as [r [Hr [Ht [Hin _]]]].
  exists r. split; [exact Hr|]. split; [|exact Hin].
  rewrite Ht. vm_compute. reflexivity.
Defined.

(** * Worked examples on the tables of [BasicUnicode] *)

#[local] Existing Instance BasicUnicode.tables.

Example fallback_tests :
  get_bridge_info_big_stone_bridge Stub.FailingClient tt
  = (Ok {| BridgeInfo.name := u8 "Большой Каменный мост (fallback)";
           BridgeInfo.length_meters := 487;
           BridgeInfo.source := u8 "fallback:boom" |}, tt)
  /\ get_animal_speed Stub.patched_new Stub.FailingClient (u8 "Гепард") tt
     = (Ok {| AnimalSpeed.name := u8 "Гепард (fallback)";
              AnimalSpeed.speed_m_s := 25;
              AnimalSpeed.source := u8 "fallback:boom";
              AnimalSpeed.speed_km_h := Some 90%float |}, tt).
Proof. split; vm_compute; reflexivity. Qed.

Lemma get_animal_speed_english_fallback_witness :
  let client := Fixture.silent Stub.russian_api in
  let new_client :=
    two_texts_new (u8 "The cheetah is a large cat.") (u8 "It can run at 112 km/h.") in
  let name := u8 "cheetah" in
  WikipediaClient.search_page client name tt = (Ok None, tt)
  /\ WikipediaClient.search_page client (capitalize name) tt = (Ok None, tt)
  /\ startswith (u8 "https://en.wikipedia.org") (WikipediaClient.base_url client) = false
  /\ _parse_speed_kmh (u8 "The cheetah is a large cat.")
     = Raise (mkExc ValueError (u8 "Не удалось извлечь скорость гепарда из текста"))
  /\ get_animal_speed new_client client name tt
     = (Ok {| AnimalSpeed.name := u8 "Cheetah (EN)";
              AnimalSpeed.speed_m_s := kmh_to_ms 112;
              AnimalSpeed.source := u8 "https://en.wikipedia.org/?curid=100";
              AnimalSpeed.speed_km_h := Some 112%float |}, tt).
Proof.
  intros client new_client name.
  split; [reflexivity|]. split; [reflexivity|]. split; [reflexivity|].
  split; [vm_compute; reflexivity|].
  pose proof (get_animal_speed_english_fallback BasicUnicode.tables unit new_client
       client name tt tt tt tt tt
       (two_texts_at english_api (u8 "The cheetah is a large cat.")
                     (u8 "It can run at 112 km/h."))
       {| WikipediaSearchResult.page_id := 100;
          WikipediaSearchResult.title := u8 "Cheetah (EN)";
          WikipediaSearchResult.snippet := None |}
       eq_refl eq_refl eq_refl eq_refl) as H.
  refine (eq_trans
    (proj1 (proj2 (H _))
       {| WikipediaPageSummary.page_id := 100;
          WikipediaPageSummary.title := u8 "dummy";
          WikipediaPageSummary.extract := u8 "The cheetah is a large cat.";
          WikipediaPageSummary.description := None |}
       tt (mkExc ValueError (u8 "Не удалось извлечь скорость гепарда из текста"))
       {| WikipediaPageSummary.page_id := 100;
          WikipediaPageSummary.title := u8 "dummy";
          WikipediaPageSummary.extract := u8 "It can run at 112 km/h.";
          WikipediaPageSummary.description := None |}
       tt 112%float _ _ _ _) _); vm_compute; reflexivity.
Defined.

Lemma get_animal_speed_english_summary_fails :
  let client := Stub.patched Stub.russian_api in
  let name := u8 "Cheetah" in
  WikipediaClient.search_page client name tt = (Ok None, tt)
  /\ WikipediaClient.search_page client (capitalize name) tt = (Ok None, tt)
  /\ startswith (u8 "https://en.wikipedia.org") (WikipediaClient.base_url client) = false
  /\ Stub.broken_new english_api tt = (Ok (Stub.broken english_api), tt)
  /\ WikipediaClient.search_page (Stub.broken english_api) (capitalize name) tt
     = (Ok (Some Stub.en_page), tt)
  /\ get_animal_speed Stub.broken_new client name tt
     = (Ok {| AnimalSpeed.name := u8 "Cheetah (fallback)";
              AnimalSpeed.speed_m_s := 25;
              AnimalSpeed.source := u8 "fallback:Failed to fetch page summary";
              AnimalSpeed.speed_km_h := Some 90%float |}, tt)
  /\ u8 "Cheetah (fallback)" <> WikipediaSearchResult.title Stub.en_page.
Proof.
  intros client name.
  do 6 (split; [vm_compute; reflexivity|]).
  vm_compute. discriminate.
Qed.


Example parse_length_meters_tests :
  _parse_length_meters (u8 "Мост длиной 345,5 м построен рядом с 123 м переправой.")
  = Ok 345.5%float
  /\ findall true length_pattern
       (u8 "Мост длиной 345,5 м построен рядом с 123 м переправой.")
     = [u8 "345,5"; u8 "123"]
  /\ _parse_length_meters (u8 "В тексте нет данных о длине моста.")
     = Raise (mkExc ValueError (u8 "Не удалось извлечь длину моста из текста"))
  /\ _parse_length_meters (u8 "Длина 200 МЕТРОВ, ширина 40 м") = Ok 200%float.
Proof. repeat split; vm_compute; reflexivity. Qed.

Lemma parse_length_meters_latin_unit_not_matched :
  let text := u8 "Bridge is 345.5 m long, built near a 123 m crossing." in
  _parse_length_meters text
  = Raise (mkExc ValueError (u8 "Не удалось извлечь длину моста из текста"))
  /\ _parse_length_meters text <> Ok 345.5%float
  /\ _parse_length_meters (u8 "345.5 meter") 
     = Raise (mkExc ValueError (u8 "Не удалось извлечь длину моста из текста")).
Proof.
  intros text. split; [vm_compute; reflexivity|]. split; [|vm_compute; reflexivity].
  intros H. vm_compute in H. discriminate H.
Qed.

Example parse_speed_kmh_tests :
  _parse_speed_kmh (u8 "Гепард развивает скорость до 100 км/ч, а иногда 95 km/h.")
  = Ok 100%float
  /\ findall true speed_pattern
       (u8 "Гепард развивает скорость до 100 км/ч, а иногда 95 km/h.")
     = [u8 "100"; u8 "95"]
  /\ _parse_speed_kmh (u8 "Здесь нет упоминания скорости.")
     = Raise (mkExc ValueError (u8 "Не удалось извлечь скорость гепарда из текста"))
  /\ _parse_speed_kmh (u8 "95 км / ч") = Ok 95%float
  /\ _parse_speed_kmh (u8 "7 км в час") = Ok 7%float
  /\ _parse_speed_kmh (u8 "95 KMH") = Ok 95%float.
Proof. repeat split; vm_compute; reflexivity. Qed.

Lemma parse_speed_kmh_latin_spacing_not_matched :
  _parse_speed_kmh (u8 "95 km / h")
  = Raise (mkExc ValueError (u8 "Не удалось извлечь скорость гепарда из текста"))
  /\ _parse_speed_kmh (u8 "95 км / ч") = Ok 95%float.
Proof. split; vm_compute; reflexivity. Qed.

Lemma get_bridge_info_retries_full_text_witness :
  let client :=
    Fixture.two_texts (u8 "Мост через Москву-реку.") (u8 "Длина моста 487 м.") in
  _parse_length_meters (u8 "Мост через Москву-реку.")
  = Raise (mkExc ValueError (u8 "Не удалось извлечь длину моста из текста"))
  /\ get_bridge_info_big_stone_bridge client tt
     = (Ok {| BridgeInfo.name := u8 "Большой Каменный мост";
              BridgeInfo.length_meters := 487;
              BridgeInfo.source := u8 "https://example.com/?curid=7" |}, tt).
Proof.
  intros client. split; [vm_compute; reflexivity|].
  refine (eq_trans
    (proj1 (get_bridge_info_retries_full_text BasicUnicode.tables unit client tt tt tt
       {| WikipediaSearchResult.page_id := 7;
          WikipediaSearchResult.title := bridge_query;
          WikipediaSearchResult.snippet := None |}
       {| WikipediaPageSummary.page_id := 7;
          WikipediaPageSummary.title := u8 "dummy";
          WikipediaPageSummary.extract := u8 "Мост через Москву-реку.";
          WikipediaPageSummary.description := None |}
       (mkExc ValueError (u8 "Не удалось извлечь длину моста из текста")) _ _ _)
       {| WikipediaPageSummary.page_id := 7;
          WikipediaPageSummary.title := u8 "dummy";
          WikipediaPageSummary.extract := u8 "Длина моста 487 м.";
          WikipediaPageSummary.description := None |}
       tt 487%float _ _) _); vm_compute; reflexivity.
Defined.

Lemma get_animal_speed_retries_full_text_witness :
  let client :=
    Fixture.two_texts (u8 "Гепард - хищник.") (u8 "Скорость до 110 км/ч.") in
  _parse_speed_kmh (u8 "Гепард - хищник.")
  = Raise (mkExc ValueError (u8 "Не удалось извлечь скорость гепарда из текста"))
  /\ get_animal_speed Stub.patched_new client (u8 "Гепард") tt
     = (Ok {| AnimalSpeed.name := u8 "Гепард";
              AnimalSpeed.speed_m_s := kmh_to_ms 110;
              AnimalSpeed.source := u8 "https://example.com/?curid=7";
              AnimalSpeed.speed_km_h := Some 110%float |}, tt).
Proof.
  intros client. split; [vm_compute; reflexivity|].
  refine (eq_trans
    (proj1 (get_animal_speed_retries_full_text BasicUnicode.tables unit
       Stub.patched_new client (u8 "Гепард") tt tt tt
       {| WikipediaSearchResult.page_id := 7;
          WikipediaSearchResult.title := u8 "Гепард";
          WikipediaSearchResult.snippet := None |}
       {| WikipediaPageSummary.page_id := 7;
          WikipediaPageSummary.title := u8 "dummy";
          WikipediaPageSummary.extract := u8 "Гепард - хищник.";
          WikipediaPageSummary.description := None |}
       (mkExc ValueError (u8 "Не удалось извлечь скорость гепарда из текста")) _ _ _)
       {| WikipediaPageSummary.page_id := 7;
          WikipediaPageSummary.title := u8 "dummy";
          WikipediaPageSummary.extract := u8 "Скорость до 110 км/ч.";
          WikipediaPageSummary.description := None |}
       tt 110%float _ _) _); vm_compute; reflexivity.
Defined.

Lemma get_animal_speed_nothing_found_witness :
  let client := Fixture.silent english_api in
  let name := u8 "единорог" in
  WikipediaClient.search_page client name tt = (Ok None, tt)
  /\ WikipediaClient.search_page client (capitalize name) tt = (Ok None, tt)
  /\ get_animal_speed Stub.patched_new client name tt
     = (Ok {| AnimalSpeed.name := u8 "единорог (fallback)";
              AnimalSpeed.speed_m_s := 25;
              AnimalSpeed.source := u8 "fallback:Статья про 'единорог' не найдена";
              AnimalSpeed.speed_km_h := Some 90%float |}, tt).
Proof.
  intros client name. split; [reflexivity|]. split; [reflexivity|].
  refine (eq_trans
    (proj1 (get_animal_speed_nothing_found BasicUnicode.tables unit
       Stub.patched_new client name tt tt tt eq_refl eq_refl) _) _);
    vm_compute; reflexivity.
Defined.

Lemma get_animal_speed_capitalized_retry_witness :
  let client := Fixture.one_title (u8 "Гепард") (u8 "Скорость до 110 км/ч.") in
  let name := u8 "гепард" in
  WikipediaClient.search_page client name tt = (Ok None, tt)
  /\ capitalize name = u8 "Гепард"
  /\ get_animal_speed Stub.patched_new client name tt
     = (Ok {| AnimalSpeed.name := u8 "Гепард";
              AnimalSpeed.speed_m_s := kmh_to_ms 110;
              AnimalSpeed.source := u8 "https://ru.wikipedia.org/?curid=5";
              AnimalSpeed.speed_km_h := Some 110%float |}, tt).
Proof.
  intros client name. split; [vm_compute; reflexivity|]. split; [vm_compute; reflexivity|].
  refine (eq_trans
    (get_animal_speed_capitalized_retry BasicUnicode.tables unit
       Stub.patched_new client name tt tt tt tt
       {| WikipediaSearchResult.page_id := 5;
          WikipediaSearchResult.title := u8 "Гепард";
          WikipediaSearchResult.snippet := None |}
       {| WikipediaPageSummary.page_id := 5;
          WikipediaPageSummary.title := u8 "dummy";
          WikipediaPageSummary.extract := u8 "Скорость до 110 км/ч.";
          WikipediaPageSummary.description := None |}
       110%float _ _ _ _) _); vm_compute; reflexivity.
Defined.

(** The client over HTTP on the answers of [Fixture]. *)

Lemma search_page_request_failure_witness :
  request_failed (Requests.Responded Fixture.unavailable)
  /\ WikipediaAPI.search_page (Fixture.answering Fixture.unavailable)
       Fixture.int_of_str Fixture.repr Fixture.validation_message
       Stub.russian_api (u8 "Гепард") tt
     = (Raise (mkExc RuntimeError (u8 "Failed to search Wikipedia")), tt).
Proof.
  split; [reflexivity|].
  apply (search_page_request_failure (Fixture.answering Fixture.unavailable)
           Fixture.int_of_str Fixture.repr Fixture.validation_message
           Stub.russian_api (u8 "Гепард") tt (Requests.Responded Fixture.unavailable) tt);
    reflexivity.
Defined.

Lemma get_page_summary_request_failure_witness :
  request_failed (fst (Fixture.unreachable Stub.russian_api
                         (WikipediaAPI.summary_params 42 true) WikipediaAPI.headers 10 tt))
  /\ WikipediaAPI.get_page_summary Fixture.unreachable
       Fixture.int_of_str Fixture.repr Fixture.validation_message
       Stub.russian_api 42 true tt
     = (Raise (mkExc RuntimeError (u8 "Failed to fetch page summary")), tt).
Proof.
  split; [exact I|].
  apply (get_page_summary_request_failure Fixture.unreachable
           Fixture.int_of_str Fixture.repr Fixture.validation_message
           Stub.russian_api 42 true tt
           (Requests.RequestException (mkExc OtherException (u8 "connection refused"))) tt);
    [reflexivity|exact I].
Defined.

Lemma search_page_nothing_found_witness :
  responded (Requests.Responded (Fixture.ok_response (JDict Fixture.no_hit)))
            (JDict Fixture.no_hit)
  /\ WikipediaAPI.search_page
       (Fixture.answering (Fixture.ok_response (JDict Fixture.no_hit)))
       Fixture.int_of_str Fixture.repr Fixture.validation_message
       Stub.russian_api (u8 "единорог") tt
     = (Ok None, tt).
Proof.
  split; [split; reflexivity|].
  apply (search_page_nothing_found
           (Fixture.answering (Fixture.ok_response (JDict Fixture.no_hit)))
           Fixture.int_of_str Fixture.repr Fixture.validation_message
           Stub.russian_api (u8 "единорог") tt
           (Requests.Responded (Fixture.ok_response (JDict Fixture.no_hit))) tt
           Fixture.no_hit);
    [reflexivity|split; reflexivity|].
  right. eexists. split; [vm_compute; reflexivity|].
  right. exists (JList []). split; vm_compute; reflexivity.
Defined.

Lemma search_page_first_result_witness :
  responded (Requests.Responded (Fixture.ok_response (JDict Fixture.one_hit)))
            (JDict Fixture.one_hit)
  /\ WikipediaAPI.search_page
       (Fixture.answering (Fixture.ok_response (JDict Fixture.one_hit)))
       Fixture.int_of_str Fixture.repr Fixture.validation_message
       Stub.russian_api (u8 "гепард") tt
     = (Ok (Some {| WikipediaSearchResult.page_id := 12345;
                    WikipediaSearchResult.title := u8 "Гепард";
                    WikipediaSearchResult.snippet := Some (u8 "хищное млекопитающее") |}),
        tt).
Proof.
  split; [split; reflexivity|].
  eapply (search_page_first_result
            (Fixture.answering (Fixture.ok_response (JDict Fixture.one_hit)))
            Fixture.int_of_str Fixture.repr Fixture.validation_message
            Stub.russian_api (u8 "гепард") tt
            (Requests.Responded (Fixture.ok_response (JDict Fixture.one_hit))) tt
            Fixture.one_hit);
    try (vm_compute; reflexivity).
  split; reflexivity.
Defined.

Lemma search_page_malformed_answer_witness :
  responded (Requests.Responded (Fixture.ok_response (JList []))) (JList [])
  /\ WikipediaAPI.search_page (Fixture.answering (Fixture.ok_response (JList [])))
       Fixture.int_of_str Fixture.repr Fixture.validation_message
       Stub.russian_api (u8 "Гепард") tt
     = (Raise (mkExc OtherException (u8 "'list' object has no attribute 'get'")), tt).
Proof.
  split; [split; reflexivity|].
  refine (eq_trans
    (proj1 (search_page_malformed_answer
       (Fixture.answering (Fixture.ok_response (JList [])))
       Fixture.int_of_str Fixture.repr Fixture.validation_message
       Stub.russian_api (u8 "Гепард") tt
       (Requests.Responded (Fixture.ok_response (JList []))) tt (JList [])
       eq_refl (conj eq_refl eq_refl)) _) _).
  - intros d Hd. discriminate Hd.
  - vm_compute. reflexivity.
Defined.

Lemma get_page_summary_page_missing_witness :
  responded (Requests.Responded (Fixture.ok_response (JDict Fixture.no_page)))
            (JDict Fixture.no_page)
  /\ WikipediaAPI.get_page_summary
       (Fixture.answering (Fixture.ok_response (JDict Fixture.no_page)))
       Fixture.int_of_str Fixture.repr Fixture.validation_message
       Stub.russian_api 42 true tt
     = (Raise (mkExc LookupError (u8 "Wikipedia page 42 not found")), tt).
Proof.
  split; [split; reflexivity|].
  refine (eq_trans
    (get_page_summary_page_missing
       (Fixture.answering (Fixture.ok_response (JDict Fixture.no_page)))
       Fixture.int_of_str Fixture.repr Fixture.validation_message
       Stub.russian_api 42 true tt
       (Requests.Responded (Fixture.ok_response (JDict Fixture.no_page))) tt
       Fixture.no_page eq_refl (conj eq_refl eq_refl) _) _).
  - right. eexists. split; [vm_compute; reflexivity|].
    right. eexists. split; [vm_compute; reflexivity|].
    right. eexists. split; [vm_compute; reflexivity|].
    left. vm_compute. reflexivity.
  - vm_compute. reflexivity.
Defined.

Lemma get_page_summary_page_read_witness :
  responded (Requests.Responded (Fixture.ok_response (JDict Fixture.one_page)))
            (JDict Fixture.one_page)
  /\ WikipediaAPI.get_page_summary
       (Fixture.answering (Fixture.ok_response (JDict Fixture.one_page)))
       Fixture.int_of_str Fixture.repr Fixture.validation_message
       Stub.russian_api 42 true tt
     = (Ok {| WikipediaPageSummary.page_id := 777;
              WikipediaPageSummary.title := u8 "Большой Каменный мост";
              WikipediaPageSummary.extract := u8 "Длина моста 487 м.";
              WikipediaPageSummary.description := None |}, tt).
Proof.
  split; [split; reflexivity|].
  eapply (get_page_summary_page_read
            (Fixture.answering (Fixture.ok_response (JDict Fixture.one_page)))
            Fixture.int_of_str Fixture.repr Fixture.validation_message
            Stub.russian_api 42 true tt
            (Requests.Responded (Fixture.ok_response (JDict Fixture.one_page))) tt
            Fixture.one_page);
    try (vm_compute; reflexivity).
  - split; reflexivity.
  - discriminate.
Defined.

Lemma resolvers_offline_witness :
  let client :=
    WikipediaAPI.client Fixture.unreachable
      Fixture.int_of_str Fixture.repr Fixture.validation_message Stub.russian_api in
  (forall url params w0,
     request_failed (fst (Fixture.unreachable url params WikipediaAPI.headers 10 w0)))
  /\ get_bridge_info_big_stone_bridge client tt
     = (Ok {| BridgeInfo.name := u8 "Большой Каменный мост (fallback)";
              BridgeInfo.length_meters := 487;
              BridgeInfo.source := u8 "fallback:Failed to search Wikipedia" |}, tt)
  /\ get_animal_speed Stub.patched_new client (u8 "Гепард") tt
     = (Ok {| AnimalSpeed.name := u8 "Гепард (fallback)";
              AnimalSpeed.speed_m_s := 25;
              AnimalSpeed.source := u8 "fallback:Failed to search Wikipedia";
              AnimalSpeed.speed_km_h := Some 90%float |}, tt).
Proof.
  intros client. split; [intros; exact I|].
  destruct (resolvers_offline Fixture.unreachable
              Fixture.int_of_str Fixture.repr Fixture.validation_message
              Stub.patched_new Stub.russian_api (u8 "Гепард") tt
              (fun _ _ _ => I)) as [[[] Hb] [[] Ha]].
  split.
  - refine (eq_trans Hb _). vm_compute. reflexivity.
  - refine (eq_trans Ha _). vm_compute. reflexivity.
Defined.

(** The tools over [Stub.FailingClient], whose searches raise. *)

Lemma bridge_info_tool_asks_once_witness :
  let tool := bridge_info_tool Fixture.float_repr Fixture.str_repr Stub.FailingClient in
  let text := u8 "Bridge: Большой Каменный мост (fallback), Length: 487.0 meters, Source: fallback:boom" in
  Cache.get [] (u8 "bridge") = None
  /\ exists c', tool [] ([], tt) = (Ok text, (c', tt))
       /\ tool (u8 "again") (c', tt) = (Ok text, (c', tt)).
Proof.
  intros tool text. split; [reflexivity|].
  destruct (bridge_info_tool_asks_once Fixture.float_repr Fixture.str_repr
              Stub.FailingClient [] (u8 "again") [] tt eq_refl)
    as [b [[] [t [Hb [H1 H2]]]]].
  assert (Hfact : b = fallback_bridge Stub.boom).
  { assert (Hc : get_bridge_info_big_stone_bridge Stub.FailingClient tt
                 = (Ok (fallback_bridge Stub.boom), tt)) by (vm_compute; reflexivity).
    rewrite Hc in Hb. injection Hb as <-. reflexivity. }
  subst b.
  assert (Ht : t = text).
  { assert (Hc : fst (tool [] ([], tt)) = Ok text) by (vm_compute; reflexivity).
    pose proof (eq_trans (eq_sym (f_equal fst H1)) Hc) as Ht.
    injection Ht as <-. reflexivity. }
  subst t.
  eexists. split; [exact H1|]. apply H2.
Defined.

Lemma animal_speed_tool_asks_once_witness :
  let tool :=
    animal_speed_tool Stub.patched_new Fixture.float_repr Fixture.str_repr
      Fixture.str_lower Stub.FailingClient in
  let text := u8 "Animal: Гепард (fallback), Speed: 25.0 m/s (90.0 km/h), Source: fallback:boom" in
  Cache.get [] (u8 "animal:" ++ Fixture.str_lower (u8 "Гепард")) = None
  /\ Fixture.str_lower (u8 "ГЕПАРД") = Fixture.str_lower (u8 "Гепард")
  /\ exists c', tool (u8 "Гепард") ([], tt) = (Ok text, (c', tt))
       /\ tool (u8 "ГЕПАРД") (c', tt) = (Ok text, (c', tt)).
Proof.
  intros tool text. split; [reflexivity|]. split; [vm_compute; reflexivity|].
  destruct (animal_speed_tool_asks_once Stub.patched_new Fixture.float_repr
              Fixture.str_repr Fixture.str_lower Stub.FailingClient
              (u8 "Гепард") (u8 "ГЕПАРД") [] tt eq_refl)
    as [a [[] [t [Ha [H1 [_ H2]]]]]]; [vm_compute; reflexivity|].
  assert (Hfact : a = fallback_animal (u8 "Гепард") Stub.boom).
  { assert (Hc : get_animal_speed Stub.patched_new Stub.FailingClient (u8 "Гепард") tt
                 = (Ok (fallback_animal (u8 "Гепард") Stub.boom), tt))
      by (vm_compute; reflexivity).
    rewrite Hc in Ha. injection Ha as <-. reflexivity. }
  subst a.
  assert (Ht : t = text).
  { assert (Hc : fst (tool (u8 "Гепард") ([], tt)) = Ok text) by (vm_compute; reflexivity).
    pose proof (eq_trans (eq_sym (f_equal fst H1)) Hc) as Ht.
    injection Ht as <-. reflexivity. }
  subst t.
  eexists. split; [exact H1|]. apply H2.
Defined.

Lemma animal_speed_tool_records_latest_witness :
  let hare := Stub.mock_animal 20 in
  let cheetah := Stub.mock_animal 25 in
  let c := [ (u8 "animal:заяц", CAnimal hare);
             (u8 "animal", CAnimal cheetah);
             (u8 "animal:гепард", CAnimal cheetah) ] in
  Cache.get c (u8 "animal:" ++ Fixture.str_lower (u8 "Заяц")) = Some (CAnimal hare)
  /\ exists text,
       animal_speed_tool Stub.patched_new Fixture.float_repr Fixture.str_repr
         Fixture.str_lower Stub.FailingClient (u8 "Заяц") (c, tt)
       = (Ok text, ([ (u8 "animal:заяц", CAnimal hare);
                      (u8 "animal", CAnimal hare);
                      (u8 "animal:гепард", CAnimal cheetah) ], tt)).
Proof.
  intros hare cheetah c. split; [vm_compute; reflexivity|].
  destruct (animal_speed_tool_records_latest Stub.patched_new Fixture.float_repr
              Fixture.str_repr Fixture.str_lower Stub.FailingClient
              (u8 "Заяц") c tt hare) as [text [H _]]; [vm_compute; reflexivity|].
  exists text. refine (eq_trans H _). vm_compute. reflexivity.
Defined.

Lemma tools_never_raise_witness :
  cache_ok []
  /\ (exists text c' w',
        bridge_info_tool Fixture.float_repr Fixture.str_repr Stub.FailingClient
          [] ([], tt) = (Ok text, (c', w'))
        /\ exists b, Cache.get c' (u8 "bridge") = Some (CBridge b))
  /\ (exists text c' w',
        animal_speed_tool Stub.patched_new Fixture.float_repr Fixture.str_repr
          Fixture.str_lower Stub.FailingClient (u8 "Гепард") ([], tt)
        = (Ok text, (c', w'))
        /\ exists a, Cache.get c' (u8 "animal") = Some (CAnimal a)).
Proof.
  assert (Hok : cache_ok []) by (intros key v H; discriminate H).
  split; [exact Hok|].
  destruct (tools_never_raise Stub.patched_new Fixture.float_repr Fixture.str_repr
              Fixture.str_lower Stub.FailingClient [] (u8 "Гепард") [] tt Hok)
    as [[t1 [c1 [w1 [H1 [_ [Hb _]]]]]] [t2 [c2 [w2 [H2 [_ [[a [Ha _]] _]]]]]]].
  split.
  - exists t1, c1, w1. split; [exact H1|exact Hb].
  - exists t2, c2, w2. split; [exact H2|]. exists a. exact Ha.
Defined.

(** The self-check and the client of the language model. *)

Lemma self_check_passed_means_positive_finite_witness :
  let result :=
    {| ReasoningResult.bridge := Stub.mock_bridge 200;
       ReasoningResult.animal := Stub.mock_animal 25;
       ReasoningResult.time_seconds := 8;
       ReasoningResult.time_human_readable := u8 "8.0 секунд";
       ReasoningResult.steps := [] |} in
  (exists steps,
     self_check_result (World := unit) (fun _ => []) result None tt
     = (Ok (true, steps), tt))
  /\ positive_finite 8 /\ positive_finite 200 /\ positive_finite 25.
Proof.
  intros result.
  assert (H : exists steps,
            self_check_result (World := unit) (fun _ => []) result None tt
            = (Ok (true, steps), tt)) by (eexists; vm_compute; reflexivity).
  split; [exact H|]. destruct H as [steps H].
  exact (self_check_passed_means_positive_finite (fun _ => []) result None tt steps tt H).
Defined.

Lemma openrouter_client_needs_key_witness :
  let load_dotenv : M (World := unit) unit := ret tt in
  load_dotenv tt = (Ok tt, tt)
  /\ OpenRouterLLMClient.init load_dotenv (Fixture.environment None)
       None (u8 "openai/gpt-oss-120b") 0 0.0001 None None None tt
     = (Raise (mkExc ValueError (u8 "OPENROUTER_API_KEY is not set")), tt)
  /\ OpenRouterLLMClient.init load_dotenv (Fixture.environment (Some (u8 "sk-or-1")))
       (Some []) (u8 "openai/gpt-oss-120b") 0 0.0001 None None None tt
     = (Ok {| OpenRouterLLMClient.api_key := u8 "sk-or-1";
              OpenRouterLLMClient.model := u8 "openai/gpt-oss-120b";
              OpenRouterLLMClient.temperature := 0;
              OpenRouterLLMClient.top_p := 0.0001;
              OpenRouterLLMClient.max_tokens := None;
              OpenRouterLLMClient.referer := None;
              OpenRouterLLMClient.app_title := None |}, tt).
Proof.
  intros load_dotenv. split; [reflexivity|]. split.
  - exact (proj1 (proj2 (openrouter_client_needs_key load_dotenv
             (Fixture.environment None) None (u8 "openai/gpt-oss-120b")
             0 0.0001 None None None tt tt eq_refl))
           (or_introl eq_refl) None tt eq_refl).
  - exact (proj1 (proj2 (openrouter_client_needs_key load_dotenv
             (Fixture.environment (Some (u8 "sk-or-1"))) (Some [])
             (u8 "openai/gpt-oss-120b") 0 0.0001 None None None tt tt eq_refl))
           (or_intror eq_refl) (Some (u8 "sk-or-1")) tt eq_refl).
Defined.
